(** * A shallow embedding of the iris request pipeline

    The development follows the Go packages it models:

    - [Writers]: package [context], files response_writer.go and
      gzip_response_writer.go (the base writer and the gzip writer), with the
      recording writer taken from the specification;
    - [Ctx]: package [context], file context.go (the handler chain cursor and
      the request life cycle);
    - [Route]: package [router], file route.go, and [RouteSlices]: the
      handler slices of a route with the arrays behind them;
    - [Status]: package [router], file status.go;
    - [Trie]: package [router], file trie.go.

    Go's [int] is modelled by [Z], a [string] by a Rocq [string] (a sequence
    of bytes), a [map[string]T] by [gmap string T], a pointer by an index
    into an arena, and [nil] by [None]. *)

From Stdlib Require Import ZArith Lia String Ascii.
From stdpp Require Import base option list strings gmap.

Local Open Scope string_scope.
Local Open Scope list_scope.

(** * Response writers *)

Module Writers.

(** [http.Header] is a [map[string][]string]. *)
Abbreviation Header := (gmap string (list string)).

(** [Header.Add(key, value)] appends [value] to the values of [key]. *)
Definition Header_Add (key value : string) (h : Header) : Header :=
  <[key := default [] (h !! key) ++ [value]]> h.

(** [Header.Set(key, value)] replaces the values of [key]. *)
Definition Header_Set (key value : string) (h : Header) : Header :=
  <[key := [value]]> h.

(** [Header.Del(key)]. *)
Definition Header_Del (key : string) (h : Header) : Header := delete key h.

(** [h[key] == nil]: the key has no values. *)
Definition Header_absent (key : string) (h : Header) : Prop :=
  h !! key = None \/ h !! key = Some [].

(** [value] is one of the values of [key]. *)
Definition Header_has (key value : string) (h : Header) : Prop :=
  exists vs, h !! key = Some vs /\ value ∈ vs.

Definition ContentTypeHeaderKey := "Content-Type".
Definition ContentLengthHeaderKey := "Content-Length".
Definition ContentEncodingHeaderKey := "Content-Encoding".
Definition VaryHeaderKey := "Vary".
Definition AcceptEncodingHeaderKey := "Accept-Encoding".
Definition GzipHeaderValue := "gzip".
Definition ContentTextHeaderValue := "text/plain".

(** A before-flush callback is named by an identifier; what it does is
    given by the environment ([runCallback] below). *)
Definition Callback := nat.

(** The pools a writer can be returned to. *)
Inductive pool := rpool | gzpool | recorderPool.

(** What the framework does to the world outside it: the calls it makes on
    the native [http.ResponseWriter], and the writers it puts back into
    their pools.  [NativeWriteHeader] carries the header map as it stands
    when the status line is sent. *)
Inductive call :=
| NativeWriteHeader (code : Z) (hdr : Header)
| NativeWrite (contents : string)
| PoolPut (p : pool).

Definition isNativeWriteHeader (c : call) : bool :=
  match c with NativeWriteHeader _ _ => true | _ => false end.

Definition defaultStatusCode : Z := 200.
Definition NoWritten : Z := -1.
Definition StatusCodeWritten : Z := 0.

(** [type responseWriter struct]: the base writer.  [header] is the header
    map of the embedded native writer, and [wire] is the list of calls made
    so far on the outside world, oldest first. *)
Record responseWriter := mkResponseWriter {
  header : Header;
  statusCode : Z;
  written : Z;
  beforeFlush : option Callback;
  wire : list call
}.

(** The environment of the writers: the byte count the native writer
    reports for a [Write] (given the calls made so far), the buffers a gzip
    compressor hands to the writer below it for a given input (written,
    flushed and closed), and the effect of a before-flush callback. *)
Class NativeIO := {
  nativeWrite : list call -> string -> Z;
  gzipWrites : string -> list string;
  runCallback : Callback -> responseWriter -> responseWriter
}.

Module responseWriter_.
Section Base.
Context `{NativeIO}.

Definition BeginResponse (h : Header) (log : list call) : responseWriter :=
  {| header := h; statusCode := defaultStatusCode; written := NoWritten;
     beforeFlush := None; wire := log |}.

Definition EndResponse (w : responseWriter) : responseWriter :=
  {| header := header w; statusCode := statusCode w; written := written w;
     beforeFlush := beforeFlush w; wire := wire w ++ [PoolPut rpool] |}.

Definition SetWritten (n : Z) (w : responseWriter) : responseWriter :=
  if bool_decide (NoWritten <= n /\ n <= StatusCodeWritten)%Z
  then {| header := header w; statusCode := statusCode w; written := n;
          beforeFlush := beforeFlush w; wire := wire w |}
  else w.

Definition Written (w : responseWriter) : Z := written w.

Definition WriteHeader (code : Z) (w : responseWriter) : responseWriter :=
  {| header := header w; statusCode := code; written := written w;
     beforeFlush := beforeFlush w; wire := wire w |}.

Definition tryWriteHeader (w : responseWriter) : responseWriter :=
  if bool_decide (written w = NoWritten)
  then {| header := header w; statusCode := statusCode w;
          written := StatusCodeWritten; beforeFlush := beforeFlush w;
          wire := wire w ++ [NativeWriteHeader (statusCode w) (header w)] |}
  else w.

(** [Write]: the status first, then the native write, whose reported
    count is added to [written]. *)
Definition Write (contents : string) (w : responseWriter)
  : responseWriter * Z :=
  let w1 := tryWriteHeader w in
  let n := nativeWrite (wire w1) contents in
  ({| header := header w1; statusCode := statusCode w1;
      written := (written w1 + n)%Z; beforeFlush := beforeFlush w1;
      wire := wire w1 ++ [NativeWrite contents] |}, n).

(** [Writef] is [fmt.Fprintf(w, ...)]: one [Write] of the formatted
    text. *)
Definition Writef (formatted : string) (w : responseWriter)
  : responseWriter * Z := Write formatted w.

(** [WriteString] has the body of [Write], through [io.WriteString]. *)
Definition WriteString (s : string) (w : responseWriter)
  : responseWriter * Z :=
  let w1 := tryWriteHeader w in
  let n := nativeWrite (wire w1) s in
  ({| header := header w1; statusCode := statusCode w1;
      written := (written w1 + n)%Z; beforeFlush := beforeFlush w1;
      wire := wire w1 ++ [NativeWrite s] |}, n).

Definition StatusCode (w : responseWriter) : Z := statusCode w.

Definition GetBeforeFlush (w : responseWriter) : option Callback :=
  beforeFlush w.

Definition SetBeforeFlush (cb : option Callback) (w : responseWriter)
  : responseWriter :=
  {| header := header w; statusCode := statusCode w; written := written w;
     beforeFlush := cb; wire := wire w |}.

Definition FlushResponse (w : responseWriter) : responseWriter :=
  let w1 := match beforeFlush w with
            | Some cb => runCallback cb w
            | None => w
            end in
  tryWriteHeader w1.

(** [Hijack], when the native writer supports it. *)
Definition Hijack (w : responseWriter) : responseWriter :=
  {| header := header w; statusCode := statusCode w;
     written := StatusCodeWritten; beforeFlush := beforeFlush w;
     wire := wire w |}.

Definition set_header (f : Header -> Header) (w : responseWriter)
  : responseWriter :=
  {| header := f (header w); statusCode := statusCode w;
     written := written w; beforeFlush := beforeFlush w; wire := wire w |}.
End Base.
End responseWriter_.


(** The calls a request makes on its base writer while it is served:
    [WriteHeader] (which only records the code), the body writes, the
    explicit flush, and the registration of the before-flush callback. *)
Inductive op :=
| OpWriteHeader (code : Z)
| OpWrite (contents : string)
| OpWritef (formatted : string)
| OpWriteString (s : string)
| OpFlushResponse
| OpSetBeforeFlush (cb : option Callback).

(** The calls that transmit the status when it has not been sent yet. *)
Definition transmits (o : op) : bool :=
  match o with
  | OpWrite _ | OpWritef _ | OpWriteString _ | OpFlushResponse => true
  | OpWriteHeader _ | OpSetBeforeFlush _ => false
  end.

Section Served.
Context `{NativeIO}.

Definition step (w : responseWriter) (o : op) : responseWriter :=
  match o with
  | OpWriteHeader code => responseWriter_.WriteHeader code w
  | OpWrite contents => fst (responseWriter_.Write contents w)
  | OpWritef formatted => fst (responseWriter_.Writef formatted w)
  | OpWriteString s => fst (responseWriter_.WriteString s w)
  | OpFlushResponse => responseWriter_.FlushResponse w
  | OpSetBeforeFlush cb => responseWriter_.SetBeforeFlush cb w
  end.

(** The writer after a sequence of calls. *)
Definition serve (w : responseWriter) (ops : list op) : responseWriter :=
  foldl step w ops.

(** The status lines sent so far: the codes of the native [WriteHeader]
    calls, oldest first. *)
Definition sent (w : responseWriter) : list Z :=
  omap (fun c => match c with
                 | NativeWriteHeader code _ => Some code
                 | _ => None
                 end) (wire w).
End Served.

(** Modelled from the spec: the recording writer ([ResponseRecorder], whose
    file is not part of the sources).  It "buffers headers, status, and
    body until an explicit flush, enabling transactional overwrite/reset";
    the status is kept as the deferred status of the base writer it wraps
    (whose [WriteHeader] only records), and [FlushResponse] "replays to the
    inner writer": the buffered headers, the status, then the body. *)
Record ResponseRecorder := mkRecorder {
  rec_under : responseWriter;
  rec_chunks : string;
  rec_headers : Header
}.

(** The writers a context holds before compression is switched on:
    [Record] wraps a [*responseWriter] only, and [GzipResponseWriter]
    wraps whatever the context's writer is at that time. *)
Inductive underline :=
| UBase (w : responseWriter)
| URecorder (r : ResponseRecorder).

(** [type GzipResponseWriter struct { ResponseWriter; chunks; disabled }]. *)
Record GzipResponseWriter := mkGzip {
  gz_under : underline;
  chunks : string;
  disabled : bool
}.

(** The implementations of the [ResponseWriter] interface. *)
Inductive ResponseWriter :=
| WBase (w : responseWriter)
| WRecorder (r : ResponseRecorder)
| WGzip (g : GzipResponseWriter).

Definition of_underline (u : underline) : ResponseWriter :=
  match u with UBase w => WBase w | URecorder r => WRecorder r end.

Module ResponseRecorder_.
Section Recorder.
Context `{NativeIO}.

Definition BeginRecord (w : responseWriter) : ResponseRecorder :=
  {| rec_under := w; rec_chunks := ""; rec_headers := header w |}.

Definition Write (contents : string) (r : ResponseRecorder)
  : ResponseRecorder * Z :=
  ({| rec_under := rec_under r; rec_chunks := rec_chunks r +:+ contents;
      rec_headers := rec_headers r |}, Z.of_nat (String.length contents)).

Definition WriteHeader (code : Z) (r : ResponseRecorder) : ResponseRecorder :=
  {| rec_under := responseWriter_.WriteHeader code (rec_under r);
     rec_chunks := rec_chunks r; rec_headers := rec_headers r |}.

Definition StatusCode (r : ResponseRecorder) : Z :=
  responseWriter_.StatusCode (rec_under r).

Definition Written (r : ResponseRecorder) : Z :=
  responseWriter_.Written (rec_under r).

Definition ClearHeaders (r : ResponseRecorder) : ResponseRecorder :=
  {| rec_under := rec_under r; rec_chunks := rec_chunks r;
     rec_headers := ∅ |}.

Definition ResetBody (r : ResponseRecorder) : ResponseRecorder :=
  {| rec_under := rec_under r; rec_chunks := ""; rec_headers := rec_headers r |}.

Definition set_header (f : Header -> Header) (r : ResponseRecorder)
  : ResponseRecorder :=
  {| rec_under := rec_under r; rec_chunks := rec_chunks r;
     rec_headers := f (rec_headers r) |}.

Definition FlushResponse (r : ResponseRecorder) : ResponseRecorder :=
  let w1 := responseWriter_.set_header (fun h => rec_headers r ∪ h)
              (rec_under r) in
  let w2 := responseWriter_.FlushResponse w1 in
  let w3 := if bool_decide (rec_chunks r = "") then w2
            else fst (responseWriter_.Write (rec_chunks r) w2) in
  {| rec_under := w3; rec_chunks := rec_chunks r;
     rec_headers := rec_headers r |}.

Definition EndResponse (r : ResponseRecorder) : ResponseRecorder :=
  let w := rec_under r in
  let w1 := {| header := header w; statusCode := statusCode w;
               written := written w; beforeFlush := beforeFlush w;
               wire := wire w ++ [PoolPut recorderPool] |} in
  {| rec_under := responseWriter_.EndResponse w1;
     rec_chunks := rec_chunks r; rec_headers := rec_headers r |}.
End Recorder.
End ResponseRecorder_.

(** The interface methods of the writer a gzip writer embeds. *)
Module underline_.
Section Under.
Context `{NativeIO}.

Definition Write (contents : string) (u : underline) : underline * Z :=
  match u with
  | UBase w => let (w', n) := responseWriter_.Write contents w in (UBase w', n)
  | URecorder r =>
      let (r', n) := ResponseRecorder_.Write contents r in (URecorder r', n)
  end.

Definition WriteHeader (code : Z) (u : underline) : underline :=
  match u with
  | UBase w => UBase (responseWriter_.WriteHeader code w)
  | URecorder r => URecorder (ResponseRecorder_.WriteHeader code r)
  end.

Definition StatusCode (u : underline) : Z :=
  match u with
  | UBase w => responseWriter_.StatusCode w
  | URecorder r => ResponseRecorder_.StatusCode r
  end.

Definition Written (u : underline) : Z :=
  match u with
  | UBase w => responseWriter_.Written w
  | URecorder r => ResponseRecorder_.Written r
  end.

(** [Header()]: the map the caller reads and updates. *)
Definition Header_ (u : underline) : Header :=
  match u with
  | UBase w => header w
  | URecorder r => rec_headers r
  end.

Definition set_header (f : Header -> Header) (u : underline) : underline :=
  match u with
  | UBase w => UBase (responseWriter_.set_header f w)
  | URecorder r => URecorder (ResponseRecorder_.set_header f r)
  end.

Definition FlushResponse (u : underline) : underline :=
  match u with
  | UBase w => UBase (responseWriter_.FlushResponse w)
  | URecorder r => URecorder (ResponseRecorder_.FlushResponse r)
  end.

Definition EndResponse (u : underline) : underline :=
  match u with
  | UBase w => UBase (responseWriter_.EndResponse w)
  | URecorder r => URecorder (ResponseRecorder_.EndResponse r)
  end.

(** The base writer at the bottom of the stack. *)
Definition base (u : underline) : responseWriter :=
  match u with
  | UBase w => w
  | URecorder r => rec_under r
  end.

Definition log (c : call) (u : underline) : underline :=
  let put w := {| header := header w; statusCode := statusCode w;
                  written := written w; beforeFlush := beforeFlush w;
                  wire := wire w ++ [c] |} in
  match u with
  | UBase w => UBase (put w)
  | URecorder r =>
      URecorder {| rec_under := put (rec_under r);
                   rec_chunks := rec_chunks r;
                   rec_headers := rec_headers r |}
  end.
End Under.
End underline_.


(** [AddGzipHeaders]: "Vary: Accept-Encoding" and "Content-Encoding: gzip"
    are added to the writer's header map. *)
Definition AddGzipHeaders_map (h : Header) : Header :=
  Header_Add ContentEncodingHeaderKey GzipHeaderValue
    (Header_Add VaryHeaderKey AcceptEncodingHeaderKey h).

Module GzipResponseWriter_.
Section Gzip.
Context `{NativeIO}.

Definition BeginGzipResponse (u : underline) : GzipResponseWriter :=
  {| gz_under := u; chunks := ""; disabled := false |}.

Definition EndResponse (g : GzipResponseWriter) : GzipResponseWriter :=
  {| gz_under := underline_.EndResponse
                   (underline_.log (PoolPut gzpool) (gz_under g));
     chunks := chunks g; disabled := disabled g |}.

Definition Write (contents : string) (g : GzipResponseWriter)
  : GzipResponseWriter * Z :=
  ({| gz_under := gz_under g; chunks := chunks g +:+ contents;
      disabled := disabled g |}, Z.of_nat (String.length contents)).

Definition WriteString (s : string) (g : GzipResponseWriter)
  : GzipResponseWriter * Z :=
  let (g1, n) := Write s g in
  let u := gz_under g1 in
  let u1 :=
    if bool_decide (Header_absent ContentTypeHeaderKey (underline_.Header_ u))
    then underline_.set_header
           (Header_Set ContentTypeHeaderKey ContentTextHeaderValue) u
    else u in
  ({| gz_under := u1; chunks := chunks g1; disabled := disabled g1 |}, n).

Definition AddGzipHeaders (u : underline) : underline :=
  underline_.set_header AddGzipHeaders_map u.

(** [writeGzip(w, b)]: the compressor writes its buffers to [w]; the
    count returned is that of the uncompressed input. *)
Definition writeGzip (u : underline) (b : string) : underline * Z :=
  (foldl (fun u' buf => fst (underline_.Write buf u')) u (gzipWrites b),
   Z.of_nat (String.length b)).

Definition WriteNow (contents : string) (g : GzipResponseWriter)
  : GzipResponseWriter * Z :=
  if disabled g then
    let (u1, n) := underline_.Write contents (gz_under g) in
    ({| gz_under := u1; chunks := chunks g; disabled := disabled g |}, n)
  else
    let u1 := AddGzipHeaders (gz_under g) in
    let (u2, n) := writeGzip u1 contents in
    ({| gz_under := u2; chunks := chunks g; disabled := disabled g |}, n).

Definition FlushResponse (g : GzipResponseWriter) : GzipResponseWriter :=
  let g1 := fst (WriteNow (chunks g) g) in
  {| gz_under := underline_.FlushResponse (gz_under g1);
     chunks := chunks g1; disabled := disabled g1 |}.

Definition ResetBody (g : GzipResponseWriter) : GzipResponseWriter :=
  {| gz_under := gz_under g; chunks := ""; disabled := disabled g |}.

Definition Disable (g : GzipResponseWriter) : GzipResponseWriter :=
  {| gz_under := gz_under g; chunks := chunks g; disabled := true |}.
End Gzip.
End GzipResponseWriter_.

(** The [ResponseWriter] interface: each method dispatches on the
    implementation; a gzip writer inherits the methods it does not define
    from the writer it embeds. *)
Module ResponseWriter_.
Section Interface.
Context `{NativeIO}.

Definition WriteHeader (code : Z) (w : ResponseWriter) : ResponseWriter :=
  match w with
  | WBase b => WBase (responseWriter_.WriteHeader code b)
  | WRecorder r => WRecorder (ResponseRecorder_.WriteHeader code r)
  | WGzip g =>
      WGzip {| gz_under := underline_.WriteHeader code (gz_under g);
               chunks := chunks g; disabled := disabled g |}
  end.

Definition StatusCode (w : ResponseWriter) : Z :=
  match w with
  | WBase b => responseWriter_.StatusCode b
  | WRecorder r => ResponseRecorder_.StatusCode r
  | WGzip g => underline_.StatusCode (gz_under g)
  end.

Definition Written (w : ResponseWriter) : Z :=
  match w with
  | WBase b => responseWriter_.Written b
  | WRecorder r => ResponseRecorder_.Written r
  | WGzip g => underline_.Written (gz_under g)
  end.

Definition Header_ (w : ResponseWriter) : Header :=
  match w with
  | WBase b => header b
  | WRecorder r => rec_headers r
  | WGzip g => underline_.Header_ (gz_under g)
  end.

Definition Write (contents : string) (w : ResponseWriter)
  : ResponseWriter * Z :=
  match w with
  | WBase b => let (b', n) := responseWriter_.Write contents b in (WBase b', n)
  | WRecorder r =>
      let (r', n) := ResponseRecorder_.Write contents r in (WRecorder r', n)
  | WGzip g =>
      let (g', n) := GzipResponseWriter_.Write contents g in (WGzip g', n)
  end.

Definition FlushResponse (w : ResponseWriter) : ResponseWriter :=
  match w with
  | WBase b => WBase (responseWriter_.FlushResponse b)
  | WRecorder r => WRecorder (ResponseRecorder_.FlushResponse r)
  | WGzip g => WGzip (GzipResponseWriter_.FlushResponse g)
  end.

Definition EndResponse (w : ResponseWriter) : ResponseWriter :=
  match w with
  | WBase b => WBase (responseWriter_.EndResponse b)
  | WRecorder r => WRecorder (ResponseRecorder_.EndResponse r)
  | WGzip g => WGzip (GzipResponseWriter_.EndResponse g)
  end.

(** The base writer at the bottom of the stack. *)
Definition base (w : ResponseWriter) : responseWriter :=
  match w with
  | WBase b => b
  | WRecorder r => rec_under r
  | WGzip g => underline_.base (gz_under g)
  end.
End Interface.
End ResponseWriter_.

End Writers.

(** * The request context *)

Module Ctx.
Import Writers.

(** A handler is a function over the context.  The context stores its
    handlers, so a handler is named here by an identifier and what it does
    is given by the application ([handle] below). *)
Definition Handler := nat.
Abbreviation Handlers := (list Handler).

(** Modelled from the spec: the parameter store ([RequestParams], whose
    package is not part of the sources), "ordered key/value pairs, keys
    unique per request": [Set] replaces the value of a key that is present
    and appends the pair otherwise. *)
Abbreviation RequestParams := (list (string * string)).

Fixpoint params_Set (key value : string) (ps : RequestParams) : RequestParams :=
  match ps with
  | [] => [(key, value)]
  | (k, v) :: ps' =>
      if String.eqb k key then (k, value) :: ps'
      else (k, v) :: params_Set key value ps'
  end.

Fixpoint params_Get (key : string) (ps : RequestParams) : option string :=
  match ps with
  | [] => None
  | (k, v) :: ps' => if String.eqb k key then Some v else params_Get key ps'
  end.

(** [type context struct]: the fields the handler chain and the request
    life cycle use. *)
Record context := mkContext {
  writer : ResponseWriter;
  currentRouteName : string;
  params : RequestParams;
  values : list (string * string);
  handlers : Handlers;
  currentHandlerIndex : Z
}.

(** The application a context belongs to: what running a handler does, its
    [FireErrorCode], and the [DisableAutoFireStatusCode] setting. *)
Class Application := {
  handle : Handler -> context -> context;
  FireErrorCode : context -> context;
  GetDisableAutoFireStatusCode : bool
}.

Definition set_writer (w : ResponseWriter) (ctx : context) : context :=
  {| writer := w; currentRouteName := currentRouteName ctx;
     params := params ctx; values := values ctx; handlers := handlers ctx;
     currentHandlerIndex := currentHandlerIndex ctx |}.

Definition set_index (n : Z) (ctx : context) : context :=
  {| writer := writer ctx; currentRouteName := currentRouteName ctx;
     params := params ctx; values := values ctx; handlers := handlers ctx;
     currentHandlerIndex := n |}.

(** [len(ctx.handlers)]. *)
Definition len (hs : Handlers) : Z := Z.of_nat (length hs).

(** [handlers[i]] for an index within the chain. *)
Definition at_index (hs : Handlers) (i : Z) : option Handler :=
  if bool_decide (0 <= i)%Z then hs !! Z.to_nat i else None.

Definition stopExecutionIndex : Z := -1.

Definition StatusNotFound : Z := 404.

Section Context_.
Context `{NativeIO} `{Application}.

Definition BeginRequest (h : Header) (log : list call) (ctx : context)
  : context :=
  {| writer := WBase (responseWriter_.BeginResponse h log);
     currentRouteName := currentRouteName ctx;
     params := []; values := []; handlers := [];
     currentHandlerIndex := 0 |}.

Definition StatusCodeNotSuccessful (statusCode : Z) : bool :=
  bool_decide (statusCode < 200 \/ statusCode >= 400)%Z.

Definition GetStatusCode (ctx : context) : Z :=
  ResponseWriter_.StatusCode (writer ctx).

Definition StatusCode (statusCode : Z) (ctx : context) : context :=
  set_writer (ResponseWriter_.WriteHeader statusCode (writer ctx)) ctx.

Definition NotFound (ctx : context) : context := StatusCode StatusNotFound ctx.

Definition EndRequest (ctx : context) : context :=
  let ctx1 :=
    if StatusCodeNotSuccessful (GetStatusCode ctx)
       && negb GetDisableAutoFireStatusCode
    then
      if bool_decide (ResponseWriter_.Written (writer ctx) <= 0)%Z
      then FireErrorCode ctx
      else ctx
    else ctx in
  let ctx2 := set_writer (ResponseWriter_.FlushResponse (writer ctx1)) ctx1 in
  set_writer (ResponseWriter_.EndResponse (writer ctx2)) ctx2.

Definition ResetResponseWriter (w : ResponseWriter) (ctx : context) : context :=
  set_writer w ctx.

Definition SetHandlers (hs : Handlers) (ctx : context) : context :=
  {| writer := writer ctx; currentRouteName := currentRouteName ctx;
     params := params ctx; values := values ctx; handlers := hs;
     currentHandlerIndex := currentHandlerIndex ctx |}.

(** [Do(ctx, handlers)]: nothing at all for an empty list. *)
Definition Do (hs : Handlers) (ctx : context) : context :=
  match hs with
  | h0 :: _ => handle h0 (SetHandlers hs ctx)
  | [] => ctx
  end.

(** [HandlerIndex(n)]: the context after the call and the value returned. *)
Definition HandlerIndex (n : Z) (ctx : context) : context * Z :=
  if bool_decide (n < 0 \/ n > len (handlers ctx) - 1)%Z
  then (ctx, currentHandlerIndex ctx)
  else (set_index n ctx, n).

Definition StopExecution (ctx : context) : context :=
  set_index stopExecutionIndex ctx.

Definition IsStopped (ctx : context) : bool :=
  bool_decide (currentHandlerIndex ctx = stopExecutionIndex).

(** [Proceed(h)]. *)
Definition Proceed (h : Handler) (ctx : context) : context * bool :=
  let beforeIdx := currentHandlerIndex ctx in
  let ctx1 := handle h ctx in
  (ctx1, bool_decide (currentHandlerIndex ctx1 > beforeIdx)%Z
         && negb (IsStopped ctx1)).

(** [DefaultNext], which [Next] calls. *)
Definition Next (ctx : context) : context :=
  if IsStopped ctx then ctx
  else
    let n := (snd (HandlerIndex (-1) ctx) + 1)%Z in
    if bool_decide (n < len (handlers ctx))%Z then
      match at_index (handlers ctx) n with
      | Some h => handle h (fst (HandlerIndex n ctx))
      | None => ctx
      end
    else ctx.

(** [NextHandler]: the next handler of the chain, [None] for [nil].  (The
    cursor is never below -1, so the index is never negative.) *)
Definition NextHandler (ctx : context) : option Handler :=
  if IsStopped ctx then None
  else
    let nextIndex := (currentHandlerIndex ctx + 1)%Z in
    if bool_decide (nextIndex < len (handlers ctx))%Z
    then at_index (handlers ctx) nextIndex
    else None.

Definition Skip (ctx : context) : context :=
  fst (HandlerIndex (currentHandlerIndex ctx + 1) ctx).

(** [NextOr(handlers...)]: the context after the call and the value
    returned. *)
Definition NextOr (alt : Handlers) (ctx : context) : context * bool :=
  match NextHandler ctx with
  | Some next => (Skip (handle next ctx), true)
  | None =>
      if bool_decide (length alt = 0%nat)
      then (StopExecution (NotFound ctx), false)
      else (Do alt ctx, false)
  end.

(** [AddHandler(handlers...)]: the handlers are appended to the chain. *)
Definition AddHandler (hs : Handlers) (ctx : context) : context :=
  {| writer := writer ctx; currentRouteName := currentRouteName ctx;
     params := params ctx; values := values ctx;
     handlers := handlers ctx ++ hs;
     currentHandlerIndex := currentHandlerIndex ctx |}.

End Context_.

Section Names.
(** The package function [HandlerName(h)], which reads the name of a
    function off the runtime. *)
Variable nameOf : Handler -> string.

(** [ctx.HandlerName()]: [None] stands for the panic of indexing the chain
    out of its range. *)
Definition HandlerName (ctx : context) : option string :=
  nameOf <$> at_index (handlers ctx) (currentHandlerIndex ctx).
End Names.

End Ctx.

(** * The functions of Go's [strings] package the router uses *)

Module Strings.

(** [strings.Split(s, sep)] for a separator of one byte. *)
Fixpoint Split (s : string) (sep : ascii) : list string :=
  match s with
  | EmptyString => [""]
  | String c s' =>
      if Ascii.eqb c sep then "" :: Split s' sep
      else match Split s' sep with
           | h :: t => String c h :: t
           | [] => [String c ""]
           end
  end.

(** [strings.Join(elems, sep)]. *)
Fixpoint Join (elems : list string) (sep : string) : string :=
  match elems with
  | [] => ""
  | [e] => e
  | e :: es => e +:+ sep +:+ Join es sep
  end.

(** [strings.Index(s, substr)] for a [substr] of one byte: the index of its
    first occurrence, or -1. *)
Fixpoint Index (s : string) (c : ascii) : Z :=
  match s with
  | EmptyString => -1
  | String c' s' =>
      if Ascii.eqb c' c then 0
      else let i := Index s' c in if bool_decide (i = -1)%Z then -1 else (i + 1)%Z
  end.

(** [strings.Contains(s, substr)] for a [substr] of one byte. *)
Definition Contains (s : string) (c : ascii) : bool :=
  negb (bool_decide (Index s c = -1)%Z).

(** [s[n:]]. *)
Fixpoint drop (n : nat) (s : string) : string :=
  match n, s with
  | O, _ => s
  | S n', String _ s' => drop n' s'
  | S _, EmptyString => EmptyString
  end.

(** [s[:n]]. *)
Fixpoint take (n : nat) (s : string) : string :=
  match n, s with
  | O, _ => EmptyString
  | S n', String c s' => String c (take n' s')
  | S _, EmptyString => EmptyString
  end.

(** [strings.Replace(s, old, new, 1)] for a non-empty [old]: the first
    occurrence of [old] is replaced. *)
Fixpoint Replace1 (s old new : string) : string :=
  if String.prefix old s then new +:+ drop (String.length old) s
  else match s with
       | EmptyString => EmptyString
       | String c s' => String c (Replace1 s' old new)
       end.

(** [s[len(s)-1]], when [s] is not empty. *)
Fixpoint last_byte (s : string) : option ascii :=
  match s with
  | EmptyString => None
  | String c EmptyString => Some c
  | String _ s' => last_byte s'
  end.

(** [s[0]], when [s] is not empty. *)
Definition first_byte (s : string) : option ascii :=
  match s with
  | EmptyString => None
  | String c _ => Some c
  end.

End Strings.

(** * Routes *)

Module Route.
Import Ctx.

(** The characters that start a named parameter and a wildcard parameter
    (trie.go). *)
Definition ParamStart : ascii := ":"%char.
Definition WildcardParamStart : ascii := "*"%char.

(** [type Route struct], without the parsed template. *)
Record Route := mkRoute {
  Name : string;
  Method : string;
  methodBckp : string;
  Subdomain : string;
  beginHandlers : Handlers;
  Handlers_ : Handlers;
  MainHandlerName : string;
  doneHandlers : Handlers;
  Path : string;
  FormattedPath : string
}.

(** [BuildHandlers]: [append(begin, main...)], then [append(main, done...)];
    each temporary list is cut to length 0 once it has been spliced in. *)
Definition BuildHandlers (r : Route) : Route :=
  let r1 :=
    if bool_decide (0 < length (beginHandlers r))
    then {| Name := Name r; Method := Method r; methodBckp := methodBckp r;
            Subdomain := Subdomain r; beginHandlers := [];
            Handlers_ := beginHandlers r ++ Handlers_ r;
            MainHandlerName := MainHandlerName r;
            doneHandlers := doneHandlers r; Path := Path r;
            FormattedPath := FormattedPath r |}
    else r in
  if bool_decide (0 < length (doneHandlers r1))
  then {| Name := Name r1; Method := Method r1; methodBckp := methodBckp r1;
          Subdomain := Subdomain r1; beginHandlers := beginHandlers r1;
          Handlers_ := Handlers_ r1 ++ doneHandlers r1;
          MainHandlerName := MainHandlerName r1;
          doneHandlers := []; Path := Path r1;
          FormattedPath := FormattedPath r1 |}
  else r1.

(** The loop of [formatPath]: empty parts are skipped, a part that starts
    with [:] or [*] becomes [%v]. *)
Fixpoint formattedParts (parts : list string) : list string :=
  match parts with
  | [] => []
  | part :: rest =>
      match part with
      | EmptyString => formattedParts rest
      | String c _ =>
          (if Ascii.eqb c ParamStart || Ascii.eqb c WildcardParamStart
           then "%v" else part) :: formattedParts rest
      end
  end.

Definition formatPath (path : string) : string :=
  if Strings.Contains path ParamStart || Strings.Contains path WildcardParamStart
  then "/" +:+ Strings.Join (formattedParts (Strings.Split path "/"%char)) "/"
  else path.

(** The loop of [ResolvePath]: each argument replaces the first [%v] left. *)
Definition replaceArgs (formattedPath : string) (args : list string) : string :=
  foldl (fun fp s => Strings.Replace1 fp "%v" s) formattedPath args.

Section Resolve.
(** [fmt.Sprintf(format, a)] with one string operand (Go's library). *)
Variable Sprintf : string -> string -> string.

(** [ResolvePath(args...)]; [None] stands for the panic of indexing an
    empty [Path]. *)
Definition ResolvePath (r : Route) (args : list string) : option string :=
  let rpath := Path r in
  let formattedPath := FormattedPath r in
  if String.eqb rpath formattedPath then Some rpath
  else
    match Strings.last_byte rpath with
    | None => None
    | Some c =>
        if Ascii.eqb c WildcardParamStart
        then Some (Sprintf formattedPath (Strings.Join args "/"))
        else Some (replaceArgs formattedPath args)
    end.
End Resolve.

(** The route [NewRoute] builds for a path as the trie takes it. *)
Definition routeOfPath (method path : string) (hs : Handlers) : Route :=
  {| Name := method +:+ path; Method := method; methodBckp := method;
     Subdomain := ""; beginHandlers := []; Handlers_ := hs;
     MainHandlerName := ""; doneHandlers := []; Path := path;
     FormattedPath := formatPath path |}.

Section Online.
(** [MethodNone], the method of a route that is offline. *)
Variable MethodNone : string.

(** [ChangeMethod(newMethod)]: the route after the call and the value
    returned. *)
Definition ChangeMethod (newMethod : string) (r : Route) : Route * bool :=
  if negb (String.eqb newMethod (Method r))
  then ({| Name := Name r; Method := newMethod; methodBckp := Method r;
           Subdomain := Subdomain r; beginHandlers := beginHandlers r;
           Handlers_ := Handlers_ r; MainHandlerName := MainHandlerName r;
           doneHandlers := doneHandlers r; Path := Path r;
           FormattedPath := FormattedPath r |}, true)
  else (r, false).

Definition SetStatusOffline (r : Route) : Route * bool :=
  ChangeMethod MethodNone r.

Definition RestoreStatus (r : Route) : Route * bool :=
  ChangeMethod (methodBckp r) r.

Definition IsOnline (r : Route) : bool :=
  negb (String.eqb (Method r) MethodNone).
End Online.

End Route.

(** * The handler slices of a route

    [use], [done] and [BuildHandlers] work on the three slices of a route
    with [append] and [s[0:0]], which keep or share the arrays behind the
    slices; what a later call reads depends on that sharing, so the slices
    are modelled with their arrays.  ([Route.BuildHandlers] above gives the
    value of one call on the lists of elements.) *)

Module RouteSlices.
Import Ctx.

(** A slice of handlers: the array it points into ([None] for [nil]), its
    length and its capacity.  The slices of a route all start at the first
    cell of their array. *)
Record slice := mkSlice {
  ptr : option nat;
  slen : nat;
  scap : nat
}.

Definition nilSlice : slice := {| ptr := None; slen := 0; scap := 0 |}.

(** The arrays the slices point into, each one as the cells written so
    far; a pointer is a position in the list. *)
Abbreviation arrays := (list Handlers).

Definition cells (m : arrays) (s : slice) : Handlers :=
  match ptr s with
  | Some p => default [] (m !! p)
  | None => []
  end.

(** The elements of a slice. *)
Definition elems (m : arrays) (s : slice) : Handlers :=
  take (slen s) (cells m s).

(** [s[0:0]]: the same array and capacity, no element. *)
Definition cut (s : slice) : slice :=
  {| ptr := ptr s; slen := 0; scap := scap s |}.

(** The three slices of a route, and the arrays they point into. *)
Record route := mkRoute {
  mem : arrays;
  beginHandlers : slice;
  Handlers_ : slice;
  doneHandlers : slice
}.

Section Append.
(** The capacity the runtime gives to the array that [append] allocates,
    from the capacity of the slice and the length needed. *)
Variable growslice : nat -> nat -> nat.

(** [append(s, xs...)]: within the capacity of [s] the elements are
    written into its array, after those of [s]; otherwise they go, after
    a copy of those of [s], into a new array. *)
Definition append (m : arrays) (s : slice) (xs : Handlers) : arrays * slice :=
  let n := slen s + length xs in
  if bool_decide (n <= scap s) then
    match ptr s with
    | Some p =>
        (alter (fun c => take (slen s) c ++ xs ++ drop n c) p m,
         {| ptr := Some p; slen := n; scap := scap s |})
    | None => (m, s)
    end
  else
    (m ++ [elems m s ++ xs],
     {| ptr := Some (length m); slen := n; scap := growslice (scap s) n |}).

Definition use (hs : Handlers) (r : route) : route :=
  if bool_decide (length hs = 0) then r
  else
    let '(m, s) := append (mem r) (beginHandlers r) hs in
    {| mem := m; beginHandlers := s; Handlers_ := Handlers_ r;
       doneHandlers := doneHandlers r |}.

Definition done_ (hs : Handlers) (r : route) : route :=
  if bool_decide (length hs = 0) then r
  else
    let '(m, s) := append (mem r) (doneHandlers r) hs in
    {| mem := m; beginHandlers := beginHandlers r; Handlers_ := Handlers_ r;
       doneHandlers := s |}.

Definition BuildHandlers (r : route) : route :=
  let r1 :=
    if bool_decide (0 < slen (beginHandlers r)) then
      let '(m, s) :=
        append (mem r) (beginHandlers r) (elems (mem r) (Handlers_ r)) in
      {| mem := m; beginHandlers := cut (beginHandlers r); Handlers_ := s;
         doneHandlers := doneHandlers r |}
    else r in
  if bool_decide (0 < slen (doneHandlers r1)) then
    let '(m, s) :=
      append (mem r1) (Handlers_ r1) (elems (mem r1) (doneHandlers r1)) in
    {| mem := m; beginHandlers := beginHandlers r1; Handlers_ := s;
       doneHandlers := cut (doneHandlers r1) |}
  else r1.

End Append.

(** The route [NewRoute] returns: its handlers in an array of their own,
    no begin and no done handlers. *)
Definition newRoute (main : Handlers) (cap : nat) : route :=
  {| mem := [main]; beginHandlers := nilSlice;
     Handlers_ := {| ptr := Some 0; slen := length main; scap := cap |};
     doneHandlers := nilSlice |}.

(** A runtime that doubles the capacity when [append] needs a new
    array. *)
Definition doubling (cap needed : nat) : nat := Nat.max needed (2 * cap).


End RouteSlices.

(** * Status-code handlers *)

Module Status.
Import Writers Ctx.

Definition statusCodeSuccessful (statusCode : Z) : bool :=
  negb (StatusCodeNotSuccessful statusCode).

(** [type ErrorCodeHandler struct]. *)
Record ErrorCodeHandler := mkErrorCodeHandler {
  StatusCode_ : Z;
  Handlers_ : Handlers
}.

Section Fire_.
Context `{NativeIO} `{Application}.

(** [ErrorCodeHandler.Fire(ctx)]. *)
Definition Fire (ch : ErrorCodeHandler) (ctx : context) : context :=
  let prepared : option context :=
    match writer ctx with
    | WRecorder w =>
        let w1 := if statusCodeSuccessful (ResponseRecorder_.StatusCode w)
                  then ResponseRecorder_.WriteHeader (StatusCode_ ch) w
                  else w in
        let w2 := ResponseRecorder_.ClearHeaders w1 in
        let w3 := ResponseRecorder_.ResetBody w2 in
        Some (set_writer (WRecorder w3) ctx)
    | WGzip w =>
        let w1 := GzipResponseWriter_.ResetBody w in
        let w2 := GzipResponseWriter_.Disable w1 in
        Some (set_writer (WGzip w2) ctx)
    | WBase w =>
        if bool_decide (responseWriter_.Written w > 0)%Z then None
        else Some ctx
    end in
  match prepared with
  | None => ctx
  | Some ctx1 =>
      let ctx2 := fst (HandlerIndex 0 ctx1) in
      Do (Handlers_ ch) ctx2
  end.

(** [type ErrorCodeHandlers struct]: the registry. *)
Definition ErrorCodeHandlers := list ErrorCodeHandler.

Fixpoint Get (s : ErrorCodeHandlers) (statusCode : Z) : option ErrorCodeHandler :=
  match s with
  | [] => None
  | h :: rest =>
      if bool_decide (StatusCode_ h = statusCode) then Some h
      else Get rest statusCode
  end.

Fixpoint updateHandlers (s : ErrorCodeHandlers) (statusCode : Z) (hs : Handlers)
  : ErrorCodeHandlers :=
  match s with
  | [] => []
  | h :: rest =>
      if bool_decide (StatusCode_ h = statusCode)
      then {| StatusCode_ := statusCode; Handlers_ := hs |} :: rest
      else h :: updateHandlers rest statusCode hs
  end.

(** [Register(statusCode, handlers...)]: the registry after the call and
    the entry returned ([None] for [nil]). *)
Definition Register (s : ErrorCodeHandlers) (statusCode : Z) (hs : Handlers)
  : ErrorCodeHandlers * option ErrorCodeHandler :=
  if statusCodeSuccessful statusCode then (s, None)
  else
    let ch := {| StatusCode_ := statusCode; Handlers_ := hs |} in
    match Get s statusCode with
    | None => (s ++ [ch], Some ch)
    | Some _ => (updateHandlers s statusCode hs, Some ch)
    end.

(** The handler [statusText(statusCode)] builds. *)
Variable statusText : Z -> Handler.

(** [ErrorCodeHandlers.Fire(ctx)]: the registry and the context after the
    call. *)
Definition FireAll (s : ErrorCodeHandlers) (ctx : context)
  : ErrorCodeHandlers * context :=
  let statusCode := GetStatusCode ctx in
  if statusCodeSuccessful statusCode then (s, ctx)
  else
    match Get s statusCode with
    | Some ch => (s, Fire ch ctx)
    | None =>
        match Register s statusCode [statusText statusCode] with
        | (s', Some ch) => (s', Fire ch ctx)
        | (s', None) => (s', ctx)
        end
    end.

End Fire_.
End Status.

(** * The routing trie *)

Module Trie.
Import Ctx.

(** What a call can end in: a value, a run-time panic (a nil dereference,
    an index or a slice bound out of range), or a loop that does not end. *)
Inductive res (A : Type) : Type :=
| Ok (a : A)
| Panic
| Diverges.
Arguments Ok {A} a.
Arguments Panic {A}.
Arguments Diverges {A}.

#[global] Instance res_ret : MRet res := fun A a => Ok a.
#[global] Instance res_bind : MBind res := fun A B f m =>
  match m with
  | Ok a => f a
  | Panic => Panic
  | Diverges => Diverges
  end.

Definition ParamStart : string := ":".
Definition WildcardParamStart : string := "*".
Definition pathSep : string := "/".
Definition pathSepB : ascii := "/"%char.

(** [type trieNode struct].  A [*trieNode] is an index into the arena of
    the trie it belongs to; [None] is [nil]. *)
Record trieNode := mkTrieNode {
  parent : option nat;
  children : gmap string nat;
  hasDynamicChild : bool;
  childNamedParameter : bool;
  childWildcardParameter : bool;
  paramKeys : list string;
  end_ : bool;
  key : string;
  staticKey : string;
  Handlers_ : Handlers;
  RouteName : string
}.

Definition newTrieNode : trieNode :=
  {| parent := None; children := ∅; hasDynamicChild := false;
     childNamedParameter := false; childWildcardParameter := false;
     paramKeys := []; end_ := false; key := ""; staticKey := "";
     Handlers_ := []; RouteName := "" |}.

(** [type trie struct], with the arena its nodes live in. *)
Record trie := mkTrie {
  nodes : list trieNode;
  root : nat;
  hasRootWildcard : bool;
  hasRootSlash : bool;
  method : string;
  subdomain : string
}.

Definition newTrie : trie :=
  {| nodes := [newTrieNode]; root := 0; hasRootWildcard := false;
     hasRootSlash := false; method := ""; subdomain := "" |}.

(** Dereferencing a pointer of the arena. *)
Definition deref (tr : trie) (id : nat) : res trieNode :=
  match nodes tr !! id with
  | Some node => Ok node
  | None => Panic
  end.

Definition getChild (tn : trieNode) (s : string) : option nat :=
  children tn !! s.
Arguments getChild : simpl never.

Definition hasChild (tn : trieNode) (s : string) : bool :=
  bool_decide (is_Some (getChild tn s)).

(** The loop of [findClosestParentWildcardNode], from the pointer [tn]. *)
Fixpoint findClosestParent_loop (fuel : nat) (tr : trie) (tn : option nat)
  : res (option nat) :=
  match tn with
  | None => Ok None
  | Some id =>
      match fuel with
      | O => Diverges
      | S fuel' =>
          node ← deref tr id;
          if childWildcardParameter node
          then Ok (getChild node WildcardParamStart)
          else findClosestParent_loop fuel' tr (parent node)
      end
  end.

(** [findClosestParentWildcardNode]: a chain of parents that does not come
    back to a node is no longer than the arena. *)
Definition findClosestParentWildcardNode (tr : trie) (id : nat)
  : res (option nat) :=
  node ← deref tr id;
  findClosestParent_loop (length (nodes tr)) tr (parent node).

(** [q[start:i]], [q[start:]] and [q[i]]. *)
Definition slice (q : string) (start i : nat) : string :=
  String.substring start (i - start) q.

Definition slice_from (q : string) (start : nat) : res string :=
  if bool_decide (start <= String.length q)
  then Ok (Strings.drop start q) else Panic.

(** [params.Set(n.paramKeys[0], q[len(n.staticKey):]); return n]. *)
Definition bindClosest (tr : trie) (q : string) (params : RequestParams)
    (wid : nat) : res (option nat * RequestParams) :=
  wn ← deref tr wid;
  match paramKeys wn with
  | [] => Panic
  | k :: _ =>
      v ← slice_from q (String.length (staticKey wn));
      Ok (Some wid, params_Set k v params)
  end.

(** How the scanning loop of [search] is left: by a [return] or by a
    [break]. *)
Inductive exit :=
| Return (n : option nat) (ps : RequestParams)
| Break (n : option nat) (paramValues : list string).

(** The scanning loop of [search]. *)
Fixpoint search_loop (fuel : nat) (tr : trie) (q : string)
    (params : RequestParams) (n : option nat) (start i : nat)
    (paramValues : list string) : res exit :=
  match fuel with
  | O => Diverges
  | S fuel' =>
      let end' := String.length q in
      if bool_decide (i = end') || bool_decide (String.get i q = Some pathSepB)
      then
        match n with
        | None => Panic
        | Some id =>
            node ← deref tr id;
            let next n' paramValues' :=
              if bool_decide (i = end') then Ok (Break n' paramValues')
              else search_loop fuel' tr q params n' (i + 1) (i + 1) paramValues' in
            match getChild node (slice q start i) with
            | Some child => next (Some child) paramValues
            | None =>
                if childNamedParameter node then
                  next (getChild node ParamStart)
                       (paramValues ++ [slice q start i])
                else if childWildcardParameter node then
                  Ok (Break (getChild node WildcardParamStart)
                            (paramValues ++ [Strings.drop start q]))
                else
                  w ← findClosestParentWildcardNode tr id;
                  match w with
                  | Some wid =>
                      r ← bindClosest tr q params wid;
                      Ok (Return (fst r) (snd r))
                  | None => Ok (Return None params)
                  end
            end
        end
      else search_loop fuel' tr q params n start (i + 1) paramValues
  end.

(** The last loop of [search]: [paramValues[i]] is stored under
    [n.paramKeys[i]] when there is such a key. *)
Fixpoint bindValues (keys : list string) (i : nat) (paramValues : list string)
    (params : RequestParams) : RequestParams :=
  match paramValues with
  | [] => params
  | paramValue :: rest =>
      bindValues keys (S i) rest
        (match keys !! i with
         | Some k => params_Set k paramValue params
         | None => params
         end)
  end.

(** The root-wildcard case at the end of [search]. *)
Definition bindRootWildcard (tr : trie) (q : string) (params : RequestParams)
  : res (option nat * RequestParams) :=
  rootNode ← deref tr (root tr);
  match getChild rootNode WildcardParamStart with
  | None => Panic
  | Some wid =>
      wn ← deref tr wid;
      match paramKeys wn with
      | [] => Panic
      | k :: _ => Ok (Some wid, params_Set k (Strings.drop 1 q) params)
      end
  end.

(** The end of [search], after the scanning loop. *)
Definition search_end (tr : trie) (q : string) (params : RequestParams)
    (x : exit) : res (option nat * RequestParams) :=
  match x with
  | Return n ps => Ok (n, ps)
  | Break None _ =>
      if hasRootWildcard tr then bindRootWildcard tr q params
      else Ok (None, params)
  | Break (Some id) paramValues =>
      node ← deref tr id;
      if negb (end_ node) then
        w ← findClosestParentWildcardNode tr id;
        match w with
        | Some wid => bindClosest tr q params wid
        | None =>
            if hasRootWildcard tr then bindRootWildcard tr q params
            else Ok (None, params)
        end
      else Ok (Some id, bindValues (paramKeys node) 0 paramValues params)
  end.

(** [search(q, params)]: the node found ([None] for [nil]) and the
    parameter store after the call.  The scanning loop runs at most once
    for each byte of [q]. *)
Definition search (tr : trie) (q : string) (params : RequestParams)
  : res (option nat * RequestParams) :=
  let end' := String.length q in
  if bool_decide (end' = 0)
     || (bool_decide (end' = 1) && bool_decide (String.get 0 q = Some pathSepB))
  then
    rootNode ← deref tr (root tr);
    if hasRootSlash tr then Ok (getChild rootNode pathSep, params)
    else if hasRootWildcard tr
         then Ok (getChild rootNode WildcardParamStart, params)
         else Ok (None, params)
  else
    x ← search_loop (S end') tr q params (Some (root tr)) 1 1 [];
    search_end tr q params x.

(** [slowPathSplit(path)]. *)
Definition slowPathSplit (path : string) : list string :=
  if String.eqb path "/" then ["/"]
  else tail (Strings.Split path pathSepB).

(** Assignments to the fields of the node a pointer refers to. *)
Definition set_node (id : nat) (f : trieNode -> trieNode) (tr : trie) : trie :=
  {| nodes := alter f id (nodes tr); root := root tr;
     hasRootWildcard := hasRootWildcard tr; hasRootSlash := hasRootSlash tr;
     method := method tr; subdomain := subdomain tr |}.

Definition with_dynamic (named wildcard : bool) (tn : trieNode) : trieNode :=
  {| parent := parent tn; children := children tn; hasDynamicChild := true;
     childNamedParameter := named || childNamedParameter tn;
     childWildcardParameter := wildcard || childWildcardParameter tn;
     paramKeys := paramKeys tn; end_ := end_ tn; key := key tn;
     staticKey := staticKey tn; Handlers_ := Handlers_ tn;
     RouteName := RouteName tn |}.

Definition with_child (s : string) (c : nat) (tn : trieNode) : trieNode :=
  {| parent := parent tn; children := <[s := c]> (children tn);
     hasDynamicChild := hasDynamicChild tn;
     childNamedParameter := childNamedParameter tn;
     childWildcardParameter := childWildcardParameter tn;
     paramKeys := paramKeys tn; end_ := end_ tn; key := key tn;
     staticKey := staticKey tn; Handlers_ := Handlers_ tn;
     RouteName := RouteName tn |}.

Definition with_parent (p : nat) (tn : trieNode) : trieNode :=
  {| parent := Some p; children := children tn;
     hasDynamicChild := hasDynamicChild tn;
     childNamedParameter := childNamedParameter tn;
     childWildcardParameter := childWildcardParameter tn;
     paramKeys := paramKeys tn; end_ := end_ tn; key := key tn;
     staticKey := staticKey tn; Handlers_ := Handlers_ tn;
     RouteName := RouteName tn |}.

Definition with_route (routeName : string) (handlers : Handlers)
    (keys : list string) (path static : string) (tn : trieNode) : trieNode :=
  {| parent := parent tn; children := children tn;
     hasDynamicChild := hasDynamicChild tn;
     childNamedParameter := childNamedParameter tn;
     childWildcardParameter := childWildcardParameter tn;
     paramKeys := keys; end_ := true; key := path; staticKey := static;
     Handlers_ := handlers; RouteName := routeName |}.

Definition set_rootWildcard (tr : trie) : trie :=
  {| nodes := nodes tr; root := root tr; hasRootWildcard := true;
     hasRootSlash := hasRootSlash tr; method := method tr;
     subdomain := subdomain tr |}.

Definition set_rootSlash (tr : trie) : trie :=
  {| nodes := nodes tr; root := root tr;
     hasRootWildcard := hasRootWildcard tr; hasRootSlash := true;
     method := method tr; subdomain := subdomain tr |}.

(** [n.addChild(s, newTrieNode())] when [n] has no child [s]: the new node
    is allocated at the end of the arena. *)
Definition addChild (n : nat) (s : string) (tr : trie) : trie :=
  let child := length (nodes tr) in
  set_node n (with_child s child)
    {| nodes := nodes tr ++ [with_parent n newTrieNode]; root := root tr;
       hasRootWildcard := hasRootWildcard tr; hasRootSlash := hasRootSlash tr;
       method := method tr; subdomain := subdomain tr |}.

(** One turn of the loop of [insert], for the segment [s]: the trie, the
    node the loop moves to and the parameter keys collected so far. *)
Definition insert_segment (s : string) (tr : trie) (n : nat)
    (keys : list string) : res (trie * nat * list string) :=
  match Strings.first_byte s with
  | None => Panic
  | Some c =>
      let isParam := Ascii.eqb c ":"%char in
      let isWildcard := Ascii.eqb c "*"%char in
      let tr1 :=
        if isParam || isWildcard
        then set_node n (with_dynamic isParam isWildcard) tr
        else tr in
      let keys1 :=
        if isParam || isWildcard then keys ++ [Strings.drop 1 s]
        else keys in
      let s1 :=
        if isWildcard then WildcardParamStart
        else if isParam then ParamStart else s in
      let tr2 :=
        if isWildcard && bool_decide (root tr = n)
        then set_rootWildcard tr1 else tr1 in
      node ← deref tr2 n;
      let tr3 := if hasChild node s1 then tr2 else addChild n s1 tr2 in
      node3 ← deref tr3 n;
      match getChild node3 s1 with
      | None => Panic
      | Some child => Ok (tr3, child, keys1)
      end
  end.

(** The loop of [insert] over the segments of the path. *)
Fixpoint insert_loop (input : list string) (tr : trie) (n : nat)
    (keys : list string) : res (trie * nat * list string) :=
  match input with
  | [] => Ok (tr, n, keys)
  | s :: rest =>
      '(tr', n', keys') ← insert_segment s tr n keys;
      insert_loop rest tr' n' keys'
  end.

(** [path[:i]] for the [i] that [insert] computes: the index of the first
    [:], else of the first [*], else the length of the path. *)
Definition staticPart (path : string) : string :=
  let i := Strings.Index path ":"%char in
  let i := if bool_decide (i = -1)%Z then Strings.Index path "*"%char else i in
  let i := if bool_decide (i = -1)%Z then Z.of_nat (String.length path) else i in
  Strings.take (Z.to_nat i) path.

(** [insert(path, routeName, handlers)]. *)
Definition insert (path routeName : string) (handlers : Handlers) (tr : trie)
  : res trie :=
  let input := slowPathSplit path in
  let tr0 := if String.eqb path pathSep then set_rootSlash tr else tr in
  '(tr1, n, keys) ← insert_loop input tr0 (root tr0) [];
  Ok (set_node n (with_route routeName handlers keys path (staticPart path)) tr1).

(** A trie built from a list of routes (path, name), in order. *)
Fixpoint insertAll (routes : list (string * string)) (tr : trie) : res trie :=
  match routes with
  | [] => Ok tr
  | (path, name) :: rest =>
      tr' ← insert path name [] tr;
      insertAll rest tr'
  end.


(** ** The search as a walk over the segments

    A second form of [search], recursive over the segments of [q], which
    the loop is proved to compute on well-formed tries.  It follows the
    code: if a child is registered under the next segment, descend; else
    if the current node has a named child, descend through it and record
    the segment as the next parameter value; else if it has a wildcard
    child, descend through it, record the remainder of [q] as the final
    parameter value and terminate; else go up the parent chain to the
    nearest ancestor with a wildcard child.  The nodes passed on the way
    down are kept in a list, nearest first, which stands for the parent
    chain.

    The walk follows the code also where the code is not what the
    specification says: the lookup of a child under a segment is a lookup
    in the map of children, where the named and the wildcard child are
    kept under the keys [:] and [*], so that a segment [:] or [*] finds
    them as a literal child would be found; and backing off binds the
    first of the parameter keys of the wildcard node ([paramKeys[0]]) to
    [q] past the static key of that node. *)

Definition node_at (tr : trie) (id : nat) : trieNode :=
  default newTrieNode (nodes tr !! id).

Definition literalChild (tr : trie) (n : nat) (segment : string) : option nat :=
  getChild (node_at tr n) segment.

Definition namedChild (tr : trie) (n : nat) : option nat :=
  if childNamedParameter (node_at tr n)
  then getChild (node_at tr n) ParamStart else None.

Definition wildcardChild (tr : trie) (n : nat) : option nat :=
  if childWildcardParameter (node_at tr n)
  then getChild (node_at tr n) WildcardParamStart else None.

(** The wildcard child of the nearest of [ancestors] that has one. *)
Fixpoint nearestWildcard (tr : trie) (ancestors : list nat) : option nat :=
  match ancestors with
  | [] => None
  | a :: rest =>
      match wildcardChild tr a with
      | Some w => Some w
      | None => nearestWildcard tr rest
      end
  end.

(** [n.paramKeys[0]] of a wildcard node: the first parameter key of the
    route that ends at it, which is the key of the wildcard itself only
    when no named parameter comes before the wildcard in the path; and
    [n.staticKey], the static prefix recorded for the node. *)
Definition firstKey (tr : trie) (w : nat) : string :=
  hd "" (paramKeys (node_at tr w)).

(** The parameter of the wildcard segment itself: the last of the keys of
    the route that ends at the wildcard node. *)
Definition ownParam (tr : trie) (w : nat) : string :=
  List.last (paramKeys (node_at tr w)) "".

Definition staticPrefix (tr : trie) (w : nat) : string :=
  staticKey (node_at tr w).

(** Backing off: the wildcard child of the nearest ancestor that has one,
    with its first key bound to what is left of [q] past its static
    prefix; failing that the root wildcard, with its first key bound to
    [q] without its first byte, when the trie has the root-wildcard flag;
    failing that, no match. *)
Definition backOff (tr : trie) (q : string) (params : RequestParams)
    (ancestors : list nat) : option nat * RequestParams :=
  match nearestWildcard tr ancestors with
  | Some w =>
      (Some w,
       params_Set (firstKey tr w)
         (Strings.drop (String.length (staticPrefix tr w)) q) params)
  | None =>
      if hasRootWildcard tr then
        match wildcardChild tr (root tr) with
        | Some w =>
            (Some w, params_Set (firstKey tr w) (Strings.drop 1 q) params)
        | None => (None, params)
        end
      else (None, params)
  end.

(** The recorded values are stored under the keys of the node, in order. *)
Fixpoint bindInOrder (keys values : list string) (params : RequestParams)
  : RequestParams :=
  match keys, values with
  | k :: keys', v :: values' => bindInOrder keys' values' (params_Set k v params)
  | _, _ => params
  end.

(** Arriving at a node with nothing left to scan: a terminal node is the
    match; from any other node the search backs off. *)
Definition arrive (tr : trie) (q : string) (params : RequestParams)
    (n : nat) (ancestors : list nat) (values : list string)
  : option nat * RequestParams :=
  if end_ (node_at tr n)
  then (Some n, bindInOrder (paramKeys (node_at tr n)) values params)
  else backOff tr q params ancestors.

(** The walk down the trie over the segments left: literal child first,
    then the named child, then the wildcard child, then backing off. *)
Fixpoint walk (tr : trie) (q : string) (params : RequestParams)
    (segments : list string) (n : nat) (ancestors : list nat)
    (values : list string) : option nat * RequestParams :=
  match segments with
  | [] => arrive tr q params n ancestors values
  | segment :: rest =>
      match literalChild tr n segment with
      | Some c => walk tr q params rest c (n :: ancestors) values
      | None =>
          match namedChild tr n with
          | Some c =>
              walk tr q params rest c (n :: ancestors) (values ++ [segment])
          | None =>
              match wildcardChild tr n with
              | Some w =>
                  arrive tr q params w (n :: ancestors)
                    (values ++ [Strings.Join (segment :: rest) "/"])
              | None => backOff tr q params ancestors
              end
          end
      end
  end.

(** The segments of a path: what follows its first byte, cut at each
    [/]. *)
Definition segments (q : string) : list string :=
  Strings.Split (Strings.drop 1 q) pathSepB.

Definition search_walk (tr : trie) (q : string) (params : RequestParams)
  : option nat * RequestParams :=
  walk tr q params (segments q) (root tr) [] [].

(** ** Well-formed tries

    What [insert] maintains and [search] relies on, as a check that runs
    from the root down: every child pointer refers to a younger node of the
    arena whose parent pointer refers back; a node flagged as having a
    named (wildcard) child has one; and a wildcard child has a parameter
    key and a static key no longer than the static part of the path to its
    parent ([static], which grows along literal edges up to the first
    parameter edge); the root has no parent, and the two flags of the trie
    agree with the root: with the root-wildcard flag the root is flagged as
    having a wildcard child, with the root-slash flag it has a child [/]. *)

Definition named_ok (node : trieNode) : bool :=
  if childNamedParameter node
  then bool_decide (is_Some (getChild node ParamStart)) else true.

Definition wildcard_ok (tr : trie) (node : trieNode) (bound : nat) : bool :=
  if childWildcardParameter node then
    match getChild node WildcardParamStart with
    | Some w =>
        match nodes tr !! w with
        | Some wn =>
            bool_decide (paramKeys wn <> [])
            && bool_decide (String.length (staticKey wn) <= bound)
        | None => false
        end
    | None => false
    end
  else true.

Definition parent_is (tr : trie) (c id : nat) : bool :=
  match nodes tr !! c with
  | Some cn => bool_decide (parent cn = Some id)
  | None => false
  end.

(** Whether an edge stops the static part: a parameter edge, or any edge
    below one. *)
Definition stops_static (frozen : bool) (label : string) : bool :=
  frozen || String.eqb label ParamStart || String.eqb label WildcardParamStart.

Definition static_after (static : nat) (frozen : bool) (label : string) : nat :=
  if stops_static frozen label then static
  else static + S (String.length label).

Fixpoint wf_from (fuel : nat) (tr : trie) (id : nat) (static : nat)
    (frozen : bool) : bool :=
  match fuel with
  | O => false
  | S fuel' =>
      match nodes tr !! id with
      | None => false
      | Some node =>
          named_ok node && wildcard_ok tr node static
          && forallb
               (fun '(label, c) =>
                  bool_decide (id < c) && parent_is tr c id
                  && wf_from fuel' tr c (static_after static frozen label)
                       (stops_static frozen label))
               (map_to_list (children node))
      end
  end.

Definition wf_trie (tr : trie) : bool :=
  wf_from (length (nodes tr)) tr (root tr) 1 false
  && bool_decide (parent (node_at tr (root tr)) = None)
  && implb (hasRootWildcard tr) (childWildcardParameter (node_at tr (root tr)))
  && implb (hasRootSlash tr)
       (bool_decide (is_Some (getChild (node_at tr (root tr)) pathSep))).

End Trie.

(** * Registered paths (path.go) *)

Module Path.

(** [strings.HasPrefix(s, prefix)] and [strings.HasSuffix(s, suffix)]. *)
Definition HasPrefix (s pre : string) : bool :=
  bool_decide (String.length pre <= String.length s)
  && String.eqb (Strings.take (String.length pre) s) pre.

Definition HasSuffix (s suf : string) : bool :=
  bool_decide (String.length suf <= String.length s)
  && String.eqb (Strings.drop (String.length s - String.length suf) s) suf.

(** [prefix(s, prefix)] and [suffix(s, suffix)]. *)
Definition prefix (s pre : string) : string :=
  if negb (HasPrefix s pre) then pre +:+ s else s.

Definition suffix (s suf : string) : string :=
  if negb (HasSuffix s suf) then s +:+ suf else s.

Definition Param (name : string) : string := prefix name Trie.ParamStart.

Definition WildcardParam (name : string) : string :=
  if bool_decide (String.length name = 0) then ""
  else prefix name Trie.WildcardParamStart.

(** [len(s)], [s[i]], [s[:i]] and [s[i:]] for an index of type [int]. *)
Definition slen (s : string) : Z := Z.of_nat (String.length s).

Definition byte (s : string) (i : Z) : option ascii :=
  if bool_decide (0 <= i)%Z then String.get (Z.to_nat i) s else None.

Definition upto (i : Z) (s : string) : string := Strings.take (Z.to_nat i) s.

Definition from (i : Z) (s : string) : string := Strings.drop (Z.to_nat i) s.

Definition backslash : ascii := "092"%char.

Section Clean.
(** [lexer.Begin] and [lexer.End]: the bytes that open and close a macro. *)
Variables Begin End_ : ascii.

(** One turn of the loop of [cleanPath], past [i++] and the test of the
    length: the string and the index the turn leaves, and whether it
    leaves the scan inside a macro. *)
Definition cleanTurn (s : string) (i : Z) (insideMacro : bool)
  : string * Z * bool :=
  if bool_decide (byte s i = Some Begin) then (s, i, true)
  else if bool_decide (byte s i = Some End_) then (s, i, false)
  else if insideMacro then (s, i, insideMacro)
  else if bool_decide (byte s i = Some "/"%char) then
    if bool_decide (slen s - 1 >= i + 1)%Z
       && bool_decide (byte s (i + 1) = Some "/"%char)
    then
      let bckp := s in
      let s1 := upto i bckp +:+ "/" in
      let i1 := (i + 2)%Z in
      let s2 := if bool_decide (slen bckp - 1 >= i1)%Z
                then s1 +:+ from i1 bckp else s1 in
      (s2, i1, insideMacro)
    else (s, i, insideMacro)
  else if bool_decide (byte s i = Some backslash) then
    let bckp := s in
    let s1 := upto i bckp +:+ "/" in
    let '(s2, i2) :=
      if bool_decide (slen bckp - 1 >= i + 1)%Z
      then (s1 +:+ from (i + 1) bckp, (i + 1)%Z) else (s1, i) in
    let '(s3, i3) :=
      if bool_decide (slen s2 - 1 > i2)%Z
         && bool_decide (byte s2 i2 = Some backslash)
      then
        let bckp2 := s2 in
        if bool_decide (slen bckp2 - 1 >= i2 + 2)%Z
        then (upto (i2 - 1) bckp2 +:+ from (i2 + 1) bckp2, (i2 + 1)%Z)
        else (upto i2 bckp2, i2)
      else (s2, i2) in
    (s3, i3, insideMacro)
  else (s, i, insideMacro).

(** The loop of [cleanPath], from the index [i] the last turn left. *)
Fixpoint cleanLoop (fuel : nat) (s : string) (i : Z) (insideMacro : bool)
  : Trie.res string :=
  match fuel with
  | O => Trie.Diverges
  | S fuel' =>
      let i := (i + 1)%Z in
      if bool_decide (slen s <= i)%Z then Trie.Ok s
      else
        let '(s', i', inside') := cleanTurn s i insideMacro in
        cleanLoop fuel' s' i' inside'
  end.

(** What [cleanPath] does before its loop: the last [/] is cut, and a [/]
    is put in front. *)
Definition cleanStart (s : string) : string :=
  let s1 := if bool_decide (byte s (slen s - 1) = Some "/"%char)
            then upto (slen s - 1) s else s in
  prefix s1 "/".

(** [cleanPath(s)], with a loop of at most [fuel] turns. *)
Definition cleanPath_fuel (fuel : nat) (s : string) : Trie.res string :=
  if String.eqb s "" || String.eqb s "." then Trie.Ok "/"
  else cleanLoop fuel (cleanStart s) (-1) false.

(** [cleanPath(s)]: the loop makes fewer turns than the string it starts
    with has bytes, plus two. *)
Definition cleanPath (s : string) : Trie.res string :=
  cleanPath_fuel (S (S (String.length (cleanStart s)))) s.

(** [splitSubdomainAndPath(fullUnparsedPath)]; slicing up to the index -1
    of a missing [/] is a panic. *)
Definition splitSubdomainAndPath (fullUnparsedPath : string)
  : Trie.res (string * string) :=
  let s := fullUnparsedPath in
  if String.eqb s "" || String.eqb s "/" then Trie.Ok ("", "/")
  else
    let slashIdx := Strings.Index s "/"%char in
    if bool_decide (slashIdx = 0)%Z then
      path ← cleanPath s; Trie.Ok ("", path)
    else if bool_decide (slashIdx < 0)%Z then Trie.Panic
    else
      path ← cleanPath (from slashIdx s); Trie.Ok (upto slashIdx s, path).
End Clean.

Definition SubdomainWildcardIndicator : string := "*.".
Definition SubdomainPrefix : string := "./".

(** [hasSubdomain(s)]. *)
Definition hasSubdomain (s : string) : bool :=
  if String.eqb s "" then false
  else
    let slashIdx := Strings.Index s "/"%char in
    bool_decide (slashIdx > 0)%Z
    || bool_decide (byte s 0 = byte SubdomainPrefix 0)
    || (bool_decide (slen s >= 2)%Z
        && String.eqb (upto 2 s) SubdomainWildcardIndicator)
    || (bool_decide (slen s >= 2)%Z && negb (bool_decide (slashIdx = 0)%Z)
        && bool_decide (byte s (slen s - 1) = Some "."%char)).

End Path.

(** * The router handler (handler.go) *)

Module Handler.
Import Ctx Trie.

(** [type routerHandler struct]. *)
Record routerHandler := mkRouterHandler {
  trees : list trie;
  hosts : bool
}.

(** The loop of [getTree]: the position of the first tree of the method
    and the subdomain, counted from [i]. *)
Fixpoint getTree_from (ts : list trie) (i : nat) (m sd : string)
  : option nat :=
  match ts with
  | [] => None
  | t :: rest =>
      if String.eqb (method t) m && String.eqb (subdomain t) sd then Some i
      else getTree_from rest (S i) m sd
  end.

(** [getTree(method, subdomain)]: a pointer to one of [h.trees], as its
    position; [None] is [nil]. *)
Definition getTree (h : routerHandler) (m sd : string) : option nat :=
  getTree_from (trees h) 0 m sd.

(** [&trie{method: method, subdomain: subdomain, root: n}] for a new node
    [n]. *)
Definition treeFor (m sd : string) : trie :=
  {| nodes := [newTrieNode]; root := 0; hasRootWildcard := false;
     hasRootSlash := false; method := m; subdomain := sd |}.

(** [addRoute(r)]. *)
Definition addRoute (r : Route.Route) (h : routerHandler)
  : res routerHandler :=
  let routeName := Route.Name r in
  let m := Route.Method r in
  let sd := Route.Subdomain r in
  let path := Route.Path r in
  let hs := Route.Handlers_ r in
  match getTree h m sd with
  | Some i =>
      match trees h !! i with
      | Some t =>
          t' ← insert path routeName hs t;
          Ok {| trees := <[i := t']> (trees h); hosts := hosts h |}
      | None => Panic
      end
  | None =>
      t' ← insert path routeName hs (treeFor m sd);
      Ok {| trees := trees h ++ [t']; hosts := hosts h |}
  end.

End Handler.

(** * Concrete environments and inputs *)

Module Examples.
Import Writers Ctx.

(** A native writer that takes every byte, a compressor that hands over
    one buffer, and callbacks that do nothing. *)
Definition io0 : NativeIO :=
  {| nativeWrite := fun _ s => Z.of_nat (String.length s);
     gzipWrites := fun s => ["gzip(" +:+ s +:+ ")"];
     runCallback := fun _ w => w |}.

(** The same native writer, with callbacks that write: each one is
    [func() { w.WriteString("bye") }]. *)
Definition ioBye : NativeIO :=
  {| nativeWrite := fun _ s => Z.of_nat (String.length s);
     gzipWrites := fun s => ["gzip(" +:+ s +:+ ")"];
     runCallback := fun _ w => fst (@responseWriter_.WriteString io0 "bye" w) |}.

(** An application whose handler 0 does nothing, whose handler 1 sets the
    status to 500, and whose other handlers stop the execution; it fires no
    error handler of its own. *)
Definition app0 : Application :=
  {| handle := fun h ctx =>
       match h with
       | 0 => ctx
       | 1 => StatusCode 500 ctx
       | _ => StopExecution ctx
       end;
     FireErrorCode := fun ctx => ctx;
     GetDisableAutoFireStatusCode := false |}.

(** A base writer on which nothing has been written. *)
Definition w0 : responseWriter :=
  @responseWriter_.BeginResponse ∅ [].

(** A context at the start of a chain of three handlers. *)
Definition ctx0 : context :=
  {| writer := WBase w0; currentRouteName := ""; params := []; values := [];
     handlers := [0; 1; 2]; currentHandlerIndex := 0 |}.

(** A context with no chain, stopped, on which 404 has been set. *)
Definition ctxStopped : context :=
  {| writer := WBase (responseWriter_.WriteHeader 404 w0);
     currentRouteName := ""; params := []; values := [];
     handlers := []; currentHandlerIndex := -1 |}.

(** The routes of the static-versus-wildcard scenario, in one trie. *)
Definition scenarioRoutes : list (string * string) :=
  [("/assets/static", "assets-static"); ("/assets/*path", "assets-path");
   ("/hello/*p", "hello-p"); ("/hello/:p1/static/:p2", "hello-static")].

Definition scenarioTrie : Trie.trie :=
  match Trie.insertAll scenarioRoutes Trie.newTrie with
  | Trie.Ok tr => tr
  | _ => Trie.newTrie
  end.

(** A trie with the single route [/*p]. *)
Definition rootWildcardTrie : Trie.trie :=
  match Trie.insertAll [("/*p", "any")] Trie.newTrie with
  | Trie.Ok tr => tr
  | _ => Trie.newTrie
  end.

(** A wildcard below a named parameter, beside a longer static route. *)
Definition userRoutes : list (string * string) :=
  [("/user/:id/*rest", "user-rest"); ("/user/:id/files/list", "user-files")].

Definition userTrie : Trie.trie :=
  match Trie.insertAll userRoutes Trie.newTrie with
  | Trie.Ok tr => tr
  | _ => Trie.newTrie
  end.

(** A handler leaves a trace of its name in the values of the context. *)
Definition mark (name : string) (ctx : context) : context :=
  {| writer := writer ctx; currentRouteName := currentRouteName ctx;
     params := params ctx; values := values ctx ++ [(name, "")];
     handlers := handlers ctx;
     currentHandlerIndex := currentHandlerIndex ctx |}.

(** Handlers that leave a trace: handler 1 is
    [func(ctx) { trace "h1"; ctx.Next() }], the body of [DefaultNext]
    written out; handler 2 traces [h2] and any other handler [h0].  The
    recursion is over the handlers left after the cursor. *)
Fixpoint enter (fuel : nat) (h : Handler) (ctx : context) {struct fuel}
  : context :=
  match h with
  | 1 =>
      let c := mark "h1" ctx in
      match fuel with
      | O => c
      | S fuel' =>
          if IsStopped c then c
          else
            let n := (snd (HandlerIndex (-1) c) + 1)%Z in
            if bool_decide (n < len (handlers c))%Z then
              match at_index (handlers c) n with
              | Some h' => enter fuel' h' (fst (HandlerIndex n c))
              | None => c
              end
            else c
      end
  | 2 => mark "h2" ctx
  | _ => mark "h0" ctx
  end.

Definition handlersLeft (ctx : context) : nat :=
  Z.to_nat (len (handlers ctx) - currentHandlerIndex ctx - 1).

Definition appNext : Application :=
  {| handle := fun h ctx => enter (handlersLeft ctx) h ctx;
     FireErrorCode := fun ctx => ctx;
     GetDisableAutoFireStatusCode := false |}.

(** A context on the first of three handlers, the second of which (handler
    2 of [app0]) stops the execution. *)
Definition ctxStopper : context :=
  {| writer := WBase w0; currentRouteName := ""; params := []; values := [];
     handlers := [0; 2; 1]; currentHandlerIndex := 0 |}.

End Examples.

(** * Properties of the context *)

Module CtxFacts.
Import Writers Ctx.

Section Cursor.
Context `{NativeIO} `{Application}.

Lemma HandlerIndex_in_range (n : Z) (ctx : context) :
  (0 <= n <= len (handlers ctx) - 1)%Z ->
  HandlerIndex n ctx = (set_index n ctx, n).
Proof.
  intros Hn. unfold HandlerIndex.
  rewrite bool_decide_eq_false_2; [reflexivity | lia].
Qed.

Lemma HandlerIndex_out_of_range (n : Z) (ctx : context) :
  ~ (0 <= n <= len (handlers ctx) - 1)%Z ->
  HandlerIndex n ctx = (ctx, currentHandlerIndex ctx).
Proof.
  intros Hn. unfold HandlerIndex.
  rewrite bool_decide_eq_true_2; [reflexivity | lia].
Qed.

Lemma HandlerIndex_handlers (n : Z) (ctx : context) :
  handlers (fst (HandlerIndex n ctx)) = handlers ctx.
Proof. unfold HandlerIndex. case_bool_decide; reflexivity. Qed.

Lemma HandlerIndex_writer (n : Z) (ctx : context) :
  writer (fst (HandlerIndex n ctx)) = writer ctx.
Proof. unfold HandlerIndex. case_bool_decide; reflexivity. Qed.

(** The cursor of a context is in bounds when it is an index of the chain. *)
Definition in_bounds (ctx : context) : Prop :=
  (0 <= currentHandlerIndex ctx <= len (handlers ctx) - 1)%Z.

(** C10.  [HandlerIndex(n)] on a chain of length [L] assigns the cursor
    exactly when [0 <= n <= L-1], and then returns [n]; for every other [n]
    (every negative one, not only -1, and every [n >= L]) the context is
    left as it was and the current cursor is returned.  So a call changes
    the cursor only to an index of the chain: no call puts the cursor out
    of bounds, and the stopped state ([-1]) is never the work of
    [HandlerIndex]; [StopExecution] assigns it. *)
Theorem HandlerIndex_mutates_in_range_only (n : Z) (ctx : context) :
  let L := len (handlers ctx) in
  let ctx' := fst (HandlerIndex n ctx) in
  ((0 <= n <= L - 1)%Z -> HandlerIndex n ctx = (set_index n ctx, n))
  /\ (~ (0 <= n <= L - 1)%Z ->
      HandlerIndex n ctx = (ctx, currentHandlerIndex ctx))
  /\ ((n < 0)%Z -> HandlerIndex n ctx = (ctx, currentHandlerIndex ctx))
  /\ ((n >= L)%Z -> HandlerIndex n ctx = (ctx, currentHandlerIndex ctx))
  /\ (currentHandlerIndex ctx' <> currentHandlerIndex ctx ->
      (0 <= n <= L - 1)%Z /\ currentHandlerIndex ctx' = n)
  /\ handlers ctx' = handlers ctx
  /\ (currentHandlerIndex ctx' = currentHandlerIndex ctx \/ in_bounds ctx')
  /\ (in_bounds ctx -> in_bounds ctx')
  /\ (currentHandlerIndex ctx' = stopExecutionIndex ->
      currentHandlerIndex ctx = stopExecutionIndex)
  /\ currentHandlerIndex (StopExecution ctx) = stopExecutionIndex.
Proof.
  intros L ctx'. subst L ctx'.
  destruct (decide (0 <= n <= len (handlers ctx) - 1)%Z) as [Hin | Hout].
  - rewrite (HandlerIndex_in_range n ctx Hin).
    unfold in_bounds, stopExecutionIndex. cbn.
    repeat split; try tauto; try lia.
  - rewrite (HandlerIndex_out_of_range n ctx Hout).
    unfold in_bounds, stopExecutionIndex. cbn.
    repeat split; try tauto; try lia.
Qed.

End Cursor.

Section Chain.
Context `{NativeIO} `{Application}.

Lemma StatusCode_WriteHeader (code : Z) (w : ResponseWriter) :
  ResponseWriter_.StatusCode (ResponseWriter_.WriteHeader code w) = code.
Proof.
  destruct w as [b | r | g]; cbn; try reflexivity.
  destruct (gz_under g); reflexivity.
Qed.

Lemma at_index_lookup (hs : Handlers) (i : Z) :
  (0 <= i)%Z -> at_index hs i = hs !! Z.to_nat i.
Proof.
  intros Hi. unfold at_index. rewrite bool_decide_eq_true_2; [reflexivity | lia].
Qed.

(** When there is a next handler: the context is not stopped and the
    handler is the one after the cursor. *)
Lemma NextHandler_Some (ctx : context) (next : Handler) :
  (-1 <= currentHandlerIndex ctx)%Z ->
  NextHandler ctx = Some next <->
  currentHandlerIndex ctx <> stopExecutionIndex
  /\ handlers ctx !! Z.to_nat (currentHandlerIndex ctx + 1) = Some next.
Proof.
  intros Hc. unfold NextHandler, IsStopped, stopExecutionIndex in *.
  case_bool_decide as Hs.
  - split; [discriminate | tauto].
  - case_bool_decide as Hlt.
    + rewrite at_index_lookup by lia. tauto.
    + split; [discriminate | ].
      intros [_ Hl]. apply lookup_lt_Some in Hl. unfold len in Hlt. lia.
Qed.

Lemma Skip_cursor (ctx : context) :
  currentHandlerIndex (Skip ctx) =
  if bool_decide (0 <= currentHandlerIndex ctx + 1 <= len (handlers ctx) - 1)%Z
  then (currentHandlerIndex ctx + 1)%Z
  else currentHandlerIndex ctx.
Proof.
  unfold Skip. case_bool_decide as Hr.
  - rewrite HandlerIndex_in_range by exact Hr. reflexivity.
  - rewrite HandlerIndex_out_of_range by exact Hr. reflexivity.
Qed.

(** [NextOr(alt...)], case by case: when the chain has a next handler (the context
    is not stopped and the chain has an entry after the cursor), that
    handler is run, then [Skip] advances the cursor by one more, and the
    call returns true; a handler that returns with the cursor and the chain
    as it found them so leaves the cursor on its own index, and it is not
    the next handler again.  Otherwise, with no alternative, the status is
    set to 404, the cursor to -1, and the call returns false; with
    alternatives, they become the chain, the first of them runs, and the
    call returns false. *)
Theorem NextOr_cases (alt : Handlers) (ctx : context)
    (Hcursor : (-1 <= currentHandlerIndex ctx)%Z) :
  match NextHandler ctx with
  | Some next =>
      NextOr alt ctx = (Skip (handle next ctx), true)
      /\ handlers ctx !! Z.to_nat (currentHandlerIndex ctx + 1) = Some next
      /\ (let ran := handle next ctx in
          currentHandlerIndex ran = currentHandlerIndex ctx ->
          handlers ran = handlers ctx ->
          currentHandlerIndex (fst (NextOr alt ctx))
            = (currentHandlerIndex ctx + 1)%Z
          /\ handlers (fst (NextOr alt ctx))
               !! Z.to_nat (currentHandlerIndex (fst (NextOr alt ctx)))
             = Some next)
  | None =>
      match alt with
      | [] =>
          NextOr alt ctx = (StopExecution (NotFound ctx), false)
          /\ GetStatusCode (fst (NextOr alt ctx)) = 404%Z
          /\ currentHandlerIndex (fst (NextOr alt ctx)) = (-1)%Z
          /\ IsStopped (fst (NextOr alt ctx)) = true
      | first :: _ =>
          NextOr alt ctx = (handle first (SetHandlers alt ctx), false)
          /\ handlers (SetHandlers alt ctx) = alt
          /\ currentHandlerIndex (SetHandlers alt ctx)
             = currentHandlerIndex ctx
      end
  end.
Proof.
  destruct (NextHandler ctx) as [next | ] eqn:Hnext.
  - apply NextHandler_Some in Hnext as [Hns Hl]; [ | exact Hcursor].
    assert (HN : NextOr alt ctx = (Skip (handle next ctx), true)).
    { unfold NextOr.
      assert (Hn : NextHandler ctx = Some next)
        by (apply NextHandler_Some; [exact Hcursor | split; assumption]).
      rewrite Hn. reflexivity. }
    split; [exact HN | split; [exact Hl | ]].
    cbv zeta. rewrite HN. cbn [fst].
    generalize dependent (handle next ctx). intros ran _ Hc Hh.
    assert (Hlt := lookup_lt_Some _ _ _ Hl).
    assert (Hcur : currentHandlerIndex (Skip ran)
                   = (currentHandlerIndex ctx + 1)%Z).
    { rewrite Skip_cursor, Hc, Hh.
      unfold stopExecutionIndex, len in *.
      rewrite bool_decide_eq_true_2; [reflexivity | lia]. }
    split; [exact Hcur | ].
    rewrite Hcur. unfold Skip. rewrite HandlerIndex_handlers, Hh. exact Hl.
  - unfold NextOr. rewrite Hnext. destruct alt as [ | first rest].
    + cbn. repeat split.
      unfold GetStatusCode, NotFound, StatusCode, StatusNotFound. cbn.
      apply StatusCode_WriteHeader.
    + cbn. repeat split.
Qed.

(** C3.  [EndRequest] calls the application's status-code handler exactly
    when the writer's status code is outside [200, 400), auto-fire is not
    disabled, and the writer's written counter is at most 0; whether it did
    or not, it then calls [FlushResponse] and after it [EndResponse] on the
    writer the context holds at that time. *)
Theorem EndRequest_fires_then_flushes (ctx : context) :
  let code := GetStatusCode ctx in
  let fire :=
    bool_decide (~ (200 <= code < 400)%Z)
    && negb GetDisableAutoFireStatusCode
    && bool_decide (ResponseWriter_.Written (writer ctx) <= 0)%Z in
  let fired := if fire then FireErrorCode ctx else ctx in
  let flushed :=
    set_writer (ResponseWriter_.FlushResponse (writer fired)) fired in
  EndRequest ctx
  = set_writer (ResponseWriter_.EndResponse (writer flushed)) flushed.
Proof.
  intros code fire fired flushed. subst code fire fired flushed.
  unfold EndRequest, StatusCodeNotSuccessful.
  assert (Hb : bool_decide (GetStatusCode ctx < 200 \/ GetStatusCode ctx >= 400)%Z
               = bool_decide (~ (200 <= GetStatusCode ctx < 400)%Z)).
  { apply bool_decide_ext. lia. }
  rewrite Hb.
  destruct (bool_decide (~ (200 <= GetStatusCode ctx < 400)%Z));
    destruct GetDisableAutoFireStatusCode;
    destruct (bool_decide (ResponseWriter_.Written (writer ctx) <= 0)%Z);
    reflexivity.
Qed.

End Chain.

(** Handler 1 of [appNext] is [func(ctx) { trace "h1"; ctx.Next() }]. *)
Lemma appNext_calls_Next (ctx : context) :
  @handle Examples.appNext 1 ctx
  = @Next Examples.appNext (Examples.mark "h1" ctx).
Proof.
  cbn [handle Examples.appNext]. unfold Next.
  set (c := Examples.mark "h1" ctx).
  assert (Hh : handlers c = handlers ctx) by reflexivity.
  assert (Hi : currentHandlerIndex c = currentHandlerIndex ctx) by reflexivity.
  rewrite (HandlerIndex_out_of_range (-1) c) by lia. cbn [snd].
  assert (Hbody :
    Examples.enter (Examples.handlersLeft ctx) 1 ctx
    = match Examples.handlersLeft ctx with
      | O => c
      | S fuel' =>
          if IsStopped c then c
          else if bool_decide (currentHandlerIndex c + 1 < len (handlers c))%Z
               then match at_index (handlers c) (currentHandlerIndex c + 1) with
                    | Some h' =>
                        Examples.enter fuel' h'
                          (fst (HandlerIndex (currentHandlerIndex c + 1) c))
                    | None => c
                    end
               else c
      end).
  { destruct (Examples.handlersLeft ctx); cbn [Examples.enter]; fold c;
      [reflexivity | ].
    rewrite (HandlerIndex_out_of_range (-1) c) by lia. reflexivity. }
  rewrite Hbody. clear Hbody.
  destruct (IsStopped c); [destruct (Examples.handlersLeft ctx); reflexivity | ].
  destruct (bool_decide_reflect
              (currentHandlerIndex c + 1 < len (handlers c))%Z) as [Hlt | Hge].
  - unfold at_index.
    destruct (bool_decide_reflect (0 <= currentHandlerIndex c + 1)%Z)
      as [Hn | Hn].
    + assert (Hleft : Examples.handlersLeft ctx
                      = S (Examples.handlersLeft
                             (fst (HandlerIndex (currentHandlerIndex c + 1) c)))).
      { rewrite HandlerIndex_in_range by lia. cbn [fst].
        unfold Examples.handlersLeft.
        cbn [set_index handlers currentHandlerIndex].
        rewrite Hh, Hi in *. lia. }
      rewrite Hleft. reflexivity.
    + destruct (Examples.handlersLeft ctx); reflexivity.
  - assert (Hleft : Examples.handlersLeft ctx = O)
      by (unfold Examples.handlersLeft; rewrite Hh, Hi in *; lia).
    rewrite Hleft. reflexivity.
Qed.

(** C5, on the code.  [NextOr] runs the next handler with the cursor still
    on the handler that called it, and calls [Skip] only when that handler
    has returned; so the handler can be entered again.

    With the chain [[0; 1; 2]] of [appNext] and the cursor on handler 0,
    the next handler is handler 1, which calls [ctx.Next()]: that call
    finds the cursor on 0 and runs handler 1 once more, at index 1, before
    handler 2 runs; the trace is [h1], [h1], [h2].

    With the chain [[0; 2; 1]] of [app0] and the cursor on handler 0, the
    next handler is handler 2, which stops the execution; [Skip] then asks
    for the index [-1 + 1], which is within the chain, so the cursor is
    back on 0: the context is no longer stopped, the cursor has not
    advanced, and handler 2 is the next handler again. *)
Theorem NextOr_reenters_and_resumes :
  (NextHandler Examples.ctx0 = Some 1
   /\ snd (@NextOr Examples.appNext [] Examples.ctx0) = true
   /\ values (fst (@NextOr Examples.appNext [] Examples.ctx0))
      = [("h1", ""); ("h1", ""); ("h2", "")])
  /\ (NextHandler Examples.ctxStopper = Some 2
      /\ IsStopped (@handle Examples.app0 2 Examples.ctxStopper) = true
      /\ snd (@NextOr Examples.app0 [] Examples.ctxStopper) = true
      /\ IsStopped (fst (@NextOr Examples.app0 [] Examples.ctxStopper)) = false
      /\ currentHandlerIndex (fst (@NextOr Examples.app0 [] Examples.ctxStopper))
         = currentHandlerIndex Examples.ctxStopper
      /\ NextHandler (fst (@NextOr Examples.app0 [] Examples.ctxStopper))
         = Some 2).
Proof. repeat split; vm_compute; reflexivity. Qed.

(** The chain of [ctx0] has a next handler, handler 1, which [NextOr]
    runs. *)
Lemma NextOr_cases_witness :
  (-1 <= currentHandlerIndex Examples.ctx0)%Z
  /\ @NextOr Examples.app0 [] Examples.ctx0
     = (Skip (@handle Examples.app0 1 Examples.ctx0), true).
Proof.
  assert (Hc : (-1 <= currentHandlerIndex Examples.ctx0)%Z)
    by (vm_compute; discriminate).
  split; [exact Hc | ].
  exact (proj1 (@NextOr_cases Examples.app0 [] Examples.ctx0 Hc)).
Defined.

End CtxFacts.

(** * Properties of routes *)

Module RouteFacts.
Import Ctx Route.

(** Building, by cases on the two temporary lists. *)
Ltac build_cases r :=
  unfold BuildHandlers;
  destruct r as [nm m mb sd bh hs mh dh pa fp]; cbn;
  destruct bh as [ | b bs]; destruct dh as [ | d ds]; cbn;
  repeat (case_bool_decide; cbn in *; try lia).

Lemma BuildHandlers_begin (r : Route) : beginHandlers (BuildHandlers r) = [].
Proof. build_cases r; reflexivity. Qed.

Lemma BuildHandlers_done (r : Route) : doneHandlers (BuildHandlers r) = [].
Proof. build_cases r; reflexivity. Qed.

Lemma BuildHandlers_main (r : Route) :
  Handlers_ (BuildHandlers r)
  = beginHandlers r ++ Handlers_ r ++ doneHandlers r.
Proof.
  build_cases r; rewrite ?app_nil_r, <- ?app_assoc; reflexivity.
Qed.

(** A route whose temporary lists are empty is left as it is. *)
Lemma BuildHandlers_built (r : Route) :
  beginHandlers r = [] -> doneHandlers r = [] -> BuildHandlers r = r.
Proof.
  intros Hb Hd. revert Hb Hd. build_cases r; intros; congruence.
Qed.

(** C9.  [BuildHandlers] makes the main handler list
    [begin ++ main ++ done] and empties the begin and done lists, and
    touches nothing else; so building a second time, with no registration
    in between, changes nothing. *)
Theorem BuildHandlers_splices_and_is_idempotent (r : Route) :
  Handlers_ (BuildHandlers r)
    = beginHandlers r ++ Handlers_ r ++ doneHandlers r
  /\ beginHandlers (BuildHandlers r) = []
  /\ doneHandlers (BuildHandlers r) = []
  /\ (Name (BuildHandlers r), Method (BuildHandlers r),
      methodBckp (BuildHandlers r), Subdomain (BuildHandlers r),
      MainHandlerName (BuildHandlers r), Path (BuildHandlers r),
      FormattedPath (BuildHandlers r))
     = (Name r, Method r, methodBckp r, Subdomain r, MainHandlerName r,
        Path r, FormattedPath r)
  /\ BuildHandlers (BuildHandlers r) = BuildHandlers r
  /\ Handlers_ (BuildHandlers (BuildHandlers r)) = Handlers_ (BuildHandlers r).
Proof.
  assert (Hidem : BuildHandlers (BuildHandlers r) = BuildHandlers r)
    by (apply BuildHandlers_built;
        [apply BuildHandlers_begin | apply BuildHandlers_done]).
  split; [apply BuildHandlers_main | ].
  split; [apply BuildHandlers_begin | ].
  split; [apply BuildHandlers_done | ].
  split.
  - clear Hidem. build_cases r; reflexivity.
  - split; [exact Hidem | rewrite Hidem; reflexivity].
Qed.

Section ResolvePath_.
Variable Sprintf : string -> string -> string.

(** The route of the path [/files/*file]: its formatted path is
    [/files/%v]. *)
Definition filesRoute : Route := routeOfPath "GET" "/files/*file" [].

Lemma filesRoute_formatted : FormattedPath filesRoute = "/files/%v".
Proof. reflexivity. Qed.

(** The wildcard case of [ResolvePath] is entered only for a path whose
    last byte is [*]. *)
Lemma ResolvePath_joins_only_after_star (r : Route) (args : list string) :
  Path r <> FormattedPath r ->
  Strings.last_byte (Path r) <> Some WildcardParamStart ->
  Strings.last_byte (Path r) <> None ->
  ResolvePath Sprintf r args = Some (replaceArgs (FormattedPath r) args).
Proof.
  intros Hne Hlast Hsome. unfold ResolvePath.
  destruct (String.eqb_spec (Path r) (FormattedPath r)) as [Heq | _];
    [contradiction | ].
  destruct (Strings.last_byte (Path r)) as [c | ]; [ | contradiction].
  destruct (Ascii.eqb_spec c WildcardParamStart) as [-> | _];
    [contradiction | reflexivity].
Qed.

(** C6, on the code.  For the route [/files/*file] and the arguments
    [["a"; "b"]], [ResolvePath] returns [/files/a]: the path ends in the
    byte [e], not in [*], so the arguments are not joined, the first one
    replaces the only [%v] and the second one is dropped.  (The joined
    path would be [/files/a/b].) *)
Theorem ResolvePath_wildcard_tail_drops_arguments :
  ResolvePath Sprintf filesRoute ["a"; "b"] = Some "/files/a"
  /\ ResolvePath Sprintf filesRoute ["a"; "b"]
     <> Some ("/files/" +:+ Strings.Join ["a"; "b"] "/").
Proof. split; [reflexivity | discriminate]. Qed.

End ResolvePath_.
End RouteFacts.

(** * Properties of the response writers *)

Module WriterFacts.
Import Writers.

Section AtMostOnce.
Context `{NativeIO}.

(** The native writer reports a count that is not negative (the contract of
    [io.Writer]). *)
Hypothesis nativeWrite_nonneg : forall log b, (0 <= nativeWrite log b)%Z.

(** A before-flush callback does not drive the writer itself: it leaves the
    written counter and the status lines sent as they are. *)
Hypothesis callback_quiet : forall cb w,
  written (runCallback cb w) = written w
  /\ sent (runCallback cb w) = sent w.

Lemma sent_tryWriteHeader_first (w : responseWriter) :
  written w = NoWritten ->
  sent (responseWriter_.tryWriteHeader w) = sent w ++ [statusCode w]
  /\ written (responseWriter_.tryWriteHeader w) = StatusCodeWritten.
Proof.
  intros Hw. unfold responseWriter_.tryWriteHeader.
  rewrite bool_decide_eq_true_2 by exact Hw. unfold sent. cbn.
  rewrite omap_app. split; reflexivity.
Qed.

Lemma sent_tryWriteHeader_later (w : responseWriter) :
  written w <> NoWritten -> responseWriter_.tryWriteHeader w = w.
Proof.
  intros Hw. unfold responseWriter_.tryWriteHeader.
  rewrite bool_decide_eq_false_2 by exact Hw. reflexivity.
Qed.

(** The status the writer holds when the call [o] reaches
    [tryWriteHeader]. *)
Definition deferred (w : responseWriter) (o : op) : Z :=
  match o, beforeFlush w with
  | OpFlushResponse, Some cb => statusCode (runCallback cb w)
  | _, _ => statusCode w
  end.

Lemma step_first (w : responseWriter) (o : op) :
  transmits o = true -> written w = NoWritten ->
  sent (step w o) = sent w ++ [deferred w o]
  /\ (0 <= written (step w o))%Z.
Proof.
  intros Ht Hw.
  destruct o as [code | b | b | b | | cb]; try discriminate Ht; cbn.
  1-3: destruct (sent_tryWriteHeader_first w Hw) as [Hs Hwr];
       unfold responseWriter_.Writef, responseWriter_.Write,
         responseWriter_.WriteString; cbn;
       unfold sent in *; cbn; rewrite omap_app, Hs; cbn;
       rewrite app_nil_r, Hwr;
       (split; [reflexivity | ]);
       pose proof (nativeWrite_nonneg
                     (wire (responseWriter_.tryWriteHeader w)) b);
       unfold StatusCodeWritten; lia.
  unfold responseWriter_.FlushResponse, deferred.
  destruct (beforeFlush w) as [cb | ].
  - destruct (callback_quiet cb w) as [Hcw Hcs].
    destruct (sent_tryWriteHeader_first (runCallback cb w)) as [Hs Hwr];
      [congruence | ].
    rewrite Hs, Hwr, Hcs. split; [reflexivity | unfold StatusCodeWritten; lia].
  - destruct (sent_tryWriteHeader_first w Hw) as [Hs Hwr].
    rewrite Hs, Hwr. split; [reflexivity | unfold StatusCodeWritten; lia].
Qed.

Lemma step_later (w : responseWriter) (o : op) :
  (0 <= written w)%Z ->
  sent (step w o) = sent w /\ (0 <= written (step w o))%Z.
Proof.
  intros Hw.
  assert (Hne : written w <> NoWritten) by (unfold NoWritten; lia).
  destruct o as [code | b | b | b | | cb]; cbn.
  - split; [reflexivity | exact Hw].
  - unfold responseWriter_.Write. rewrite (sent_tryWriteHeader_later w Hne).
    unfold sent; cbn. rewrite omap_app; cbn. rewrite app_nil_r.
    split; [reflexivity | ]. pose proof (nativeWrite_nonneg (wire w) b). lia.
  - unfold responseWriter_.Writef, responseWriter_.Write.
    rewrite (sent_tryWriteHeader_later w Hne).
    unfold sent; cbn. rewrite omap_app; cbn. rewrite app_nil_r.
    split; [reflexivity | ]. pose proof (nativeWrite_nonneg (wire w) b). lia.
  - unfold responseWriter_.WriteString.
    rewrite (sent_tryWriteHeader_later w Hne).
    unfold sent; cbn. rewrite omap_app; cbn. rewrite app_nil_r.
    split; [reflexivity | ]. pose proof (nativeWrite_nonneg (wire w) b). lia.
  - unfold responseWriter_.FlushResponse.
    destruct (beforeFlush w) as [cb | ].
    + destruct (callback_quiet cb w) as [Hcw Hcs].
      rewrite sent_tryWriteHeader_later by congruence.
      split; [exact Hcs | lia].
    + rewrite sent_tryWriteHeader_later by exact Hne.
      split; [reflexivity | exact Hw].
  - split; [reflexivity | exact Hw].
Qed.

Lemma step_silent (w : responseWriter) (o : op) :
  transmits o = false ->
  sent (step w o) = sent w /\ written (step w o) = written w.
Proof.
  intros Ht. destruct o; try discriminate Ht; cbn; split; reflexivity.
Qed.

Lemma serve_cons (o : op) (ops : list op) (w : responseWriter) :
  serve w (o :: ops) = serve (step w o) ops.
Proof. reflexivity. Qed.

Lemma serve_later (ops : list op) (w : responseWriter) :
  (0 <= written w)%Z ->
  sent (serve w ops) = sent w /\ (0 <= written (serve w ops))%Z.
Proof.
  revert w. induction ops as [ | o ops IH]; intros w Hw.
  - split; [reflexivity | exact Hw].
  - rewrite serve_cons. destruct (step_later w o Hw) as [Hs Hw'].
    destruct (IH (step w o) Hw') as [Hs2 Hw2].
    split; [congruence | exact Hw2].
Qed.

Lemma serve_silent (ops : list op) (w : responseWriter) :
  existsb transmits ops = false ->
  sent (serve w ops) = sent w /\ written (serve w ops) = written w.
Proof.
  revert w. induction ops as [ | o ops IH]; intros w Hex.
  - split; reflexivity.
  - rewrite serve_cons. cbn in Hex. apply orb_false_iff in Hex as [Ho Hex].
    destruct (step_silent w o Ho) as [Hs Hw].
    destruct (IH (step w o) Hex) as [Hs2 Hw2].
    split; congruence.
Qed.

(** Up to the earliest transmitting call nothing is sent; that call sends
    the deferred status; nothing is sent after it. *)
Lemma serve_split (before after : list op) (o : op) (w : responseWriter) :
  written w = NoWritten ->
  existsb transmits before = false -> transmits o = true ->
  let wb := serve w before in
  written wb = NoWritten
  /\ sent wb = sent w
  /\ sent (step wb o) = sent w ++ [deferred wb o]
  /\ sent (serve w (before ++ o :: after)) = sent w ++ [deferred wb o]
  /\ (0 <= written (serve w (before ++ o :: after)))%Z.
Proof.
  intros Hw Hb Ho wb. subst wb.
  destruct (serve_silent before w Hb) as [Hs Hwb].
  assert (Hwb' : written (serve w before) = NoWritten) by congruence.
  destruct (step_first (serve w before) o Ho Hwb') as [Hs1 Hw1].
  unfold serve in *. rewrite foldl_app. cbn.
  destruct (serve_later after (step (foldl step w before) o) Hw1) as [Hs2 Hw2].
  unfold serve in *.
  repeat split; try congruence; try exact Hw2.
Qed.

(** Every list of calls with a transmitting call splits at the earliest
    one. *)
Lemma earliest_transmitting (ops : list op) :
  existsb transmits ops = true ->
  exists before o after,
    ops = before ++ o :: after
    /\ existsb transmits before = false /\ transmits o = true.
Proof.
  induction ops as [ | o ops IH]; cbn; [discriminate | ].
  destruct (transmits o) eqn:Ho; cbn.
  - intros _. exists [], o, ops. repeat split; assumption.
  - intros Hex. destruct (IH Hex) as (before & o' & after & -> & Hb & Ho').
    exists (o :: before), o', after. cbn. rewrite Ho. repeat split; assumption.
Qed.

(** Without [SetWritten], and with callbacks that leave the written
    counter and the status lines as they are, the native [WriteHeader]
    call is made at most once.  Up to the earliest body write ([Write],
    [Writef], [WriteString]) or explicit [FlushResponse] nothing is sent
    and the written counter is [NoWritten]; that call sends the deferred
    status code, once, and takes the counter off [NoWritten]; no later
    write or flush sends anything. *)
Theorem status_sent_at_most_once (h : Header) (ops : list op) :
  let w0 := responseWriter_.BeginResponse h [] in
  (length (sent (serve w0 ops)) <= 1)%nat
  /\ (existsb transmits ops = false ->
      sent (serve w0 ops) = [] /\ written (serve w0 ops) = NoWritten)
  /\ (forall before o after,
        ops = before ++ o :: after ->
        existsb transmits before = false -> transmits o = true ->
        let wb := serve w0 before in
        sent wb = [] /\ written wb = NoWritten
        /\ sent (step wb o) = [deferred wb o]
        /\ written (step wb o) <> NoWritten
        /\ sent (serve w0 ops) = [deferred wb o]
        /\ written (serve w0 ops) <> NoWritten)
  /\ (forall before o,
        (0 <= written (serve w0 before))%Z ->
        sent (step (serve w0 before) o) = sent (serve w0 before)).
Proof.
  intros w0.
  assert (Hw0 : written w0 = NoWritten) by reflexivity.
  assert (Hs0 : sent w0 = []) by reflexivity.
  assert (Hsplit : forall before o after,
            ops = before ++ o :: after ->
            existsb transmits before = false -> transmits o = true ->
            let wb := serve w0 before in
            sent wb = [] /\ written wb = NoWritten
            /\ sent (step wb o) = [deferred wb o]
            /\ written (step wb o) <> NoWritten
            /\ sent (serve w0 ops) = [deferred wb o]
            /\ written (serve w0 ops) <> NoWritten).
  { intros before o after -> Hb Ho wb.
    destruct (serve_split before after o w0 Hw0 Hb Ho)
      as (Hwb & Hsb & Hstep & Hall & Hwall).
    fold wb in Hwb, Hsb, Hstep, Hall.
    destruct (step_first wb o Ho Hwb) as [_ Hpos].
    rewrite Hs0 in *. cbn in *.
    repeat split; try assumption; unfold NoWritten; lia. }
  split; [ | split; [ | split; [exact Hsplit | ]]].
  - destruct (existsb transmits ops) eqn:Hex.
    + destruct (earliest_transmitting ops Hex)
        as (before & o & after & Heq & Hb & Ho).
      destruct (Hsplit before o after Heq Hb Ho) as (_ & _ & _ & _ & Hall & _).
      rewrite Hall. cbn. lia.
    + destruct (serve_silent ops w0 Hex) as [Hs _]. rewrite Hs, Hs0. cbn. lia.
  - intros Hex. destruct (serve_silent ops w0 Hex) as [Hs Hw].
    split; congruence.
  - intros before o Hpos. apply (step_later _ o Hpos).
Qed.

End AtMostOnce.

(** With the native writer and the callbacks of [io0]: after a deferred
    404, one body write and a flush, the status was sent once. *)
Lemma status_sent_at_most_once_witness :
  (forall log b, (0 <= @nativeWrite Examples.io0 log b)%Z)
  /\ (forall cb w,
        written (@runCallback Examples.io0 cb w) = written w
        /\ sent (@runCallback Examples.io0 cb w) = sent w)
  /\ (length (sent (@serve Examples.io0
                      (responseWriter_.BeginResponse ∅ [])
                      [OpWriteHeader 404; OpWrite "x"; OpFlushResponse]))
      <= 1)%nat.
Proof.
  assert (H1 : forall log b, (0 <= @nativeWrite Examples.io0 log b)%Z)
    by (intros log b; cbn; lia).
  assert (H2 : forall cb w,
             written (@runCallback Examples.io0 cb w) = written w
             /\ sent (@runCallback Examples.io0 cb w) = sent w)
    by (intros cb w; split; reflexivity).
  split; [exact H1 | split; [exact H2 | ]].
  exact (proj1 (@status_sent_at_most_once Examples.io0 H1 H2 ∅
                  [OpWriteHeader 404; OpWrite "x"; OpFlushResponse])).
Defined.

(** The calls of a request on its base writer, [SetWritten] included. *)
Inductive request_call :=
| Plain (o : op)
| CallSetWritten (n : Z).

(** The calls that put the written counter back to [NoWritten]. *)
Definition rearms (c : request_call) : bool :=
  match c with
  | CallSetWritten n => bool_decide (n = NoWritten)
  | Plain _ => false
  end.

(** The code given to [WriteHeader] last, from [code] on. *)
Definition lastCode (code : Z) (ops : list op) : Z :=
  foldl (fun c o => match o with OpWriteHeader c' => c' | _ => c end) code ops.

(** The calls up to the first one that transmits the status. *)
Fixpoint quiet (ops : list op) : list op :=
  match ops with
  | [] => []
  | o :: rest => if transmits o then [] else o :: quiet rest
  end.

Definition flushes (o : op) : bool :=
  match o with OpFlushResponse => true | _ => false end.

Section PerArming.
Context `{NativeIO}.

Hypothesis nativeWrite_nonneg : forall log b, (0 <= nativeWrite log b)%Z.

(** A before-flush callback drives the writer by calls of its own, the
    calls of its body; none of them is [FlushResponse], which would run
    the callback again. *)
Variable body : Callback -> list op.
Hypothesis callback_body : forall cb w, runCallback cb w = serve w (body cb).
Hypothesis callback_no_flush : forall cb, existsb flushes (body cb) = false.

Definition act (w : responseWriter) (c : request_call) : responseWriter :=
  match c with
  | Plain o => step w o
  | CallSetWritten n => responseWriter_.SetWritten n w
  end.

Definition run (w : responseWriter) (cs : list request_call) : responseWriter :=
  foldl act w cs.

(** The status code that the call [o] transmits from [w]: the deferred
    code, or, for a flush with a callback, the deferred code when the
    callback first writes, or when it returns. *)
Definition transmitted (w : responseWriter) (o : op) : Z :=
  match o, beforeFlush w with
  | OpFlushResponse, Some cb => lastCode (statusCode w) (quiet (body cb))
  | _, _ => statusCode w
  end.

Lemma write_first (w : responseWriter) (o : op) :
  transmits o = true -> flushes o = false -> written w = NoWritten ->
  sent (step w o) = sent w ++ [statusCode w]
  /\ (0 <= written (step w o))%Z.
Proof.
  intros Ht Hf Hw.
  destruct o as [code | b | b | b | | cb]; try discriminate; cbn.
  all: destruct (sent_tryWriteHeader_first w Hw) as [Hs Hwr];
       unfold responseWriter_.Writef, responseWriter_.Write,
         responseWriter_.WriteString; cbn;
       unfold sent in *; cbn; rewrite omap_app, Hs; cbn;
       rewrite app_nil_r, Hwr;
       (split; [reflexivity | ]);
       pose proof (nativeWrite_nonneg
                     (wire (responseWriter_.tryWriteHeader w)) b);
       unfold StatusCodeWritten; lia.
Qed.

Lemma call_later (w : responseWriter) (o : op) :
  flushes o = false -> (0 <= written w)%Z ->
  sent (step w o) = sent w /\ (0 <= written (step w o))%Z.
Proof.
  intros Hf Hw.
  assert (Hne : written w <> NoWritten) by (unfold NoWritten; lia).
  destruct o as [code | b | b | b | | cb]; try discriminate; cbn.
  - split; [reflexivity | exact Hw].
  - unfold responseWriter_.Write. rewrite (sent_tryWriteHeader_later w Hne).
    unfold sent; cbn. rewrite omap_app; cbn. rewrite app_nil_r.
    split; [reflexivity | ]. pose proof (nativeWrite_nonneg (wire w) b). lia.
  - unfold responseWriter_.Writef, responseWriter_.Write.
    rewrite (sent_tryWriteHeader_later w Hne).
    unfold sent; cbn. rewrite omap_app; cbn. rewrite app_nil_r.
    split; [reflexivity | ]. pose proof (nativeWrite_nonneg (wire w) b). lia.
  - unfold responseWriter_.WriteString.
    rewrite (sent_tryWriteHeader_later w Hne).
    unfold sent; cbn. rewrite omap_app; cbn. rewrite app_nil_r.
    split; [reflexivity | ]. pose proof (nativeWrite_nonneg (wire w) b). lia.
  - split; [reflexivity | exact Hw].
Qed.

Lemma calls_later (ops : list op) :
  forall w,
    existsb flushes ops = false -> (0 <= written w)%Z ->
    sent (serve w ops) = sent w /\ (0 <= written (serve w ops))%Z.
Proof.
  induction ops as [ | o ops IH]; intros w Hf Hw.
  - split; [reflexivity | exact Hw].
  - cbn [existsb] in Hf. apply orb_false_iff in Hf as [Ho Hf].
    rewrite serve_cons. destruct (call_later w o Ho Hw) as [Hs Hw'].
    destruct (IH (step w o) Hf Hw') as [Hs2 Hw2].
    split; [congruence | exact Hw2].
Qed.

Lemma statusCode_silent (w : responseWriter) (o : op) :
  transmits o = false -> statusCode (step w o) = lastCode (statusCode w) [o].
Proof. destruct o; try discriminate; reflexivity. Qed.

Lemma lastCode_cons (code : Z) (o : op) (ops : list op) :
  lastCode code (o :: ops) = lastCode (lastCode code [o]) ops.
Proof. reflexivity. Qed.

(** The calls of a body, from a writer that has not sent the status: the
    first call that writes sends the code deferred up to it; with no such
    call nothing is sent. *)
Lemma calls_first (ops : list op) :
  forall w,
    existsb flushes ops = false -> written w = NoWritten ->
    if existsb transmits ops
    then sent (serve w ops) = sent w ++ [lastCode (statusCode w) (quiet ops)]
         /\ (0 <= written (serve w ops))%Z
    else sent (serve w ops) = sent w /\ written (serve w ops) = NoWritten
         /\ statusCode (serve w ops) = lastCode (statusCode w) (quiet ops).
Proof.
  induction ops as [ | o ops IH]; intros w Hf Hw.
  - cbn. repeat split. exact Hw.
  - cbn [existsb] in Hf. apply orb_false_iff in Hf as [Ho Hf].
    rewrite serve_cons. cbn [existsb quiet].
    destruct (transmits o) eqn:Ht; cbn [orb].
    + destruct (write_first w o Ht Ho Hw) as [Hs Hw'].
      destruct (calls_later ops (step w o) Hf Hw') as [Hs2 Hw2].
      split; [ | exact Hw2]. rewrite Hs2, Hs. reflexivity.
    + destruct (step_silent w o Ht) as [Hs Hw'].
      specialize (IH (step w o) Hf (eq_trans Hw' Hw)).
      rewrite (statusCode_silent w o Ht) in IH. rewrite lastCode_cons.
      destruct (existsb transmits ops); rewrite Hs in IH; exact IH.
Qed.

Lemma transmit_first (w : responseWriter) (o : op) :
  transmits o = true -> written w = NoWritten ->
  sent (step w o) = sent w ++ [transmitted w o]
  /\ (0 <= written (step w o))%Z.
Proof.
  intros Ht Hw. destruct (flushes o) eqn:Hf.
  - destruct o; try discriminate. cbn [step].
    unfold responseWriter_.FlushResponse, transmitted.
    destruct (beforeFlush w) as [cb | ].
    + rewrite callback_body.
      pose proof (calls_first (body cb) w (callback_no_flush cb) Hw) as Hb.
      destruct (existsb transmits (body cb)).
      * destruct Hb as [Hs Hpos].
        rewrite sent_tryWriteHeader_later by (unfold NoWritten; lia).
        split; assumption.
      * destruct Hb as (Hs & Hwr & Hc).
        destruct (sent_tryWriteHeader_first _ Hwr) as [Hs1 Hw1].
        rewrite Hs1, Hw1, Hs, Hc. split; [reflexivity | ].
        unfold StatusCodeWritten. lia.
    + destruct (sent_tryWriteHeader_first w Hw) as [Hs Hwr].
      rewrite Hs, Hwr. split; [reflexivity | unfold StatusCodeWritten; lia].
  - destruct (write_first w o Ht Hf Hw) as [Hs Hpos].
    split; [ | exact Hpos]. rewrite Hs. unfold transmitted.
    destruct o; try discriminate; reflexivity.
Qed.

Lemma transmit_later (w : responseWriter) (o : op) :
  (0 <= written w)%Z ->
  sent (step w o) = sent w /\ (0 <= written (step w o))%Z.
Proof.
  intros Hw. destruct (flushes o) eqn:Hf.
  - destruct o; try discriminate. cbn [step].
    unfold responseWriter_.FlushResponse.
    destruct (beforeFlush w) as [cb | ].
    + rewrite callback_body.
      destruct (calls_later (body cb) w (callback_no_flush cb) Hw)
        as [Hs Hpos].
      rewrite sent_tryWriteHeader_later by (unfold NoWritten; lia).
      split; assumption.
    + rewrite sent_tryWriteHeader_later by (unfold NoWritten; lia).
      split; [reflexivity | exact Hw].
  - exact (call_later w o Hf Hw).
Qed.

Lemma served_later (ops : list op) :
  forall w,
    (0 <= written w)%Z ->
    sent (serve w ops) = sent w /\ (0 <= written (serve w ops))%Z.
Proof.
  induction ops as [ | o ops IH]; intros w Hw.
  - split; [reflexivity | exact Hw].
  - rewrite serve_cons. destruct (transmit_later w o Hw) as [Hs Hw'].
    destruct (IH (step w o) Hw') as [Hs2 Hw2].
    split; [congruence | exact Hw2].
Qed.

Lemma statusCode_quiet (ops : list op) :
  forall w,
    existsb transmits ops = false ->
    statusCode (serve w ops) = lastCode (statusCode w) ops.
Proof.
  induction ops as [ | o ops IH]; intros w Hq; [reflexivity | ].
  cbn [existsb] in Hq. apply orb_false_iff in Hq as [Ho Hq].
  rewrite serve_cons, lastCode_cons, (IH _ Hq), (statusCode_silent w o Ho).
  reflexivity.
Qed.

(** Each call keeps the count: a status is sent only from a counter on
    [NoWritten], which the sending takes off it; only [SetWritten] puts it
    back. *)
Lemma act_count (w : responseWriter) (c : request_call) :
  (-1 <= written w)%Z ->
  (-1 <= written (act w c))%Z
  /\ length (sent (act w c))
     + (if bool_decide (written (act w c) = NoWritten) then 1 else 0)
     <= length (sent w)
        + (if bool_decide (written w = NoWritten) then 1 else 0)
        + (if rearms c then 1 else 0).
Proof.
  intros Hw. destruct c as [o | n]; cbn [act rearms].
  - destruct (bool_decide_reflect (written w = NoWritten)) as [Hn | Hn].
    + destruct (transmits o) eqn:Ht.
      * destruct (transmit_first w o Ht Hn) as [Hs Hpos].
        rewrite Hs, length_app. cbn [length].
        rewrite bool_decide_eq_false_2 by (unfold NoWritten; lia).
        split; lia.
      * destruct (step_silent w o Ht) as [Hs Hw'].
        rewrite Hs, Hw', bool_decide_eq_true_2 by exact Hn.
        split; [ | lia]. rewrite Hn. unfold NoWritten. lia.
    + assert (Hpos : (0 <= written w)%Z) by (unfold NoWritten in Hn; lia).
      destruct (transmit_later w o Hpos) as [Hs Hpos'].
      rewrite Hs, bool_decide_eq_false_2 by (unfold NoWritten; lia).
      split; lia.
  - unfold responseWriter_.SetWritten.
    destruct (bool_decide_reflect (NoWritten <= n /\ n <= StatusCodeWritten)%Z)
      as [Hr | Hr]; cbn [written sent wire].
    + change (sent {| header := header w; statusCode := statusCode w;
                      written := n; beforeFlush := beforeFlush w;
                      wire := wire w |}) with (sent w).
      unfold NoWritten, StatusCodeWritten in *.
      destruct (bool_decide_reflect (n = -1)%Z) as [Hn | Hn];
        (split; [lia | ]); destruct (bool_decide (written w = -1)%Z); lia.
    + split; [exact Hw | ].
      destruct (bool_decide (written w = NoWritten)),
        (bool_decide (n = NoWritten)); lia.
Qed.

Lemma run_count (cs : list request_call) :
  forall w,
    (-1 <= written w)%Z ->
    length (sent (run w cs))
    + (if bool_decide (written (run w cs) = NoWritten) then 1 else 0)
    <= length (sent w)
       + (if bool_decide (written w = NoWritten) then 1 else 0)
       + length (filter (fun c => rearms c = true) cs).
Proof.
  induction cs as [ | c cs IH]; intros w Hw.
  - cbn. lia.
  - change (run w (c :: cs)) with (run (act w c) cs).
    destruct (act_count w c Hw) as [Hw' Hc].
    specialize (IH (act w c) Hw').
    rewrite filter_cons. destruct (rearms c) eqn:Hr.
    + rewrite decide_True by reflexivity. cbn [length]. lia.
    + rewrite decide_False by discriminate. lia.
Qed.

(** C4, amended.  After [BeginResponse], whatever calls of [WriteHeader],
    [Write], [Writef], [WriteString], [FlushResponse], [SetBeforeFlush] and
    [SetWritten] a request makes on its base writer, the native
    [WriteHeader] call is made at most once more than [SetWritten] is
    called with [NoWritten]; this for a native writer that reports counts
    that are not negative, and for before-flush callbacks that drive the
    writer by calls of the same list, [FlushResponse] and [SetWritten]
    apart.  Without [SetWritten] the call is made at most once: up to the
    earliest body write or explicit flush nothing is sent, the counter is
    [NoWritten], and the deferred code is the one given to [WriteHeader]
    last, 200 when none was given; that call sends the deferred code (for
    a flush with a callback: the code deferred when the callback first
    writes, or when it returns) and takes the counter off [NoWritten]; and
    a call on a writer whose counter is not negative sends nothing. *)
Theorem status_sent_once_per_arming (h : Header) (cs : list request_call)
    (ops : list op) :
  let w0 := responseWriter_.BeginResponse h [] in
  length (sent (run w0 cs)) <= 1 + length (filter (fun c => rearms c = true) cs)
  /\ length (sent (serve w0 ops)) <= 1
  /\ (existsb transmits ops = false ->
      sent (serve w0 ops) = [] /\ written (serve w0 ops) = NoWritten)
  /\ (forall before o after,
        ops = before ++ o :: after ->
        existsb transmits before = false -> transmits o = true ->
        let wb := serve w0 before in
        sent wb = [] /\ written wb = NoWritten
        /\ statusCode wb = lastCode defaultStatusCode before
        /\ sent (step wb o) = [transmitted wb o]
        /\ written (step wb o) <> NoWritten
        /\ sent (serve w0 ops) = [transmitted wb o]
        /\ written (serve w0 ops) <> NoWritten)
  /\ (forall w o, (0 <= written w)%Z -> sent (step w o) = sent w).
Proof.
  intros w0.
  assert (Hw0 : written w0 = NoWritten) by reflexivity.
  assert (Hs0 : sent w0 = []) by reflexivity.
  assert (Hsplit : forall before o after,
            ops = before ++ o :: after ->
            existsb transmits before = false -> transmits o = true ->
            let wb := serve w0 before in
            sent wb = [] /\ written wb = NoWritten
            /\ statusCode wb = lastCode defaultStatusCode before
            /\ sent (step wb o) = [transmitted wb o]
            /\ written (step wb o) <> NoWritten
            /\ sent (serve w0 ops) = [transmitted wb o]
            /\ written (serve w0 ops) <> NoWritten).
  { intros before o after -> Hb Ho wb.
    destruct (serve_silent before w0 Hb) as [Hsb Hwb].
    fold wb in Hsb, Hwb.
    assert (Hwb' : written wb = NoWritten) by congruence.
    destruct (transmit_first wb o Ho Hwb') as [Hs1 Hpos1].
    assert (Hall : serve w0 (before ++ o :: after) = serve (step wb o) after).
    { unfold serve, wb. rewrite foldl_app. reflexivity. }
    destruct (served_later after (step wb o) Hpos1) as [Hs2 Hpos2].
    rewrite Hall, Hs2, Hs1, Hsb, Hs0.
    split; [reflexivity | ]. split; [exact Hwb' | ].
    split; [exact (statusCode_quiet before w0 Hb) | ].
    repeat split; unfold NoWritten; lia. }
  split; [ | split; [ | split; [ | split; [exact Hsplit | ]]]].
  - pose proof (run_count cs w0) as Hc.
    rewrite Hw0, Hs0 in Hc. cbn [length] in Hc.
    rewrite (bool_decide_eq_true_2 (NoWritten = NoWritten)) in Hc
      by reflexivity.
    specialize (Hc ltac:(unfold NoWritten; lia)).
    destruct (bool_decide (written (run w0 cs) = NoWritten)); lia.
  - destruct (existsb transmits ops) eqn:Hex.
    + destruct (earliest_transmitting ops Hex)
        as (before & o & after & Heq & Hb & Ho).
      destruct (Hsplit before o after Heq Hb Ho) as (_ & _ & _ & _ & _ & Hall & _).
      rewrite Hall. cbn. lia.
    + destruct (serve_silent ops w0 Hex) as [Hs _]. rewrite Hs, Hs0. cbn. lia.
  - intros Hex. destruct (serve_silent ops w0 Hex) as [Hs Hw].
    split; congruence.
  - intros w o Hpos. exact (proj1 (transmit_later w o Hpos)).
Qed.

End PerArming.

(** With the native writer of [ioBye], whose callbacks write: a callback
    is registered, 404 is deferred, the flush runs the callback, whose
    write sends the status; [SetWritten(NoWritten)] then lets the next
    write send it again, and that is all. *)
Lemma status_sent_once_per_arming_witness :
  let cs := [Plain (OpSetBeforeFlush (Some 0)); Plain (OpWriteHeader 404);
             Plain OpFlushResponse; CallSetWritten NoWritten;
             Plain (OpWrite "x")] in
  let ops := [OpSetBeforeFlush (Some 0); OpWriteHeader 404; OpFlushResponse;
              OpWrite "x"] in
  let body := fun _ : Callback => [OpWriteString "bye"] in
  (forall log b, (0 <= @nativeWrite Examples.ioBye log b)%Z)
  /\ (forall cb w,
        @runCallback Examples.ioBye cb w = @serve Examples.ioBye w (body cb))
  /\ (forall cb, existsb flushes (body cb) = false)
  /\ length (sent (@run Examples.ioBye (responseWriter_.BeginResponse ∅ []) cs))
     <= 1 + length (filter (fun c => rearms c = true) cs)
  /\ length (sent (@serve Examples.ioBye (responseWriter_.BeginResponse ∅ [])
                     ops)) <= 1.
Proof.
  intros cs ops body.
  assert (H1 : forall log b, (0 <= @nativeWrite Examples.ioBye log b)%Z)
    by (intros log b; cbn; lia).
  assert (H2 : forall cb w,
             @runCallback Examples.ioBye cb w
             = @serve Examples.ioBye w (body cb))
    by (intros cb w; reflexivity).
  assert (H3 : forall cb, existsb flushes (body cb) = false)
    by (intros cb; reflexivity).
  split; [exact H1 | split; [exact H2 | split; [exact H3 | ]]].
  pose proof (@status_sent_once_per_arming Examples.ioBye H1 body H2 H3 ∅
                cs ops) as Hthm.
  cbv zeta in Hthm. split; [exact (proj1 Hthm) | exact (proj1 (proj2 Hthm))].
Defined.

(** C4, as the specification words it, fails: [SetWritten] is a method of
    the writer, and [SetWritten(NoWritten)] between two writes makes the
    second write send the status line again. *)
Lemma status_sent_twice_after_SetWritten :
  let w0 := @responseWriter_.BeginResponse ∅ [] in
  let w1 := fst (@responseWriter_.Write Examples.io0 "a" w0) in
  let w2 := responseWriter_.SetWritten NoWritten w1 in
  let w3 := fst (@responseWriter_.Write Examples.io0 "b" w2) in
  sent w1 = [200%Z] /\ written w2 = NoWritten
  /\ sent w3 = [200%Z; 200%Z] /\ length (sent w3) = 2.
Proof. repeat split. Qed.

Section GzipHeaders.
Context `{NativeIO}.

Lemma underline_Write_header (b : string) (u : underline) :
  underline_.Header_ (fst (underline_.Write b u)) = underline_.Header_ u.
Proof.
  destruct u as [w | r]; cbn; [ | reflexivity].
  unfold responseWriter_.tryWriteHeader. case_bool_decide; reflexivity.
Qed.

Lemma writeGzip_header (u : underline) (b : string) :
  underline_.Header_ (fst (GzipResponseWriter_.writeGzip u b))
  = underline_.Header_ u.
Proof.
  unfold GzipResponseWriter_.writeGzip. cbn.
  generalize (gzipWrites b). intros bufs. revert u.
  induction bufs as [ | buf bufs IH]; intros u; cbn; [reflexivity | ].
  rewrite IH. apply underline_Write_header.
Qed.

Lemma AddGzipHeaders_header (u : underline) :
  underline_.Header_ (GzipResponseWriter_.AddGzipHeaders u)
  = AddGzipHeaders_map (underline_.Header_ u).
Proof. destruct u; reflexivity. Qed.

(** The header map after [WriteNow]: the two gzip headers are added when
    the writer compresses, nothing is touched when it passes through; in
    neither case is a header deleted. *)
Lemma WriteNow_header (contents : string) (g : GzipResponseWriter) :
  underline_.Header_ (gz_under (fst (GzipResponseWriter_.WriteNow contents g)))
  = if disabled g then underline_.Header_ (gz_under g)
    else AddGzipHeaders_map (underline_.Header_ (gz_under g)).
Proof.
  unfold GzipResponseWriter_.WriteNow. destruct (disabled g).
  - pose proof (underline_Write_header contents (gz_under g)) as Hw.
    destruct (underline_.Write contents (gz_under g)) as [u1 n]. exact Hw.
  - pose proof (writeGzip_header
                  (GzipResponseWriter_.AddGzipHeaders (gz_under g)) contents)
      as Hw.
    destruct (GzipResponseWriter_.writeGzip
                (GzipResponseWriter_.AddGzipHeaders (gz_under g)) contents)
      as [u2 n].
    cbn in *. rewrite Hw. apply AddGzipHeaders_header.
Qed.

Lemma AddGzipHeaders_map_other (key : string) (h : Header) :
  key <> ContentEncodingHeaderKey -> key <> VaryHeaderKey ->
  AddGzipHeaders_map h !! key = h !! key.
Proof.
  intros H1 H2. unfold AddGzipHeaders_map, Header_Add.
  rewrite !lookup_insert_ne by congruence. reflexivity.
Qed.

Lemma AddGzipHeaders_map_has (h : Header) :
  Header_has ContentEncodingHeaderKey GzipHeaderValue (AddGzipHeaders_map h)
  /\ Header_has VaryHeaderKey AcceptEncodingHeaderKey (AddGzipHeaders_map h).
Proof.
  unfold AddGzipHeaders_map, Header_Add, Header_has. split.
  - eexists. rewrite lookup_insert_eq. split; [reflexivity | ].
    apply elem_of_app. right. apply list_elem_of_singleton. reflexivity.
  - eexists. rewrite lookup_insert_ne by discriminate.
    rewrite lookup_insert_eq. split; [reflexivity | ].
    apply elem_of_app. right. apply list_elem_of_singleton. reflexivity.
Qed.

(** Compressed output keeps a Content-Length that was set before. *)
Lemma WriteNow_keeps_ContentLength (contents : string)
    (g : GzipResponseWriter) :
  underline_.Header_ (gz_under (fst (GzipResponseWriter_.WriteNow contents g)))
    !! ContentLengthHeaderKey
  = underline_.Header_ (gz_under g) !! ContentLengthHeaderKey.
Proof.
  rewrite WriteNow_header. destruct (disabled g); [reflexivity | ].
  apply AddGzipHeaders_map_other; discriminate.
Qed.

(** A gzip writer, not disabled, over a base writer on which a handler has
    set [Content-Length: 5], with the body [hello] buffered. *)
Definition gzipWithLength : GzipResponseWriter :=
  {| gz_under :=
       UBase (responseWriter_.set_header
                (Header_Set ContentLengthHeaderKey "5")
                (responseWriter_.BeginResponse ∅ []));
     chunks := "hello"; disabled := false |}.

Lemma tryWriteHeader_header (w : responseWriter) :
  header (responseWriter_.tryWriteHeader w) = header w.
Proof.
  unfold responseWriter_.tryWriteHeader. case_bool_decide; reflexivity.
Qed.

(** The status lines a base writer sends carry the header map [h] as long
    as the map does not change. *)
Definition sends_with (h : Header) (w : responseWriter) : Prop :=
  header w = h /\ beforeFlush w = None
  /\ forall code hdr, NativeWriteHeader code hdr ∈ wire w -> hdr = h.

Lemma sends_with_tryWriteHeader (h : Header) (w : responseWriter) :
  sends_with h w -> sends_with h (responseWriter_.tryWriteHeader w).
Proof.
  intros (Hh & Hb & Hw). unfold responseWriter_.tryWriteHeader.
  case_bool_decide; [ | repeat split; assumption].
  repeat split; cbn; try assumption.
  intros code hdr Hin. apply elem_of_app in Hin as [Hin | Hin].
  - exact (Hw code hdr Hin).
  - apply list_elem_of_singleton in Hin. congruence.
Qed.

Lemma sends_with_Write (h : Header) (b : string) (w : responseWriter) :
  sends_with h w -> sends_with h (fst (responseWriter_.Write b w)).
Proof.
  intros Hs. apply sends_with_tryWriteHeader in Hs.
  destruct Hs as (Hh & Hb & Hw). unfold responseWriter_.Write.
  repeat split; cbn; try assumption.
  intros code hdr Hin. apply elem_of_app in Hin as [Hin | Hin].
  - exact (Hw code hdr Hin).
  - apply list_elem_of_singleton in Hin. discriminate.
Qed.

Lemma tryWriteHeader_sends (w : responseWriter) :
  exists code hdr,
    written w = NoWritten ->
    NativeWriteHeader code hdr ∈ wire (responseWriter_.tryWriteHeader w).
Proof.
  exists (statusCode w), (header w). intros Hw.
  unfold responseWriter_.tryWriteHeader.
  rewrite bool_decide_eq_true_2 by exact Hw. cbn.
  apply elem_of_app. right. apply list_elem_of_singleton. reflexivity.
Qed.

(** C2, on the code.  Flushing [gzipWithLength] (compressed output, a
    Content-Length set before) leaves a header map that holds
    [Content-Encoding: gzip], [Vary: Accept-Encoding] and still
    [Content-Length: 5]; and every status line the flush sends carries
    that map, Content-Length included. *)
Theorem gzip_flush_keeps_ContentLength :
  let g := GzipResponseWriter_.FlushResponse gzipWithLength in
  let h := underline_.Header_ (gz_under g) in
  h !! ContentLengthHeaderKey = Some ["5"]
  /\ h !! ContentEncodingHeaderKey = Some [GzipHeaderValue]
  /\ h !! VaryHeaderKey = Some [AcceptEncodingHeaderKey]
  /\ forall code hdr,
       NativeWriteHeader code hdr ∈ wire (underline_.base (gz_under g)) ->
       hdr !! ContentLengthHeaderKey = Some ["5"]
       /\ hdr !! ContentEncodingHeaderKey = Some [GzipHeaderValue].
Proof.
  set (h0 := AddGzipHeaders_map (Header_Set ContentLengthHeaderKey "5" ∅)).
  assert (Hcl : h0 !! ContentLengthHeaderKey = Some ["5"]) by reflexivity.
  assert (Hce : h0 !! ContentEncodingHeaderKey = Some [GzipHeaderValue])
    by reflexivity.
  assert (Hva : h0 !! VaryHeaderKey = Some [AcceptEncodingHeaderKey])
    by reflexivity.
  assert (Hfold : forall bufs w, sends_with h0 w ->
            exists w', foldl (fun u' buf => fst (underline_.Write buf u'))
                         (UBase w) bufs = UBase w' /\ sends_with h0 w').
  { induction bufs as [ | buf bufs IH]; intros w Hs; cbn.
    - exists w. split; [reflexivity | exact Hs].
    - change (fst (underline_.Write buf (UBase w)))
        with (UBase (fst (responseWriter_.Write buf w))).
      apply IH. apply sends_with_Write. exact Hs. }
  destruct (Hfold (gzipWrites "hello")
              (responseWriter_.set_header AddGzipHeaders_map
                 (responseWriter_.set_header
                    (Header_Set ContentLengthHeaderKey "5")
                    (responseWriter_.BeginResponse ∅ []))))
    as (w' & Hw' & Hs').
  { repeat split. cbn. intros code hdr Hin. inversion Hin. }
  intros g h. subst g h.
  unfold GzipResponseWriter_.FlushResponse, GzipResponseWriter_.WriteNow,
    GzipResponseWriter_.writeGzip, GzipResponseWriter_.AddGzipHeaders,
    gzipWithLength.
  cbn -[foldl responseWriter_.BeginResponse]. rewrite Hw'.
  cbn -[responseWriter_.BeginResponse].
  destruct Hs' as (Hh & Hb & Hw).
  unfold responseWriter_.FlushResponse. rewrite Hb.
  assert (Hfin : sends_with h0 (responseWriter_.tryWriteHeader w'))
    by (apply sends_with_tryWriteHeader; repeat split; assumption).
  destruct Hfin as (Hh2 & _ & Hw2).
  rewrite Hh2.
  repeat split; try assumption.
  - rewrite (Hw2 code hdr H0). exact Hcl.
  - rewrite (Hw2 code hdr H0). exact Hce.
Qed.

End GzipHeaders.
End WriterFacts.

(** * Properties of the status-code handlers *)

Module StatusFacts.
Import Writers Ctx Status.

Section Fire_.
Context `{NativeIO} `{Application}.

(** The writer [Fire] prepares: a recorder takes the registered code unless
    it holds an error code already, and loses its headers and body; a gzip
    writer loses its body and is disabled; a base writer is left alone. *)
Definition prepared (ch : ErrorCodeHandler) (w : ResponseWriter)
  : ResponseWriter :=
  match w with
  | WRecorder r =>
      WRecorder
        {| rec_under :=
             if bool_decide (200 <= statusCode (rec_under r) < 400)%Z
             then responseWriter_.WriteHeader (StatusCode_ ch) (rec_under r)
             else rec_under r;
           rec_chunks := ""; rec_headers := ∅ |}
  | WGzip g =>
      WGzip {| gz_under := gz_under g; chunks := ""; disabled := true |}
  | WBase b => WBase b
  end.

(** Whether [Fire] returns at once: on a base writer that has written body
    bytes. *)
Definition notFired (w : ResponseWriter) : bool :=
  match w with
  | WBase b => bool_decide (written b > 0)%Z
  | _ => false
  end.

(** What [Fire] does, by cases. *)
Lemma Fire_cases (ch : ErrorCodeHandler) (ctx : context) :
  Fire ch ctx =
  if notFired (writer ctx) then ctx
  else Do (Handlers_ ch)
         (fst (HandlerIndex 0 (set_writer (prepared ch (writer ctx)) ctx))).
Proof.
  unfold Fire, notFired, prepared.
  destruct (writer ctx) as [b | r | g] eqn:Hw.
  - unfold responseWriter_.Written. case_bool_decide; [reflexivity | ].
    replace (set_writer (WBase b) ctx) with ctx; [reflexivity | ].
    destruct ctx; unfold set_writer; cbn in *; subst; reflexivity.
  - unfold statusCodeSuccessful, StatusCodeNotSuccessful,
      ResponseRecorder_.StatusCode, responseWriter_.StatusCode.
    assert (Hb : negb (bool_decide (statusCode (rec_under r) < 200
                                    \/ statusCode (rec_under r) >= 400)%Z)
                 = bool_decide (200 <= statusCode (rec_under r) < 400)%Z).
    { repeat case_bool_decide; cbn; try reflexivity; lia. }
    rewrite Hb. destruct (bool_decide (200 <= statusCode (rec_under r) < 400)%Z);
      reflexivity.
  - reflexivity.
Qed.

(** When the chain in place is not empty, a fired handler starts with the
    cursor at 0. *)
Lemma Fire_resets_cursor (ch : ErrorCodeHandler) (ctx : context) :
  handlers ctx <> [] ->
  currentHandlerIndex
    (fst (HandlerIndex 0 (set_writer (prepared ch (writer ctx)) ctx))) = 0%Z.
Proof.
  intros Hne. rewrite CtxFacts.HandlerIndex_in_range; [reflexivity | ].
  cbn. unfold len. destruct (handlers ctx); [contradiction | cbn; lia].
Qed.

(** C8, on the code.  On the context [ctxStopped] (no chain, stopped, 404
    set, nothing written) the handler registered for 404 is fired, but
    [HandlerIndex(0)] is checked against the empty chain in place and does
    nothing: the registered chain is installed and its first handler runs
    on a context whose cursor is still -1, not 0. *)
Theorem Fire_leaves_cursor_when_chain_empty (h : Handler) :
  let ch := {| StatusCode_ := 404; Handlers_ := [h] |} in
  let entered := SetHandlers [h] Examples.ctxStopped in
  Fire ch Examples.ctxStopped = handle h entered
  /\ handlers entered = [h]
  /\ currentHandlerIndex entered = (-1)%Z
  /\ currentHandlerIndex entered <> 0%Z
  /\ IsStopped entered = true.
Proof.
  cbv zeta. rewrite Fire_cases.
  repeat split. discriminate.
Qed.

End Fire_.
End StatusFacts.

(** * Properties of the string functions *)

Module StringFacts.
Import Strings.

Lemma app_cons (c : ascii) (a b : string) :
  String c a +:+ b = String c (a +:+ b).
Proof. reflexivity. Qed.

Lemma app_nil_l (b : string) : "" +:+ b = b.
Proof. reflexivity. Qed.

(** Unfolding of string concatenation, which does not simplify on its
    own. *)
Ltac app_simpl := rewrite ?app_cons, ?app_nil_l; cbn.

Lemma length_app (a b : string) :
  String.length (a +:+ b) = String.length a + String.length b.
Proof.
  induction a as [ | c a IH]; app_simpl; [reflexivity | rewrite IH; reflexivity].
Qed.

Lemma app_assoc (a b c : string) : (a +:+ b) +:+ c = a +:+ (b +:+ c).
Proof.
  induction a as [ | x a IH]; app_simpl; [reflexivity | rewrite IH; reflexivity].
Qed.

Lemma app_empty_r (a : string) : a +:+ "" = a.
Proof.
  induction a as [ | x a IH]; app_simpl; [reflexivity | rewrite IH; reflexivity].
Qed.

Lemma get_app_r (pre s : string) (k : nat) :
  String.get (String.length pre + k) (pre +:+ s) = String.get k s.
Proof. induction pre as [ | c pre IH]; app_simpl; [reflexivity | exact IH]. Qed.

Lemma get_end (s : string) : String.get (String.length s) s = None.
Proof. induction s as [ | c s IH]; cbn; [reflexivity | exact IH]. Qed.

Lemma substring_app_r (pre s : string) (n : nat) :
  String.substring (String.length pre) n (pre +:+ s) = String.substring 0 n s.
Proof.
  induction pre as [ | c pre IH]; app_simpl; [reflexivity | exact IH].
Qed.

Lemma substring_prefix (cur rem : string) :
  String.substring 0 (String.length cur) (cur +:+ rem) = cur.
Proof.
  induction cur as [ | c cur IH]; app_simpl.
  - destruct rem; reflexivity.
  - rewrite IH. reflexivity.
Qed.

Lemma drop_app (pre s : string) : drop (String.length pre) (pre +:+ s) = s.
Proof.
  induction pre as [ | c pre IH]; app_simpl; [ | exact IH].
  destruct s; reflexivity.
Qed.

Lemma drop_0 (s : string) : drop 0 s = s.
Proof. destruct s; reflexivity. Qed.

(** The byte [c] does not occur in [s]. *)
Fixpoint no_sep (c : ascii) (s : string) : Prop :=
  match s with
  | EmptyString => True
  | String a s' => a <> c /\ no_sep c s'
  end.

Lemma no_sep_snoc (c a : ascii) (s : string) :
  no_sep c s -> a <> c -> no_sep c (s +:+ String a "").
Proof.
  induction s as [ | x s IH]; app_simpl; [tauto | ].
  intros [Hx Hs] Ha. split; [exact Hx | exact (IH Hs Ha)].
Qed.

Lemma Split_not_nil (s : string) (sep : ascii) : Split s sep <> [].
Proof.
  destruct s as [ | c s]; cbn; [discriminate | ].
  destruct (Ascii.eqb c sep); [discriminate | ].
  destruct (Split s sep); discriminate.
Qed.

(** Splitting after a prefix without separator: the prefix goes in front of
    the first part. *)
Lemma Split_app (cur rem : string) (sep : ascii) :
  no_sep sep cur ->
  Split (cur +:+ rem) sep
  = match Split rem sep with
    | h :: t => (cur +:+ h) :: t
    | [] => [cur]
    end.
Proof.
  induction cur as [ | c cur IH]; app_simpl.
  - intros _. destruct (Split rem sep) eqn:Hsp; [ | reflexivity].
    exfalso. eapply Split_not_nil. eassumption.
  - intros [Hc Hs]. rewrite (IH Hs).
    destruct (Ascii.eqb_spec c sep) as [-> | _]; [contradiction | ].
    destruct (Split rem sep) as [ | h t] eqn:Hsp; reflexivity.
Qed.

Lemma Split_no_sep (cur : string) (sep : ascii) :
  no_sep sep cur -> Split cur sep = [cur].
Proof.
  intros Hs. rewrite <- (app_empty_r cur) at 1.
  rewrite (Split_app cur "" sep Hs). cbn. rewrite app_empty_r. reflexivity.
Qed.

Lemma Split_sep (cur rem : string) (sep : ascii) :
  no_sep sep cur ->
  Split (cur +:+ String sep rem) sep = cur :: Split rem sep.
Proof.
  intros Hs. rewrite (Split_app cur _ sep Hs). cbn.
  rewrite Ascii.eqb_refl, app_empty_r. reflexivity.
Qed.

Lemma Join_cons_byte (c : ascii) (h : string) (t : list string) (sep : string) :
  Join (String c h :: t) sep = String c (Join (h :: t) sep).
Proof. destruct t; reflexivity. Qed.

(** Joining the parts of a split gives the string back. *)
Lemma Join_Split (s : string) (sep : ascii) :
  Join (Split s sep) (String sep "") = s.
Proof.
  induction s as [ | c s IH]; cbn; [reflexivity | ].
  destruct (Ascii.eqb_spec c sep) as [-> | Hne].
  - destruct (Split s sep) as [ | h t] eqn:Hsp.
    + exfalso. eapply Split_not_nil. eassumption.
    + cbn. cbn in IH. rewrite IH. reflexivity.
  - destruct (Split s sep) as [ | h t] eqn:Hsp.
    + exfalso. eapply Split_not_nil. eassumption.
    + rewrite Join_cons_byte, IH. reflexivity.
Qed.

(** The index of a byte is -1 or a position of the string. *)
Lemma Index_range (s : string) (c : ascii) :
  (Index s c = -1 \/ 0 <= Index s c < Z.of_nat (String.length s))%Z.
Proof.
  induction s as [ | a s IH]; cbn [Index String.length]; [left; reflexivity | ].
  destruct (Ascii.eqb a c); [right; lia | ].
  case_bool_decide; [left; reflexivity | right; lia].
Qed.

Lemma Index_app (s t : string) (c : ascii) :
  Index (s +:+ t) c
  = if bool_decide (Index s c = -1)%Z
    then if bool_decide (Index t c = -1)%Z then (-1)%Z
         else (Z.of_nat (String.length s) + Index t c)%Z
    else Index s c.
Proof.
  induction s as [ | a s IH]; rewrite ?app_cons, ?app_nil_l.
  - cbn [Index String.length]. rewrite bool_decide_eq_true_2 by reflexivity.
    case_bool_decide; [congruence | lia].
  - cbn [Index String.length]. destruct (Ascii.eqb a c).
    + rewrite bool_decide_eq_false_2 by lia. reflexivity.
    + rewrite IH. pose proof (Index_range s c) as Hs.
      pose proof (Index_range t c) as Ht.
      repeat case_bool_decide; lia.
Qed.

(** A byte that occurs after [pre] is found at the length of [pre] at the
    latest. *)
Lemma Index_app_hit (pre t : string) (c : ascii) :
  (0 <= Index (pre +:+ String c t) c <= Z.of_nat (String.length pre))%Z.
Proof.
  rewrite Index_app. cbn [Index]. rewrite Ascii.eqb_refl.
  pose proof (Index_range pre c) as Hpre.
  repeat case_bool_decide; lia.
Qed.

Lemma length_take (k : nat) (s : string) : String.length (take k s) <= k.
Proof.
  revert s. induction k as [ | k IH]; intros [ | a s]; cbn; try lia.
  specialize (IH s). lia.
Qed.

End StringFacts.

(** * Properties of the trie *)

Module TrieFacts.
Import Ctx Trie.

(** C7, as the code has it.  For a query that is empty or [/], [search]
    returns the root's [/] child when the trie has the root-slash flag (a
    route [/] was registered), and otherwise the root's wildcard child when
    the trie has the root-wildcard flag, and otherwise nothing; in each
    case the parameter store is returned as it was given: the wildcard's
    parameter is not set. *)
Theorem search_root_query (tr : trie) (q : string) (params : RequestParams)
    (rootNode : trieNode) :
  nodes tr !! root tr = Some rootNode ->
  q = "" \/ q = "/" ->
  search tr q params
  = Ok (if hasRootSlash tr then getChild rootNode pathSep
        else if hasRootWildcard tr then getChild rootNode WildcardParamStart
        else None,
        params).
Proof.
  intros Hroot [-> | ->]; unfold search, deref; cbn; rewrite Hroot; cbn;
    destruct (hasRootSlash tr), (hasRootWildcard tr); reflexivity.
Qed.

Lemma search_root_query_witness :
  nodes Examples.rootWildcardTrie !! root Examples.rootWildcardTrie
    = Some (mkTrieNode None {["*" := 1]} true false true [] false "" "" [] "")
  /\ ("/" = "" \/ "/" = "/")
  /\ search Examples.rootWildcardTrie "/" [] = Ok (Some 1, []).
Proof.
  assert (H1 : nodes Examples.rootWildcardTrie !! root Examples.rootWildcardTrie
               = Some (mkTrieNode None {["*" := 1]} true false true [] false
                         "" "" [] ""))
    by (vm_compute; reflexivity).
  assert (H2 : "/" = "" \/ "/" = "/") by (right; reflexivity).
  split; [exact H1 | split; [exact H2 | ]].
  exact (search_root_query Examples.rootWildcardTrie "/" [] _ H1 H2).
Defined.

(** C7, as stated, fails: in the trie of the single route [/*p], searching
    [/] returns the wildcard node, whose parameter is [p], and the store
    holds no value for [p] afterwards: it was not set to the empty
    string. *)
Lemma search_root_wildcard_sets_no_parameter :
  hasRootSlash Examples.rootWildcardTrie = false
  /\ hasRootWildcard Examples.rootWildcardTrie = true
  /\ (paramKeys <$> nodes Examples.rootWildcardTrie !! 1) = Some ["p"]
  /\ search Examples.rootWildcardTrie "/" [] = Ok (Some 1, [])
  /\ ~ (exists w ps,
          search Examples.rootWildcardTrie "/" [] = Ok (Some w, ps)
          /\ params_Get "p" ps = Some "").
Proof.
  assert (Hs : search Examples.rootWildcardTrie "/" [] = Ok (Some 1, []))
    by (vm_compute; reflexivity).
  repeat split; try (vm_compute; reflexivity).
  intros (w & ps & Hw & Hp). rewrite Hs in Hw.
  inversion Hw; subst. discriminate Hp.
Qed.

(** ** What the well-formedness check gives *)

Section WellFormed.
Variable tr : trie.

Lemma node_at_Some (id : nat) (node : trieNode) :
  nodes tr !! id = Some node -> node_at tr id = node.
Proof. intros Hn. unfold node_at. rewrite Hn. reflexivity. Qed.

Lemma wildcard_ok_inv (node : trieNode) (bound : nat) :
  wildcard_ok tr node bound = true ->
  childWildcardParameter node = true ->
  exists w wn k ks,
    getChild node WildcardParamStart = Some w
    /\ nodes tr !! w = Some wn
    /\ paramKeys wn = k :: ks
    /\ String.length (staticKey wn) <= bound.
Proof.
  unfold wildcard_ok. intros Hok Hflag. rewrite Hflag in Hok.
  destruct (getChild node WildcardParamStart) as [w | ] eqn:Hw;
    [ | discriminate].
  destruct (nodes tr !! w) as [wn | ] eqn:Hwn; [ | discriminate].
  apply andb_true_iff in Hok as [Hk Hl].
  apply bool_decide_eq_true_1 in Hk, Hl.
  destruct (paramKeys wn) as [ | k ks] eqn:Hkeys; [contradiction | ].
  exists w, wn, k, ks. repeat split; assumption.
Qed.

Lemma wildcard_ok_mono (node : trieNode) (b b' : nat) :
  b <= b' -> wildcard_ok tr node b = true -> wildcard_ok tr node b' = true.
Proof.
  unfold wildcard_ok. intros Hb.
  destruct (childWildcardParameter node); [ | reflexivity].
  destruct (getChild node WildcardParamStart) as [w | ]; [ | discriminate].
  destruct (nodes tr !! w) as [wn | ]; [ | discriminate].
  intros Hok. apply andb_true_iff in Hok as [Hk Hl].
  apply bool_decide_eq_true_1 in Hl.
  rewrite Hk. cbn. apply bool_decide_eq_true_2. lia.
Qed.

Lemma named_ok_inv (node : trieNode) :
  named_ok node = true -> childNamedParameter node = true ->
  exists c, getChild node ParamStart = Some c.
Proof.
  unfold named_ok. intros Hok Hflag. rewrite Hflag in Hok.
  apply bool_decide_eq_true_1 in Hok. destruct Hok as [c Hc]. exists c. exact Hc.
Qed.

Lemma wf_from_node (f id static : nat) (frozen : bool) :
  wf_from f tr id static frozen = true ->
  exists node,
    nodes tr !! id = Some node
    /\ named_ok node = true /\ wildcard_ok tr node static = true.
Proof.
  destruct f as [ | f]; cbn; [discriminate | ].
  destruct (nodes tr !! id) as [node | ]; [ | discriminate].
  intros Hwf. apply andb_true_iff in Hwf as [Hwf _].
  apply andb_true_iff in Hwf as [Hn Hw].
  exists node. repeat split; assumption.
Qed.

Lemma wf_from_child (f id static : nat) (frozen : bool) (node : trieNode)
    (label : string) (c : nat) :
  wf_from f tr id static frozen = true ->
  nodes tr !! id = Some node ->
  getChild node label = Some c ->
  id < c
  /\ (exists cn, nodes tr !! c = Some cn /\ parent cn = Some id)
  /\ exists f',
       wf_from f' tr c (static_after static frozen label)
         (stops_static frozen label) = true.
Proof.
  destruct f as [ | f]; cbn; [discriminate | ].
  intros Hwf Hnode Hc. rewrite Hnode in Hwf.
  apply andb_true_iff in Hwf as [_ Hall].
  rewrite forallb_forall in Hall.
  specialize (Hall (label, c)). cbn in Hall.
  assert (Hin : In (label, c) (map_to_list (children node))).
  { apply list_elem_of_In. apply elem_of_map_to_list. exact Hc. }
  specialize (Hall Hin).
  apply andb_true_iff in Hall as [Hall Hrec].
  apply andb_true_iff in Hall as [Hlt Hpar].
  apply bool_decide_eq_true_1 in Hlt.
  split; [exact Hlt | split; [ | exists f; exact Hrec]].
  unfold parent_is in Hpar.
  destruct (nodes tr !! c) as [cn | ] eqn:Hcn; [ | discriminate].
  apply bool_decide_eq_true_1 in Hpar. exists cn. split; [reflexivity | exact Hpar].
Qed.

End WellFormed.

(** ** The parent chain and the nodes passed on the way down *)

Section Search.
Variable tr : trie.
Variable q : string.
Variable params : RequestParams.
Hypothesis Hwf : wf_trie tr = true.

(** [anc] is the chain of parents that starts at the pointer [p], each an
    older node than the one before ([ub] bounds the first). *)
Fixpoint chain_from (p : option nat) (ub : nat) (anc : list nat) : Prop :=
  match anc with
  | [] => p = None
  | a :: rest =>
      p = Some a /\ a < ub /\ is_Some (nodes tr !! a)
      /\ chain_from (parent (node_at tr a)) a rest
  end.

Definition chain (n : nat) (anc : list nat) : Prop :=
  chain_from (parent (node_at tr n)) n anc.

(** The wildcard children of the nodes of [anc] can be bound on [q]. *)
Definition anc_ok (anc : list nat) : Prop :=
  Forall (fun a => wildcard_ok tr (node_at tr a) (String.length q) = true) anc.

Lemma chain_from_length (anc : list nat) (p : option nat) (ub : nat) :
  chain_from p ub anc -> length anc <= ub.
Proof.
  revert p ub. induction anc as [ | a rest IH]; intros p ub; cbn; [lia | ].
  intros (_ & Hlt & _ & Hrest). specialize (IH _ _ Hrest). lia.
Qed.

Lemma find_loop_correct (anc : list nat) (p : option nat) (ub fuel : nat) :
  chain_from p ub anc -> anc_ok anc -> length anc <= fuel ->
  findClosestParent_loop fuel tr p = Ok (nearestWildcard tr anc).
Proof.
  revert p ub fuel. induction anc as [ | a rest IH]; intros p ub fuel; cbn.
  - intros -> _ _. destruct fuel; reflexivity.
  - intros (-> & Hlt & [node Hnode] & Hrest) Hok Hfuel.
    destruct fuel as [ | fuel]; [lia | ]. cbn.
    apply Forall_cons in Hok as [Hoka Hokrest].
    unfold deref. rewrite Hnode. cbn.
    unfold wildcardChild. rewrite (node_at_Some tr a node Hnode) in *.
    destruct (childWildcardParameter node) eqn:Hflag.
    + destruct (wildcard_ok_inv tr node _ Hoka Hflag)
        as (w & wn & k & ks & Hw & _). rewrite Hw. reflexivity.
    + apply (IH _ a fuel Hrest Hokrest). lia.
Qed.

Lemma find_correct (n : nat) (anc : list nat) :
  is_Some (nodes tr !! n) -> chain n anc -> anc_ok anc ->
  findClosestParentWildcardNode tr n = Ok (nearestWildcard tr anc).
Proof.
  intros [node Hnode] Hchain Hok.
  unfold findClosestParentWildcardNode, deref. rewrite Hnode. cbn.
  unfold chain in Hchain. rewrite (node_at_Some tr n node Hnode) in Hchain.
  apply (find_loop_correct anc _ n _ Hchain Hok).
  pose proof (chain_from_length _ _ _ Hchain).
  pose proof (lookup_lt_Some _ _ _ Hnode). lia.
Qed.

Lemma nearest_inv (anc : list nat) (w : nat) :
  nearestWildcard tr anc = Some w -> anc_ok anc ->
  exists wn k ks,
    nodes tr !! w = Some wn /\ paramKeys wn = k :: ks
    /\ String.length (staticKey wn) <= String.length q.
Proof.
  induction anc as [ | a rest IH]; cbn; [discriminate | ].
  intros Hn Hok. apply Forall_cons in Hok as [Hoka Hokrest].
  unfold wildcardChild in Hn.
  destruct (childWildcardParameter (node_at tr a)) eqn:Hflag.
  - destruct (wildcard_ok_inv tr _ _ Hoka Hflag)
      as (w' & wn & k & ks & Hw & Hwn & Hk & Hl).
    rewrite Hw in Hn. inversion Hn; subst w'.
    exists wn, k, ks. repeat split; assumption.
  - exact (IH Hn Hokrest).
Qed.

Lemma bindClosest_correct (anc : list nat) (w : nat) :
  nearestWildcard tr anc = Some w -> anc_ok anc ->
  bindClosest tr q params w
  = Ok (Some w,
        params_Set (firstKey tr w)
          (Strings.drop (String.length (staticPrefix tr w)) q) params).
Proof.
  intros Hn Hok.
  destruct (nearest_inv anc w Hn Hok) as (wn & k & ks & Hwn & Hk & Hl).
  unfold bindClosest, deref, firstKey, staticPrefix, slice_from.
  rewrite (node_at_Some tr w wn Hwn), Hwn. cbn. rewrite Hk. cbn.
  rewrite bool_decide_eq_true_2 by exact Hl. reflexivity.
Qed.

(** The root, as the well-formedness check leaves it. *)
Lemma root_wf :
  wf_from (length (nodes tr)) tr (root tr) 1 false = true
  /\ parent (node_at tr (root tr)) = None
  /\ (hasRootWildcard tr = true ->
      childWildcardParameter (node_at tr (root tr)) = true).
Proof.
  unfold wf_trie in Hwf.
  apply andb_true_iff in Hwf as [H123 _].
  apply andb_true_iff in H123 as [H12 H3].
  apply andb_true_iff in H12 as [H1 H2].
  apply bool_decide_eq_true_1 in H2.
  split; [exact H1 | split; [exact H2 | ]].
  intros Hr. rewrite Hr in H3. exact H3.
Qed.

Lemma root_slash :
  hasRootSlash tr = true ->
  is_Some (getChild (node_at tr (root tr)) pathSep).
Proof.
  unfold wf_trie in Hwf.
  apply andb_true_iff in Hwf as [_ H4].
  intros Hr. rewrite Hr in H4. apply bool_decide_eq_true_1 in H4. exact H4.
Qed.

Lemma bindRoot_correct :
  hasRootWildcard tr = true ->
  exists w,
    wildcardChild tr (root tr) = Some w
    /\ bindRootWildcard tr q params
       = Ok (Some w,
             params_Set (firstKey tr w) (Strings.drop 1 q) params).
Proof.
  intros Hr. destruct root_wf as (Hroot & _ & Hflag). specialize (Hflag Hr).
  destruct (wf_from_node tr _ _ _ _ Hroot) as (node & Hnode & _ & Hwok).
  rewrite (node_at_Some tr _ node Hnode) in Hflag.
  destruct (wildcard_ok_inv tr node _ Hwok Hflag)
    as (w & wn & k & ks & Hw & Hwn & Hk & _).
  exists w. unfold wildcardChild, bindRootWildcard, deref, firstKey.
  rewrite (node_at_Some tr _ node Hnode), Hflag, Hnode. cbn.
  rewrite Hw, Hwn. cbn. rewrite (node_at_Some tr w wn Hwn), Hk.
  split; reflexivity.
Qed.

(** Backing off after the loop, as the code does it. *)
Lemma backOff_correct (anc : list nat) :
  anc_ok anc ->
  match nearestWildcard tr anc with
  | Some wid => bindClosest tr q params wid
  | None =>
      if hasRootWildcard tr then bindRootWildcard tr q params
      else Ok (None, params)
  end = Ok (backOff tr q params anc).
Proof.
  intros Hok. unfold backOff.
  destruct (nearestWildcard tr anc) as [w | ] eqn:Hn.
  - exact (bindClosest_correct anc w Hn Hok).
  - destruct (hasRootWildcard tr) eqn:Hr; [ | reflexivity].
    destruct (bindRoot_correct Hr) as (w & Hw & Hb). rewrite Hw. exact Hb.
Qed.

Lemma bindValues_bindInOrder (keys values : list string) (i : nat)
    (ps : RequestParams) :
  bindValues keys i values ps = bindInOrder (drop i keys) values ps.
Proof.
  revert i ps. induction values as [ | v values IH]; intros i ps; cbn.
  - destruct (drop i keys); reflexivity.
  - rewrite IH. destruct (keys !! i) as [k | ] eqn:Hk.
    + rewrite (drop_S keys k i Hk). reflexivity.
    + apply lookup_ge_None in Hk.
      rewrite (drop_ge keys i) by exact Hk.
      rewrite (drop_ge keys (S i)) by lia.
      destruct values; reflexivity.
Qed.

(** Arriving at a node after the loop, as the code does it. *)
Lemma end_correct (c : nat) (anc : list nat) (values : list string) :
  is_Some (nodes tr !! c) -> chain c anc -> anc_ok anc ->
  search_end tr q params (Break (Some c) values)
  = Ok (arrive tr q params c anc values).
Proof.
  intros Hc Hchain Hok. pose proof Hc as [node Hnode].
  unfold search_end, arrive, deref.
  rewrite Hnode, (node_at_Some tr c node Hnode). cbn.
  destruct (end_ node); cbn.
  - rewrite bindValues_bindInOrder. reflexivity.
  - rewrite (find_correct c anc Hc Hchain Hok). cbn.
    apply backOff_correct. exact Hok.
Qed.

(** What holds at the node [n] the scan stands on, with the nodes [anc]
    above it, when the segment to resolve starts at the index [start]. *)
Record inv (n : nat) (anc : list nat) (start : nat) : Prop := mkInv {
  inv_node : is_Some (nodes tr !! n);
  inv_check : exists f static frozen,
    wf_from f tr n static frozen = true /\ static <= start;
  inv_chain : chain n anc;
  inv_anc : anc_ok anc;
  inv_root : last (n :: anc) = Some (root tr)
}.

Lemma inv_root_node : inv (root tr) [] 1.
Proof.
  destruct root_wf as (Hroot & Hpar & _).
  destruct (wf_from_node tr _ _ _ _ Hroot) as (node & Hnode & _).
  split.
  - exists node. exact Hnode.
  - exists (length (nodes tr)), 1, false. split; [exact Hroot | lia].
  - exact Hpar.
  - constructor.
  - reflexivity.
Qed.

Lemma inv_child (n : nat) (anc : list nat) (start start' : nat)
    (node : trieNode) (label : string) (c : nat) :
  inv n anc start -> nodes tr !! n = Some node ->
  getChild node label = Some c ->
  start <= String.length q -> start <= start' ->
  (stops_static false label = false ->
   start + S (String.length label) <= start') ->
  inv c (n :: anc) start'.
Proof.
  intros [Hn (f & static & frozen & Hcheck & Hstatic) Hchain Hok Hroot]
    Hnode Hc Hq Hstart Hlit.
  destruct (wf_from_child tr _ _ _ _ node label c Hcheck Hnode Hc)
    as (Hlt & (cn & Hcn & Hpar) & f' & Hcheck').
  destruct (wf_from_node tr _ _ _ _ Hcheck) as (node' & Hnode' & _ & Hwok).
  assert (node' = node) by congruence. subst node'.
  split.
  - exists cn. exact Hcn.
  - exists f', (static_after static frozen label), (stops_static frozen label).
    split; [exact Hcheck' | ].
    unfold static_after.
    destruct (stops_static frozen label) eqn:Hstop; [lia | ].
    assert (Hfr : frozen = false).
    { unfold stops_static in Hstop. destruct frozen; [discriminate | reflexivity]. }
    subst frozen. specialize (Hlit Hstop). lia.
  - unfold chain. rewrite (node_at_Some tr c cn Hcn). cbn.
    repeat split; try assumption.
  - apply Forall_cons. split; [ | exact Hok].
    rewrite (node_at_Some tr n node Hnode).
    apply (wildcard_ok_mono tr node static); [lia | exact Hwok].
  - exact Hroot.
Qed.

Lemma nearest_last (anc : list nat) (r w : nat) :
  last anc = Some r -> wildcardChild tr r = Some w ->
  is_Some (nearestWildcard tr anc).
Proof.
  induction anc as [ | a rest IH]; [discriminate | ].
  intros Hlast Hw. cbn.
  destruct (wildcardChild tr a) as [w' | ] eqn:Ha; [eexists; reflexivity | ].
  destruct rest as [ | b rest].
  - cbn in Hlast. inversion Hlast; subst. congruence.
  - apply IH; [exact Hlast | exact Hw].
Qed.

(** Backing off inside the loop, where the code does not look at the
    root-wildcard flag: a trie with that flag has a wildcard child at its
    root, which is the node the scan stands on or one of those above. *)
Lemma inloop_backOff_correct (n : nat) (anc : list nat) (start : nat)
    (node : trieNode) :
  inv n anc start -> nodes tr !! n = Some node ->
  childWildcardParameter node = false ->
  (w ← findClosestParentWildcardNode tr n;
   match w with
   | Some wid =>
       r ← bindClosest tr q params wid;
       Ok (Return (fst r) (snd r))
   | None => Ok (Return None params)
   end) ≫= search_end tr q params
  = Ok (backOff tr q params anc).
Proof.
  intros [Hn _ Hchain Hok Hroot] Hnode Hflag.
  rewrite (find_correct n anc Hn Hchain Hok). cbn.
  unfold backOff.
  destruct (nearestWildcard tr anc) as [w | ] eqn:Hnear.
  - rewrite (bindClosest_correct anc w Hnear Hok). reflexivity.
  - cbn. destruct (hasRootWildcard tr) eqn:Hr; [ | reflexivity].
    exfalso. destruct (bindRoot_correct Hr) as (w & Hw & _).
    destruct anc as [ | a rest].
    + cbn in Hroot. inversion Hroot; subst n.
      unfold wildcardChild in Hw.
      rewrite (node_at_Some tr _ node Hnode), Hflag in Hw. discriminate.
    + assert (Hl : last (a :: rest) = Some (root tr)) by exact Hroot.
      destruct (nearest_last _ _ _ Hl Hw) as [x Hx]. congruence.
Qed.

(** One turn of the scanning loop at the end of a segment. *)
Lemma search_loop_boundary (fuel : nat) (id : nat) (node : trieNode)
    (start i : nat) (values : list string) :
  nodes tr !! id = Some node ->
  i = String.length q \/ String.get i q = Some pathSepB ->
  search_loop (S fuel) tr q params (Some id) start i values
  = let next n' values' :=
      if bool_decide (i = String.length q) then Ok (Break n' values')
      else search_loop fuel tr q params n' (i + 1) (i + 1) values' in
    match getChild node (slice q start i) with
    | Some child => next (Some child) values
    | None =>
        if childNamedParameter node then
          next (getChild node ParamStart) (values ++ [slice q start i])
        else if childWildcardParameter node then
          Ok (Break (getChild node WildcardParamStart)
                (values ++ [Strings.drop start q]))
        else
          w ← findClosestParentWildcardNode tr id;
          match w with
          | Some wid =>
              r ← bindClosest tr q params wid;
              Ok (Return (fst r) (snd r))
          | None => Ok (Return None params)
          end
    end.
Proof.
  intros Hnode Hb. cbn [search_loop].
  assert (Hc : bool_decide (i = String.length q)
               || bool_decide (String.get i q = Some pathSepB) = true).
  { destruct Hb as [Hb | Hb].
    - rewrite (bool_decide_eq_true_2 _ Hb). reflexivity.
    - rewrite (bool_decide_eq_true_2 (String.get i q = Some pathSepB) Hb).
      apply orb_true_r. }
  cbv zeta. rewrite Hc. unfold deref. rewrite Hnode. reflexivity.
Qed.

(** One turn of the scanning loop inside a segment. *)
Lemma search_loop_inside (fuel : nat) (n : option nat) (start i : nat)
    (values : list string) :
  i <> String.length q -> String.get i q <> Some pathSepB ->
  search_loop (S fuel) tr q params n start i values
  = search_loop fuel tr q params n start (i + 1) values.
Proof.
  intros H1 H2. cbn [search_loop]. cbv zeta.
  rewrite (bool_decide_eq_false_2 _ H1), (bool_decide_eq_false_2 _ H2).
  reflexivity.
Qed.

(** Resolving one segment: the code's choice among the children of [node]
    is the choice of the walk, whatever the loop does next ([next]), as
    long as what it does next from a child is the walk from that child. *)
Lemma segment_step (n : nat) (anc : list nat) (start : nat)
    (node : trieNode) (segment : string) (rest values : list string)
    (next : option nat -> list string -> res exit) :
  inv n anc start -> nodes tr !! n = Some node ->
  start <= String.length q ->
  Strings.drop start q = Strings.Join (segment :: rest) "/" ->
  (forall label c values',
     label = segment \/ label = ParamStart ->
     getChild node label = Some c ->
     next (Some c) values' ≫= search_end tr q params
     = Ok (walk tr q params rest c (n :: anc) values')) ->
  match getChild node segment with
  | Some child => next (Some child) values
  | None =>
      if childNamedParameter node then
        next (getChild node ParamStart) (values ++ [segment])
      else if childWildcardParameter node then
        Ok (Break (getChild node WildcardParamStart)
              (values ++ [Strings.drop start q]))
      else
        w ← findClosestParentWildcardNode tr n;
        match w with
        | Some wid =>
            r ← bindClosest tr q params wid;
            Ok (Return (fst r) (snd r))
        | None => Ok (Return None params)
        end
  end ≫= search_end tr q params
  = Ok (walk tr q params (segment :: rest) n anc values).
Proof.
  intros Hinv Hnode Hq Hrem Hnext.
  cbn [walk]. unfold literalChild, namedChild, wildcardChild.
  rewrite (node_at_Some tr n node Hnode).
  destruct (inv_check _ _ _ Hinv) as (f & static & frozen & Hcheck & Hstatic).
  destruct (wf_from_node tr _ _ _ _ Hcheck) as (node' & Hnode' & Hnok & Hwok).
  assert (node' = node) by congruence. subst node'.
  destruct (getChild node segment) as [c | ] eqn:Hlit.
  - apply (Hnext segment); [left; reflexivity | exact Hlit].
  - destruct (childNamedParameter node) eqn:Hnamed.
    + destruct (named_ok_inv node Hnok Hnamed) as [c Hc]. rewrite Hc.
      apply (Hnext ParamStart); [right; reflexivity | exact Hc].
    + destruct (childWildcardParameter node) eqn:Hwild.
      * destruct (wildcard_ok_inv tr node _ Hwok Hwild)
          as (w & wn & k & ks & Hw & _).
        rewrite Hw, Hrem.
        assert (Hinvw : inv w (n :: anc) start).
        { apply (inv_child n anc start start node WildcardParamStart w);
            try assumption; [lia | ].
          unfold stops_static. cbn. discriminate. }
        change (Ok (Break (Some w)
                      (values ++ [Strings.Join (segment :: rest) "/"]))
                ≫= search_end tr q params)
          with (search_end tr q params
                  (Break (Some w)
                     (values ++ [Strings.Join (segment :: rest) "/"]))).
        apply end_correct;
          [exact (inv_node _ _ _ Hinvw) | exact (inv_chain _ _ _ Hinvw)
          | exact (inv_anc _ _ _ Hinvw)].
      * exact (inloop_backOff_correct n anc start node Hinv Hnode Hwild).
Qed.

Lemma slice_app (pre cur rem : string) :
  q = pre +:+ cur +:+ rem ->
  slice q (String.length pre) (String.length pre + String.length cur) = cur.
Proof.
  intros ->. unfold slice.
  replace (String.length pre + String.length cur - String.length pre)
    with (String.length cur) by lia.
  rewrite StringFacts.substring_app_r. apply StringFacts.substring_prefix.
Qed.

Lemma get_app (pre cur rem : string) (c : ascii) :
  q = pre +:+ cur +:+ String c rem ->
  String.get (String.length pre + String.length cur) q = Some c.
Proof.
  intros ->. rewrite StringFacts.get_app_r.
  replace (String.length cur) with (String.length cur + 0) by lia.
  rewrite StringFacts.get_app_r. reflexivity.
Qed.

(** The scanning loop, followed by the end of [search], computes the walk
    over the segments that are left: [pre] has been scanned, [cur] is the
    part of the current segment read so far, [rem] is still to read. *)
Lemma loop_correct (rem : string) :
  forall (pre cur : string) (n : nat) (anc : list nat) (values : list string)
         (fuel : nat),
    q = pre +:+ cur +:+ rem ->
    StringFacts.no_sep pathSepB cur ->
    String.length rem < fuel ->
    inv n anc (String.length pre) ->
    search_loop fuel tr q params (Some n) (String.length pre)
      (String.length pre + String.length cur) values
      ≫= search_end tr q params
    = Ok (walk tr q params (Strings.Split (cur +:+ rem) pathSepB) n anc values).
Proof.
  induction rem as [ | c rem IH];
    intros pre cur n anc values fuel Hq Hcur Hfuel Hinv;
    (destruct fuel as [ | fuel]; [cbn in Hfuel; lia | ]);
    pose proof (inv_node _ _ _ Hinv) as [node Hnode].
  - (* the end of [q] *)
    assert (Hend : String.length pre + String.length cur = String.length q)
      by (rewrite Hq, !StringFacts.length_app; cbn; lia).
    rewrite (search_loop_boundary fuel n node _ _ values Hnode (or_introl Hend)).
    cbv zeta. rewrite (slice_app pre cur "" Hq).
    rewrite StringFacts.app_empty_r, (StringFacts.Split_no_sep cur _ Hcur).
    apply (segment_step n anc (String.length pre) node cur [] values
             (fun n' values' =>
                if bool_decide (String.length pre + String.length cur
                                = String.length q)
                then Ok (Break n' values')
                else search_loop fuel tr q params n'
                       (String.length pre + String.length cur + 1)
                       (String.length pre + String.length cur + 1) values'));
      try assumption; [lia | | ].
    + rewrite Hq, StringFacts.drop_app, StringFacts.app_empty_r. reflexivity.
    + intros label c values' _ Hc.
      rewrite (bool_decide_eq_true_2 _ Hend).
      assert (Hinvc : inv c (n :: anc)
                        (String.length pre + S (String.length label))).
      { apply (inv_child n anc (String.length pre) _ node label c);
          try assumption; lia. }
      apply end_correct;
        [exact (inv_node _ _ _ Hinvc) | exact (inv_chain _ _ _ Hinvc)
        | exact (inv_anc _ _ _ Hinvc)].
  - (* the byte [c] *)
    assert (Hlt : String.length pre + String.length cur < String.length q)
      by (rewrite Hq, !StringFacts.length_app; cbn; lia).
    pose proof (get_app pre cur rem c Hq) as Hget.
    destruct (Ascii.eqb_spec c pathSepB) as [-> | Hne].
    + rewrite (search_loop_boundary fuel n node _ _ values Hnode
                 (or_intror Hget)).
      cbv zeta. rewrite (slice_app pre cur _ Hq).
      rewrite (StringFacts.Split_sep cur rem _ Hcur).
      apply (segment_step n anc (String.length pre) node cur
               (Strings.Split rem pathSepB) values
               (fun n' values' =>
                  if bool_decide (String.length pre + String.length cur
                                  = String.length q)
                  then Ok (Break n' values')
                  else search_loop fuel tr q params n'
                         (String.length pre + String.length cur + 1)
                         (String.length pre + String.length cur + 1) values'));
        try assumption; [lia | | ].
      * rewrite Hq, StringFacts.drop_app.
        pose proof (StringFacts.Join_Split rem pathSepB) as HJ.
        destruct (Strings.Split rem pathSepB) as [ | h t] eqn:Hsp.
        -- exfalso. eapply StringFacts.Split_not_nil. eassumption.
        -- change (Strings.Join (cur :: h :: t) "/")
             with (cur +:+ "/" +:+ Strings.Join (h :: t) "/").
           change (String pathSepB "") with "/" in HJ. rewrite HJ.
           reflexivity.
      * intros label c values' Hlabel Hc.
        rewrite bool_decide_eq_false_2 by lia.
        set (pre' := pre +:+ cur +:+ "/").
        assert (Hpre' : String.length pre'
                        = String.length pre + String.length cur + 1)
          by (unfold pre'; rewrite !StringFacts.length_app; cbn; lia).
        assert (Hinvc : inv c (n :: anc) (String.length pre')).
        { apply (inv_child n anc (String.length pre) _ node label c);
            try assumption; try lia.
          intros Hstop. destruct Hlabel as [-> | ->]; [lia | ].
          unfold stops_static in Hstop. discriminate Hstop. }
        assert (Hq' : q = pre' +:+ "" +:+ rem)
          by (unfold pre'; rewrite Hq, !StringFacts.app_assoc; reflexivity).
        assert (Hfuel' : String.length rem < fuel) by (cbn in Hfuel; lia).
        pose proof (IH pre' "" c (n :: anc) values' fuel Hq' I Hfuel' Hinvc)
          as HIH.
        rewrite StringFacts.app_nil_l in HIH. cbn [String.length] in HIH.
        rewrite Nat.add_0_r, Hpre' in HIH. exact HIH.
    + rewrite search_loop_inside; [ | lia | ].
      * replace (String.length pre + String.length cur + 1)
          with (String.length pre + String.length (cur +:+ String c ""))
          by (rewrite StringFacts.length_app; cbn; lia).
        replace (cur +:+ String c rem) with ((cur +:+ String c "") +:+ rem)
          by (rewrite StringFacts.app_assoc; reflexivity).
        apply IH.
        -- rewrite Hq, !StringFacts.app_assoc. reflexivity.
        -- apply StringFacts.no_sep_snoc; assumption.
        -- cbn in Hfuel. lia.
        -- exact Hinv.
      * rewrite Hget. congruence.
Qed.

(** The walk ends in no match only by backing off with no wildcard
    ancestor and no root wildcard; the parameters are then untouched. *)
Lemma walk_None (segs : list string) :
  forall (n : nat) (anc : list nat) (values : list string),
    fst (walk tr q params segs n anc values) = None ->
    hasRootWildcard tr = false
    /\ snd (walk tr q params segs n anc values) = params.
Proof.
  assert (Hback : forall anc,
            fst (backOff tr q params anc) = None ->
            hasRootWildcard tr = false
            /\ snd (backOff tr q params anc) = params).
  { intros anc. unfold backOff.
    destruct (nearestWildcard tr anc); [discriminate | ].
    destruct (hasRootWildcard tr) eqn:Hr; [ | split; reflexivity].
    destruct (bindRoot_correct Hr) as (w & Hw & _).
    rewrite Hw. discriminate. }
  assert (Harr : forall n anc values,
            fst (arrive tr q params n anc values) = None ->
            hasRootWildcard tr = false
            /\ snd (arrive tr q params n anc values) = params).
  { intros n anc values. unfold arrive.
    destruct (end_ (node_at tr n)); [discriminate | apply Hback]. }
  induction segs as [ | seg rest IH]; intros n anc values; cbn.
  - apply Harr.
  - destruct (literalChild tr n seg); [apply IH | ].
    destruct (namedChild tr n); [apply IH | ].
    destruct (wildcardChild tr n); [apply Harr | apply Hback].
Qed.

End Search.

(** The loop of [search] computes the walk.  In a well-formed trie (one
    that [insert] built from routes whose wildcard segment is the last
    one), for every path [q] that is not empty, [search] ends with no
    panic and no endless loop, and when [q] is not [/] (the path answered
    at the root without a scan) it returns what the walk returns.  For
    every such [q], [/] included, the result is no match only when the
    trie has no root wildcard, and the parameter store is then left as it
    was. *)
Theorem search_walks (tr : trie) (q : string)
    (params : RequestParams) :
  wf_trie tr = true -> q <> "" ->
  (q <> "/" -> search tr q params = Ok (search_walk tr q params))
  /\ (exists r, search tr q params = Ok r)
  /\ (forall ps, search tr q params = Ok (None, ps) ->
        hasRootWildcard tr = false /\ ps = params).
Proof.
  intros Hwf Hne.
  assert (Hscan : q <> "/" ->
                  search tr q params = Ok (search_walk tr q params)).
  { intros Hslash.
    destruct q as [ | c0 q']; [contradiction | ].
    unfold search.
    assert (Hcond : bool_decide (String.length (String c0 q') = 0)
                    || (bool_decide (String.length (String c0 q') = 1)
                        && bool_decide (String.get 0 (String c0 q')
                                        = Some pathSepB)) = false).
    { cbn. rewrite bool_decide_eq_false_2 by lia. cbn.
      destruct q' as [ | c1 q''].
      - rewrite (bool_decide_eq_false_2 (Some c0 = Some pathSepB));
          [apply andb_false_r | ].
        intros Heq. inversion Heq; subst. contradiction.
      - cbn. rewrite bool_decide_eq_false_2 by lia. reflexivity. }
    rewrite Hcond.
    change (search_walk tr (String c0 q') params)
      with (walk tr (String c0 q') params
              (Strings.Split ("" +:+ q') pathSepB) (root tr) [] []).
    apply (loop_correct tr (String c0 q') params Hwf q' (String c0 "") ""
             (root tr) [] [] (S (String.length (String c0 q')))).
    - reflexivity.
    - exact I.
    - cbn. lia.
    - apply inv_root_node. exact Hwf. }
  destruct (decide (q = "/")) as [-> | Hslash].
  - split; [intros Hc; contradiction | ].
    destruct (root_wf tr Hwf) as (Hroot & _ & Hflag).
    destruct (wf_from_node tr _ _ _ _ Hroot) as (node & Hnode & _ & Hwok).
    assert (Hsl : search tr "/" params
                  = Ok (if hasRootSlash tr then getChild node pathSep
                        else if hasRootWildcard tr
                             then getChild node WildcardParamStart
                             else None,
                        params)).
    { unfold search, deref. cbn. rewrite Hnode. cbn.
      destruct (hasRootSlash tr), (hasRootWildcard tr); reflexivity. }
    rewrite Hsl.
    split; [eexists; reflexivity | ].
    intros ps Heq. inversion Heq as [[Hn Hps]]. clear Heq.
    destruct (hasRootSlash tr) eqn:Hs.
    + destruct (root_slash tr Hwf Hs) as [c Hc].
      rewrite (node_at_Some tr _ node Hnode) in Hc. congruence.
    + destruct (hasRootWildcard tr) eqn:Hr; [ | split; reflexivity].
      specialize (Hflag eq_refl).
      rewrite (node_at_Some tr _ node Hnode) in Hflag.
      destruct (wildcard_ok_inv tr node _ Hwok Hflag)
        as (w & wn & k & ks & Hw & _).
      congruence.
  - specialize (Hscan Hslash).
    split; [intros _; exact Hscan | ].
    split; [eexists; exact Hscan | ].
    intros ps Heq. rewrite Hscan in Heq.
    destruct (walk_None tr q params Hwf (segments q) (root tr) [] [])
      as [Hr Hps].
    + unfold search_walk in Heq. inversion Heq as [Hpair].
      rewrite Hpair. reflexivity.
    + split; [exact Hr | ].
      unfold search_walk in Heq. inversion Heq as [Hpair].
      rewrite Hpair in Hps. cbn in Hps. congruence.
Qed.

(** The back-off scenario: in the trie of [scenarioRoutes], [/hello/a]
    goes through the named child of [hello], which is not terminal, and
    comes back to the wildcard child of [hello] with [p = a]. *)
Lemma search_walks_scenario :
  wf_trie Examples.scenarioTrie = true
  /\ "/hello/a" <> ""
  /\ search Examples.scenarioTrie "/hello/a" []
     = Ok (search_walk Examples.scenarioTrie "/hello/a" [])
  /\ search_walk Examples.scenarioTrie "/hello/a" [] = (Some 5, [("p", "a")]).
Proof.
  assert (H1 : wf_trie Examples.scenarioTrie = true) by (vm_compute; reflexivity).
  assert (H2 : "/hello/a" <> "") by discriminate.
  assert (H3 : "/hello/a" <> "/") by discriminate.
  split; [exact H1 | split; [exact H2 | split]].
  - exact (proj1 (search_walks
                    Examples.scenarioTrie "/hello/a" [] H1 H2) H3).
  - vm_compute. reflexivity.
Defined.

(** C1, on the code.  Backing off to a wildcard, [search] binds the first
    parameter key of the route of the wildcard ([paramKeys[0]]) to [q]
    past the static key of that route, which ends at the first parameter
    of the path.  In the well-formed trie of [/user/:id/*rest] and
    [/user/:id/files/list], the request [/user/42/files] reaches the node
    [files], which ends no route, and comes back to the wildcard of
    [/user/:id/*rest]: the named parameter [id] is set to [42/files], and
    the parameter of the wildcard, [rest], is not set.  (Matched through
    the wildcard child, the same route gets [id = 42] and the rest of the
    request in [rest].)

    The lookup of a literal child finds the named and the wildcard child
    under their keys [:] and [*].  In the well-formed trie of the
    scenario, the segment [*] of the request [/hello/*/static/b] leads to
    the wildcard child of [hello] and the route [/hello/*p] is returned,
    although [hello] has a named child and [/hello/:p1/static/:p2] fits
    the request, as it fits [/hello/x/static/b]. *)
Theorem search_backs_off_to_the_first_key :
  (wf_trie Examples.userTrie = true
   /\ search Examples.userTrie "/user/42/files" []
      = Ok (Some 3, [("id", "42/files")])
   /\ RouteName (node_at Examples.userTrie 3) = "user-rest"
   /\ key (node_at Examples.userTrie 3) = "/user/:id/*rest"
   /\ ownParam Examples.userTrie 3 = "rest"
   /\ params_Get (ownParam Examples.userTrie 3) [("id", "42/files")] = None
   /\ search Examples.userTrie "/user/42/files" []
      <> Ok (Some 3, [(ownParam Examples.userTrie 3, "files")])
   /\ search Examples.userTrie "/user/42/notes/a" []
      = Ok (Some 3, [("id", "42"); ("rest", "notes/a")]))
  /\ (wf_trie Examples.scenarioTrie = true
      /\ search Examples.scenarioTrie "/hello/*/static/b" []
         = Ok (Some 5, [("p", "*/static/b")])
      /\ RouteName (node_at Examples.scenarioTrie 5) = "hello-p"
      /\ literalChild Examples.scenarioTrie (root Examples.scenarioTrie) "hello"
         = Some 4
      /\ literalChild Examples.scenarioTrie 4 "*" = Some 5
      /\ namedChild Examples.scenarioTrie 4 = Some 6
      /\ search Examples.scenarioTrie "/hello/x/static/b" []
         = Ok (Some 8, [("p1", "x"); ("p2", "b")])
      /\ RouteName (node_at Examples.scenarioTrie 8) = "hello-static").
Proof.
  split; repeat split; try (vm_compute; reflexivity).
  vm_compute. intros [=].
Qed.

End TrieFacts.

(** * [insert] builds well-formed tries *)

Module InsertFacts.
Import Ctx Trie.

(** What [insert] reads off a segment: whether it is a named or a wildcard
    parameter, the key of the child it goes to, the flags it sets on the
    node it leaves and the parameter keys it has collected. *)
Definition isParam (s : string) : bool :=
  match Strings.first_byte s with
  | Some c => Ascii.eqb c ":"%char
  | None => false
  end.

Definition isWildcard (s : string) : bool :=
  match Strings.first_byte s with
  | Some c => Ascii.eqb c "*"%char
  | None => false
  end.

Definition label (s : string) : string :=
  if isWildcard s then WildcardParamStart
  else if isParam s then ParamStart else s.

Definition flagged (s : string) (node : trieNode) : trieNode :=
  if isParam s || isWildcard s
  then with_dynamic (isParam s) (isWildcard s) node else node.

Definition keys_after (s : string) (keys : list string) : list string :=
  if isParam s || isWildcard s then keys ++ [Strings.drop 1 s] else keys.

(** The node a segment leaves behind: flagged, and with the new child when
    there was none under the label. *)
Definition left_behind (s : string) (fresh : nat) (node : trieNode) : trieNode :=
  match getChild node (label s) with
  | Some _ => flagged s node
  | None => with_child (label s) fresh (flagged s node)
  end.

Lemma nodes_set_node (n : nat) (f : trieNode -> trieNode) (tr : trie) (id : nat) :
  nodes (set_node n f tr) !! id
  = if decide (n = id) then f <$> nodes tr !! n else nodes tr !! id.
Proof. unfold set_node. cbn. apply list_lookup_alter. Qed.

Lemma getChild_flagged (s : string) (node : trieNode) (l : string) :
  getChild (flagged s node) l = getChild node l.
Proof. unfold flagged. destruct (isParam s || isWildcard s); reflexivity. Qed.

(** One turn of the loop of [insert], as an update of the arena. *)
Lemma insert_segment_spec (s : string) (tr : trie) (n : nat)
    (keys : list string) (node : trieNode) :
  s <> "" -> nodes tr !! n = Some node ->
  exists tr3 child,
    insert_segment s tr n keys = Ok (tr3, child, keys_after s keys)
    /\ root tr3 = root tr
    /\ hasRootSlash tr3 = hasRootSlash tr
    /\ hasRootWildcard tr3
       = hasRootWildcard tr || (isWildcard s && bool_decide (root tr = n))
    /\ nodes tr3 !! n = Some (left_behind s (length (nodes tr)) node)
    /\ getChild (left_behind s (length (nodes tr)) node) (label s) = Some child
    /\ (forall id, id <> n -> id < length (nodes tr) ->
        nodes tr3 !! id = nodes tr !! id)
    /\ match getChild node (label s) with
       | Some ch => child = ch /\ length (nodes tr3) = length (nodes tr)
       | None =>
           child = length (nodes tr)
           /\ length (nodes tr3) = S (length (nodes tr))
           /\ nodes tr3 !! child = Some (with_parent n newTrieNode)
       end
    /\ method tr3 = method tr /\ subdomain tr3 = subdomain tr.
Proof.
  intros Hs Hnode. destruct s as [ | c s']; [contradiction | ].
  unfold insert_segment, left_behind, label, flagged, keys_after, isParam,
    isWildcard.
  cbn [Strings.first_byte].
  set (isP := Ascii.eqb c ":"%char). set (isW := Ascii.eqb c "*"%char).
  set (s1 := if isW then WildcardParamStart
             else if isP then ParamStart else String c s').
  set (node1 := if isP || isW then with_dynamic isP isW node else node).
  set (tr1 := if isP || isW then set_node n (with_dynamic isP isW) tr else tr).
  set (tr2 := if isW && bool_decide (root tr = n)
              then set_rootWildcard tr1 else tr1).
  assert (Hn : n < length (nodes tr)) by (eapply lookup_lt_Some; eassumption).
  assert (Hlen1 : length (nodes tr1) = length (nodes tr)).
  { unfold tr1. destruct (isP || isW); [ | reflexivity].
    cbn. apply length_alter. }
  assert (Hnodes1 : forall id, nodes tr1 !! id
            = if decide (n = id) then Some node1 else nodes tr !! id).
  { intros id. unfold tr1, node1. destruct (isP || isW).
    - rewrite nodes_set_node, Hnode. reflexivity.
    - case_decide; [subst; exact Hnode | reflexivity]. }
  assert (Hnodes2 : nodes tr2 = nodes tr1)
    by (unfold tr2; destruct (isW && bool_decide (root tr = n)); reflexivity).
  assert (Hroot2 : root tr2 = root tr).
  { unfold tr2, tr1.
    destruct (isW && bool_decide (root tr = n)), (isP || isW); reflexivity. }
  assert (Hslash2 : hasRootSlash tr2 = hasRootSlash tr).
  { unfold tr2, tr1.
    destruct (isW && bool_decide (root tr = n)), (isP || isW); reflexivity. }
  assert (Hmethod2 : method tr2 = method tr).
  { unfold tr2, tr1.
    destruct (isW && bool_decide (root tr = n)), (isP || isW); reflexivity. }
  assert (Hsubdomain2 : subdomain tr2 = subdomain tr).
  { unfold tr2, tr1.
    destruct (isW && bool_decide (root tr = n)), (isP || isW); reflexivity. }
  assert (Hwild2 : hasRootWildcard tr2
                   = hasRootWildcard tr || (isW && bool_decide (root tr = n))).
  { unfold tr2, tr1.
    destruct (isW && bool_decide (root tr = n)), (isP || isW); cbn;
      rewrite ?orb_true_r, ?orb_false_r; reflexivity. }
  assert (Hderef2 : deref tr2 n = Ok node1).
  { unfold deref. rewrite Hnodes2, Hnodes1. rewrite decide_True by reflexivity.
    reflexivity. }
  rewrite Hderef2. cbn [mbind res_bind].
  assert (Hch : getChild node1 s1 = getChild node s1).
  { unfold node1. destruct (isP || isW); reflexivity. }
  unfold hasChild. rewrite Hch.
  destruct (getChild node s1) as [ch | ] eqn:Hchild.
  - rewrite bool_decide_eq_true_2 by (eexists; reflexivity).
    rewrite Hderef2. cbn [mbind res_bind]. rewrite Hch.
    exists tr2, ch. repeat split; try assumption.
    + rewrite Hnodes2, Hnodes1, decide_True by reflexivity. reflexivity.
    + intros id Hid _. rewrite Hnodes2, Hnodes1, decide_False by congruence.
      reflexivity.
    + rewrite Hnodes2. exact Hlen1.
  - rewrite bool_decide_eq_false_2 by (intros [x Hx]; discriminate).
    assert (Hnodes3 : nodes (addChild n s1 tr2)
                      = alter (with_child s1 (length (nodes tr2))) n
                          (nodes tr2 ++ [with_parent n newTrieNode]))
      by reflexivity.
    assert (Hlen2 : length (nodes tr2) = length (nodes tr))
      by (rewrite Hnodes2; exact Hlen1).
    assert (Hderef3 : deref (addChild n s1 tr2) n
                      = Ok (with_child s1 (length (nodes tr)) node1)).
    { unfold deref. rewrite Hnodes3, list_lookup_alter_eq.
      rewrite lookup_app_l by lia.
      rewrite Hnodes2, Hnodes1, decide_True by reflexivity. cbn.
      rewrite <- Hnodes2, Hlen2. reflexivity. }
    rewrite Hderef3. cbn [mbind res_bind].
    assert (Hget : getChild (with_child s1 (length (nodes tr)) node1) s1
                   = Some (length (nodes tr))).
    { unfold getChild, with_child. cbn. apply lookup_insert_eq. }
    rewrite Hget.
    exists (addChild n s1 tr2), (length (nodes tr)).
    repeat split; try assumption.
    + unfold deref in Hderef3.
      destruct (nodes (addChild n s1 tr2) !! n); congruence.
    + intros id Hid Hlt. rewrite Hnodes3, list_lookup_alter_ne by congruence.
      rewrite lookup_app_l by lia.
      rewrite Hnodes2, Hnodes1, decide_False by congruence. reflexivity.
    + rewrite Hnodes3, length_alter, length_app. cbn. lia.
    + rewrite Hnodes3, list_lookup_alter_ne by lia.
      rewrite <- Hlen2. apply list_lookup_middle. reflexivity.
Qed.

(** ** The invariant of the arena

    A labelling gives each node the static length and the frozen bit that
    the well-formedness check reaches it with. *)

Definition labelling := nat -> nat * bool.

Definition label_after (st : labelling) (id : nat) (l : string) : nat * bool :=
  (static_after (fst (st id)) (snd (st id)) l, stops_static (snd (st id)) l).

(** The shape of the arena: the root has no parent; a child pointer refers
    to a younger node whose parent pointer refers back; two keys of a node
    refer to two children; a node flagged for a named child has one; with
    the root-wildcard flag the root is flagged for a wildcard child. *)
Record Struct (tr : trie) (st : labelling) : Prop := mkStruct {
  S_root : exists rn, nodes tr !! root tr = Some rn /\ parent rn = None;
  S_root_st : st (root tr) = (1, false);
  S_edge : forall id node l c,
    nodes tr !! id = Some node -> getChild node l = Some c ->
    id < c
    /\ (exists cn, nodes tr !! c = Some cn /\ parent cn = Some id)
    /\ st c = label_after st id l;
  S_inj : forall id node l1 l2 c,
    nodes tr !! id = Some node ->
    getChild node l1 = Some c -> getChild node l2 = Some c -> l1 = l2;
  S_named : forall id node, nodes tr !! id = Some node -> named_ok node = true;
  S_rootWild : forall rn,
    hasRootWildcard tr = true -> nodes tr !! root tr = Some rn ->
    childWildcardParameter rn = true
}.

(** The wildcard children can be bound, except perhaps the one of the node
    [pending], which [insert] has just created and not yet filled. *)
Definition WildOK (tr : trie) (st : labelling) (pending : option nat) : Prop :=
  forall id node,
    nodes tr !! id = Some node -> pending <> Some id ->
    wildcard_ok tr node (fst (st id)) = true.

Definition SlashOK (tr : trie) : Prop :=
  forall rn,
    hasRootSlash tr = true -> nodes tr !! root tr = Some rn ->
    is_Some (getChild rn pathSep).

(** The invariant implies the check, from any node down: the nodes below a
    node are younger, so the fuel that is left suffices. *)
Lemma Struct_check (tr : trie) (st : labelling) :
  Struct tr st -> WildOK tr st None ->
  forall fuel id,
    id < length (nodes tr) -> length (nodes tr) - id <= fuel ->
    wf_from fuel tr id (fst (st id)) (snd (st id)) = true.
Proof.
  intros HS HW. induction fuel as [ | fuel IH]; intros id Hid Hfuel; [lia | ].
  cbn [wf_from].
  destruct (lookup_lt_is_Some_2 _ _ Hid) as [node Hnode]. rewrite Hnode.
  rewrite (S_named _ _ HS id node Hnode).
  rewrite (HW id node Hnode) by discriminate. cbn [andb].
  apply forallb_forall. intros [l c] Hin.
  apply list_elem_of_In, elem_of_map_to_list in Hin.
  destruct (S_edge _ _ HS id node l c Hnode Hin)
    as (Hlt & (cn & Hcn & Hpar) & Hst).
  unfold parent_is. rewrite Hcn.
  rewrite (bool_decide_eq_true_2 _ Hlt), (bool_decide_eq_true_2 _ Hpar).
  cbn [andb].
  pose proof (lookup_lt_Some _ _ _ Hcn) as Hc.
  specialize (IH c Hc). rewrite Hst in IH. cbn [fst snd label_after] in IH.
  apply IH. lia.
Qed.

Lemma Struct_wf_trie (tr : trie) (st : labelling) :
  Struct tr st -> WildOK tr st None -> SlashOK tr -> wf_trie tr = true.
Proof.
  intros HS HW HSl.
  destruct (S_root _ _ HS) as (rn & Hrn & Hpar).
  pose proof (lookup_lt_Some _ _ _ Hrn) as Hlt.
  pose proof (Struct_check tr st HS HW (length (nodes tr)) (root tr) Hlt) as Hc.
  rewrite (S_root_st _ _ HS) in Hc. cbn [fst snd] in Hc.
  unfold wf_trie, node_at. rewrite Hrn. cbn [default].
  rewrite Hc by lia. rewrite (bool_decide_eq_true_2 _ Hpar). cbn [andb].
  apply andb_true_iff. split.
  - destruct (hasRootWildcard tr) eqn:Hw; [ | reflexivity].
    cbn. exact (S_rootWild _ _ HS rn Hw Hrn).
  - destruct (hasRootSlash tr) eqn:Hs; [ | reflexivity].
    cbn. apply bool_decide_eq_true_2. exact (HSl rn Hs Hrn).
Qed.

(** A new tree satisfies the invariant. *)
Lemma treeFor_Struct (m sd : string) :
  Struct (Handler.treeFor m sd) (fun _ => (1, false))
  /\ WildOK (Handler.treeFor m sd) (fun _ => (1, false)) None
  /\ SlashOK (Handler.treeFor m sd).
Proof.
  assert (Hone : forall id node,
            nodes (Handler.treeFor m sd) !! id = Some node ->
            node = newTrieNode).
  { intros [ | id] node Hn; cbn in Hn; [congruence | ].
    destruct id; discriminate Hn. }
  split; [split | split].
  - exists newTrieNode. split; reflexivity.
  - reflexivity.
  - intros id node l c Hn Hc. rewrite (Hone id node Hn) in Hc.
    unfold getChild in Hc. cbn in Hc. rewrite lookup_empty in Hc. discriminate.
  - intros id node l1 l2 c Hn Hc. rewrite (Hone id node Hn) in Hc.
    unfold getChild in Hc. cbn in Hc. rewrite lookup_empty in Hc. discriminate.
  - intros id node Hn. rewrite (Hone id node Hn). reflexivity.
  - intros rn Hw. discriminate Hw.
  - intros id node Hn _. rewrite (Hone id node Hn). reflexivity.
  - intros rn Hs. discriminate Hs.
Qed.

Lemma newTrie_Struct :
  Struct newTrie (fun _ => (1, false))
  /\ WildOK newTrie (fun _ => (1, false)) None
  /\ SlashOK newTrie.
Proof. exact (treeFor_Struct "" ""). Qed.

(** ** One segment keeps the invariant *)

Lemma getChild_with_child (a : string) (c : nat) (node : trieNode) (l : string) :
  getChild (with_child a c node) l
  = if decide (a = l) then Some c else getChild node l.
Proof.
  unfold getChild, with_child. cbn. case_decide as Hal.
  - subst. apply lookup_insert_eq.
  - apply lookup_insert_ne. exact Hal.
Qed.

Lemma label_wildcard (s : string) :
  s <> "" -> (label s = WildcardParamStart <-> isWildcard s = true).
Proof.
  intros Hs. destruct s as [ | c s']; [contradiction | ].
  unfold label, isWildcard, isParam. cbn [Strings.first_byte].
  destruct (Ascii.eqb_spec c "*"%char) as [-> | Hw]; [tauto | ].
  destruct (Ascii.eqb_spec c ":"%char) as [-> | Hp].
  - split; discriminate.
  - split; [ | discriminate]. intros Heq. injection Heq as Hc _. contradiction.
Qed.

Lemma label_param (s : string) :
  isParam s = true -> label s = ParamStart.
Proof.
  destruct s as [ | c s']; [discriminate | ].
  unfold label, isWildcard, isParam. cbn [Strings.first_byte].
  destruct (Ascii.eqb_spec c ":"%char) as [-> | Hp]; [ | discriminate].
  reflexivity.
Qed.

Lemma left_behind_fields (s : string) (fresh : nat) (node : trieNode) :
  parent (left_behind s fresh node) = parent node
  /\ paramKeys (left_behind s fresh node) = paramKeys node
  /\ staticKey (left_behind s fresh node) = staticKey node
  /\ childNamedParameter (left_behind s fresh node)
     = isParam s || childNamedParameter node
  /\ childWildcardParameter (left_behind s fresh node)
     = isWildcard s || childWildcardParameter node.
Proof.
  unfold left_behind, flagged.
  destruct (getChild node (label s)), (isParam s), (isWildcard s);
    repeat split; reflexivity.
Qed.

Lemma left_behind_children (s : string) (fresh : nat) (node : trieNode)
    (l : string) (c : nat) :
  getChild (left_behind s fresh node) l = Some c ->
  getChild node l = Some c
  \/ (getChild node (label s) = None /\ l = label s /\ c = fresh).
Proof.
  unfold left_behind. destruct (getChild node (label s)) eqn:Hc.
  - rewrite getChild_flagged. tauto.
  - rewrite getChild_with_child.
    destruct (decide (label s = l)) as [Hl | Hl].
    + intros [= <-]. right. repeat split. symmetry. exact Hl.
    + rewrite getChild_flagged. tauto.
Qed.

Lemma left_behind_keeps (s : string) (fresh : nat) (node : trieNode)
    (l : string) (c : nat) :
  getChild node l = Some c -> getChild (left_behind s fresh node) l = Some c.
Proof.
  intros Hl. unfold left_behind. destruct (getChild node (label s)) eqn:Hc.
  - rewrite getChild_flagged. exact Hl.
  - rewrite getChild_with_child.
    destruct (decide (label s = l)) as [Heq | Heq].
    + subst l. congruence.
    + rewrite getChild_flagged. exact Hl.
Qed.

(** The labelling after a segment: the new node, if there is one, gets the
    label of the edge that leads to it. *)
Definition relabel (s : string) (tr : trie) (n : nat) (st : labelling)
  : labelling :=
  fun id =>
    if decide (id = length (nodes tr)) then label_after st n (label s)
    else st id.

Lemma relabel_old (s : string) (tr : trie) (n : nat) (st : labelling) (id : nat) :
  id < length (nodes tr) -> relabel s tr n st id = st id.
Proof. intros Hid. unfold relabel. rewrite decide_False by lia. reflexivity. Qed.

Lemma relabel_fresh (s : string) (tr : trie) (n : nat) (st : labelling) :
  relabel s tr n st (length (nodes tr)) = label_after st n (label s).
Proof. unfold relabel. rewrite decide_True by reflexivity. reflexivity. Qed.

Section Segment.
Variables (s : string) (tr tr3 : trie) (n child : nat) (node : trieNode).
Variable st : labelling.

Hypothesis Hs : s <> "".
Hypothesis Hnode : nodes tr !! n = Some node.
Hypothesis HS : Struct tr st.
Hypothesis HW : WildOK tr st None.

Let fresh := length (nodes tr).

Hypothesis Hroot : root tr3 = root tr.
Hypothesis Hwild :
  hasRootWildcard tr3
  = hasRootWildcard tr || (isWildcard s && bool_decide (root tr = n)).
Hypothesis Hleft : nodes tr3 !! n = Some (left_behind s fresh node).
Hypothesis Hchild : getChild (left_behind s fresh node) (label s) = Some child.
Hypothesis Hother :
  forall id, id <> n -> id < fresh -> nodes tr3 !! id = nodes tr !! id.
Hypothesis Hnew :
  match getChild node (label s) with
  | Some ch => child = ch /\ length (nodes tr3) = fresh
  | None =>
      child = fresh /\ length (nodes tr3) = S fresh
      /\ nodes tr3 !! child = Some (with_parent n newTrieNode)
  end.

Lemma n_old : n < fresh.
Proof. eapply lookup_lt_Some. exact Hnode. Qed.

(** The nodes of the arena after the segment. *)
Lemma segment_lookup (id : nat) (nd : trieNode) :
  nodes tr3 !! id = Some nd ->
  (id = n /\ nd = left_behind s fresh node)
  \/ (id <> n /\ nodes tr !! id = Some nd)
  \/ (id = fresh /\ getChild node (label s) = None
      /\ nd = with_parent n newTrieNode).
Proof.
  intros Hid. destruct (decide (id = n)) as [-> | Hne].
  - left. split; [reflexivity | congruence].
  - destruct (decide (id < fresh)) as [Hlt | Hge].
    + right. left. split; [exact Hne | ]. rewrite <- Hother by assumption.
      exact Hid.
    + right. right. pose proof (lookup_lt_Some _ _ _ Hid) as Hlen.
      destruct (getChild node (label s)) as [ch | ].
      * destruct Hnew as [_ Hl]. lia.
      * destruct Hnew as (Hc & Hl & Hn). assert (id = fresh) as -> by lia.
        repeat split. rewrite Hc in Hn. congruence.
Qed.

(** Every node that was there is still there, with its parent, its keys
    and its children. *)
Lemma segment_kept (id : nat) (nd : trieNode) :
  nodes tr !! id = Some nd ->
  exists nd',
    nodes tr3 !! id = Some nd'
    /\ parent nd' = parent nd
    /\ paramKeys nd' = paramKeys nd
    /\ staticKey nd' = staticKey nd
    /\ (forall l c, getChild nd l = Some c -> getChild nd' l = Some c).
Proof.
  intros Hid. destruct (decide (id = n)) as [-> | Hne].
  - assert (nd = node) as -> by congruence.
    exists (left_behind s fresh node).
    destruct (left_behind_fields s fresh node) as (Hp & Hk & Hst & _).
    repeat split; try assumption. exact (left_behind_keeps s fresh node).
  - exists nd. rewrite Hother; [ | exact Hne | eapply lookup_lt_Some; exact Hid].
    repeat split; try assumption. tauto.
Qed.

Lemma segment_edge (id : nat) (nd : trieNode) (l : string) (c : nat) :
  nodes tr3 !! id = Some nd -> getChild nd l = Some c ->
  (exists nd0, nodes tr !! id = Some nd0 /\ getChild nd0 l = Some c)
  \/ (id = n /\ getChild node (label s) = None /\ l = label s /\ c = fresh).
Proof.
  intros Hid Hc.
  destruct (segment_lookup id nd Hid)
    as [[-> ->] | [[Hne Hold] | (-> & _ & ->)]].
  - destruct (left_behind_children s fresh node l c Hc) as [Hl | (Hn & -> & ->)].
    + left. exists node. split; assumption.
    + right. repeat split. exact Hn.
  - left. exists nd. split; assumption.
  - unfold getChild in Hc. cbn in Hc. rewrite lookup_empty in Hc. discriminate.
Qed.

Lemma segment_Struct : Struct tr3 (relabel s tr n st).
Proof.
  pose proof n_old as Hn.
  split.
  - destruct (S_root _ _ HS) as (rn & Hrn & Hpar).
    destruct (segment_kept _ _ Hrn) as (rn' & Hrn' & Hpar' & _).
    exists rn'. rewrite Hroot. split; [exact Hrn' | congruence].
  - rewrite Hroot. destruct (S_root _ _ HS) as (rn & Hrn & _).
    rewrite relabel_old by (eapply lookup_lt_Some; exact Hrn).
    exact (S_root_st _ _ HS).
  - intros id nd l c Hid Hc.
    destruct (segment_edge id nd l c Hid Hc)
      as [(nd0 & Hid0 & Hc0) | (-> & Hnone & -> & ->)].
    + destruct (S_edge _ _ HS id nd0 l c Hid0 Hc0)
        as (Hlt & (cn & Hcn & Hpar) & Hst).
      destruct (segment_kept _ _ Hcn) as (cn' & Hcn' & Hpar' & _).
      pose proof (lookup_lt_Some _ _ _ Hcn) as Hcl.
      split; [exact Hlt | ]. split.
      * exists cn'. split; [exact Hcn' | congruence].
      * unfold label_after.
        rewrite !relabel_old by lia. exact Hst.
    + split; [exact Hn | ]. split.
      * rewrite Hnone in Hnew. destruct Hnew as (Hc' & _ & Hfresh).
        rewrite Hc' in Hfresh.
        exists (with_parent n newTrieNode). split; [exact Hfresh | reflexivity].
      * rewrite relabel_fresh. unfold label_after.
        rewrite relabel_old by exact Hn. reflexivity.
  - intros id nd l1 l2 c Hid H1 H2.
    destruct (segment_edge id nd l1 c Hid H1)
      as [(nd1 & Hid1 & Hc1) | (Hidn1 & Hnone1 & Hl1 & Hcf1)];
      destruct (segment_edge id nd l2 c Hid H2)
        as [(nd2 & Hid2 & Hc2) | (Hidn2 & Hnone2 & Hl2 & Hcf2)].
    + assert (nd2 = nd1) as -> by congruence.
      exact (S_inj _ _ HS id nd1 l1 l2 c Hid1 Hc1 Hc2).
    + destruct (S_edge _ _ HS id nd1 l1 _ Hid1 Hc1) as (_ & (cn & Hcn & _) & _).
      apply lookup_lt_Some in Hcn. unfold fresh in Hcf2. lia.
    + destruct (S_edge _ _ HS id nd2 l2 _ Hid2 Hc2) as (_ & (cn & Hcn & _) & _).
      apply lookup_lt_Some in Hcn. unfold fresh in Hcf1. lia.
    + congruence.
  - intros id nd Hid.
    destruct (segment_lookup id nd Hid)
      as [[-> ->] | [[Hne Hold] | (-> & _ & ->)]].
    + unfold named_ok.
      destruct (left_behind_fields s fresh node) as (_ & _ & _ & Hnamed & _).
      rewrite Hnamed.
      destruct (isParam s) eqn:Hp; cbn [orb].
      * apply bool_decide_eq_true_2. exists child.
        rewrite <- (label_param s Hp). exact Hchild.
      * pose proof (S_named _ _ HS n node Hnode) as Hold.
        unfold named_ok in Hold.
        destruct (childNamedParameter node); [ | reflexivity].
        apply bool_decide_eq_true_1 in Hold. destruct Hold as [c Hc].
        apply bool_decide_eq_true_2. exists c. exact (left_behind_keeps s fresh node _ _ Hc).
    + exact (S_named _ _ HS id nd Hold).
    + reflexivity.
  - intros rn Hw Hrn. rewrite Hroot in Hrn.
    destruct (segment_lookup _ rn Hrn)
      as [[Hrt ->] | [[Hne Hold] | (Hrt & _ & ->)]].
    + destruct (left_behind_fields s fresh node) as (_ & _ & _ & _ & Hflag).
      rewrite Hflag. rewrite Hwild in Hw.
      destruct (isWildcard s); [reflexivity | ]. cbn [orb andb] in Hw |- *.
      rewrite orb_false_r in Hw.
      apply (S_rootWild _ _ HS node Hw). rewrite Hrt. exact Hnode.
    + rewrite Hwild in Hw.
      rewrite (bool_decide_eq_false_2 _ Hne), andb_false_r, orb_false_r in Hw.
      exact (S_rootWild _ _ HS rn Hw Hold).
    + destruct (S_root _ _ HS) as (rn0 & Hrn0 & _).
      apply lookup_lt_Some in Hrn0. unfold fresh in Hrt. lia.
Qed.

Lemma segment_WildOK :
  WildOK tr3 (relabel s tr n st) (if isWildcard s then Some n else None).
Proof.
  pose proof n_old as Hn.
  assert (Hkeep : forall id nd,
            nodes tr !! id = Some nd -> id < fresh ->
            wildcard_ok tr nd (fst (st id)) = true ->
            forall nd',
              childWildcardParameter nd' = childWildcardParameter nd ->
              (forall l c, getChild nd l = Some c -> getChild nd' l = Some c) ->
              wildcard_ok tr3 nd' (fst (relabel s tr n st id)) = true).
  { intros id nd Hid Hlt Hok nd' Hflag Hch.
    unfold wildcard_ok in Hok |- *. rewrite Hflag.
    destruct (childWildcardParameter nd); [ | reflexivity].
    destruct (getChild nd WildcardParamStart) as [w | ] eqn:Hw; [ | discriminate].
    rewrite (Hch _ _ Hw).
    destruct (nodes tr !! w) as [wn | ] eqn:Hwn; [ | discriminate].
    destruct (segment_kept _ _ Hwn) as (wn' & Hwn' & _ & Hk & Hsk & _).
    rewrite Hwn', Hk, Hsk, relabel_old by exact Hlt. exact Hok. }
  intros id nd Hid Hpend.
  destruct (segment_lookup id nd Hid)
    as [[-> ->] | [[Hne Hold] | (-> & _ & ->)]].
  - destruct (isWildcard s) eqn:Hw; [congruence | ].
    apply (Hkeep n node Hnode Hn).
    + apply HW; [exact Hnode | discriminate].
    + destruct (left_behind_fields s fresh node) as (_ & _ & _ & _ & Hflag).
      rewrite Hflag, Hw. reflexivity.
    + exact (left_behind_keeps s fresh node).
  - apply (Hkeep id nd Hold); [eapply lookup_lt_Some; exact Hold | | | ].
    + apply HW; [exact Hold | discriminate].
    + reflexivity.
    + tauto.
  - reflexivity.
Qed.

End Segment.

(** ** Attaching the route keeps the invariant *)

(** The children of a trie are kept by another. *)
Definition grows (tr tr' : trie) : Prop :=
  forall id nd l c,
    nodes tr !! id = Some nd -> getChild nd l = Some c ->
    exists nd', nodes tr' !! id = Some nd' /\ getChild nd' l = Some c.

Lemma grows_refl (tr : trie) : grows tr tr.
Proof. intros id nd l c Hid Hc. exists nd. split; assumption. Qed.

Lemma grows_trans (tr1 tr2 tr3 : trie) :
  grows tr1 tr2 -> grows tr2 tr3 -> grows tr1 tr3.
Proof.
  intros H12 H23 id nd l c Hid Hc.
  destruct (H12 id nd l c Hid Hc) as (nd2 & Hid2 & Hc2).
  exact (H23 id nd2 l c Hid2 Hc2).
Qed.

Section SetRoute.
Variables (routeName : string) (handlers : Handlers) (keys : list string).
Variables (path static : string) (tr : trie) (nf : nat) (st : labelling).

(** The last assignments of [insert], to the node [nf]. *)
Definition set_route : trie :=
  set_node nf (with_route routeName handlers keys path static) tr.

Definition routed (id : nat) (nd : trieNode) : trieNode :=
  if decide (nf = id)
  then with_route routeName handlers keys path static nd else nd.

Lemma routed_fields (id : nat) (nd : trieNode) :
  parent (routed id nd) = parent nd
  /\ (forall l, getChild (routed id nd) l = getChild nd l)
  /\ named_ok (routed id nd) = named_ok nd
  /\ childWildcardParameter (routed id nd) = childWildcardParameter nd.
Proof. unfold routed. destruct (decide (nf = id)); repeat split; reflexivity. Qed.

Lemma set_route_kept (id : nat) (nd0 : trieNode) :
  nodes tr !! id = Some nd0 -> nodes set_route !! id = Some (routed id nd0).
Proof.
  intros Hid. unfold set_route, routed. rewrite nodes_set_node.
  destruct (decide (nf = id)) as [-> | Hne]; [ | exact Hid].
  rewrite Hid. reflexivity.
Qed.

Lemma set_route_lookup (id : nat) (nd : trieNode) :
  nodes set_route !! id = Some nd ->
  exists nd0, nodes tr !! id = Some nd0 /\ nd = routed id nd0.
Proof.
  intros Hid. destruct (nodes tr !! id) as [nd0 | ] eqn:Hold.
  - exists nd0. split; [reflexivity | ].
    rewrite (set_route_kept id nd0 Hold) in Hid. congruence.
  - apply lookup_lt_Some in Hid. apply lookup_ge_None in Hold.
    unfold set_route, set_node in Hid. cbn in Hid.
    rewrite length_alter in Hid. lia.
Qed.

Lemma set_route_grows : grows tr set_route.
Proof.
  intros id nd l c Hid Hc. exists (routed id nd).
  split; [exact (set_route_kept id nd Hid) | ].
  destruct (routed_fields id nd) as (_ & Hch & _). rewrite Hch. exact Hc.
Qed.

Lemma set_route_Struct : Struct tr st -> Struct set_route st.
Proof.
  intros HS. split.
  - destruct (S_root _ _ HS) as (rn & Hrn & Hpar).
    exists (routed (root tr) rn). split.
    + exact (set_route_kept _ _ Hrn).
    + destruct (routed_fields (root tr) rn) as (Hp & _). congruence.
  - exact (S_root_st _ _ HS).
  - intros id nd l c Hid Hc.
    destruct (set_route_lookup id nd Hid) as (nd0 & Hid0 & ->).
    destruct (routed_fields id nd0) as (_ & Hch & _). rewrite Hch in Hc.
    destruct (S_edge _ _ HS id nd0 l c Hid0 Hc)
      as (Hlt & (cn & Hcn & Hpar) & Hst).
    split; [exact Hlt | ]. split; [ | exact Hst].
    exists (routed c cn). split; [exact (set_route_kept _ _ Hcn) | ].
    destruct (routed_fields c cn) as (Hp & _). congruence.
  - intros id nd l1 l2 c Hid H1 H2.
    destruct (set_route_lookup id nd Hid) as (nd0 & Hid0 & ->).
    destruct (routed_fields id nd0) as (_ & Hch & _). rewrite Hch in H1, H2.
    exact (S_inj _ _ HS id nd0 l1 l2 c Hid0 H1 H2).
  - intros id nd Hid.
    destruct (set_route_lookup id nd Hid) as (nd0 & Hid0 & ->).
    destruct (routed_fields id nd0) as (_ & _ & Hn & _). rewrite Hn.
    exact (S_named _ _ HS id nd0 Hid0).
  - intros rn Hw Hrn. change (root set_route) with (root tr) in Hrn.
    destruct (set_route_lookup _ rn Hrn) as (rn0 & Hrn0 & ->).
    destruct (routed_fields (root tr) rn0) as (_ & _ & _ & Hf). rewrite Hf.
    exact (S_rootWild _ _ HS rn0 Hw Hrn0).
Qed.

(** The wildcard children can all be bound after the route is attached, if
    the pending node is the parent of [nf], and the keys that are attached
    suit every node that has [nf] as its wildcard child. *)
Lemma set_route_WildOK (pending : option nat) :
  Struct tr st -> WildOK tr st pending ->
  (forall p, pending = Some p ->
     exists pn, nodes tr !! p = Some pn
                /\ getChild pn WildcardParamStart = Some nf) ->
  (forall id nd0,
     nodes tr !! id = Some nd0 -> getChild nd0 WildcardParamStart = Some nf ->
     keys <> [] /\ String.length static <= fst (st id)) ->
  WildOK set_route st None.
Proof.
  intros HS HW Hpend Hkeys id nd Hid _.
  destruct (set_route_lookup id nd Hid) as (nd0 & Hid0 & ->).
  destruct (routed_fields id nd0) as (_ & Hch & _ & Hf).
  unfold wildcard_ok. rewrite Hf, Hch.
  destruct (childWildcardParameter nd0) eqn:Hflag; [ | reflexivity].
  destruct (getChild nd0 WildcardParamStart) as [w | ] eqn:Hw.
  - destruct (S_edge _ _ HS id nd0 _ w Hid0 Hw) as (_ & (wn & Hwn & _) & _).
    rewrite (set_route_kept w wn Hwn). unfold routed.
    destruct (decide (nf = w)) as [<- | Hne].
    + destruct (Hkeys id nd0 Hid0 Hw) as [Hk Hst]. cbn.
      rewrite (bool_decide_eq_true_2 _ Hk), (bool_decide_eq_true_2 _ Hst).
      reflexivity.
    + assert (Hnp : pending <> Some id).
      { intros Hp. destruct (Hpend id Hp) as (pn & Hpn & Hpw). congruence. }
      pose proof (HW id nd0 Hid0 Hnp) as Hok. unfold wildcard_ok in Hok.
      rewrite Hflag, Hw, Hwn in Hok. exact Hok.
  - assert (Hnp : pending <> Some id).
    { intros Hp. destruct (Hpend id Hp) as (pn & Hpn & Hpw). congruence. }
    pose proof (HW id nd0 Hid0 Hnp) as Hok. unfold wildcard_ok in Hok.
    rewrite Hflag, Hw in Hok. discriminate.
Qed.

End SetRoute.

(** ** The paths that [insert] takes

    No segment is empty, a wildcard segment is the last one and has no [:]
    in its name, and the path starts with [/]. *)

Fixpoint valid_segs (input : list string) : bool :=
  match input with
  | [] => true
  | s :: rest =>
      negb (String.eqb s "")
      && (if isWildcard s
          then match rest with
               | [] => negb (Strings.Contains s ":"%char)
               | _ :: _ => false
               end
          else true)
      && valid_segs rest
  end.

Definition valid_path (path : string) : bool :=
  match Strings.first_byte path with
  | Some c => Ascii.eqb c pathSepB && valid_segs (slowPathSplit path)
  | None => false
  end.

Definition no_wildcard (input : list string) : bool :=
  forallb (fun s => negb (isWildcard s)) input.

(** What the loop of [insert] knows of the static key it will compute,
    at a node labelled [lab] with the segments [rest] still to come: below
    a parameter edge the first [:] of the path is within the static part;
    above, the static part is the path up to the segments to come. *)
Definition static_bound (path : string) (lab : nat * bool)
    (rest : list string) : Prop :=
  no_wildcard rest = true
  \/ (if snd lab
      then (0 <= Strings.Index path ":"%char <= Z.of_nat (fst lab))%Z
      else exists pre,
             path = pre +:+ Strings.Join rest pathSep
             /\ String.length pre = fst lab).

Lemma staticPart_frozen (path : string) (b : nat) :
  (0 <= Strings.Index path ":"%char <= Z.of_nat b)%Z ->
  String.length (staticPart path) <= b.
Proof.
  intros Hi. unfold staticPart. cbv zeta.
  rewrite (bool_decide_eq_false_2 (Strings.Index path ":" = -1)%Z) by lia.
  rewrite bool_decide_eq_false_2 by lia.
  pose proof (StringFacts.length_take
                (Z.to_nat (Strings.Index path ":"%char)) path).
  lia.
Qed.

Lemma staticPart_wildcard (pre s : string) :
  isWildcard s = true -> Strings.Contains s ":"%char = false ->
  String.length (staticPart (pre +:+ s)) <= String.length pre.
Proof.
  destruct s as [ | c s']; [discriminate | ].
  unfold isWildcard. cbn [Strings.first_byte]. intros Hc%Ascii.eqb_eq. subst c.
  unfold Strings.Contains. intros Hn%negb_false_iff%bool_decide_eq_true_1.
  unfold staticPart. cbv zeta.
  rewrite (StringFacts.Index_app pre _ ":"%char), Hn.
  rewrite (bool_decide_eq_true_2 (-1 = -1)%Z) by reflexivity.
  pose proof (StringFacts.Index_range pre ":"%char) as Hpre.
  pose proof (StringFacts.Index_app_hit pre s' "*"%char) as Hstar.
  set (j := Strings.Index (pre +:+ String "*" s') "*"%char) in *.
  set (i := Strings.Index pre ":"%char) in *.
  destruct (bool_decide_reflect (i = -1)%Z) as [Hi | Hi].
  - rewrite (bool_decide_eq_true_2 (-1 = -1)%Z) by reflexivity.
    rewrite (bool_decide_eq_false_2 (j = -1)%Z) by lia.
    pose proof (StringFacts.length_take (Z.to_nat j)
                  (pre +:+ String "*" s')).
    lia.
  - rewrite !(bool_decide_eq_false_2 (i = -1)%Z) by lia.
    pose proof (StringFacts.length_take (Z.to_nat i)
                  (pre +:+ String "*" s')).
    lia.
Qed.

Lemma static_bound_wildcard (path : string) (lab : nat * bool) (s : string) :
  isWildcard s = true -> Strings.Contains s ":"%char = false ->
  static_bound path lab [s] ->
  String.length (staticPart path) <= fst lab.
Proof.
  intros Hw Hc [Hno | Hb].
  - cbn in Hno. rewrite Hw in Hno. discriminate.
  - destruct lab as [b [ | ]]; cbn [fst snd] in *.
    + exact (staticPart_frozen path b Hb).
    + destruct Hb as (pre & -> & <-). cbn [Strings.Join].
      exact (staticPart_wildcard pre s Hw Hc).
Qed.

Lemma label_literal (s : string) :
  isWildcard s = false -> isParam s = false ->
  label s = s /\ stops_static false s = false.
Proof.
  intros Hw Hp. unfold label. rewrite Hw, Hp. split; [reflexivity | ].
  unfold stops_static. cbn [orb].
  destruct s as [ | c s']; [reflexivity | ].
  unfold isWildcard, isParam in *. cbn [Strings.first_byte] in *.
  unfold ParamStart, WildcardParamStart. cbn [String.eqb].
  rewrite Hw, Hp. reflexivity.
Qed.

Lemma static_bound_next (path : string) (lab : nat * bool) (s : string)
    (rest : list string) :
  s <> "" -> isWildcard s = false ->
  static_bound path lab (s :: rest) ->
  static_bound path
    (static_after (fst lab) (snd lab) (label s), stops_static (snd lab) (label s))
    rest.
Proof.
  intros Hs Hw [Hno | Hb].
  - left. cbn in Hno. apply andb_true_iff in Hno. tauto.
  - destruct rest as [ | s2 rest2]; [left; reflexivity | ]. right.
    destruct lab as [b [ | ]]; cbn [fst snd] in *; [exact Hb | ].
    destruct Hb as (pre & Hpath & Hlen).
    destruct (isParam s) eqn:Hp.
    + rewrite (label_param s Hp). cbn.
      destruct s as [ | c s']; [contradiction | ].
      unfold isParam in Hp. cbn [Strings.first_byte] in Hp.
      apply Ascii.eqb_eq in Hp. subst c.
      rewrite Hpath, <- Hlen.
      change (Strings.Join (String ":" s' :: s2 :: rest2) pathSep)
        with (String ":" (s' +:+ pathSep +:+ Strings.Join (s2 :: rest2) pathSep)).
      apply StringFacts.Index_app_hit.
    + destruct (label_literal s Hw Hp) as [-> Hst].
      unfold static_after. rewrite Hst. cbn [fst snd].
      exists (pre +:+ s +:+ pathSep). split.
      * rewrite Hpath.
        change (Strings.Join (s :: s2 :: rest2) pathSep)
          with (s +:+ pathSep +:+ Strings.Join (s2 :: rest2) pathSep).
        rewrite !StringFacts.app_assoc. reflexivity.
      * rewrite !StringFacts.length_app, Hlen. cbn. lia.
Qed.

(** ** The loop of [insert] and the route keep the invariant *)

(** Going down from a node along the children of the given keys. *)
Fixpoint descend (tr : trie) (n : nat) (labels : list string) : option nat :=
  match labels with
  | [] => Some n
  | l :: rest =>
      match literalChild tr n l with
      | Some c => descend tr c rest
      | None => None
      end
  end.

Lemma literalChild_Some (tr : trie) (n : nat) (nd : trieNode) (l : string)
    (c : nat) :
  nodes tr !! n = Some nd -> getChild nd l = Some c ->
  literalChild tr n l = Some c.
Proof.
  intros Hn Hc. unfold literalChild, node_at. rewrite Hn. exact Hc.
Qed.

Section InsertLoop.
Variables (path routeName : string) (handlers : Handlers).

Lemma insert_loop_Struct (rest : list string) :
  forall tr st n keys node,
    Struct tr st -> WildOK tr st None -> nodes tr !! n = Some node ->
    (forall id nd,
       nodes tr !! id = Some nd -> getChild nd WildcardParamStart <> Some n) ->
    valid_segs rest = true -> static_bound path (st n) rest ->
    exists tr1 nf keys1 st1,
      insert_loop rest tr n keys = Ok (tr1, nf, keys1)
      /\ let trf :=
           set_route routeName handlers keys1 path (staticPart path) tr1 nf in
         Struct trf st1 /\ WildOK trf st1 None
         /\ root trf = root tr /\ hasRootSlash trf = hasRootSlash tr
         /\ grows tr trf
         /\ (forall s rest',
               rest = s :: rest' ->
               exists nd, nodes trf !! n = Some nd
                          /\ is_Some (getChild nd (label s)))
         /\ descend trf n (map label rest) = Some nf
         /\ (exists nd,
               nodes tr1 !! nf = Some nd
               /\ nodes trf !! nf
                  = Some (with_route routeName handlers keys1 path
                            (staticPart path) nd))
         /\ method trf = method tr /\ subdomain trf = subdomain tr.
Proof.
  induction rest as [ | s rest IH];
    intros tr st n keys node HS HW Hn Hns Hv Hb.
  - exists tr, n, keys, st. split; [reflexivity | ]. cbv zeta.
    split; [apply set_route_Struct; exact HS | ].
    split.
    { apply (set_route_WildOK _ _ _ _ _ _ _ _ None HS HW).
      - intros p [=].
      - intros id nd0 Hid Hw. exfalso. exact (Hns id nd0 Hid Hw). }
    split; [reflexivity | ]. split; [reflexivity | ].
    split; [apply set_route_grows | ].
    split; [intros s rest' [=] | ].
    split; [reflexivity | ].
    split; [ | split; reflexivity].
    exists node. split; [exact Hn | ].
    rewrite (set_route_kept _ _ _ _ _ _ _ _ _ Hn). unfold routed.
    rewrite decide_True by reflexivity. reflexivity.
  - cbn [valid_segs] in Hv.
    apply andb_true_iff in Hv as [Hv Hvr].
    apply andb_true_iff in Hv as [Hne Hwc].
    assert (Hs : s <> "").
    { intros ->. discriminate Hne. }
    destruct (insert_segment_spec s tr n keys node Hs Hn)
      as (tr3 & child & Heq & Hroot & Hslash & Hwild & Hleft & Hchild
          & Hother & Hnew & Hmethod & Hsubdomain).
    pose proof (segment_Struct s tr tr3 n child node st Hn HS Hroot Hwild
                  Hleft Hchild Hother Hnew) as HS3.
    pose proof (segment_WildOK s tr tr3 n child node st Hn HW Hroot Hwild
                  Hleft Hother Hnew) as HW3.
    pose proof (lookup_lt_Some _ _ _ Hn) as Hnlt.
    assert (Hgrow : grows tr tr3).
    { intros id nd l c Hid Hc.
      destruct (segment_kept s tr tr3 n node Hn Hleft Hother id nd Hid)
        as (nd' & Hid' & _ & _ & _ & Hch).
      exists nd'. split; [exact Hid' | exact (Hch l c Hc)]. }
    destruct (S_edge _ _ HS3 n _ (label s) child Hleft Hchild)
      as (Hlt & (cn & Hcn & Hpar) & Hst).
    assert (Hparent : forall id nd l,
              nodes tr3 !! id = Some nd -> getChild nd l = Some child ->
              id = n /\ l = label s).
    { intros id nd l Hid Hc.
      destruct (S_edge _ _ HS3 id nd l child Hid Hc)
        as (_ & (cn' & Hcn' & Hpar') & _).
      assert (id = n) as -> by congruence.
      split; [reflexivity | ].
      assert (nd = left_behind s (length (nodes tr)) node) as -> by congruence.
      exact (S_inj _ _ HS3 n _ l (label s) child Hleft Hc Hchild). }
    cbn [insert_loop]. rewrite Heq. cbn [mbind res_bind].
    destruct (isWildcard s) eqn:Hw.
    + destruct rest as [ | s2 rest2]; [ | discriminate Hwc].
      apply negb_true_iff in Hwc.
      cbn [insert_loop].
      exists tr3, child, (keys_after s keys), (relabel s tr n st).
      split; [reflexivity | ]. cbv zeta.
      assert (Hlab : label s = WildcardParamStart)
        by (apply label_wildcard; assumption).
      split; [apply set_route_Struct; exact HS3 | ].
      split.
      { apply (set_route_WildOK _ _ _ _ _ _ _ _ (Some n) HS3 HW3).
        - intros p [= <-]. eexists. split; [exact Hleft | ].
          rewrite <- Hlab. exact Hchild.
        - intros id nd0 Hid Hc.
          destruct (Hparent id nd0 _ Hid Hc) as [-> _].
          split.
          + unfold keys_after. rewrite Hw, orb_true_r.
            intros Hnil. apply app_eq_nil in Hnil as [_ Hnil]. discriminate.
          + rewrite relabel_old by exact Hnlt.
            exact (static_bound_wildcard path (st n) s Hw Hwc Hb). }
      split; [exact Hroot | ]. split; [exact Hslash | ].
      split.
      { eapply grows_trans; [exact Hgrow | apply set_route_grows]. }
      destruct (set_route_grows routeName handlers (keys_after s keys) path
                  (staticPart path) tr3 child n _ (label s) child Hleft Hchild)
        as (nd' & Hnd' & Hc').
      split.
      { intros s0 rest' [= <- <-].
        exists nd'. split; [exact Hnd' | eexists; exact Hc']. }
      split.
      { cbn [map descend].
        rewrite (literalChild_Some _ _ _ _ _ Hnd' Hc'). reflexivity. }
      split; [ | split; assumption].
      exists cn. split; [exact Hcn | ].
      rewrite (set_route_kept _ _ _ _ _ _ _ _ _ Hcn). unfold routed.
      rewrite decide_True by reflexivity. reflexivity.
    + assert (Hns3 : forall id nd,
                nodes tr3 !! id = Some nd ->
                getChild nd WildcardParamStart <> Some child).
      { intros id nd Hid Hc. destruct (Hparent id nd _ Hid Hc) as [_ Hl].
        symmetry in Hl. apply label_wildcard in Hl; [congruence | exact Hs]. }
      assert (Hb3 : static_bound path (relabel s tr n st child) rest).
      { rewrite Hst. unfold label_after.
        rewrite relabel_old by exact Hnlt.
        exact (static_bound_next path (st n) s rest Hs Hw Hb). }
      destruct (IH tr3 (relabel s tr n st) child (keys_after s keys) cn
                  HS3 HW3 Hcn Hns3 Hvr Hb3)
        as (tr1 & nf & keys1 & st1 & Hloop & HSf & HWf & Hrootf & Hslashf
            & Hgrowf & _ & Hdesc & Hend & Hmethodf & Hsubdomainf).
      exists tr1, nf, keys1, st1. split; [exact Hloop | ]. cbv zeta.
      split; [exact HSf | ]. split; [exact HWf | ].
      split; [congruence | ]. split; [congruence | ].
      split; [eapply grows_trans; eassumption | ].
      destruct (Hgrowf n _ (label s) child Hleft Hchild) as (nd' & Hnd' & Hc').
      split.
      { intros s0 rest' [= <- <-].
        exists nd'. split; [exact Hnd' | eexists; exact Hc']. }
      split.
      { cbn [map descend].
        rewrite (literalChild_Some _ _ _ _ _ Hnd' Hc'). exact Hdesc. }
      split; [exact Hend | ]. split; congruence.
Qed.

End InsertLoop.

(** ** [insert] keeps the invariant *)

Lemma set_rootSlash_Struct (tr : trie) (st : labelling) :
  Struct tr st -> Struct (set_rootSlash tr) st.
Proof.
  intros HS. split.
  - exact (S_root _ _ HS).
  - exact (S_root_st _ _ HS).
  - exact (S_edge _ _ HS).
  - exact (S_inj _ _ HS).
  - exact (S_named _ _ HS).
  - exact (S_rootWild _ _ HS).
Qed.

Lemma slowPathSplit_root : slowPathSplit "/" = ["/"].
Proof. reflexivity. Qed.

Lemma slowPathSplit_slash (p : string) :
  p <> "" ->
  slowPathSplit (String "/" p) = Strings.Split p pathSepB
  /\ String "/" p = "/" +:+ Strings.Join (slowPathSplit (String "/" p)) pathSep.
Proof.
  intros Hp.
  assert (Hsplit : slowPathSplit (String "/" p) = Strings.Split p pathSepB).
  { unfold slowPathSplit.
    destruct p as [ | c p']; [contradiction | reflexivity]. }
  rewrite Hsplit. split; [reflexivity | ].
  change pathSep with (String pathSepB "").
  rewrite (StringFacts.Join_Split p pathSepB). reflexivity.
Qed.

(** What [insert] does to a trie that satisfies the invariant, for a
    path it takes: the invariant holds again, the trie has kept its root
    and its children, the root-slash flag is set for the path [/], and
    the node reached from the root along the keys of the segments carries
    the route. *)
Lemma insert_result (path routeName : string) (handlers : Handlers)
    (tr : trie) (st : labelling) :
  valid_path path = true ->
  Struct tr st -> WildOK tr st None -> SlashOK tr ->
  exists tr' st' nf nd keys1,
    insert path routeName handlers tr = Ok tr'
    /\ Struct tr' st' /\ WildOK tr' st' None /\ SlashOK tr'
    /\ root tr' = root tr
    /\ hasRootSlash tr' = String.eqb path pathSep || hasRootSlash tr
    /\ grows tr tr'
    /\ descend tr' (root tr') (map label (slowPathSplit path)) = Some nf
    /\ nodes tr' !! nf
       = Some (with_route routeName handlers keys1 path (staticPart path) nd)
    /\ method tr' = method tr /\ subdomain tr' = subdomain tr.
Proof.
  intros Hv HS HW HSl.
  unfold valid_path in Hv.
  destruct path as [ | c p]; [discriminate | ]. cbn [Strings.first_byte] in Hv.
  apply andb_true_iff in Hv as [Hc Hsegs].
  apply Ascii.eqb_eq in Hc. subst c. change pathSepB with "/"%char.
  unfold insert. cbv zeta.
  set (tr0 := if String.eqb (String "/" p) pathSep then set_rootSlash tr else tr).
  assert (HS0 : Struct tr0 st).
  { unfold tr0. destruct (String.eqb (String "/" p) pathSep);
      [apply set_rootSlash_Struct | ]; exact HS. }
  assert (HW0 : WildOK tr0 st None).
  { unfold tr0. destruct (String.eqb (String "/" p) pathSep); exact HW. }
  assert (Hroot0 : root tr0 = root tr).
  { unfold tr0. destruct (String.eqb (String "/" p) pathSep); reflexivity. }
  assert (Hnodes0 : nodes tr0 = nodes tr).
  { unfold tr0. destruct (String.eqb (String "/" p) pathSep); reflexivity. }
  assert (Hmethod0 : method tr0 = method tr).
  { unfold tr0. destruct (String.eqb (String "/" p) pathSep); reflexivity. }
  assert (Hsubdomain0 : subdomain tr0 = subdomain tr).
  { unfold tr0. destruct (String.eqb (String "/" p) pathSep); reflexivity. }
  assert (Hslash0 : hasRootSlash tr0
                    = String.eqb (String "/" p) pathSep || hasRootSlash tr).
  { unfold tr0. destruct (String.eqb (String "/" p) pathSep); reflexivity. }
  destruct (S_root _ _ HS0) as (rn & Hrn & Hpar).
  assert (Hns : forall id nd,
            nodes tr0 !! id = Some nd ->
            getChild nd WildcardParamStart <> Some (root tr0)).
  { intros id nd Hid Hch.
    destruct (S_edge _ _ HS0 id nd _ _ Hid Hch) as (_ & (cn & Hcn & Hp) & _).
    congruence. }
  assert (Hb : static_bound (String "/" p) (st (root tr0))
                 (slowPathSplit (String "/" p))).
  { rewrite (S_root_st _ _ HS0).
    destruct (decide (p = "")) as [-> | Hp].
    - left. reflexivity.
    - right. cbn [fst snd]. exists "/". split; [ | reflexivity].
      exact (proj2 (slowPathSplit_slash p Hp)). }
  destruct (insert_loop_Struct (String "/" p) routeName handlers
              (slowPathSplit (String "/" p)) tr0 st (root tr0) [] rn
              HS0 HW0 Hrn Hns Hsegs Hb)
    as (tr1 & nf & keys1 & st1 & Hloop & HSf & HWf & Hrootf & Hslashf
        & Hgrowf & Hfirst & Hdesc & (nd & _ & Hnd) & Hmethodf & Hsubdomainf).
  rewrite Hloop. cbn [mbind res_bind].
  change (set_node nf
            (with_route routeName handlers keys1 (String "/" p)
               (staticPart (String "/" p))) tr1)
    with (set_route routeName handlers keys1 (String "/" p)
            (staticPart (String "/" p)) tr1 nf).
  set (trf := set_route routeName handlers keys1 (String "/" p)
                (staticPart (String "/" p)) tr1 nf) in *.
  assert (Hgrow : grows tr trf).
  { intros id nd0 l c Hid Hc. apply (Hgrowf id nd0 l c); [ | exact Hc].
    rewrite Hnodes0. exact Hid. }
  exists trf, st1, nf, nd, keys1. split; [reflexivity | ].
  split; [exact HSf | ]. split; [exact HWf | ].
  split.
  { intros rn' Hs' Hrn'. rewrite Hrootf in Hrn'. rewrite Hslashf in Hs'.
    destruct (decide (p = "")) as [-> | Hp].
    - destruct (Hfirst "/" [] eq_refl) as (nd' & Hnd' & Hch).
      assert (rn' = nd') as -> by congruence. exact Hch.
    - assert (Hne : String.eqb (String "/" p) pathSep = false).
      { destruct p; [contradiction | reflexivity]. }
      rewrite Hslash0, Hne in Hs'. cbn [orb] in Hs'.
      rewrite Hroot0 in Hrn'.
      destruct (S_root _ _ HS) as (rn0 & Hrn0 & _).
      destruct (HSl rn0 Hs' Hrn0) as [c Hc].
      destruct (Hgrow (root tr) rn0 pathSep c Hrn0 Hc) as (nd' & Hnd' & Hch).
      assert (rn' = nd') as -> by congruence. eexists. exact Hch. }
  split; [congruence | ]. split; [congruence | ].
  split; [exact Hgrow | ].
  split; [rewrite Hrootf; exact Hdesc | ].
  split; [exact Hnd | ]. split; congruence.
Qed.

Lemma insert_Struct (path routeName : string) (handlers : Handlers)
    (tr : trie) (st : labelling) :
  valid_path path = true ->
  Struct tr st -> WildOK tr st None -> SlashOK tr ->
  exists tr' st',
    insert path routeName handlers tr = Ok tr'
    /\ Struct tr' st' /\ WildOK tr' st' None /\ SlashOK tr'.
Proof.
  intros Hv HS HW HSl.
  destruct (insert_result path routeName handlers tr st Hv HS HW HSl)
    as (tr' & st' & nf & nd & keys1 & Hins & HS' & HW' & HSl' & _).
  exists tr', st'. split; [exact Hins | ].
  split; [exact HS' | ]. split; [exact HW' | exact HSl'].
Qed.

Lemma insertAll_Struct (routes : list (string * string)) :
  forall tr st,
    forallb (fun r => valid_path (fst r)) routes = true ->
    Struct tr st -> WildOK tr st None -> SlashOK tr ->
    exists tr' st',
      insertAll routes tr = Ok tr'
      /\ Struct tr' st' /\ WildOK tr' st' None /\ SlashOK tr'.
Proof.
  induction routes as [ | [path name] routes IH]; intros tr st Hv HS HW HSl.
  - exists tr, st. split; [reflexivity | ]. split; [exact HS | ].
    split; [exact HW | exact HSl].
  - cbn [forallb fst] in Hv. apply andb_true_iff in Hv as [Hp Hv].
    destruct (insert_Struct path name [] tr st Hp HS HW HSl)
      as (tr1 & st1 & Hins & HS1 & HW1 & HSl1).
    cbn [insertAll]. rewrite Hins. cbn [mbind res_bind].
    exact (IH tr1 st1 Hv HS1 HW1 HSl1).
Qed.

(** Inserting paths that start with [/], have no empty segment and have
    wildcards only as a last segment never fails, and the trie that results
    is well formed: the search can be run on it. *)
Theorem insertAll_well_formed (routes : list (string * string)) :
  forallb (fun r => valid_path (fst r)) routes = true ->
  exists tr, insertAll routes newTrie = Ok tr /\ wf_trie tr = true.
Proof.
  intros Hv. destruct newTrie_Struct as (HS & HW & HSl).
  destruct (insertAll_Struct routes newTrie _ Hv HS HW HSl)
    as (tr & st & Hins & HS' & HW' & HSl').
  exists tr. split; [exact Hins | ].
  exact (Struct_wf_trie tr st HS' HW' HSl').
Qed.

(** ** The tries the router builds *)

(** A trie is built when it is a new tree, or what [insert] made of a
    built trie for a path it takes. *)
Inductive built : trie -> Prop :=
| built_new (m sd : string) : built (Handler.treeFor m sd)
| built_insert (path routeName : string) (handlers : Handlers)
    (tr tr' : trie) :
    built tr -> valid_path path = true ->
    insert path routeName handlers tr = Ok tr' -> built tr'.

Lemma built_Struct (tr : trie) :
  built tr -> exists st, Struct tr st /\ WildOK tr st None /\ SlashOK tr.
Proof.
  induction 1 as [m sd | path routeName handlers tr tr' _ IH Hv Hins].
  - eexists. exact (treeFor_Struct m sd).
  - destruct IH as (st & HS & HW & HSl).
    destruct (insert_Struct path routeName handlers tr st Hv HS HW HSl)
      as (tr2 & st2 & Hins2 & HS2 & HW2 & HSl2).
    assert (tr2 = tr') as -> by congruence.
    exists st2. split; [exact HS2 | ]. split; [exact HW2 | exact HSl2].
Qed.

Lemma built_wf (tr : trie) : built tr -> wf_trie tr = true.
Proof.
  intros Hb. destruct (built_Struct tr Hb) as (st & HS & HW & HSl).
  exact (Struct_wf_trie tr st HS HW HSl).
Qed.

(** A path none of whose segments is a parameter. *)
Definition static_path (path : string) : bool :=
  forallb (fun s => negb (isParam s) && negb (isWildcard s))
    (slowPathSplit path).

Lemma static_labels (segs : list string) :
  forallb (fun s => negb (isParam s) && negb (isWildcard s)) segs = true ->
  map label segs = segs.
Proof.
  induction segs as [ | s segs IH]; [reflexivity | ].
  cbn [forallb map]. intros [Hs Hrest]%andb_true_iff.
  apply andb_true_iff in Hs as [Hp%negb_true_iff Hw%negb_true_iff].
  rewrite (IH Hrest). unfold label. rewrite Hw, Hp. reflexivity.
Qed.

(** The walk of a search along literal children ends at the node they
    lead to, when that node carries a route, with no parameter bound. *)
Lemma walk_static (tr : trie) (q : string) (params : RequestParams)
    (nf : nat) :
  end_ (node_at tr nf) = true ->
  forall segs n anc,
    descend tr n segs = Some nf ->
    walk tr q params segs n anc [] = (Some nf, params).
Proof.
  intros Hend. induction segs as [ | seg segs IH]; intros n anc Hd.
  - cbn in Hd. injection Hd as ->. cbn [walk]. unfold arrive.
    rewrite Hend. destruct (paramKeys (node_at tr nf)); reflexivity.
  - cbn [descend] in Hd. cbn [walk].
    destruct (literalChild tr n seg) as [c | ]; [ | discriminate].
    exact (IH c (n :: anc) Hd).
Qed.

(** The scan of [search], for a query that is not the root's, is the walk
    over the segments of the query. *)
Lemma search_scans (tr : trie) (q : string) (params : RequestParams) :
  wf_trie tr = true -> q <> "" -> q <> "/" ->
  search tr q params = Ok (search_walk tr q params).
Proof.
  intros Hwf Hne Hslash.
  destruct q as [ | c0 q']; [contradiction | ].
  unfold search.
  assert (Hcond : bool_decide (String.length (String c0 q') = 0)
                  || (bool_decide (String.length (String c0 q') = 1)
                      && bool_decide (String.get 0 (String c0 q')
                                      = Some pathSepB)) = false).
  { cbn. rewrite bool_decide_eq_false_2 by lia. cbn.
    destruct q' as [ | c1 q''].
    - rewrite (bool_decide_eq_false_2 (Some c0 = Some pathSepB));
        [apply andb_false_r | ].
      intros Heq. inversion Heq; subst. contradiction.
    - cbn. rewrite bool_decide_eq_false_2 by lia. reflexivity. }
  rewrite Hcond.
  change (search_walk tr (String c0 q') params)
    with (walk tr (String c0 q') params
            (Strings.Split ("" +:+ q') pathSepB) (root tr) [] []).
  apply (TrieFacts.loop_correct tr (String c0 q') params Hwf q'
           (String c0 "") "" (root tr) [] []
           (S (String.length (String c0 q')))).
  - reflexivity.
  - exact I.
  - cbn. lia.
  - apply TrieFacts.inv_root_node. exact Hwf.
Qed.

(** The loop of [insert] panics at an empty segment: it reads the first
    byte of each segment. *)
Lemma insert_loop_empty (input : list string) :
  forall tr st n keys node,
    Struct tr st -> nodes tr !! n = Some node -> In "" input ->
    insert_loop input tr n keys = Panic.
Proof.
  induction input as [ | s input IH]; intros tr st n keys node HS Hn Hin.
  - destruct Hin.
  - cbn [insert_loop]. destruct (decide (s = "")) as [-> | Hs].
    + reflexivity.
    + destruct Hin as [Heq | Hin]; [congruence | ].
      destruct (insert_segment_spec s tr n keys node Hs Hn)
        as (tr3 & child & Heq & Hroot & Hslash & Hwild & Hleft & Hchild
            & Hother & Hnew & _).
      pose proof (segment_Struct s tr tr3 n child node st Hn HS Hroot Hwild
                    Hleft Hchild Hother Hnew) as HS3.
      destruct (S_edge _ _ HS3 n _ (label s) child Hleft Hchild)
        as (_ & (cn & Hcn & _) & _).
      rewrite Heq. cbn [mbind res_bind].
      exact (IH tr3 _ child (keys_after s keys) cn HS3 Hcn Hin).
Qed.

End InsertFacts.

(** * Routes registered in a trie, and found again *)

Module RegisterFacts.
Import Ctx Trie InsertFacts.

(** X1.  On a trie the router has built (a new tree, then paths that start
    with [/], have no empty segment and have a wildcard only as their last
    segment, without [:] in its name), [insert] of one more such path
    returns without a panic, and the trie it leaves passes the
    well-formedness check, as the trie it was given does; the method and
    the subdomain of the tree are kept. *)
Theorem insert_keeps_well_formed (tr : trie) (path routeName : string)
    (handlers : Handlers) :
  built tr -> valid_path path = true ->
  wf_trie tr = true
  /\ exists tr',
       insert path routeName handlers tr = Ok tr'
       /\ wf_trie tr' = true
       /\ method tr' = method tr /\ subdomain tr' = subdomain tr.
Proof.
  intros Hb Hv. split; [exact (built_wf tr Hb) | ].
  destruct (built_Struct tr Hb) as (st & HS & HW & HSl).
  destruct (insert_result path routeName handlers tr st Hv HS HW HSl)
    as (tr' & st' & nf & nd & keys1 & Hins & HS' & HW' & HSl' & _ & _ & _
        & _ & _ & Hm & Hsd).
  exists tr'. split; [exact Hins | ].
  split; [exact (Struct_wf_trie tr' st' HS' HW' HSl') | ].
  split; assumption.
Qed.

Lemma insert_keeps_well_formed_witness :
  wf_trie newTrie = true
  /\ exists tr',
       insert "/users/:id/files/*path" "files" [7] newTrie = Ok tr'
       /\ wf_trie tr' = true
       /\ method tr' = method newTrie /\ subdomain tr' = subdomain newTrie.
Proof.
  exact (insert_keeps_well_formed newTrie "/users/:id/files/*path" "files" [7]
           (built_new "" "") eq_refl).
Defined.

(** X2.  A static route is found again: after [insert] of a path without
    parameters into a built trie, [search] for that very path returns the
    node that carries the route (its name, its handlers, its key, and the
    mark that it ends a route), and leaves the parameter store as it
    was. *)
Theorem insert_then_search_static (tr : trie) (path routeName : string)
    (handlers : Handlers) (params : RequestParams) :
  built tr -> valid_path path = true -> static_path path = true ->
  exists tr' n node,
    insert path routeName handlers tr = Ok tr'
    /\ search tr' path params = Ok (Some n, params)
    /\ nodes tr' !! n = Some node
    /\ RouteName node = routeName /\ Trie.Handlers_ node = handlers
    /\ key node = path /\ end_ node = true.
Proof.
  intros Hb Hv Hstatic.
  destruct (built_Struct tr Hb) as (st & HS & HW & HSl).
  destruct (insert_result path routeName handlers tr st Hv HS HW HSl)
    as (tr' & st' & nf & nd & keys1 & Hins & HS' & HW' & HSl' & Hroot
        & Hslash & _ & Hdesc & Hnf & _).
  exists tr', nf, (with_route routeName handlers keys1 path (staticPart path) nd).
  split; [exact Hins | ].
  split; [ | split; [exact Hnf | repeat split]].
  unfold static_path in Hstatic. rewrite (static_labels _ Hstatic) in Hdesc.
  assert (Hend : end_ (node_at tr' nf) = true).
  { unfold node_at. rewrite Hnf. reflexivity. }
  unfold valid_path in Hv.
  destruct path as [ | c p]; [discriminate | ]. cbn [Strings.first_byte] in Hv.
  apply andb_true_iff in Hv as [Hc _]. apply Ascii.eqb_eq in Hc. subst c.
  change pathSepB with "/"%char in *.
  destruct (decide (p = "")) as [-> | Hp].
  - destruct (S_root _ _ HS') as (rn & Hrn & _).
    unfold search, deref. cbn. rewrite Hrn. cbn.
    cbn in Hslash. rewrite Hslash.
    cbn [descend slowPathSplit] in Hdesc.
    change (slowPathSplit "/") with ["/"] in Hdesc. cbn [descend] in Hdesc.
    unfold literalChild, node_at in Hdesc. rewrite Hrn in Hdesc. cbn in Hdesc.
    destruct (getChild rn "/") as [c | ] eqn:Hc; [ | discriminate].
    injection Hdesc as ->. unfold pathSep. rewrite Hc. reflexivity.
  - rewrite (search_scans tr' (String "/" p) params
               (Struct_wf_trie tr' st' HS' HW' HSl')); [ | discriminate | ].
    + unfold search_walk, segments. cbn [Strings.drop].
      rewrite ?StringFacts.drop_0.
      rewrite (proj1 (slowPathSplit_slash p Hp)) in Hdesc.
      rewrite (walk_static tr' (String "/" p) params nf Hend _ _ [] Hdesc).
      reflexivity.
    + intros Heq. injection Heq as Heq. contradiction.
Qed.

Lemma insert_then_search_static_witness :
  exists tr' n node,
    insert "/assets/app.js" "app-js" [3] Examples.scenarioTrie = Ok tr'
    /\ search tr' "/assets/app.js" [] = Ok (Some n, [])
    /\ nodes tr' !! n = Some node
    /\ RouteName node = "app-js" /\ Trie.Handlers_ node = [3]
    /\ key node = "/assets/app.js" /\ end_ node = true.
Proof.
  assert (Hb : built Examples.scenarioTrie).
  { apply (built_insert "/hello/:p1/static/:p2" "hello-static" []
             (match insertAll [("/assets/static", "assets-static");
                               ("/assets/*path", "assets-path");
                               ("/hello/*p", "hello-p")] newTrie with
              | Ok t => t | _ => newTrie end));
      [ | reflexivity | vm_compute; reflexivity].
    apply (built_insert "/hello/*p" "hello-p" []
             (match insertAll [("/assets/static", "assets-static");
                               ("/assets/*path", "assets-path")] newTrie with
              | Ok t => t | _ => newTrie end));
      [ | reflexivity | vm_compute; reflexivity].
    apply (built_insert "/assets/*path" "assets-path" []
             (match insertAll [("/assets/static", "assets-static")] newTrie with
              | Ok t => t | _ => newTrie end));
      [ | reflexivity | vm_compute; reflexivity].
    apply (built_insert "/assets/static" "assets-static" [] newTrie);
      [ | reflexivity | vm_compute; reflexivity].
    exact (built_new "" ""). }
  exact (insert_then_search_static Examples.scenarioTrie "/assets/app.js"
           "app-js" [3] [] Hb eq_refl eq_refl).
Defined.

(** X3.  A path with an empty segment (a doubled [/], or a [/] at the end
    of a path other than [/]) makes [insert] panic: the loop reads the
    first byte of every segment. *)
Theorem insert_empty_segment_panics (tr : trie) (path routeName : string)
    (handlers : Handlers) :
  built tr -> In "" (slowPathSplit path) ->
  insert path routeName handlers tr = Panic.
Proof.
  intros Hb Hin.
  destruct (built_Struct tr Hb) as (st & HS & _ & _).
  unfold insert. cbv zeta.
  set (tr0 := if String.eqb path pathSep then set_rootSlash tr else tr).
  assert (HS0 : Struct tr0 st).
  { unfold tr0. destruct (String.eqb path pathSep);
      [apply set_rootSlash_Struct | ]; exact HS. }
  destruct (S_root _ _ HS0) as (rn & Hrn & _).
  rewrite (insert_loop_empty (slowPathSplit path) tr0 st (root tr0) [] rn
             HS0 Hrn Hin).
  reflexivity.
Qed.

Lemma insert_empty_segment_panics_witness :
  In "" (slowPathSplit "/users/")
  /\ insert "/users/" "users" [] newTrie = Panic.
Proof.
  assert (Hin : In "" (slowPathSplit "/users/")) by (right; left; reflexivity).
  split; [exact Hin | ].
  exact (insert_empty_segment_panics newTrie "/users/" "users" []
           (built_new "" "") Hin).
Defined.

End RegisterFacts.

(** * The trees of the router handler *)

Module HandlerFacts.
Import Ctx Trie Handler InsertFacts.

Lemma getTree_from_Some (ts : list trie) (i : nat) (m sd : string) (j : nat) :
  getTree_from ts i m sd = Some j ->
  i <= j
  /\ exists t, ts !! (j - i) = Some t /\ method t = m /\ subdomain t = sd.
Proof.
  revert i. induction ts as [ | t ts IH]; intros i Hg; [discriminate | ].
  cbn [getTree_from] in Hg.
  destruct (String.eqb (method t) m && String.eqb (subdomain t) sd) eqn:Hk.
  - injection Hg as <-. split; [lia | ].
    apply andb_true_iff in Hk as [Hm%String.eqb_eq Hs%String.eqb_eq].
    exists t. rewrite Nat.sub_diag. repeat split; assumption.
  - destruct (IH (S i) Hg) as (Hle & t0 & Ht0 & Hm & Hs).
    split; [lia | ]. exists t0.
    replace (j - i) with (S (j - S i)) by lia. repeat split; assumption.
Qed.

Lemma getTree_from_app (ts : list trie) (t' : trie) (i : nat) (m sd : string) :
  getTree_from (ts ++ [t']) i m sd
  = match getTree_from ts i m sd with
    | Some j => Some j
    | None =>
        if String.eqb (method t') m && String.eqb (subdomain t') sd
        then Some (i + length ts) else None
    end.
Proof.
  revert i. induction ts as [ | t ts IH]; intros i; cbn.
  - rewrite Nat.add_0_r. reflexivity.
  - destruct (String.eqb (method t) m && String.eqb (subdomain t) sd);
      [reflexivity | ].
    rewrite IH. replace (S i + length ts) with (i + S (length ts)) by lia.
    reflexivity.
Qed.

Lemma getTree_from_insert (ts : list trie) (k : nat) (t t' : trie) (i : nat)
    (m sd : string) :
  ts !! k = Some t -> method t' = method t -> subdomain t' = subdomain t ->
  getTree_from (<[k := t']> ts) i m sd = getTree_from ts i m sd.
Proof.
  revert k i. induction ts as [ | t0 ts IH]; intros k i Hk Hm Hs;
    [reflexivity | ].
  destruct k as [ | k]; cbn in Hk |- *.
  - injection Hk as ->. rewrite Hm, Hs. reflexivity.
  - destruct (String.eqb (method t0) m && String.eqb (subdomain t0) sd);
      [reflexivity | exact (IH k (S i) Hk Hm Hs)].
Qed.

Lemma key_differs (t : trie) (m sd m' sd' : string) :
  method t = m -> subdomain t = sd -> (m', sd') <> (m, sd) ->
  String.eqb (method t) m' && String.eqb (subdomain t) sd' = false.
Proof.
  intros <- <- Hne. apply andb_false_iff.
  destruct (String.eqb_spec (method t) m') as [Hm | Hm]; [ | left; reflexivity].
  destruct (String.eqb_spec (subdomain t) sd') as [Hs | Hs];
    [ | right; reflexivity].
  exfalso. apply Hne. congruence.
Qed.

(** X4.  [addRoute] registers a route in the tree of its method and
    subdomain.  When all the trees of the handler are built, [addRoute] of
    a route whose path the trie takes returns without a panic (a tree is
    appended when [getTree] finds none); afterwards [getTree] finds, for the
    method and the subdomain of the route, a built tree of that method and
    subdomain; the trees are still all built; and for every other method
    or subdomain [getTree] answers as before, with the tree as it was. *)
Theorem addRoute_registers_in_its_tree (r : Route.Route) (h : routerHandler) :
  Forall built (trees h) -> valid_path (Route.Path r) = true ->
  exists h' i t',
    addRoute r h = Ok h'
    /\ getTree h' (Route.Method r) (Route.Subdomain r) = Some i
    /\ trees h' !! i = Some t'
    /\ method t' = Route.Method r /\ subdomain t' = Route.Subdomain r
    /\ Forall built (trees h')
    /\ hosts h' = hosts h
    /\ (forall m sd,
          (m, sd) <> (Route.Method r, Route.Subdomain r) ->
          getTree h' m sd = getTree h m sd
          /\ forall j, getTree h m sd = Some j ->
                       trees h' !! j = trees h !! j).
Proof.
  intros Hall Hv. unfold addRoute. cbv zeta.
  destruct (getTree h (Route.Method r) (Route.Subdomain r)) as [i | ] eqn:Hg.
  - unfold getTree in Hg.
    destruct (getTree_from_Some _ _ _ _ _ Hg) as (_ & t & Ht & Hm & Hs).
    rewrite Nat.sub_0_r in Ht. rewrite Ht.
    assert (Hbt : built t).
    { rewrite Forall_forall in Hall. apply Hall.
      eapply list_elem_of_lookup_2. exact Ht. }
    destruct (built_Struct t Hbt) as (st & HS & HW & HSl).
    destruct (insert_result (Route.Path r) (Route.Name r) (Route.Handlers_ r)
                t st Hv HS HW HSl)
      as (t' & _ & _ & _ & _ & Hins & _ & _ & _ & _ & _ & _ & _ & _ & Hm'
          & Hs').
    rewrite Hins. cbn [mbind res_bind].
    eexists. exists i, t'. split; [reflexivity | ].
    cbn [trees hosts]. unfold getTree. cbn [trees].
    assert (Hlt : i < length (trees h)) by (eapply lookup_lt_Some; exact Ht).
    split; [rewrite (getTree_from_insert _ i t t' 0 _ _ Ht Hm' Hs'); exact Hg | ].
    split; [apply list_lookup_insert_eq; exact Hlt | ].
    split; [congruence | ]. split; [congruence | ].
    split.
    { rewrite Forall_forall. intros x Hx.
      apply list_elem_of_lookup in Hx as [k Hk].
      destruct (decide (k = i)) as [-> | Hne].
      - rewrite list_lookup_insert_eq in Hk by exact Hlt.
        injection Hk as <-.
        exact (built_insert _ _ _ t t' Hbt Hv Hins).
      - rewrite list_lookup_insert_ne in Hk by congruence.
        rewrite Forall_forall in Hall. apply Hall.
        eapply list_elem_of_lookup_2. exact Hk. }
    split; [reflexivity | ].
    intros m sd Hne.
    rewrite (getTree_from_insert _ i t t' 0 m sd Ht Hm' Hs').
    split; [reflexivity | ].
    intros j Hj. destruct (decide (j = i)) as [-> | Hji].
    + exfalso.
      destruct (getTree_from_Some _ _ _ _ _ Hj) as (_ & t0 & Ht0 & Hm0 & Hs0).
      rewrite Nat.sub_0_r in Ht0. apply Hne. congruence.
    + apply list_lookup_insert_ne. congruence.
  - destruct (treeFor_Struct (Route.Method r) (Route.Subdomain r))
      as (HS & HW & HSl).
    destruct (insert_result (Route.Path r) (Route.Name r) (Route.Handlers_ r)
                _ _ Hv HS HW HSl)
      as (t' & _ & _ & _ & _ & Hins & _ & _ & _ & _ & _ & _ & _ & _ & Hm'
          & Hs').
    rewrite Hins. cbn [mbind res_bind].
    cbn [method subdomain treeFor] in Hm', Hs'.
    eexists. exists (length (trees h)), t'. split; [reflexivity | ].
    cbn [trees hosts]. unfold getTree in *. cbn [trees].
    split.
    { rewrite getTree_from_app, Hg, Hm', Hs', !String.eqb_refl. reflexivity. }
    split; [apply list_lookup_middle; reflexivity | ].
    split; [exact Hm' | ]. split; [exact Hs' | ].
    split.
    { apply Forall_app. split; [exact Hall | ].
      constructor; [ | constructor].
      exact (built_insert _ _ _ _ t' (built_new _ _) Hv Hins). }
    split; [reflexivity | ].
    intros m sd Hne. rewrite getTree_from_app.
    rewrite (key_differs t' _ _ m sd Hm' Hs' Hne).
    split; [destruct (getTree_from (trees h) 0 m sd); reflexivity | ].
    intros j Hj.
    destruct (getTree_from_Some _ _ _ _ _ Hj) as (_ & t0 & Ht0 & _).
    rewrite Nat.sub_0_r in Ht0. apply lookup_app_l.
    eapply lookup_lt_Some. exact Ht0.
Qed.

Lemma addRoute_registers_witness :
  exists h' i t',
    addRoute (Route.routeOfPath "GET" "/users/:id" [1])
      {| trees := []; hosts := false |} = Ok h'
    /\ getTree h' "GET" "" = Some i
    /\ trees h' !! i = Some t'
    /\ method t' = "GET" /\ subdomain t' = ""
    /\ Forall built (trees h')
    /\ hosts h' = false
    /\ (forall m sd,
          (m, sd) <> ("GET", "") ->
          getTree h' m sd = getTree {| trees := []; hosts := false |} m sd
          /\ forall j,
               getTree {| trees := []; hosts := false |} m sd = Some j ->
               trees h' !! j = [] !! j).
Proof.
  exact (addRoute_registers_in_its_tree
           (Route.routeOfPath "GET" "/users/:id" [1])
           {| trees := []; hosts := false |} (Forall_nil_2 _) eq_refl).
Defined.

End HandlerFacts.

(** * The registry of status-code handlers *)

Module RegistryFacts.
Import Writers Ctx Status.

Lemma Get_app_miss (s : ErrorCodeHandlers) (ch : ErrorCodeHandler) (c : Z) :
  Get s c = None ->
  Get (s ++ [ch]) c = if bool_decide (StatusCode_ ch = c) then Some ch else None.
Proof.
  induction s as [ | h s IH]; cbn; [reflexivity | ].
  destruct (bool_decide (StatusCode_ h = c)); [intros [=] | exact IH].
Qed.

Lemma Get_app_hit (s : ErrorCodeHandlers) (ch h : ErrorCodeHandler) (c : Z) :
  Get s c = Some h -> Get (s ++ [ch]) c = Some h.
Proof.
  induction s as [ | h0 s IH]; cbn; [intros [=] | ].
  destruct (bool_decide (StatusCode_ h0 = c)); [tauto | exact IH].
Qed.

Lemma Get_updateHandlers_same (s : ErrorCodeHandlers) (code : Z) (hs : Handlers)
    (h : ErrorCodeHandler) :
  Get s code = Some h ->
  Get (updateHandlers s code hs) code
  = Some {| StatusCode_ := code; Handlers_ := hs |}.
Proof.
  induction s as [ | h0 s IH]; cbn; [intros [=] | ].
  destruct (bool_decide (StatusCode_ h0 = code)) eqn:Hc; cbn.
  - intros _. rewrite bool_decide_eq_true_2 by reflexivity. reflexivity.
  - rewrite Hc. exact IH.
Qed.

Lemma Get_updateHandlers_other (s : ErrorCodeHandlers) (code c : Z)
    (hs : Handlers) :
  c <> code -> Get (updateHandlers s code hs) c = Get s c.
Proof.
  intros Hne. induction s as [ | h0 s IH]; cbn; [reflexivity | ].
  destruct (bool_decide_reflect (StatusCode_ h0 = code)) as [Hc | Hc]; cbn.
  - rewrite (bool_decide_eq_false_2 (code = c)) by congruence.
    rewrite (bool_decide_eq_false_2 (StatusCode_ h0 = c)) by congruence.
    reflexivity.
  - destruct (bool_decide (StatusCode_ h0 = c)); [reflexivity | exact IH].
Qed.

Lemma length_updateHandlers (s : ErrorCodeHandlers) (code : Z) (hs : Handlers) :
  length (updateHandlers s code hs) = length s.
Proof.
  induction s as [ | h0 s IH]; cbn; [reflexivity | ].
  destruct (bool_decide (StatusCode_ h0 = code)); cbn;
    [reflexivity | rewrite IH; reflexivity].
Qed.

(** X5.  [Register] and [Get].  A code in [200, 400) is refused: the
    registry is left as it is and [nil] is returned.  For any other code
    the entry returned holds the code and the handlers given, [Get] of
    that code returns that entry afterwards, [Get] of every other code
    answers as before, and the registry grows by one entry exactly when
    the code had none; so a second registration of a code replaces the
    handlers of the first. *)
Theorem Register_then_Get (s : ErrorCodeHandlers) (code : Z) (hs : Handlers) :
  ((200 <= code < 400)%Z -> Register s code hs = (s, None))
  /\ (~ (200 <= code < 400)%Z ->
      let ch := {| StatusCode_ := code; Handlers_ := hs |} in
      let s' := fst (Register s code hs) in
      snd (Register s code hs) = Some ch
      /\ Get s' code = Some ch
      /\ (forall c, c <> code -> Get s' c = Get s c)
      /\ length s'
         = length s + (match Get s code with Some _ => 0 | None => 1 end)
      /\ (forall hs2,
            Get (fst (Register s' code hs2)) code
            = Some {| StatusCode_ := code; Handlers_ := hs2 |}
            /\ length (fst (Register s' code hs2)) = length s')).
Proof.
  assert (Hok : statusCodeSuccessful code = bool_decide (200 <= code < 400)%Z).
  { unfold statusCodeSuccessful, StatusCodeNotSuccessful.
    repeat case_bool_decide; cbn; try reflexivity; lia. }
  assert (Hreg : forall s0 hs0,
            ~ (200 <= code < 400)%Z ->
            let ch := {| StatusCode_ := code; Handlers_ := hs0 |} in
            snd (Register s0 code hs0) = Some ch
            /\ Get (fst (Register s0 code hs0)) code = Some ch
            /\ (forall c, c <> code ->
                          Get (fst (Register s0 code hs0)) c = Get s0 c)
            /\ length (fst (Register s0 code hs0))
               = length s0 + (match Get s0 code with Some _ => 0 | None => 1 end)).
  { intros s0 hs0 Hbad. cbv zeta. unfold Register.
    rewrite Hok, (bool_decide_eq_false_2 _ Hbad).
    destruct (Get s0 code) as [h | ] eqn:Hg; cbn [fst snd].
    - split; [reflexivity | ].
      split; [exact (Get_updateHandlers_same s0 code hs0 h Hg) | ].
      split; [intros c Hc; exact (Get_updateHandlers_other s0 code c hs0 Hc) | ].
      rewrite length_updateHandlers. lia.
    - split; [reflexivity | ].
      split.
      { rewrite (Get_app_miss s0 _ code Hg). cbn.
        rewrite bool_decide_eq_true_2 by reflexivity. reflexivity. }
      split.
      { intros c Hc. destruct (Get s0 c) as [h | ] eqn:Hgc.
        - exact (Get_app_hit s0 _ h c Hgc).
        - rewrite (Get_app_miss s0 _ c Hgc). cbn.
          rewrite bool_decide_eq_false_2 by congruence. reflexivity. }
      rewrite length_app. reflexivity. }
  split.
  - intros Hgood. unfold Register.
    rewrite Hok, (bool_decide_eq_true_2 _ Hgood). reflexivity.
  - intros Hbad. cbv zeta.
    destruct (Hreg s hs Hbad) as (Hret & Hget & Hother & Hlen).
    split; [exact Hret | ]. split; [exact Hget | ].
    split; [exact Hother | ]. split; [exact Hlen | ].
    intros hs2.
    destruct (Hreg (fst (Register s code hs)) hs2 Hbad)
      as (_ & Hget2 & _ & Hlen2).
    split; [exact Hget2 | ]. rewrite Hlen2, Hget. lia.
Qed.

Section FireAll_.
Context `{NativeIO} `{Application}.
Variable statusText : Z -> Handler.

(** X6.  [ErrorCodeHandlers.Fire].  With a status code in [200, 400) on
    the writer nothing is done.  With any other code the handler
    registered for it is fired on the context; when there is none, one is
    registered first, whose only handler is the status text of the code.
    Afterwards the registry has an entry for the code, the one that was
    fired, and answers for every other code as before. *)
Theorem FireAll_registers_what_it_fires (s : ErrorCodeHandlers) (ctx : context) :
  let code := GetStatusCode ctx in
  let s' := fst (FireAll statusText s ctx) in
  let ctx' := snd (FireAll statusText s ctx) in
  ((200 <= code < 400)%Z -> s' = s /\ ctx' = ctx)
  /\ (~ (200 <= code < 400)%Z ->
      (exists ch,
         Get s' code = Some ch /\ StatusCode_ ch = code
         /\ ctx' = Fire ch ctx
         /\ match Get s code with
            | Some ch0 => ch = ch0 /\ s' = s
            | None =>
                ch = {| StatusCode_ := code;
                        Handlers_ := [statusText code] |}
                /\ s' = s ++ [ch]
            end)
      /\ forall c, c <> code -> Get s' c = Get s c).
Proof.
  cbv zeta.
  assert (Hok : statusCodeSuccessful (GetStatusCode ctx)
                = bool_decide (200 <= GetStatusCode ctx < 400)%Z).
  { unfold statusCodeSuccessful, StatusCodeNotSuccessful.
    repeat case_bool_decide; cbn; try reflexivity; lia. }
  assert (HGet : forall h, Get s (GetStatusCode ctx) = Some h ->
                           StatusCode_ h = GetStatusCode ctx).
  { generalize (GetStatusCode ctx). intros c.
    induction s as [ | h0 s0 IH]; cbn; [intros h [=] | ].
    intros h. destruct (bool_decide_reflect (StatusCode_ h0 = c));
      [congruence | apply IH]. }
  split.
  - intros Hgood. unfold FireAll.
    rewrite Hok, (bool_decide_eq_true_2 _ Hgood). split; reflexivity.
  - intros Hbad. unfold FireAll, Register.
    rewrite Hok, (bool_decide_eq_false_2 _ Hbad).
    destruct (Get s (GetStatusCode ctx)) as [ch0 | ] eqn:Hg; cbn [fst snd].
    + split; [ | reflexivity].
      exists ch0. rewrite Hg.
      repeat split. exact (HGet ch0 eq_refl).
    + split.
      * eexists. split.
        { rewrite (Get_app_miss s _ _ Hg). cbn.
          rewrite bool_decide_eq_true_2 by reflexivity. reflexivity. }
        repeat split.
      * intros c Hc. destruct (Get s c) as [h | ] eqn:Hgc.
        -- exact (Get_app_hit s _ h c Hgc).
        -- rewrite (Get_app_miss s _ c Hgc). cbn.
           rewrite bool_decide_eq_false_2 by congruence. reflexivity.
Qed.

End FireAll_.
End RegistryFacts.

(** * The state and the handler lists of a route *)

Module RouteStateFacts.
Import Ctx Route.

Lemma ChangeMethod_other (newMethod : string) (r : Route) :
  newMethod <> Method r ->
  ChangeMethod newMethod r
  = ({| Name := Name r; Method := newMethod; methodBckp := Method r;
        Subdomain := Subdomain r; beginHandlers := beginHandlers r;
        Handlers_ := Handlers_ r; MainHandlerName := MainHandlerName r;
        doneHandlers := doneHandlers r; Path := Path r;
        FormattedPath := FormattedPath r |}, true).
Proof.
  intros Hne. unfold ChangeMethod.
  destruct (String.eqb_spec newMethod (Method r)); [contradiction | ].
  reflexivity.
Qed.

Lemma ChangeMethod_same (r : Route) : ChangeMethod (Method r) r = (r, false).
Proof. unfold ChangeMethod. rewrite String.eqb_refl. reflexivity. Qed.

Section Online.
Variable MethodNone : string.

(** X7.  Taking a route offline and back.  On a route that is online,
    [SetStatusOffline] returns true, the route is offline and its method is
    kept aside; a second [SetStatusOffline] changes nothing and returns
    false; [RestoreStatus] then returns true and gives the route its
    method back, with every other field as it was.  What is kept aside
    then is [MethodNone]: a second [RestoreStatus] returns true too and
    takes the route offline again. *)
Theorem offline_then_restore (r : Route) :
  Method r <> MethodNone ->
  let r1 := fst (SetStatusOffline MethodNone r) in
  let r2 := fst (RestoreStatus r1) in
  let r3 := fst (RestoreStatus r2) in
  snd (SetStatusOffline MethodNone r) = true
  /\ IsOnline MethodNone r1 = false
  /\ SetStatusOffline MethodNone r1 = (r1, false)
  /\ snd (RestoreStatus r1) = true
  /\ Method r2 = Method r /\ IsOnline MethodNone r2 = true
  /\ (Name r2, Subdomain r2, beginHandlers r2, Handlers_ r2,
      MainHandlerName r2, doneHandlers r2, Path r2, FormattedPath r2)
     = (Name r, Subdomain r, beginHandlers r, Handlers_ r,
        MainHandlerName r, doneHandlers r, Path r, FormattedPath r)
  /\ snd (RestoreStatus r2) = true
  /\ IsOnline MethodNone r3 = false.
Proof.
  intros Hon.
  assert (Hon' : MethodNone <> Method r) by congruence.
  unfold SetStatusOffline. rewrite (ChangeMethod_other MethodNone r Hon').
  cbn [fst snd].
  set (r1 := {| Name := Name r; Method := MethodNone; methodBckp := Method r;
                Subdomain := Subdomain r; beginHandlers := beginHandlers r;
                Handlers_ := Handlers_ r;
                MainHandlerName := MainHandlerName r;
                doneHandlers := doneHandlers r; Path := Path r;
                FormattedPath := FormattedPath r |}).
  assert (H1 : RestoreStatus r1
               = ({| Name := Name r; Method := Method r;
                     methodBckp := MethodNone;
                     Subdomain := Subdomain r;
                     beginHandlers := beginHandlers r;
                     Handlers_ := Handlers_ r;
                     MainHandlerName := MainHandlerName r;
                     doneHandlers := doneHandlers r; Path := Path r;
                     FormattedPath := FormattedPath r |}, true)).
  { unfold RestoreStatus. exact (ChangeMethod_other (Method r) r1 Hon). }
  cbv zeta. rewrite H1. cbn [fst snd].
  set (r2 := {| Name := Name r; Method := Method r; methodBckp := MethodNone;
                Subdomain := Subdomain r; beginHandlers := beginHandlers r;
                Handlers_ := Handlers_ r;
                MainHandlerName := MainHandlerName r;
                doneHandlers := doneHandlers r; Path := Path r;
                FormattedPath := FormattedPath r |}).
  assert (H2 : RestoreStatus r2
               = ({| Name := Name r; Method := MethodNone;
                     methodBckp := Method r;
                     Subdomain := Subdomain r;
                     beginHandlers := beginHandlers r;
                     Handlers_ := Handlers_ r;
                     MainHandlerName := MainHandlerName r;
                     doneHandlers := doneHandlers r; Path := Path r;
                     FormattedPath := FormattedPath r |}, true)).
  { unfold RestoreStatus. exact (ChangeMethod_other MethodNone r2 Hon'). }
  rewrite H2. cbn [fst snd].
  split; [reflexivity | ].
  split; [unfold IsOnline; cbn; rewrite String.eqb_refl; reflexivity | ].
  split; [exact (ChangeMethod_same r1) | ].
  split; [reflexivity | ]. split; [reflexivity | ].
  split.
  { unfold IsOnline. cbn.
    destruct (String.eqb_spec (Method r) MethodNone); [contradiction | ].
    reflexivity. }
  split; [reflexivity | ]. split; [reflexivity | ].
  unfold IsOnline. cbn. rewrite String.eqb_refl. reflexivity.
Qed.

End Online.

Lemma offline_then_restore_witness :
  let r := routeOfPath "GET" "/users" [1] in
  "GET" <> "NONE"
  /\ Method (fst (RestoreStatus (fst (SetStatusOffline "NONE" r)))) = "GET".
Proof.
  assert (Hne : Method (routeOfPath "GET" "/users" [1]) <> "NONE")
    by discriminate.
  split; [exact Hne | ].
  exact (proj1 (proj2 (proj2 (proj2 (proj2
           (offline_then_restore "NONE" (routeOfPath "GET" "/users" [1])
              Hne)))))).
Defined.

End RouteStateFacts.

(** * Registration and building, on the slices *)

Module RouteSliceFacts.
Import Ctx RouteSlices.

(** A slice within the arrays: its elements have been written. *)
Definition wf_slice (m : arrays) (s : slice) : Prop :=
  match ptr s with
  | Some p => exists c, m !! p = Some c /\ slen s <= length c
  | None => slen s = 0 /\ scap s = 0
  end.

Lemma length_elems (m : arrays) (s : slice) :
  wf_slice m s -> length (elems m s) = slen s.
Proof.
  unfold wf_slice, elems, cells. destruct (ptr s) as [p | ].
  - intros (c & -> & Hl). cbn. rewrite length_take. lia.
  - intros [-> _]. reflexivity.
Qed.

Lemma wf_slice_ptr (m : arrays) (t : slice) :
  wf_slice m t -> ptr t <> Some (length m).
Proof.
  unfold wf_slice. intros Hwf Hp. rewrite Hp in Hwf.
  destruct Hwf as (c & Hc & _). apply lookup_lt_Some in Hc. lia.
Qed.

(** Two slices that do not share an array. *)
Definition sep (a b : slice) : Prop :=
  ptr a <> ptr b \/ ptr a = None \/ ptr b = None.

Lemma sep_other (a b : slice) : sep a b -> ptr a <> ptr b \/ ptr a = None.
Proof.
  intros [H | [H | H]]; [tauto | tauto | ].
  destruct (ptr a) eqn:Ha; [left; congruence | tauto].
Qed.

Lemma sep_sym (a b : slice) : sep a b -> sep b a.
Proof. unfold sep. intros [H | [H | H]]; [left; congruence | tauto | tauto]. Qed.

(** The slices of a route that has not been built since [use] or [done]
    last changed it: each is within the arrays, and no two share an
    array. *)
Definition apart (r : route) : Prop :=
  wf_slice (mem r) (beginHandlers r)
  /\ wf_slice (mem r) (Handlers_ r)
  /\ wf_slice (mem r) (doneHandlers r)
  /\ sep (Handlers_ r) (beginHandlers r)
  /\ sep (doneHandlers r) (beginHandlers r)
  /\ sep (Handlers_ r) (doneHandlers r).

Lemma elems_none (m : arrays) (s : slice) : slen s = 0 -> elems m s = [].
Proof. unfold elems. intros ->. reflexivity. Qed.

Lemma wf_cut (m : arrays) (t : slice) : wf_slice m t -> wf_slice m (cut t).
Proof.
  unfold wf_slice, cut. cbn [ptr slen scap]. destruct (ptr t); [ | tauto].
  intros (c & Hc & _). exists c. split; [exact Hc | lia].
Qed.

Lemma wf_empty (m m' : arrays) (t : slice) :
  wf_slice m t -> slen t = 0 -> length m <= length m' -> wf_slice m' t.
Proof.
  unfold wf_slice. destruct (ptr t) as [p | ]; [ | tauto].
  intros (c & Hc & _) Hl Hlen. apply lookup_lt_Some in Hc.
  destruct (m' !! p) as [c' | ] eqn:Hm.
  - exists c'. split; [reflexivity | lia].
  - apply lookup_ge_None in Hm. lia.
Qed.

Lemma apart_newRoute (main : Handlers) (cap : nat) : apart (newRoute main cap).
Proof.
  unfold apart, newRoute, wf_slice, sep. cbn.
  repeat split; try tauto. exists main. split; [reflexivity | lia].
Qed.

Section Facts.
Variable growslice : nat -> nat -> nat.

Lemma append_elems (m : arrays) (s : slice) (xs : Handlers) :
  wf_slice m s ->
  let '(m', s') := append growslice m s xs in
  elems m' s' = elems m s ++ xs /\ wf_slice m' s'
  /\ slen s' = slen s + length xs
  /\ length m <= length m'.
Proof.
  intros Hwf. unfold append. cbv zeta.
  destruct (bool_decide_reflect (slen s + length xs <= scap s)) as [Hfit | Hno].
  - unfold wf_slice in Hwf. destruct (ptr s) as [p | ] eqn:Hp.
    + destruct Hwf as (c & Hc & Hl).
      assert (Hnew : alter (fun c => take (slen s) c ++ xs
                                      ++ drop (slen s + length xs) c) p m !! p
                     = Some (take (slen s) c ++ xs
                             ++ drop (slen s + length xs) c)).
      { rewrite list_lookup_alter_eq, Hc. reflexivity. }
      split.
      { unfold elems, cells. cbn [ptr slen]. rewrite Hnew, Hp, Hc. cbn.
        rewrite app_assoc, take_app_le
          by (rewrite length_app, length_take; lia).
        rewrite take_ge by (rewrite length_app, length_take; lia).
        reflexivity. }
      split.
      { unfold wf_slice. cbn [ptr slen]. eexists. split; [exact Hnew | ].
        rewrite !length_app, length_take. lia. }
      split; [reflexivity | ]. rewrite length_alter. lia.
    + destruct Hwf as [Hl Hc]. assert (xs = []) as ->.
      { destruct xs; [reflexivity | cbn in Hfit; lia]. }
      rewrite app_nil_r. split; [reflexivity | ].
      split; [unfold wf_slice; rewrite Hp; tauto | ].
      split; [cbn; lia | lia].
  - assert (Hl : length (elems m s) = slen s) by (apply length_elems; exact Hwf).
    split.
    { unfold elems at 1, cells. cbn [ptr slen].
      rewrite lookup_app_r by lia. rewrite Nat.sub_diag. cbn.
      rewrite take_ge by (rewrite length_app; lia). reflexivity. }
    split.
    { unfold wf_slice. cbn [ptr slen]. eexists. split.
      - rewrite lookup_app_r by lia. rewrite Nat.sub_diag. reflexivity.
      - rewrite length_app. lia. }
    split; [reflexivity | ]. rewrite length_app. cbn. lia.
Qed.

(** [append] leaves the slices of other arrays as they are. *)
Lemma append_other (m : arrays) (s t : slice) (xs : Handlers) :
  wf_slice m t -> ptr t <> ptr s \/ ptr t = None ->
  wf_slice (fst (append growslice m s xs)) t
  /\ elems (fst (append growslice m s xs)) t = elems m t.
Proof.
  intros Hwf Hne. unfold append. cbv zeta.
  assert (Hkeep : forall m',
            (forall p c, ptr t = Some p -> m !! p = Some c -> m' !! p = Some c) ->
            wf_slice m' t /\ elems m' t = elems m t).
  { intros m' Hm. unfold wf_slice, elems, cells in *.
    destruct (ptr t) as [p | ]; [ | tauto].
    destruct Hwf as (c & Hc & Hl). rewrite (Hm p c eq_refl Hc), Hc.
    split; [exists c; tauto | reflexivity]. }
  destruct (bool_decide (slen s + length xs <= scap s)).
  - destruct (ptr s) as [p | ] eqn:Hp; cbn [fst].
    + apply Hkeep. intros p' c Hp' Hc.
      rewrite list_lookup_alter_ne; [exact Hc | ].
      intros ->. destruct Hne as [Hne | Hne]; congruence.
    + apply Hkeep. tauto.
  - cbn [fst]. apply Hkeep. intros p' c _ Hc.
    apply lookup_app_l_Some. exact Hc.
Qed.

Lemma append_ptr (m : arrays) (s : slice) (xs : Handlers) :
  ptr (snd (append growslice m s xs)) = ptr s
  \/ ptr (snd (append growslice m s xs)) = Some (length m).
Proof.
  unfold append. cbv zeta.
  destruct (bool_decide (slen s + length xs <= scap s));
    [destruct (ptr s) eqn:Hp; left; cbn; congruence | right; reflexivity].
Qed.

Lemma append_sep (m : arrays) (s t : slice) (xs : Handlers) :
  wf_slice m t -> sep t s -> sep t (snd (append growslice m s xs)).
Proof.
  intros Hwf Hs. destruct (append_ptr m s xs) as [Hp | Hp].
  - unfold sep in *. rewrite Hp. exact Hs.
  - left. rewrite Hp. exact (wf_slice_ptr m t Hwf).
Qed.

Lemma use_spec (hs : Handlers) (r : route) :
  apart r ->
  apart (use growslice hs r)
  /\ elems (mem (use growslice hs r)) (beginHandlers (use growslice hs r))
     = elems (mem r) (beginHandlers r) ++ hs
  /\ elems (mem (use growslice hs r)) (Handlers_ (use growslice hs r))
     = elems (mem r) (Handlers_ r)
  /\ elems (mem (use growslice hs r)) (doneHandlers (use growslice hs r))
     = elems (mem r) (doneHandlers r).
Proof.
  intros (Hb & Hh & Hd & Hhb & Hdb & Hhd). unfold use.
  destruct (bool_decide_reflect (length hs = 0)) as [Hl | Hl].
  - destruct hs; [ | discriminate]. rewrite app_nil_r.
    split; [repeat split; assumption | repeat split].
  - pose proof (append_elems (mem r) (beginHandlers r) hs Hb) as Ha.
    pose proof (append_other (mem r) (beginHandlers r) (Handlers_ r) hs Hh
                  (sep_other _ _ Hhb)) as [Hh' Heh].
    pose proof (append_other (mem r) (beginHandlers r) (doneHandlers r) hs Hd
                  (sep_other _ _ Hdb)) as [Hd' Hed].
    pose proof (append_sep (mem r) (beginHandlers r) (Handlers_ r) hs Hh Hhb)
      as Hs1.
    pose proof (append_sep (mem r) (beginHandlers r) (doneHandlers r) hs Hd Hdb)
      as Hs2.
    destruct (append growslice (mem r) (beginHandlers r) hs) as [m s].
    cbn [fst snd] in *. destruct Ha as (He & Hwf & _ & _).
    cbn [mem beginHandlers Handlers_ doneHandlers].
    split; [repeat split; assumption | repeat split; assumption].
Qed.

Lemma done_spec (hs : Handlers) (r : route) :
  apart r ->
  apart (done_ growslice hs r)
  /\ elems (mem (done_ growslice hs r)) (beginHandlers (done_ growslice hs r))
     = elems (mem r) (beginHandlers r)
  /\ elems (mem (done_ growslice hs r)) (Handlers_ (done_ growslice hs r))
     = elems (mem r) (Handlers_ r)
  /\ elems (mem (done_ growslice hs r)) (doneHandlers (done_ growslice hs r))
     = elems (mem r) (doneHandlers r) ++ hs.
Proof.
  intros (Hb & Hh & Hd & Hhb & Hdb & Hhd). unfold done_.
  destruct (bool_decide_reflect (length hs = 0)) as [Hl | Hl].
  - destruct hs; [ | discriminate]. rewrite app_nil_r.
    split; [repeat split; assumption | repeat split].
  - pose proof (append_elems (mem r) (doneHandlers r) hs Hd) as Ha.
    pose proof (append_other (mem r) (doneHandlers r) (Handlers_ r) hs Hh
                  (sep_other _ _ Hhd)) as [Hh' Heh].
    pose proof (append_other (mem r) (doneHandlers r) (beginHandlers r) hs Hb
                  (sep_other _ _ (sep_sym _ _ Hdb))) as [Hb' Heb].
    pose proof (append_sep (mem r) (doneHandlers r) (Handlers_ r) hs Hh Hhd)
      as Hs1.
    pose proof (append_sep (mem r) (doneHandlers r) (beginHandlers r) hs Hb
                  (sep_sym _ _ Hdb)) as Hs2.
    destruct (append growslice (mem r) (doneHandlers r) hs) as [m s].
    cbn [fst snd] in *. destruct Ha as (He & Hwf & _ & _).
    cbn [mem beginHandlers Handlers_ doneHandlers].
    split; [ | repeat split; assumption].
    repeat split; try assumption. apply sep_sym. exact Hs2.
Qed.

(** [BuildHandlers] on slices within the arrays, the done handlers in an
    array of their own: the begin handlers come before the handlers, the
    done handlers after them, and the two lists are cut to length 0. *)
Lemma BuildHandlers_spec (r : route) :
  wf_slice (mem r) (beginHandlers r) -> wf_slice (mem r) (Handlers_ r) ->
  wf_slice (mem r) (doneHandlers r) ->
  sep (doneHandlers r) (beginHandlers r) ->
  let r' := BuildHandlers growslice r in
  elems (mem r') (Handlers_ r')
  = elems (mem r) (beginHandlers r) ++ elems (mem r) (Handlers_ r)
    ++ elems (mem r) (doneHandlers r)
  /\ slen (beginHandlers r') = 0 /\ slen (doneHandlers r') = 0
  /\ wf_slice (mem r') (beginHandlers r')
  /\ wf_slice (mem r') (Handlers_ r')
  /\ wf_slice (mem r') (doneHandlers r').
Proof.
  intros Hb Hh Hd Hdb r'. subst r'. unfold BuildHandlers.
  set (r1 := if bool_decide (0 < slen (beginHandlers r))
             then let '(m, s) :=
                    append growslice (mem r) (beginHandlers r)
                      (elems (mem r) (Handlers_ r)) in
                  {| mem := m; beginHandlers := cut (beginHandlers r);
                     Handlers_ := s; doneHandlers := doneHandlers r |}
             else r).
  assert (H1 : elems (mem r1) (Handlers_ r1)
               = elems (mem r) (beginHandlers r) ++ elems (mem r) (Handlers_ r)
               /\ slen (beginHandlers r1) = 0
               /\ wf_slice (mem r1) (beginHandlers r1)
               /\ wf_slice (mem r1) (Handlers_ r1)
               /\ wf_slice (mem r1) (doneHandlers r1)
               /\ elems (mem r1) (doneHandlers r1) = elems (mem r) (doneHandlers r)).
  { subst r1.
    destruct (bool_decide_reflect (0 < slen (beginHandlers r))) as [Hpos | Hz].
    - pose proof (append_elems (mem r) (beginHandlers r)
                    (elems (mem r) (Handlers_ r)) Hb) as Ha.
      pose proof (append_other (mem r) (beginHandlers r) (doneHandlers r)
                    (elems (mem r) (Handlers_ r)) Hd (sep_other _ _ Hdb))
        as [Hd' Hed].
      destruct (append growslice (mem r) (beginHandlers r)
                  (elems (mem r) (Handlers_ r))) as [m s].
      cbn [fst snd] in *. destruct Ha as (He & Hwf & _ & Hlen).
      cbn [mem beginHandlers Handlers_ doneHandlers].
      split; [exact He | ]. split; [reflexivity | ].
      split; [ | repeat split; assumption].
      exact (wf_empty (mem r) m _ (wf_cut _ _ Hb) eq_refl Hlen).
    - assert (Hl : slen (beginHandlers r) = 0) by lia.
      rewrite (elems_none _ _ Hl). repeat split; assumption. }
  destruct H1 as (He1 & Hl1 & Hb1 & Hh1 & Hd1 & Hed1).
  destruct (bool_decide_reflect (0 < slen (doneHandlers r1))) as [Hpos | Hz].
  - pose proof (append_elems (mem r1) (Handlers_ r1)
                  (elems (mem r1) (doneHandlers r1)) Hh1) as Ha.
    destruct (append growslice (mem r1) (Handlers_ r1)
                (elems (mem r1) (doneHandlers r1))) as [m s].
    destruct Ha as (He & Hwf & _ & Hlen).
    cbn [mem beginHandlers Handlers_ doneHandlers].
    split; [rewrite He, He1, Hed1, <- app_assoc; reflexivity | ].
    split; [exact Hl1 | ]. split; [reflexivity | ].
    split; [exact (wf_empty (mem r1) m _ Hb1 Hl1 Hlen) | ].
    split; [exact Hwf | ].
    exact (wf_empty (mem r1) m _ (wf_cut _ _ Hd1) eq_refl Hlen).
  - assert (Hl : slen (doneHandlers r1) = 0) by lia.
    rewrite <- Hed1, (elems_none _ _ Hl), app_nil_r.
    repeat split; assumption.
Qed.

(** X8.  Registration and building.  On a route whose three slices are
    within the arrays and share none (as [NewRoute] leaves them, and as
    [use] and [done] keep them), the handlers given to [use] and [done]
    before a build run, in the order they were given, before and after the
    main handlers, whatever the order of the two calls and whatever
    capacities [append] is given by the runtime; after the build the
    slices of [use] and [done] have length 0. *)
Theorem use_done_build_order (b1 b2 d1 : Handlers) (r : route) :
  apart r ->
  let built :=
    BuildHandlers growslice
      (done_ growslice d1 (use growslice b2 (use growslice b1 r))) in
  let built' :=
    BuildHandlers growslice
      (use growslice b2 (done_ growslice d1 (use growslice b1 r))) in
  elems (mem built) (Handlers_ built)
  = (elems (mem r) (beginHandlers r) ++ b1 ++ b2)
    ++ elems (mem r) (Handlers_ r) ++ (elems (mem r) (doneHandlers r) ++ d1)
  /\ elems (mem built') (Handlers_ built') = elems (mem built) (Handlers_ built)
  /\ slen (beginHandlers built) = 0 /\ slen (doneHandlers built) = 0.
Proof.
  intros Hr built built'. subst built built'.
  destruct (use_spec b1 r Hr) as (H1 & Hb1 & Hh1 & Hd1).
  set (r1 := use growslice b1 r) in *.
  destruct (use_spec b2 r1 H1) as (H2 & Hb2 & Hh2 & Hd2).
  set (r2 := use growslice b2 r1) in *.
  destruct (done_spec d1 r2 H2) as (H3 & Hb3 & Hh3 & Hd3).
  set (r3 := done_ growslice d1 r2) in *.
  destruct (done_spec d1 r1 H1) as (H2' & Hb2' & Hh2' & Hd2').
  set (r2' := done_ growslice d1 r1) in *.
  destruct (use_spec b2 r2' H2') as (H3' & Hb3' & Hh3' & Hd3').
  set (r3' := use growslice b2 r2') in *.
  destruct H3 as (Wb & Wh & Wd & _ & Sdb & _).
  destruct H3' as (Wb' & Wh' & Wd' & _ & Sdb' & _).
  destruct (BuildHandlers_spec r3 Wb Wh Wd Sdb) as (E & Lb & Ld & _).
  destruct (BuildHandlers_spec r3' Wb' Wh' Wd' Sdb') as (E' & _).
  split; [ | split; [ | split; assumption]].
  - rewrite E, Hb3, Hh3, Hd3, Hb2, Hh2, Hd2, Hb1, Hh1, Hd1.
    rewrite <- !app_assoc. reflexivity.
  - rewrite E, E', Hb3, Hh3, Hd3, Hb2, Hh2, Hd2, Hb3', Hh3', Hd3', Hb2', Hh2',
      Hd2'. rewrite <- !app_assoc. reflexivity.
Qed.




End Facts.

(** What [Route.BuildHandlers] computes on lists is what [BuildHandlers]
    leaves in the slice of the handlers. *)
Lemma BuildHandlers_elems (growslice : nat -> nat -> nat) (r : route)
    (v : Route.Route) :
  wf_slice (mem r) (beginHandlers r) -> wf_slice (mem r) (Handlers_ r) ->
  wf_slice (mem r) (doneHandlers r) ->
  sep (doneHandlers r) (beginHandlers r) ->
  Route.beginHandlers v = elems (mem r) (beginHandlers r) ->
  Route.Handlers_ v = elems (mem r) (Handlers_ r) ->
  Route.doneHandlers v = elems (mem r) (doneHandlers r) ->
  elems (mem (BuildHandlers growslice r))
    (Handlers_ (BuildHandlers growslice r))
  = Route.Handlers_ (Route.BuildHandlers v).
Proof.
  intros Wb Wh Wd Sd Hb Hh Hd.
  destruct (BuildHandlers_spec growslice r Wb Wh Wd Sd) as (E & _).
  rewrite E, RouteFacts.BuildHandlers_main, Hb, Hh, Hd. reflexivity.
Qed.


Lemma use_done_build_order_witness :
  apart (newRoute [9] 1)
  /\ (let built :=
        BuildHandlers doubling
          (done_ doubling [7] (use doubling [2; 3] (use doubling [1]
             (newRoute [9] 1)))) in
      elems (mem built) (Handlers_ built) = [1; 2; 3; 9; 7]).
Proof.
  split; [exact (apart_newRoute [9] 1) | ].
  exact (proj1 (use_done_build_order doubling [1] [2; 3] [7] (newRoute [9] 1)
                  (apart_newRoute [9] 1))).
Defined.


End RouteSliceFacts.

(** * Registered paths *)

Module PathFacts.
Import Path.

Lemma take_app (a b : string) : Strings.take (String.length a) (a +:+ b) = a.
Proof.
  induction a as [ | c a IH]; rewrite ?StringFacts.app_cons, ?StringFacts.app_nil_l;
    cbn; [destruct b; reflexivity | rewrite IH; reflexivity].
Qed.

Lemma take_drop (k : nat) (s : string) :
  Strings.take k s +:+ Strings.drop k s = s.
Proof.
  revert s. induction k as [ | k IH]; intros [ | c s]; cbn; try reflexivity.
  rewrite StringFacts.app_cons, IH. reflexivity.
Qed.

Lemma length_take_le (k : nat) (s : string) :
  k <= String.length s -> String.length (Strings.take k s) = k.
Proof.
  revert s. induction k as [ | k IH]; intros [ | c s]; cbn; try lia.
  intros Hk. rewrite IH by lia. reflexivity.
Qed.

Lemma length_drop (k : nat) (s : string) :
  String.length (Strings.drop k s) = String.length s - k.
Proof.
  revert s. induction k as [ | k IH]; intros [ | c s]; cbn; try lia.
  apply IH.
Qed.

Lemma HasPrefix_app (pre s : string) : HasPrefix (pre +:+ s) pre = true.
Proof.
  unfold HasPrefix. rewrite StringFacts.length_app, take_app, String.eqb_refl.
  rewrite bool_decide_eq_true_2 by lia. reflexivity.
Qed.

Lemma HasSuffix_app (s suf : string) : HasSuffix (s +:+ suf) suf = true.
Proof.
  unfold HasSuffix. rewrite StringFacts.length_app.
  replace (String.length s + String.length suf - String.length suf)
    with (String.length s) by lia.
  rewrite StringFacts.drop_app, String.eqb_refl.
  rewrite bool_decide_eq_true_2 by lia. reflexivity.
Qed.

(** X9.  [prefix] and [suffix] give a string that has the prefix (the
    suffix), leave a string alone that has it already, and so do nothing
    when they are applied a second time; [prefix] adds nothing more than
    the prefix.  So [Param] names a parameter with one [:] whether it is
    given the name or the named parameter, and [WildcardParam] likewise,
    but for the empty name, which it leaves empty. *)
Theorem prefix_suffix_idempotent (s p : string) :
  HasPrefix (prefix s p) p = true
  /\ (HasPrefix s p = true -> prefix s p = s)
  /\ prefix (prefix s p) p = prefix s p
  /\ (prefix s p = s \/ prefix s p = p +:+ s)
  /\ HasSuffix (suffix s p) p = true
  /\ (HasSuffix s p = true -> suffix s p = s)
  /\ suffix (suffix s p) p = suffix s p
  /\ Param (Param s) = Param s
  /\ WildcardParam (WildcardParam s) = WildcardParam s
  /\ WildcardParam "" = "".
Proof.
  assert (Hp : HasPrefix (prefix s p) p = true).
  { unfold prefix. destruct (HasPrefix s p) eqn:Hh; cbn [negb];
      [exact Hh | apply HasPrefix_app]. }
  assert (Hs : HasSuffix (suffix s p) p = true).
  { unfold suffix. destruct (HasSuffix s p) eqn:Hh; cbn [negb];
      [exact Hh | apply HasSuffix_app]. }
  assert (Hidem : forall x q, prefix (prefix x q) q = prefix x q).
  { intros x q. unfold prefix at 1.
    assert (Hx : HasPrefix (prefix x q) q = true).
    { unfold prefix. destruct (HasPrefix x q) eqn:Hh; cbn [negb];
        [exact Hh | apply HasPrefix_app]. }
    rewrite Hx. reflexivity. }
  split; [exact Hp | ].
  split; [intros Hh; unfold prefix; rewrite Hh; reflexivity | ].
  split; [apply Hidem | ].
  split; [unfold prefix; destruct (HasPrefix s p); cbn [negb]; tauto | ].
  split; [exact Hs | ].
  split; [intros Hh; unfold suffix; rewrite Hh; reflexivity | ].
  split; [unfold suffix at 1; rewrite Hs; reflexivity | ].
  split; [apply Hidem | ].
  split; [ | reflexivity].
  unfold WildcardParam. destruct s as [ | c s']; [reflexivity | ].
  rewrite (bool_decide_eq_false_2 (String.length (String c s') = 0))
    by (cbn; lia).
  assert (Hlen : String.length (prefix (String c s') Trie.WildcardParamStart)
                 <> 0).
  { unfold prefix.
    destruct (HasPrefix (String c s') Trie.WildcardParamStart); cbn [negb];
      rewrite ?StringFacts.length_app; cbn; lia. }
  rewrite (bool_decide_eq_false_2 _ Hlen). apply Hidem.
Qed.

(** ** [cleanPath] *)

Lemma slen_app (a b : string) : slen (a +:+ b) = (slen a + slen b)%Z.
Proof. unfold slen. rewrite StringFacts.length_app. lia. Qed.

Lemma slen_upto (i : Z) (s : string) :
  (0 <= i <= slen s)%Z -> slen (upto i s) = i.
Proof.
  unfold slen, upto. intros Hi. rewrite length_take_le by lia. lia.
Qed.

Lemma slen_from (i : Z) (s : string) :
  (0 <= i <= slen s)%Z -> slen (from i s) = (slen s - i)%Z.
Proof. unfold slen, from. intros Hi. rewrite length_drop. lia. Qed.

Lemma first_app (a b : string) (c : ascii) :
  Strings.first_byte a = Some c -> Strings.first_byte (a +:+ b) = Some c.
Proof. destruct a; [discriminate | ]. rewrite StringFacts.app_cons. exact id. Qed.

Lemma first_upto (i : Z) (s : string) (c : ascii) :
  (1 <= i)%Z -> Strings.first_byte s = Some c ->
  Strings.first_byte (upto i s) = Some c.
Proof.
  intros Hi. unfold upto. destruct (Z.to_nat i) as [ | k] eqn:Hk; [lia | ].
  destruct s; [discriminate | ]. exact id.
Qed.

Lemma get_lt (k : nat) (s : string) (c : ascii) :
  String.get k s = Some c -> k < String.length s.
Proof.
  revert k. induction s as [ | a s IH]; intros [ | k]; cbn; try discriminate;
    try lia.
  intros Hg. specialize (IH k Hg). lia.
Qed.

Lemma byte_range (s : string) (i : Z) (c : ascii) :
  byte s i = Some c -> (0 <= i < slen s)%Z.
Proof.
  unfold byte, slen. case_bool_decide; [ | discriminate].
  intros Hg%get_lt. lia.
Qed.

Lemma byte_first (s : string) : byte s 0 = Strings.first_byte s.
Proof. unfold byte. cbn. destruct s; reflexivity. Qed.

Section Clean.
Variables Begin End_ : ascii.

Lemma cleanTurn_spec (s : string) (i : Z) (m : bool) (s' : string) (i' : Z)
    (m' : bool) :
  Strings.first_byte s = Some "/"%char -> (0 <= i < slen s)%Z ->
  cleanTurn Begin End_ s i m = (s', i', m') ->
  Strings.first_byte s' = Some "/"%char
  /\ (i <= i')%Z /\ (slen s' - i' <= slen s - i)%Z /\ (slen s' <= slen s)%Z.
Proof.
  intros Hf Hi. unfold cleanTurn.
  destruct (bool_decide (byte s i = Some Begin));
    [intros [= <- <- <-]; repeat split; try assumption; lia | ].
  destruct (bool_decide (byte s i = Some End_));
    [intros [= <- <- <-]; repeat split; try assumption; lia | ].
  destruct m; [intros [= <- <- <-]; repeat split; try assumption; lia | ].
  destruct (bool_decide_reflect (byte s i = Some "/"%char)) as [Hsl | Hsl].
  - destruct (bool_decide_reflect (slen s - 1 >= i + 1)%Z) as [Hn | Hn];
      cbn [andb];
      [ | intros [= <- <- <-]; repeat split; try assumption; lia].
    destruct (bool_decide (byte s (i + 1) = Some "/"%char));
      [ | intros [= <- <- <-]; repeat split; try assumption; lia].
    cbv zeta.
    assert (Hfirst : forall x, Strings.first_byte (upto i s +:+ "/" +:+ x)
                               = Some "/"%char).
    { intros x. destruct (decide (i = 0%Z)) as [-> | Hi0].
      - reflexivity.
      - apply first_app. apply first_upto; [lia | exact Hf]. }
    destruct (bool_decide_reflect (slen s - 1 >= i + 2)%Z) as [Hk | Hk];
      intros [= <- <- <-].
    + rewrite StringFacts.app_assoc. split; [apply Hfirst | ].
      rewrite !slen_app, slen_upto, slen_from by lia.
      change (slen "/") with 1%Z. lia.
    + split; [rewrite <- (StringFacts.app_empty_r (upto i s +:+ "/")),
                StringFacts.app_assoc; apply Hfirst | ].
      rewrite !slen_app, slen_upto by lia. change (slen "/") with 1%Z. lia.
  - destruct (bool_decide_reflect (byte s i = Some backslash)) as [Hb | Hb];
      [ | intros [= <- <- <-]; repeat split; try assumption; lia].
    assert (Hi1 : (1 <= i)%Z).
    { destruct (decide (i = 0%Z)) as [-> | Hi0]; [ | lia].
      rewrite byte_first, Hf in Hb. discriminate. }
    cbv zeta.
    destruct (bool_decide_reflect (slen s - 1 >= i + 1)%Z) as [Ha | Ha].
    + set (s2 := (upto i s +:+ "/") +:+ from (i + 1) s).
      assert (Hf2 : Strings.first_byte s2 = Some "/"%char).
      { unfold s2. apply first_app, first_app, first_upto; [lia | exact Hf]. }
      assert (Hl2 : slen s2 = slen s).
      { unfold s2. rewrite !slen_app, slen_upto, slen_from by lia.
        change (slen "/") with 1%Z. lia. }
      cbv beta iota.
      destruct (bool_decide_reflect (slen s2 - 1 > i + 1)%Z) as [Hc | Hc];
        cbn [andb];
        [ | intros [= <- <- <-]; repeat split; try assumption; lia].
      destruct (bool_decide (byte s2 (i + 1) = Some backslash));
        [ | intros [= <- <- <-]; repeat split; try assumption; lia].
      destruct (bool_decide_reflect (slen s2 - 1 >= i + 1 + 2)%Z) as [Hd | Hd];
        intros [= <- <- <-].
      * split; [apply first_app, first_upto; [lia | exact Hf2] | ].
        rewrite slen_app, slen_upto, slen_from by lia. lia.
      * split; [apply first_upto; [lia | exact Hf2] | ].
        rewrite slen_upto by lia. lia.
    + set (s2 := upto i s +:+ "/").
      assert (Hf2 : Strings.first_byte s2 = Some "/"%char).
      { unfold s2. apply first_app, first_upto; [lia | exact Hf]. }
      assert (Hl2 : slen s2 = (i + 1)%Z).
      { unfold s2. rewrite slen_app, slen_upto by lia.
        change (slen "/") with 1%Z. lia. }
      cbv beta iota.
      rewrite (bool_decide_eq_false_2 (slen s2 - 1 > i)%Z) by lia.
      cbn [andb]. intros [= <- <- <-]. repeat split; try assumption; lia.
Qed.

(** The loop ends, with a string that starts with [/] and is no longer
    than the one it started with. *)
Lemma cleanLoop_ends (fuel : nat) :
  forall s i m,
    Strings.first_byte s = Some "/"%char -> (-1 <= i)%Z ->
    (Z.max 0 (slen s - i) < Z.of_nat fuel)%Z ->
    exists r,
      cleanLoop Begin End_ fuel s i m = Trie.Ok r
      /\ Strings.first_byte r = Some "/"%char /\ (slen r <= slen s)%Z.
Proof.
  induction fuel as [ | fuel IH]; intros s i m Hf Hi Hfuel; [lia | ].
  cbn [cleanLoop]. cbv zeta.
  destruct (bool_decide_reflect (slen s <= i + 1)%Z) as [Hend | Hgo].
  - exists s. repeat split; [exact Hf | lia].
  - destruct (cleanTurn Begin End_ s (i + 1) m) as [[s' i'] m'] eqn:Hturn.
    destruct (cleanTurn_spec s (i + 1) m s' i' m' Hf ltac:(lia) Hturn)
      as (Hf' & Hi' & Hmu & Hlen).
    destruct (IH s' i' m' Hf' ltac:(lia) ltac:(lia)) as (r & Hr & Hfr & Hlr).
    exists r. repeat split; [exact Hr | exact Hfr | lia].
Qed.

Lemma HasPrefix_slash (s : string) :
  HasPrefix s "/" = true <-> Strings.first_byte s = Some "/"%char.
Proof.
  unfold HasPrefix. destruct s as [ | c s]; cbn.
  - split; discriminate.
  - destruct (Ascii.eqb_spec c "/"%char) as [-> | Hc].
    + split; reflexivity.
    + split; [discriminate | ]. intros [= Heq]. contradiction.
Qed.

Lemma cleanStart_rooted (s : string) :
  Strings.first_byte (cleanStart s) = Some "/"%char
  /\ (slen (cleanStart s) <= slen s + 1)%Z.
Proof.
  unfold cleanStart. cbv zeta.
  set (s1 := if bool_decide (byte s (slen s - 1) = Some "/"%char)
             then upto (slen s - 1) s else s).
  assert (Hl1 : (slen s1 <= slen s)%Z).
  { unfold s1. destruct (bool_decide_reflect
                           (byte s (slen s - 1) = Some "/"%char)) as [Hb | Hb];
      [ | lia].
    apply byte_range in Hb. rewrite slen_upto by lia. lia. }
  unfold prefix. destruct (HasPrefix s1 "/") eqn:Hp; cbn [negb].
  - split; [apply HasPrefix_slash; exact Hp | lia].
  - split; [reflexivity | ]. rewrite slen_app. change (slen "/") with 1%Z. lia.
Qed.

(** X10.  [cleanPath] returns: its loop ends within the turns counted
    for it, on every input and whatever the two macro bytes are; and what
    it returns starts with [/] and is at most one byte longer than the
    input. *)
Theorem cleanPath_returns_rooted (s : string) :
  exists r,
    cleanPath Begin End_ s = Trie.Ok r
    /\ Strings.first_byte r = Some "/"%char
    /\ (slen r <= slen s + 1)%Z.
Proof.
  unfold cleanPath, cleanPath_fuel.
  destruct (String.eqb s "" || String.eqb s ".") eqn:Hroot.
  - exists "/". repeat split. unfold slen. cbn. lia.
  - destruct (cleanStart_rooted s) as [Hf Hl].
    destruct (cleanLoop_ends (S (S (String.length (cleanStart s))))
                (cleanStart s) (-1) false Hf ltac:(lia))
      as (r & Hr & Hfr & Hlr).
    { unfold slen. lia. }
    exists r. repeat split; [exact Hr | exact Hfr | lia].
Qed.

(** A string without a backslash and without two [/] in a row. *)
Fixpoint no_run (s : string) : bool :=
  match s with
  | EmptyString => true
  | String a t =>
      negb (Ascii.eqb a backslash)
      && match t with
         | String b _ => negb (Ascii.eqb a "/" && Ascii.eqb b "/")
         | EmptyString => true
         end
      && no_run t
  end.

Lemma byte_cons (a : ascii) (t : string) (i : Z) :
  (1 <= i)%Z -> byte (String a t) i = byte t (i - 1).
Proof.
  intros Hi. unfold byte.
  rewrite !bool_decide_eq_true_2 by lia.
  replace (Z.to_nat i) with (S (Z.to_nat (i - 1))) by lia. reflexivity.
Qed.

Lemma byte_neg (s : string) (i : Z) : (i < 0)%Z -> byte s i = None.
Proof. intros Hi. unfold byte. rewrite bool_decide_eq_false_2 by lia. reflexivity. Qed.

Lemma no_run_bytes (s : string) :
  no_run s = true ->
  forall i,
    byte s i <> Some backslash
    /\ (byte s i = Some "/"%char -> byte s (i + 1) <> Some "/"%char).
Proof.
  induction s as [ | a t IH]; intros Hn i.
  - unfold byte. destruct (bool_decide (0 <= i)%Z), (bool_decide (0 <= i + 1)%Z);
      cbn; split; try discriminate; intros; discriminate.
  - cbn [no_run] in Hn.
    apply andb_true_iff in Hn as [Hn Ht].
    apply andb_true_iff in Hn as [Ha Hab].
    destruct (Z.lt_trichotomy i 0) as [Hi | [-> | Hi]].
    + rewrite (byte_neg _ i Hi). split; [discriminate | intros [=]].
    + rewrite byte_first. cbn [Strings.first_byte Z.add].
      split.
      * intros [= ->]. discriminate Ha.
      * intros [= ->]. rewrite byte_cons by lia. cbn [Z.sub].
        change (1 - 1)%Z with 0%Z. rewrite byte_first.
        destruct t as [ | b t']; [discriminate | ].
        cbn in Hab |- *. intros [= ->]. discriminate Hab.
    + rewrite !byte_cons by lia.
      replace (i + 1 - 1)%Z with (i - 1 + 1)%Z by lia.
      exact (IH Ht (i - 1)%Z).
Qed.

Lemma cleanTurn_quiet (s : string) (i : Z) (m : bool) :
  byte s i <> Some backslash ->
  (byte s i = Some "/"%char -> byte s (i + 1) <> Some "/"%char) ->
  exists m', cleanTurn Begin End_ s i m = (s, i, m').
Proof.
  intros Hb Hs. unfold cleanTurn.
  destruct (bool_decide (byte s i = Some Begin)); [eexists; reflexivity | ].
  destruct (bool_decide (byte s i = Some End_)); [eexists; reflexivity | ].
  destruct m; [eexists; reflexivity | ].
  destruct (bool_decide_reflect (byte s i = Some "/"%char)) as [Hsl | Hsl].
  - rewrite (bool_decide_eq_false_2 _ (Hs Hsl)), andb_false_r.
    eexists. reflexivity.
  - rewrite (bool_decide_eq_false_2 _ Hb). eexists. reflexivity.
Qed.

Lemma cleanLoop_quiet (s : string) (fuel : nat) :
  no_run s = true ->
  forall i m,
    (-1 <= i)%Z -> (Z.max 0 (slen s - i) < Z.of_nat fuel)%Z ->
    cleanLoop Begin End_ fuel s i m = Trie.Ok s.
Proof.
  intros Hn. induction fuel as [ | fuel IH]; intros i m Hi Hfuel; [lia | ].
  cbn [cleanLoop]. cbv zeta.
  destruct (bool_decide_reflect (slen s <= i + 1)%Z) as [Hend | Hgo];
    [reflexivity | ].
  destruct (no_run_bytes s Hn (i + 1)%Z) as [Hb Hs].
  destruct (cleanTurn_quiet s (i + 1) m Hb Hs) as [m' ->].
  apply IH; lia.
Qed.

Lemma no_run_take (k : nat) (s : string) :
  no_run s = true -> no_run (Strings.take k s) = true.
Proof.
  revert s. induction k as [ | k IH]; intros [ | a t]; cbn [Strings.take no_run];
    try reflexivity.
  intros Hn. apply andb_true_iff in Hn as [Hn Ht].
  apply andb_true_iff in Hn as [Ha Hab].
  rewrite Ha, (IH t Ht), andb_true_r. cbn [andb].
  destruct k as [ | k]; [destruct t; reflexivity | ].
  destruct t as [ | b t']; [reflexivity | exact Hab].
Qed.

Lemma no_run_cleanStart (s : string) :
  no_run s = true -> no_run (cleanStart s) = true.
Proof.
  intros Hn. unfold cleanStart. cbv zeta.
  set (s1 := if bool_decide (byte s (slen s - 1) = Some "/"%char)
             then upto (slen s - 1) s else s).
  assert (Hn1 : no_run s1 = true).
  { unfold s1. destruct (bool_decide (byte s (slen s - 1) = Some "/"%char));
      [apply no_run_take | ]; exact Hn. }
  unfold prefix. destruct (HasPrefix s1 "/") eqn:Hp; cbn [negb];
    [exact Hn1 | ].
  change ("/" +:+ s1) with (String "/" s1). cbn [no_run].
  rewrite Hn1, andb_true_r. cbn.
  destruct s1 as [ | b t]; [reflexivity | ].
  destruct (Ascii.eqb_spec b "/"%char) as [-> | Hb]; [ | reflexivity].
  assert (Hq : HasPrefix (String "/" t) "/" = true)
    by (apply HasPrefix_slash; reflexivity).
  congruence.
Qed.

(** X11.  On a string without a backslash and without two [/] in a row
    (and other than the empty string and [.]), the loop of [cleanPath]
    changes nothing: what is returned is the string without its last
    byte, if that is a [/], and with a [/] in front, if it had none.  So
    a path that starts with [/] and does not end with one, and the path
    [/], are returned as they are. *)
Theorem cleanPath_without_runs (s : string) :
  no_run s = true -> s <> "" -> s <> "." ->
  cleanPath Begin End_ s = Trie.Ok (cleanStart s)
  /\ (Strings.first_byte s = Some "/"%char ->
      s = "/" \/ byte s (slen s - 1) <> Some "/"%char ->
      cleanPath Begin End_ s = Trie.Ok s).
Proof.
  intros Hn He Hd.
  assert (Hmain : cleanPath Begin End_ s = Trie.Ok (cleanStart s)).
  { unfold cleanPath, cleanPath_fuel.
    destruct (String.eqb_spec s ""); [contradiction | ].
    destruct (String.eqb_spec s "."); [contradiction | ].
    cbn [orb].
    apply cleanLoop_quiet; [apply no_run_cleanStart; exact Hn | lia | ].
    unfold slen. lia. }
  split; [exact Hmain | ].
  intros Hf Hlast. rewrite Hmain. f_equal.
  destruct Hlast as [-> | Hlast]; [reflexivity | ].
  unfold cleanStart. cbv zeta.
  rewrite (bool_decide_eq_false_2 _ Hlast).
  unfold prefix. rewrite (proj2 (HasPrefix_slash s) Hf). reflexivity.
Qed.

Lemma Index_split (s : string) (c : ascii) :
  Strings.Index s c <> (-1)%Z ->
  (0 <= Strings.Index s c)%Z
  /\ Strings.Index (upto (Strings.Index s c) s) c = (-1)%Z
  /\ Strings.first_byte (from (Strings.Index s c) s) = Some c.
Proof.
  unfold upto, from. induction s as [ | a t IH]; cbn [Strings.Index];
    [contradiction | ].
  destruct (Ascii.eqb_spec a c) as [-> | Hac].
  - intros _. cbn. repeat split. lia.
  - destruct (bool_decide_reflect (Strings.Index t c = -1)%Z) as [Ht | Ht];
      [contradiction | ].
    intros _. destruct (IH Ht) as (H0 & Hup & Hfrom).
    split; [lia | ].
    replace (Z.to_nat (Strings.Index t c + 1))
      with (S (Z.to_nat (Strings.Index t c))) by lia.
    cbn [Strings.take Strings.drop Strings.Index].
    destruct (Ascii.eqb_spec a c); [contradiction | ].
    rewrite Hup. split; [reflexivity | exact Hfrom].
Qed.

(** X12.  [splitSubdomainAndPath], on a string other than the empty
    string and [/].  Without a [/] in the string the call panics (a slice
    up to the index -1).  Otherwise the string is cut at its first [/]:
    the subdomain is what comes before it, and has no [/]; the path is
    what [cleanPath] returns for the rest, and starts with [/]. *)
Theorem splitSubdomainAndPath_cuts_at_first_slash (s : string) :
  s <> "" -> s <> "/" ->
  (Strings.Index s "/"%char = (-1)%Z ->
   splitSubdomainAndPath Begin End_ s = Trie.Panic)
  /\ (Strings.Index s "/"%char <> (-1)%Z ->
      exists sub rest path,
        s = sub +:+ rest
        /\ Strings.Index sub "/"%char = (-1)%Z
        /\ Strings.first_byte rest = Some "/"%char
        /\ cleanPath Begin End_ rest = Trie.Ok path
        /\ Strings.first_byte path = Some "/"%char
        /\ splitSubdomainAndPath Begin End_ s = Trie.Ok (sub, path)).
Proof.
  intros He Hs. unfold splitSubdomainAndPath. cbv zeta.
  destruct (String.eqb_spec s ""); [contradiction | ].
  destruct (String.eqb_spec s "/"); [contradiction | ].
  cbn [orb]. split.
  - intros ->. reflexivity.
  - intros Hidx.
    destruct (Index_split s "/"%char Hidx) as (H0 & Hsub & Hrest).
    destruct (cleanPath_returns_rooted (from (Strings.Index s "/"%char) s))
      as (path & Hpath & Hfp & _).
    exists (upto (Strings.Index s "/"%char) s),
      (from (Strings.Index s "/"%char) s), path.
    split; [unfold upto, from; symmetry; apply take_drop | ].
    split; [exact Hsub | ]. split; [exact Hrest | ].
    split; [exact Hpath | ]. split; [exact Hfp | ].
    destruct (bool_decide_reflect (Strings.Index s "/"%char = 0)%Z) as [Hz | Hz].
    + rewrite Hz in Hpath |- *.
      assert (Hall : from 0 s = s) by (unfold from; apply StringFacts.drop_0).
      rewrite Hall in Hpath. rewrite Hpath. cbn [mbind Trie.res_bind].
      reflexivity.
    + rewrite (bool_decide_eq_false_2 (Strings.Index s "/"%char < 0)%Z) by lia.
      rewrite Hpath. reflexivity.
Qed.

End Clean.

Lemma cleanPath_without_runs_witness :
  cleanPath "{"%char "}"%char "/users/{id:int}/files/"
  = Trie.Ok "/users/{id:int}/files".
Proof.
  exact (proj1 (cleanPath_without_runs "{"%char "}"%char
                  "/users/{id:int}/files/" eq_refl
                  ltac:(discriminate) ltac:(discriminate))).
Defined.

Lemma splitSubdomainAndPath_witness :
  splitSubdomainAndPath "{"%char "}"%char "www." = Trie.Panic.
Proof.
  exact (proj1 (splitSubdomainAndPath_cuts_at_first_slash "{"%char "}"%char
                  "www." ltac:(discriminate) ltac:(discriminate)) eq_refl).
Defined.

End PathFacts.

(** * The handler chain of a context *)

Module ChainFacts.
Import Writers Ctx.

Section Chain.
Context `{NativeIO} `{Application}.
Variable nameOf : Handler -> string.

Lemma len_nonneg (hs : Handlers) : (0 <= len hs)%Z.
Proof. unfold len. lia. Qed.

Lemma at_index_in_range (hs : Handlers) (i : Z) :
  (0 <= i < len hs)%Z -> exists h, at_index hs i = Some h.
Proof.
  intros Hi. unfold at_index. rewrite bool_decide_eq_true_2 by lia.
  apply lookup_lt_is_Some_2. unfold len in Hi. lia.
Qed.

(** X13.  A stopped context.  After [StopExecution] the context is
    stopped: [Next] does nothing, there is no next handler, [HandlerName]
    panics (the cursor, -1, is no index of the chain), and
    [NextOrNotFound] sets 404 and leaves the context stopped.  [Skip]
    takes the context out of the stopped state when the chain is not
    empty: the cursor goes to 0, and the next handler is the second of
    the chain; on an empty chain [Skip] does nothing. *)
Theorem stopped_context (ctx : context) :
  let c := StopExecution ctx in
  IsStopped c = true
  /\ Next c = c
  /\ NextHandler c = None
  /\ HandlerName nameOf c = None
  /\ NextOr [] c = (StopExecution (NotFound c), false)
  /\ IsStopped (fst (NextOr [] c)) = true
  /\ (handlers ctx <> [] ->
      currentHandlerIndex (Skip c) = 0%Z
      /\ IsStopped (Skip c) = false
      /\ NextHandler (Skip c) = handlers ctx !! 1)
  /\ (handlers ctx = [] -> Skip c = c).
Proof.
  cbv zeta.
  assert (Hstop : IsStopped (StopExecution ctx) = true) by reflexivity.
  split; [exact Hstop | ].
  split; [unfold Next; rewrite Hstop; reflexivity | ].
  assert (Hnext : NextHandler (StopExecution ctx) = None)
    by (unfold NextHandler; rewrite Hstop; reflexivity).
  split; [exact Hnext | ].
  split; [reflexivity | ].
  split; [unfold NextOr; rewrite Hnext; reflexivity | ].
  split; [unfold NextOr; rewrite Hnext; reflexivity | ].
  split.
  - intros Hne.
    assert (Hskip : Skip (StopExecution ctx) = set_index 0 (StopExecution ctx)).
    { unfold Skip. cbn [StopExecution set_index currentHandlerIndex].
      change (stopExecutionIndex + 1)%Z with 0%Z.
      rewrite CtxFacts.HandlerIndex_in_range; [reflexivity | ].
      cbn. unfold len. destruct (handlers ctx); [contradiction | cbn; lia]. }
    rewrite Hskip. split; [reflexivity | ]. split; [reflexivity | ].
    assert (Hns : IsStopped (set_index 0 (StopExecution ctx)) = false)
      by reflexivity.
    unfold NextHandler. rewrite Hns.
    cbn [set_index StopExecution currentHandlerIndex handlers].
    change (0 + 1)%Z with 1%Z.
    destruct (bool_decide_reflect (1 < len (handlers ctx))%Z) as [Hl | Hl].
    + rewrite CtxFacts.at_index_lookup by lia. reflexivity.
    + symmetry. apply lookup_ge_None. unfold len in Hl.
      change (Z.to_nat 1) with 1. lia.
  - intros Hnil. unfold Skip.
    cbn [StopExecution set_index currentHandlerIndex].
    rewrite CtxFacts.HandlerIndex_out_of_range; [reflexivity | ].
    cbn. rewrite Hnil. unfold len, stopExecutionIndex. cbn. lia.
Qed.

(** X14.  [Next], from a cursor that is not below -1.  On a stopped
    context, and when no handler follows the cursor, nothing is done.
    Otherwise the cursor moves by one, onto the handler that follows, and
    that handler is run: the two calls of [HandlerIndex] in [DefaultNext]
    do what they are there for, the first reads the cursor, the second is
    never refused. *)
Theorem Next_runs_the_handler_after_the_cursor (ctx : context) :
  (-1 <= currentHandlerIndex ctx)%Z ->
  let n := (currentHandlerIndex ctx + 1)%Z in
  (IsStopped ctx = true -> Next ctx = ctx)
  /\ ((len (handlers ctx) <= n)%Z -> Next ctx = ctx)
  /\ (IsStopped ctx = false -> (n < len (handlers ctx))%Z ->
      exists h,
        handlers ctx !! Z.to_nat n = Some h
        /\ Next ctx = handle h (set_index n ctx)).
Proof.
  intros Hc. cbv zeta. unfold Next.
  assert (Hread : snd (HandlerIndex (-1) ctx) = currentHandlerIndex ctx).
  { rewrite CtxFacts.HandlerIndex_out_of_range; [reflexivity | lia]. }
  rewrite Hread.
  split; [intros ->; reflexivity | ].
  split.
  - intros Hend. destruct (IsStopped ctx); [reflexivity | ].
    rewrite bool_decide_eq_false_2 by lia. reflexivity.
  - intros Hs Hlt. rewrite Hs, (bool_decide_eq_true_2 _ Hlt).
    assert (Hn : (0 <= currentHandlerIndex ctx + 1)%Z).
    { unfold IsStopped, stopExecutionIndex in Hs.
      apply bool_decide_eq_false_1 in Hs. lia. }
    destruct (at_index_in_range (handlers ctx) _ (conj Hn Hlt)) as [h Hh].
    rewrite Hh. exists h. split.
    + rewrite <- Hh. symmetry. apply CtxFacts.at_index_lookup. exact Hn.
    + rewrite CtxFacts.HandlerIndex_in_range by lia. reflexivity.
Qed.

(** X16.  [AddHandler] puts handlers at the end of the chain: the
    handlers already there keep their places, so a next handler that was
    there is still the next one; and when the cursor was on the last
    handler, the first handler added is the next one. *)
Theorem AddHandler_appends (h : Handler) (hs : Handlers) (ctx : context) :
  (-1 <= currentHandlerIndex ctx)%Z -> IsStopped ctx = false ->
  (forall next, NextHandler ctx = Some next ->
                NextHandler (AddHandler (h :: hs) ctx) = Some next)
  /\ (currentHandlerIndex ctx = (len (handlers ctx) - 1)%Z ->
      NextHandler ctx = None
      /\ NextHandler (AddHandler (h :: hs) ctx) = Some h)
  /\ currentHandlerIndex (AddHandler (h :: hs) ctx) = currentHandlerIndex ctx
  /\ handlers (AddHandler (h :: hs) ctx) = handlers ctx ++ h :: hs.
Proof.
  intros Hc Hs.
  assert (Hs' : IsStopped (AddHandler (h :: hs) ctx) = false) by exact Hs.
  assert (Hn : (0 <= currentHandlerIndex ctx + 1)%Z).
  { unfold IsStopped, stopExecutionIndex in Hs.
    apply bool_decide_eq_false_1 in Hs. lia. }
  assert (Hlen : len (handlers ctx ++ h :: hs)
                 = (len (handlers ctx) + 1 + len hs)%Z).
  { unfold len. rewrite length_app. cbn. lia. }
  split.
  - intros next Hnext. unfold NextHandler in *. rewrite Hs in Hnext.
    rewrite Hs'. cbn [AddHandler handlers currentHandlerIndex].
    destruct (bool_decide_reflect
                (currentHandlerIndex ctx + 1 < len (handlers ctx))%Z)
      as [Hlt | Hlt]; [ | discriminate].
    pose proof (len_nonneg hs).
    rewrite bool_decide_eq_true_2 by lia.
    rewrite CtxFacts.at_index_lookup in Hnext |- * by exact Hn.
    rewrite lookup_app_l; [exact Hnext | ]. unfold len in Hlt. lia.
  - split; [ | split; reflexivity].
    intros Hlast. unfold NextHandler. rewrite Hs, Hs'.
    cbn [AddHandler handlers currentHandlerIndex].
    rewrite bool_decide_eq_false_2 by lia.
    split; [reflexivity | ].
    pose proof (len_nonneg hs).
    rewrite bool_decide_eq_true_2 by lia.
    rewrite CtxFacts.at_index_lookup by exact Hn.
    replace (Z.to_nat (currentHandlerIndex ctx + 1))
      with (length (handlers ctx)) by (unfold len in Hlast; lia).
    apply list_lookup_middle. reflexivity.
Qed.

(** Handlers keep the cursor at -1 or above: they move it through the
    calls of the context. *)
Hypothesis handle_keeps : forall h c,
  (-1 <= currentHandlerIndex c)%Z -> (-1 <= currentHandlerIndex (handle h c))%Z.

Lemma HandlerIndex_keeps (n : Z) (ctx : context) :
  (-1 <= currentHandlerIndex ctx)%Z ->
  (-1 <= currentHandlerIndex (fst (HandlerIndex n ctx)))%Z.
Proof.
  intros Hc. unfold HandlerIndex.
  destruct (bool_decide_reflect
              (n < 0 \/ n > len (handlers ctx) - 1)%Z); cbn; lia.
Qed.

(** X15.  The cursor of a context is never below -1, the value that
    stands for stopped: a new request starts at 0, and every call that
    moves the cursor or runs handlers keeps it at -1 or above, given that
    the handlers do.  So [NextHandler] and [Next] never read the chain at
    a negative index. *)
Theorem cursor_never_below_stopped (ctx : context) :
  (-1 <= currentHandlerIndex ctx)%Z ->
  (forall h log, currentHandlerIndex (BeginRequest h log ctx) = 0%Z)
  /\ (forall n, (-1 <= currentHandlerIndex (fst (HandlerIndex n ctx)))%Z)
  /\ (-1 <= currentHandlerIndex (Skip ctx))%Z
  /\ (-1 <= currentHandlerIndex (StopExecution ctx))%Z
  /\ (forall hs, (-1 <= currentHandlerIndex (SetHandlers hs ctx))%Z)
  /\ (forall hs, (-1 <= currentHandlerIndex (AddHandler hs ctx))%Z)
  /\ (forall hs, (-1 <= currentHandlerIndex (Do hs ctx))%Z)
  /\ (-1 <= currentHandlerIndex (Next ctx))%Z
  /\ (forall hs, (-1 <= currentHandlerIndex (fst (NextOr hs ctx)))%Z)
  /\ (forall h, (-1 <= currentHandlerIndex (fst (Proceed h ctx)))%Z)
  /\ (forall code, (-1 <= currentHandlerIndex (StatusCode code ctx))%Z)
  /\ (0 <= currentHandlerIndex ctx + 1)%Z.
Proof.
  intros Hc.
  split; [reflexivity | ].
  split; [intros n; apply HandlerIndex_keeps; exact Hc | ].
  split; [unfold Skip; apply HandlerIndex_keeps; exact Hc | ].
  split; [cbn; unfold stopExecutionIndex; lia | ].
  split; [intros hs; exact Hc | ].
  split; [intros hs; exact Hc | ].
  assert (HDo : forall hs c, (-1 <= currentHandlerIndex c)%Z ->
                             (-1 <= currentHandlerIndex (Do hs c))%Z).
  { intros [ | h0 hs] c Hcc; cbn [Do]; [exact Hcc | ].
    apply handle_keeps. exact Hcc. }
  split; [intros hs; apply HDo; exact Hc | ].
  split.
  { unfold Next. destruct (IsStopped ctx); [exact Hc | ].
    destruct (bool_decide _); [ | exact Hc].
    destruct (at_index _ _); [ | exact Hc].
    apply handle_keeps, HandlerIndex_keeps. exact Hc. }
  split.
  { intros hs. unfold NextOr. destruct (NextHandler ctx) as [next | ].
    - cbn [fst]. unfold Skip. apply HandlerIndex_keeps, handle_keeps. exact Hc.
    - destruct (bool_decide (length hs = 0)); cbn [fst].
      + cbn. unfold stopExecutionIndex. lia.
      + apply HDo. exact Hc. }
  split; [intros h; cbn [Proceed fst]; apply handle_keeps; exact Hc | ].
  split; [intros code; exact Hc | lia].
Qed.

End Chain.

Lemma Next_runs_witness :
  (-1 <= currentHandlerIndex Examples.ctx0)%Z
  /\ exists h,
       handlers Examples.ctx0 !! 1 = Some h
       /\ @Next Examples.app0 Examples.ctx0
          = @handle Examples.app0 h (set_index 1 Examples.ctx0).
Proof.
  assert (Hc : (-1 <= currentHandlerIndex Examples.ctx0)%Z)
    by (vm_compute; discriminate).
  split; [exact Hc | ].
  exact (proj2 (proj2 (@Next_runs_the_handler_after_the_cursor
                         Examples.app0 Examples.ctx0 Hc))
           eq_refl ltac:(vm_compute; reflexivity)).
Defined.

Lemma cursor_never_below_stopped_witness :
  (-1 <= currentHandlerIndex (@Next Examples.app0 Examples.ctx0))%Z.
Proof.
  assert (Hk : forall h c,
            (-1 <= currentHandlerIndex c)%Z ->
            (-1 <= currentHandlerIndex (@handle Examples.app0 h c))%Z).
  { intros [ | [ | h]] c Hc; cbn; unfold stopExecutionIndex; lia. }
  assert (Hc : (-1 <= currentHandlerIndex Examples.ctx0)%Z)
    by (vm_compute; discriminate).
  exact (proj1 (proj2 (proj2 (proj2 (proj2 (proj2 (proj2 (proj2
           (@cursor_never_below_stopped Examples.app0 Hk
              Examples.ctx0 Hc))))))))).
Defined.

Lemma AddHandler_appends_witness :
  @NextHandler (AddHandler [7] (set_index 2 Examples.ctx0)) = Some 7.
Proof.
  exact (proj2 (proj1 (proj2
           (AddHandler_appends 7 [] (set_index 2 Examples.ctx0)
              ltac:(vm_compute; discriminate) eq_refl))
           eq_refl)).
Defined.

End ChainFacts.

(** * What reaches the native writer *)

Module WireFacts.
Import Writers.

Section Base.
Context `{NativeIO}.

Lemma sent_app (w : responseWriter) (c : call) :
  omap (fun c => match c with
                 | NativeWriteHeader code _ => Some code
                 | _ => None
                 end) (wire w ++ [c])
  = sent w ++ match c with
              | NativeWriteHeader code _ => [code]
              | _ => []
              end.
Proof. unfold sent. rewrite omap_app. destruct c; reflexivity. Qed.

(** X17.  [SetWritten] takes -1 and 0 only, and leaves the writer alone
    for every other value.  With -1 it puts the writer back into the state
    where nothing has been written: the next write sends the status line
    again.  So the status line is sent once for each request only as long
    as no handler calls [SetWritten(NoWritten)] after a write. *)
Theorem SetWritten_rearms_status (w : responseWriter) (a b : string) :
  (forall n, ~ (-1 <= n <= 0)%Z -> responseWriter_.SetWritten n w = w)
  /\ (forall n, (-1 <= n <= 0)%Z ->
                written (responseWriter_.SetWritten n w) = n)
  /\ (written w = NoWritten ->
      let w1 := fst (responseWriter_.Write a w) in
      let w2 := responseWriter_.SetWritten NoWritten w1 in
      let w3 := fst (responseWriter_.Write b w2) in
      sent w1 = sent w ++ [statusCode w]
      /\ written w2 = NoWritten
      /\ sent w3 = sent w ++ [statusCode w; statusCode w]).
Proof.
  split.
  { intros n Hn. unfold responseWriter_.SetWritten, NoWritten, StatusCodeWritten.
    rewrite bool_decide_eq_false_2 by lia. reflexivity. }
  split.
  { intros n Hn. unfold responseWriter_.SetWritten, NoWritten, StatusCodeWritten.
    rewrite bool_decide_eq_true_2 by lia. reflexivity. }
  intros Hw. cbv zeta.
  destruct (WriterFacts.sent_tryWriteHeader_first w Hw) as [Hs _].
  assert (H1 : sent (fst (responseWriter_.Write a w)) = sent w ++ [statusCode w]).
  { unfold responseWriter_.Write. cbn [fst]. unfold sent at 1. cbn [wire].
    rewrite sent_app, Hs, app_nil_r. reflexivity. }
  split; [exact H1 | ].
  set (w1 := fst (responseWriter_.Write a w)) in *.
  assert (H2 : responseWriter_.SetWritten NoWritten w1
               = {| header := header w1; statusCode := statusCode w1;
                    written := NoWritten; beforeFlush := beforeFlush w1;
                    wire := wire w1 |}).
  { unfold responseWriter_.SetWritten, NoWritten, StatusCodeWritten.
    rewrite bool_decide_eq_true_2 by lia. reflexivity. }
  rewrite H2. split; [reflexivity | ].
  set (w2 := {| header := header w1; statusCode := statusCode w1;
                written := NoWritten; beforeFlush := beforeFlush w1;
                wire := wire w1 |}).
  destruct (WriterFacts.sent_tryWriteHeader_first w2 eq_refl) as [Hs2 _].
  unfold responseWriter_.Write. cbn [fst]. unfold sent at 1. cbn [wire].
  rewrite sent_app, Hs2, app_nil_r.
  change (sent w2) with (sent w1). rewrite H1.
  assert (Hcode : statusCode w2 = statusCode w).
  { unfold w2, w1, responseWriter_.Write, responseWriter_.tryWriteHeader.
    cbn. destruct (bool_decide (written w = NoWritten)); reflexivity. }
  rewrite Hcode, <- app_assoc. reflexivity.
Qed.

End Base.

Section Served.
Context `{NativeIO}.

Hypothesis nativeWrite_nonneg : forall log b, (0 <= nativeWrite log b)%Z.

Hypothesis callback_quiet : forall cb w,
  written (runCallback cb w) = written w
  /\ sent (runCallback cb w) = sent w.

(** X18.  After [Hijack] the writer sends no status line: the written
    counter is 0, and no write and no flush that follows calls the native
    [WriteHeader]; the connection is the caller's. *)
Theorem Hijack_silences_status (w : responseWriter) (ops : list op) :
  written (responseWriter_.Hijack w) = StatusCodeWritten
  /\ sent (serve (responseWriter_.Hijack w) ops) = sent w
  /\ length (sent (serve (responseWriter_.Hijack w) ops)) = length (sent w).
Proof.
  split; [reflexivity | ].
  destruct (WriterFacts.serve_later nativeWrite_nonneg callback_quiet ops
              (responseWriter_.Hijack w)) as [Hs _].
  { cbn. unfold StatusCodeWritten. lia. }
  change (sent (responseWriter_.Hijack w)) with (sent w) in Hs.
  split; [exact Hs | rewrite Hs; reflexivity].
Qed.

End Served.

Section Counted.
Context `{NativeIO}.

(** The native writer takes every byte it is given. *)
Hypothesis nativeWrite_all : forall log b,
  nativeWrite log b = Z.of_nat (String.length b).

Hypothesis callback_keeps_count : forall cb w,
  written (runCallback cb w) = written w.

(** The bytes a call hands to the native writer. *)
Definition size (o : op) : Z :=
  match o with
  | OpWrite b | OpWritef b | OpWriteString b => Z.of_nat (String.length b)
  | _ => 0%Z
  end.

Definition total (ops : list op) : Z := foldr (fun o n => (size o + n)%Z) 0%Z ops.

Lemma size_nonneg (o : op) : (0 <= size o)%Z.
Proof. destruct o; cbn; lia. Qed.

Lemma tryWriteHeader_written (w : responseWriter) :
  written (responseWriter_.tryWriteHeader w)
  = if bool_decide (written w = NoWritten) then StatusCodeWritten else written w.
Proof.
  unfold responseWriter_.tryWriteHeader.
  destruct (bool_decide (written w = NoWritten)); reflexivity.
Qed.

Lemma step_count (w : responseWriter) (o : op) :
  written (step w o)
  = if transmits o
    then ((if bool_decide (written w = NoWritten) then 0 else written w)
          + size o)%Z
    else written w.
Proof.
  destruct o as [code | b | b | b | | cb]; cbn [step transmits size].
  - reflexivity.
  - unfold responseWriter_.Write. cbn [fst written].
    rewrite nativeWrite_all, tryWriteHeader_written. reflexivity.
  - unfold responseWriter_.Writef, responseWriter_.Write. cbn [fst written].
    rewrite nativeWrite_all, tryWriteHeader_written. reflexivity.
  - unfold responseWriter_.WriteString. cbn [fst written].
    rewrite nativeWrite_all, tryWriteHeader_written. reflexivity.
  - unfold responseWriter_.FlushResponse.
    rewrite tryWriteHeader_written.
    destruct (beforeFlush w) as [cb | ]; rewrite ?callback_keeps_count;
      unfold StatusCodeWritten; destruct (bool_decide _); lia.
  - reflexivity.
Qed.

Lemma serve_count_later (ops : list op) (w : responseWriter) :
  (0 <= written w)%Z -> written (serve w ops) = (written w + total ops)%Z.
Proof.
  revert w. induction ops as [ | o ops IH]; intros w Hw; cbn [total foldr].
  - cbn. lia.
  - rewrite WriterFacts.serve_cons.
    assert (Hstep : written (step w o) = (written w + size o)%Z).
    { rewrite step_count.
      rewrite (bool_decide_eq_false_2 (written w = NoWritten))
        by (unfold NoWritten; lia).
      destruct o; cbn; lia. }
    pose proof (size_nonneg o). rewrite IH by lia. fold (total ops). lia.
Qed.

(** X19.  The written counter counts the body.  Served by a native
    writer that takes every byte, and with before-flush callbacks that
    leave the counter as it is, a base writer that starts a response
    holds [NoWritten] until the first write or flush, and from then on the
    number of bytes of all the bodies written, whatever the calls are and
    however they are mixed with flushes and status codes. *)
Theorem Written_counts_the_body (h : Header) (log : list call) (ops : list op) :
  responseWriter_.Written (serve (responseWriter_.BeginResponse h log) ops)
  = if existsb transmits ops then total ops else NoWritten.
Proof.
  unfold responseWriter_.Written.
  assert (Hgen : forall w, written w = NoWritten ->
                           written (serve w ops)
                           = if existsb transmits ops then total ops
                             else NoWritten).
  { induction ops as [ | o ops IH]; intros w Hw; [exact Hw | ].
    rewrite WriterFacts.serve_cons. cbn [existsb total foldr].
    fold (total ops). pose proof (step_count w o) as Hstep.
    rewrite (bool_decide_eq_true_2 _ Hw) in Hstep.
    destruct (transmits o) eqn:Ht; cbn [orb].
    - pose proof (size_nonneg o).
      rewrite serve_count_later by lia. lia.
    - rewrite (IH (step w o)) by congruence.
      assert (Hz : size o = 0%Z) by (destruct o; try discriminate; reflexivity).
      rewrite Hz. destruct (existsb transmits ops); [lia | reflexivity]. }
  apply Hgen. reflexivity.
Qed.

End Counted.

Lemma Hijack_silences_status_witness :
  @sent (@serve Examples.io0 (responseWriter_.Hijack Examples.w0)
           [OpWrite "body"; OpFlushResponse]) = [].
Proof.
  assert (Hn : forall log b, (0 <= @nativeWrite Examples.io0 log b)%Z)
    by (intros log b; cbn; lia).
  assert (Hq : forall cb w,
            written (@runCallback Examples.io0 cb w) = written w
            /\ sent (@runCallback Examples.io0 cb w) = sent w)
    by (intros cb w; split; reflexivity).
  exact (proj1 (proj2 (@Hijack_silences_status Examples.io0 Hn Hq Examples.w0
                         [OpWrite "body"; OpFlushResponse]))).
Defined.

Lemma Written_counts_the_body_witness :
  responseWriter_.Written
    (@serve Examples.io0 (responseWriter_.BeginResponse ∅ [])
       [OpWriteHeader 201; OpWrite "hello"; OpFlushResponse;
        OpWriteString ", world"])
  = 12%Z.
Proof.
  exact (@Written_counts_the_body Examples.io0
           (fun log b => eq_refl) (fun cb w => eq_refl) ∅ []
           [OpWriteHeader 201; OpWrite "hello"; OpFlushResponse;
            OpWriteString ", world"]).
Defined.

(** ** The gzip writer *)

(** The calls that fill and empty the buffer of a gzip writer. *)
Inductive gzop :=
| GzWrite (contents : string)
| GzWriteString (s : string)
| GzResetBody
| GzDisable.

Definition gzstep (g : GzipResponseWriter) (o : gzop) : GzipResponseWriter :=
  match o with
  | GzWrite contents => fst (GzipResponseWriter_.Write contents g)
  | GzWriteString s => fst (GzipResponseWriter_.WriteString s g)
  | GzResetBody => GzipResponseWriter_.ResetBody g
  | GzDisable => GzipResponseWriter_.Disable g
  end.

(** The buffer after a call. *)
Definition buffered (body : string) (o : gzop) : string :=
  match o with
  | GzWrite c | GzWriteString c => body +:+ c
  | GzResetBody => ""
  | GzDisable => body
  end.

Definition disables (o : gzop) : bool :=
  match o with GzDisable => true | _ => false end.

Lemma base_set_header (f : Header -> Header) (u : underline) :
  wire (underline_.base (underline_.set_header f u))
    = wire (underline_.base u)
  /\ written (underline_.base (underline_.set_header f u))
     = written (underline_.base u)
  /\ statusCode (underline_.base (underline_.set_header f u))
     = statusCode (underline_.base u).
Proof. destruct u; repeat split. Qed.

(** X20.  A gzip writer keeps what is written to it: [Write] and
    [WriteString] put the bytes at the end of its buffer, [ResetBody]
    empties the buffer, [Disable] switches the compression off, and none
    of them reaches the native writer; the status line is not sent and
    the written counter of the writer below does not move, until the
    response is flushed. *)
Theorem gzip_buffers_until_flush (ops : list gzop) (g : GzipResponseWriter) :
  let g' := foldl gzstep g ops in
  wire (underline_.base (gz_under g')) = wire (underline_.base (gz_under g))
  /\ written (underline_.base (gz_under g'))
     = written (underline_.base (gz_under g))
  /\ statusCode (underline_.base (gz_under g'))
     = statusCode (underline_.base (gz_under g))
  /\ chunks g' = foldl buffered (chunks g) ops
  /\ disabled g' = disabled g || existsb disables ops.
Proof.
  cbv zeta. revert g. induction ops as [ | o ops IH]; intros g.
  - cbn. rewrite orb_false_r. repeat split.
  - cbn [foldl existsb].
    destruct (IH (gzstep g o)) as (Hw & Hn & Hc & Hb & Hd).
    rewrite Hw, Hn, Hc, Hb, Hd.
    destruct o as [c | c | | ]; cbn [gzstep buffered disables].
    + cbn. repeat split.
    + unfold GzipResponseWriter_.WriteString, GzipResponseWriter_.Write.
      cbn [fst gz_under chunks disabled].
      destruct (bool_decide
                  (Header_absent ContentTypeHeaderKey
                     (underline_.Header_ (gz_under g)))).
      * destruct (base_set_header
                    (Header_Set ContentTypeHeaderKey ContentTextHeaderValue)
                    (gz_under g)) as (H1 & H2 & H3).
        rewrite H1, H2, H3. repeat split.
      * repeat split.
    + cbn. repeat split.
    + cbn. rewrite orb_true_r. repeat split.
Qed.

Section Plain.
Context `{NativeIO}.

Hypothesis nativeWrite_nonneg : forall log b, (0 <= nativeWrite log b)%Z.

(** X21.  A gzip writer that has been disabled is flushed in plain form:
    on a base writer that has sent nothing and has no callback, the
    status line goes out with the headers as they are (no
    [Content-Encoding] is added), and then the buffer, byte for byte
    (the native writer reports no negative count).
    After [ResetBody] and [Disable], which is what firing an error does to
    a gzip writer, nothing of what was written before goes out. *)
Theorem disabled_gzip_flushes_plain (g : GzipResponseWriter) (w : responseWriter) :
  gz_under g = UBase w -> written w = NoWritten -> beforeFlush w = None ->
  let flushed (g0 : GzipResponseWriter) :=
    underline_.base (gz_under (GzipResponseWriter_.FlushResponse g0)) in
  (disabled g = true ->
   wire (flushed g)
   = wire w ++ [NativeWriteHeader (statusCode w) (header w);
                NativeWrite (chunks g)]
   /\ header (flushed g) = header w)
  /\ wire (flushed (GzipResponseWriter_.Disable
                      (GzipResponseWriter_.ResetBody g)))
     = wire w ++ [NativeWriteHeader (statusCode w) (header w); NativeWrite ""].
Proof.
  intros Hu Hw Hcb. cbv zeta.
  assert (Hflush : forall body,
            let g0 := {| gz_under := UBase w; chunks := body;
                         disabled := true |} in
            wire (underline_.base
                    (gz_under (GzipResponseWriter_.FlushResponse g0)))
            = wire w ++ [NativeWriteHeader (statusCode w) (header w);
                         NativeWrite body]
            /\ header (underline_.base
                         (gz_under (GzipResponseWriter_.FlushResponse g0)))
               = header w).
  { intros body. cbv zeta.
    unfold GzipResponseWriter_.FlushResponse, GzipResponseWriter_.WriteNow.
    cbn [disabled gz_under chunks underline_.Write].
    unfold responseWriter_.Write, responseWriter_.tryWriteHeader.
    rewrite (bool_decide_eq_true_2 _ Hw).
    cbn [fst gz_under underline_.FlushResponse underline_.base].
    unfold responseWriter_.FlushResponse. cbn [beforeFlush]. rewrite Hcb.
    unfold responseWriter_.tryWriteHeader. cbn [written wire header].
    pose proof (nativeWrite_nonneg
                  (wire w ++ [NativeWriteHeader (statusCode w) (header w)])
                  body) as Hn.
    rewrite bool_decide_eq_false_2
      by (unfold StatusCodeWritten, NoWritten; lia).
    cbn [wire header]. rewrite <- ?app_assoc. split; reflexivity. }
  split.
  - intros Hd. destruct g as [u body d]. cbn in Hu, Hd. subst u d.
    exact (Hflush body).
  - destruct g as [u body d]. cbn in Hu. subst u.
    exact (proj1 (Hflush "")).
Qed.

End Plain.

Lemma disabled_gzip_flushes_plain_witness :
  wire (underline_.base
          (gz_under
             (@GzipResponseWriter_.FlushResponse Examples.io0
                (GzipResponseWriter_.Disable
                   (GzipResponseWriter_.ResetBody
                      {| gz_under := UBase Examples.w0;
                         chunks := "page"; disabled := false |})))))
  = [NativeWriteHeader 200 ∅; NativeWrite ""].
Proof.
  assert (Hn : forall log b, (0 <= @nativeWrite Examples.io0 log b)%Z)
    by (intros log b; cbn; lia).
  exact (proj2 (@disabled_gzip_flushes_plain Examples.io0 Hn
                  {| gz_under := UBase Examples.w0; chunks := "page";
                     disabled := false |}
                  Examples.w0 eq_refl eq_refl eq_refl)).
Defined.

End WireFacts.

(** * What a search returns, and what later routes leave in place *)

Module DispatchFacts.
Import Ctx Trie InsertFacts.

(** What a node says of the route that ends at it. *)
Definition route_of (nd : trieNode)
  : bool * string * string * Handlers * list string * string :=
  (end_ nd, key nd, RouteName nd, Trie.Handlers_ nd, paramKeys nd, staticKey nd).

Lemma left_behind_route (s : string) (fresh : nat) (node : trieNode) :
  route_of (left_behind s fresh node) = route_of node.
Proof.
  unfold left_behind, flagged.
  destruct (getChild node (label s)), (isParam s), (isWildcard s); reflexivity.
Qed.

Lemma label_star (s : string) : label s = WildcardParamStart -> isWildcard s = true.
Proof.
  unfold label. destruct (isWildcard s) eqn:Hw; [reflexivity | ].
  destruct (isParam s); [discriminate | ].
  intros ->. discriminate.
Qed.

(** The loop of [insert] leaves the routes of the nodes as they are, and
    makes no child under the wildcard key but the node it ends at. *)
Lemma insert_loop_frame (rest : list string) :
  forall tr st n keys node tr1 nf keys1,
    Struct tr st -> nodes tr !! n = Some node -> valid_segs rest = true ->
    insert_loop rest tr n keys = Ok (tr1, nf, keys1) ->
    (forall id nd,
       nodes tr !! id = Some nd ->
       exists nd', nodes tr1 !! id = Some nd' /\ route_of nd' = route_of nd)
    /\ (forall id nd' c,
          nodes tr1 !! id = Some nd' -> getChild nd' WildcardParamStart = Some c ->
          (exists nd, nodes tr !! id = Some nd
                      /\ getChild nd WildcardParamStart = Some c)
          \/ c = nf).
Proof.
  induction rest as [ | s rest IH];
    intros tr st n keys node tr1 nf keys1 HS Hn Hv Hloop.
  - cbn in Hloop. injection Hloop as <- <- <-. split.
    + intros id nd Hid. exists nd. split; [exact Hid | reflexivity].
    + intros id nd' c Hid Hc. left. exists nd'. split; assumption.
  - cbn [valid_segs] in Hv.
    apply andb_true_iff in Hv as [Hv Hrest].
    apply andb_true_iff in Hv as [Hs Hlast].
    assert (Hne : s <> "").
    { intros ->. discriminate. }
    destruct (insert_segment_spec s tr n keys node Hne Hn)
      as (tr3 & child & Heq & Hroot & Hslash & Hwild & Hleft & Hchild
          & Hother & Hnew & _).
    pose proof (segment_Struct s tr tr3 n child node st Hn HS Hroot Hwild
                  Hleft Hchild Hother Hnew) as HS3.
    destruct (S_edge _ _ HS3 n _ (label s) child Hleft Hchild)
      as (_ & (cn & Hcn & _) & _).
    cbn [insert_loop] in Hloop. rewrite Heq in Hloop. cbn [mbind res_bind] in Hloop.
    destruct (IH tr3 _ child (keys_after s keys) cn tr1 nf keys1 HS3 Hcn Hrest Hloop)
      as (Hkeep & Hstar).
    split.
    + intros id nd Hid.
      assert (H3 : exists nd3, nodes tr3 !! id = Some nd3
                               /\ route_of nd3 = route_of nd).
      { destruct (decide (id = n)) as [-> | Hidn].
        - assert (nd = node) as -> by congruence.
          eexists. split; [exact Hleft | apply left_behind_route].
        - exists nd. split; [ | reflexivity].
          rewrite Hother; [exact Hid | exact Hidn | ].
          eapply lookup_lt_Some. exact Hid. }
      destruct H3 as (nd3 & Hid3 & Hr3).
      destruct (Hkeep id nd3 Hid3) as (nd' & Hid' & Hr').
      exists nd'. split; [exact Hid' | congruence].
    + intros id nd' c Hid Hc.
      destruct (Hstar id nd' c Hid Hc) as [(nd3 & Hid3 & Hc3) | ->];
        [ | right; reflexivity].
      destruct (segment_edge s tr tr3 n child node Hn Hroot Hleft Hother Hnew
                  id nd3 _ c Hid3 Hc3)
        as [Hold | (-> & Hnone & Hlab & ->)]; [left; exact Hold | ].
      right. symmetry in Hlab. apply label_star in Hlab.
      rewrite Hlab in Hlast. rewrite Hnone in Hnew. destruct Hnew as (Hch & _).
      destruct rest as [ | s2 rest2]; [ | discriminate].
      cbn in Hloop. injection Hloop as _ <- _. symmetry. exact Hch.
Qed.

(** [insert] on a trie that satisfies the invariant, for a path it takes:
    the nodes that were there keep their routes, but for the node the path
    ends at; that node is reached from the root along the keys of the
    segments and ends a route; a child under the wildcard key is one that
    was there, or that node. *)
Lemma insert_frame (path routeName : string) (handlers : Handlers)
    (tr : trie) (st : labelling) (tr' : trie) :
  valid_path path = true ->
  Struct tr st -> WildOK tr st None -> SlashOK tr ->
  insert path routeName handlers tr = Ok tr' ->
  exists nf nd keys1,
    descend tr' (root tr') (map label (slowPathSplit path)) = Some nf
    /\ nodes tr' !! nf
       = Some (with_route routeName handlers keys1 path (staticPart path) nd)
    /\ (forall id nd0,
          nodes tr !! id = Some nd0 ->
          exists nd', nodes tr' !! id = Some nd'
                      /\ (id <> nf -> route_of nd' = route_of nd0)
                      /\ (end_ nd0 = true -> end_ nd' = true))
    /\ (forall id nd' c,
          nodes tr' !! id = Some nd' -> getChild nd' WildcardParamStart = Some c ->
          (exists nd0, nodes tr !! id = Some nd0
                       /\ getChild nd0 WildcardParamStart = Some c)
          \/ c = nf).
Proof.
  intros Hv HS HW HSl Hins.
  unfold valid_path in Hv.
  destruct path as [ | c p]; [discriminate | ]. cbn [Strings.first_byte] in Hv.
  apply andb_true_iff in Hv as [Hc Hsegs].
  apply Ascii.eqb_eq in Hc. subst c. change pathSepB with "/"%char in *.
  unfold insert in Hins. cbv zeta in Hins.
  set (tr0 := if String.eqb (String "/" p) pathSep then set_rootSlash tr else tr)
    in *.
  assert (HS0 : Struct tr0 st).
  { unfold tr0. destruct (String.eqb (String "/" p) pathSep);
      [apply set_rootSlash_Struct | ]; exact HS. }
  assert (HW0 : WildOK tr0 st None).
  { unfold tr0. destruct (String.eqb (String "/" p) pathSep); exact HW. }
  assert (Hnodes0 : nodes tr0 = nodes tr).
  { unfold tr0. destruct (String.eqb (String "/" p) pathSep); reflexivity. }
  destruct (S_root _ _ HS0) as (rn & Hrn & Hpar).
  assert (Hns : forall id nd,
            nodes tr0 !! id = Some nd ->
            getChild nd WildcardParamStart <> Some (root tr0)).
  { intros id nd Hid Hch.
    destruct (S_edge _ _ HS0 id nd _ _ Hid Hch) as (_ & (cn & Hcn & Hp) & _).
    congruence. }
  assert (Hb : static_bound (String "/" p) (st (root tr0))
                 (slowPathSplit (String "/" p))).
  { rewrite (S_root_st _ _ HS0).
    destruct (decide (p = "")) as [-> | Hp].
    - left. reflexivity.
    - right. cbn [fst snd]. exists "/". split; [ | reflexivity].
      exact (proj2 (slowPathSplit_slash p Hp)). }
  destruct (insert_loop_Struct (String "/" p) routeName handlers
              (slowPathSplit (String "/" p)) tr0 st (root tr0) [] rn
              HS0 HW0 Hrn Hns Hsegs Hb)
    as (tr1 & nf & keys1 & st1 & Hloop & _ & _ & Hrootf & _
        & _ & _ & Hdesc & (nd & Hnd1 & Hnd) & _).
  destruct (insert_loop_frame (slowPathSplit (String "/" p)) tr0 st (root tr0)
              [] rn tr1 nf keys1 HS0 Hrn Hsegs Hloop) as (Hkeep & Hstar).
  rewrite Hloop in Hins. cbn [mbind res_bind] in Hins. injection Hins as <-.
  change (set_node nf
            (with_route routeName handlers keys1 (String "/" p)
               (staticPart (String "/" p))) tr1)
    with (set_route routeName handlers keys1 (String "/" p)
            (staticPart (String "/" p)) tr1 nf) in *.
  set (trf := set_route routeName handlers keys1 (String "/" p)
                (staticPart (String "/" p)) tr1 nf) in *.
  exists nf, nd, keys1.
  split; [rewrite Hrootf; exact Hdesc | ]. split; [exact Hnd | ].
  split.
  - intros id nd0 Hid. rewrite <- Hnodes0 in Hid.
    destruct (Hkeep id nd0 Hid) as (nd1 & Hid1 & Hr1).
    exists (routed routeName handlers keys1 (String "/" p)
              (staticPart (String "/" p)) nf id nd1).
    split; [apply set_route_kept; exact Hid1 | ].
    unfold routed. destruct (decide (nf = id)) as [Heq | Hneq].
    + split; [intros Hc; congruence | intros _; reflexivity].
    + split; [intros _; exact Hr1 | ].
      unfold route_of in Hr1. intros He. congruence.
  - intros id nd' c Hid Hc.
    destruct (set_route_lookup _ _ _ _ _ _ _ id nd' Hid) as (nd1 & Hid1 & ->).
    destruct (routed_fields routeName handlers keys1 (String "/" p)
                (staticPart (String "/" p)) nf id nd1) as (_ & Hch & _).
    rewrite Hch in Hc.
    destruct (Hstar id nd1 c Hid1 Hc) as [(nd0 & Hid0 & Hc0) | ->];
      [left | right; reflexivity].
    exists nd0. rewrite <- Hnodes0. split; assumption.
Qed.

(** ** The children a search can return end a route *)

(** Every child under the wildcard key ends a route, and so does the child
    [/] of the root when the trie has the root-slash flag. *)
Definition EndsOK (tr : trie) : Prop :=
  (forall id nd w,
     nodes tr !! id = Some nd -> getChild nd WildcardParamStart = Some w ->
     end_ (node_at tr w) = true)
  /\ (hasRootSlash tr = true ->
      forall c, literalChild tr (root tr) pathSep = Some c ->
                end_ (node_at tr c) = true).

Lemma end_node_at (tr : trie) (n : nat) :
  end_ (node_at tr n) = true ->
  exists node, nodes tr !! n = Some node /\ end_ node = true.
Proof.
  unfold node_at. destruct (nodes tr !! n) as [node | ]; [ | discriminate].
  intros He. exists node. split; [reflexivity | exact He].
Qed.

Lemma insert_EndsOK (path routeName : string) (handlers : Handlers)
    (tr : trie) (st : labelling) (tr' : trie) :
  valid_path path = true ->
  Struct tr st -> WildOK tr st None -> SlashOK tr -> EndsOK tr ->
  insert path routeName handlers tr = Ok tr' -> EndsOK tr'.
Proof.
  intros Hv HS HW HSl [Hstar0 Hslash0] Hins.
  destruct (insert_result path routeName handlers tr st Hv HS HW HSl)
    as (tr2 & st' & nf' & nd' & keys' & Hins2 & HS' & _ & _ & Hroot
        & Hslash & Hgrow & _).
  assert (tr2 = tr') as -> by congruence.
  destruct (insert_frame path routeName handlers tr st tr' Hv HS HW HSl Hins)
    as (nf & nd & keys1 & Hdesc & Hnf & Hkeep & Hstar).
  assert (Hendf : end_ (node_at tr' nf) = true).
  { unfold node_at. rewrite Hnf. reflexivity. }
  assert (Hold : forall w, end_ (node_at tr w) = true ->
                           end_ (node_at tr' w) = true).
  { intros w Hw. destruct (end_node_at tr w Hw) as (wn & Hwn & He).
    destruct (Hkeep w wn Hwn) as (wn' & Hwn' & _ & He').
    unfold node_at. rewrite Hwn'. exact (He' He). }
  split.
  - intros id nd0 w Hid Hc.
    destruct (Hstar id nd0 w Hid Hc) as [(nd1 & Hid1 & Hc1) | ->];
      [ | exact Hendf].
    apply Hold. exact (Hstar0 id nd1 w Hid1 Hc1).
  - intros Hflag c Hc.
    destruct (String.eqb path pathSep) eqn:Hp.
    + apply String.eqb_eq in Hp. subst path.
      change (slowPathSplit pathSep) with ["/"] in Hdesc.
      cbn [map descend] in Hdesc. change (label "/") with pathSep in Hdesc.
      rewrite Hc in Hdesc. injection Hdesc as ->. exact Hendf.
    + rewrite Hslash in Hflag. cbn [orb] in Hflag.
      destruct (S_root _ _ HS) as (rn & Hrn & _).
      destruct (HSl rn Hflag Hrn) as [c0 Hc0].
      destruct (Hgrow (root tr) rn pathSep c0 Hrn Hc0) as (rn' & Hrn' & Hc0').
      assert (c = c0) as ->.
      { unfold literalChild, node_at in Hc. rewrite Hroot, Hrn' in Hc.
        cbn in Hc. congruence. }
      apply Hold. apply (Hslash0 Hflag).
      exact (literalChild_Some tr (root tr) rn pathSep c0 Hrn Hc0).
Qed.

Lemma built_EndsOK (tr : trie) : built tr -> EndsOK tr.
Proof.
  induction 1 as [m sd | path routeName handlers tr tr' Hb IH Hv Hins].
  - split.
    + intros [ | id] nd w Hid Hc; cbn in Hid; [ | destruct id; discriminate].
      injection Hid as <-. discriminate.
    + intros Hflag. discriminate.
  - destruct (built_Struct tr Hb) as (st & HS & HW & HSl).
    exact (insert_EndsOK path routeName handlers tr st tr' Hv HS HW HSl IH Hins).
Qed.

Section Ends.
Variables (tr : trie) (q : string) (params : RequestParams).
Hypothesis HE : EndsOK tr.

Lemma wildcardChild_ends (a w : nat) :
  wildcardChild tr a = Some w -> end_ (node_at tr w) = true.
Proof.
  unfold wildcardChild, node_at.
  destruct (nodes tr !! a) as [nd | ] eqn:Ha; cbn; [ | discriminate].
  destruct (childWildcardParameter nd); [ | discriminate].
  intros Hc. exact (proj1 HE a nd w Ha Hc).
Qed.

Lemma backOff_ends (anc : list nat) (m : nat) (ps : RequestParams) :
  backOff tr q params anc = (Some m, ps) -> end_ (node_at tr m) = true.
Proof.
  unfold backOff.
  destruct (nearestWildcard tr anc) as [w | ] eqn:Hw.
  - intros [= <- _]. clear ps. induction anc as [ | a anc IH]; [discriminate | ].
    cbn [nearestWildcard] in Hw.
    destruct (wildcardChild tr a) as [w' | ] eqn:Ha.
    + injection Hw as ->. exact (wildcardChild_ends a w Ha).
    + exact (IH Hw).
  - destruct (hasRootWildcard tr); [ | discriminate].
    destruct (wildcardChild tr (root tr)) as [w | ] eqn:Hr; [ | discriminate].
    intros [= <- _]. exact (wildcardChild_ends (root tr) w Hr).
Qed.

Lemma arrive_ends (n : nat) (anc : list nat) (values : list string)
    (m : nat) (ps : RequestParams) :
  arrive tr q params n anc values = (Some m, ps) -> end_ (node_at tr m) = true.
Proof.
  unfold arrive. destruct (end_ (node_at tr n)) eqn:He.
  - intros [= <- _]. exact He.
  - apply backOff_ends.
Qed.

Lemma walk_ends (segs : list string) :
  forall n anc values m ps,
    walk tr q params segs n anc values = (Some m, ps) ->
    end_ (node_at tr m) = true.
Proof.
  induction segs as [ | seg segs IH]; intros n anc values m ps.
  - cbn [walk]. apply arrive_ends.
  - cbn [walk]. destruct (literalChild tr n seg) as [c | ]; [apply IH | ].
    destruct (namedChild tr n) as [c | ]; [apply IH | ].
    destruct (wildcardChild tr n) as [w | ]; [apply arrive_ends | ].
    apply backOff_ends.
Qed.

End Ends.

(** X22.  On a trie the router has built, [search] returns without a panic
    for every request path, and the node it returns, if any, is one that
    [insert] has marked as the end of a route: be it the node the walk
    ends at, the wildcard child it backs off to, or the child of the root
    returned for the requests [/] and the empty one. *)
Theorem search_returns_routes (tr : trie) (q : string) (params : RequestParams) :
  built tr ->
  exists r,
    search tr q params = Ok r
    /\ forall n, fst r = Some n ->
                 exists node, nodes tr !! n = Some node /\ end_ node = true.
Proof.
  intros Hb. pose proof (built_EndsOK tr Hb) as HE.
  destruct (built_Struct tr Hb) as (st & HS & HW & HSl).
  pose proof (Struct_wf_trie tr st HS HW HSl) as Hwf.
  destruct (decide (q = "" \/ q = "/")) as [Hq | Hq].
  - destruct (S_root _ _ HS) as (rn & Hrn & _).
    assert (Hs : search tr q params
                 = if hasRootSlash tr then Ok (getChild rn pathSep, params)
                   else if hasRootWildcard tr
                        then Ok (getChild rn WildcardParamStart, params)
                        else Ok (None, params)).
    { unfold search, deref. destruct Hq as [-> | ->]; cbn; rewrite Hrn;
        reflexivity. }
    rewrite Hs. destruct (hasRootSlash tr) eqn:Hflag.
    + eexists. split; [reflexivity | ]. cbn [fst]. intros n Hn.
      apply end_node_at. apply (proj2 HE Hflag).
      exact (literalChild_Some tr (root tr) rn pathSep n Hrn Hn).
    + destruct (hasRootWildcard tr).
      * eexists. split; [reflexivity | ]. cbn [fst]. intros n Hn.
        apply end_node_at. exact (proj1 HE (root tr) rn n Hrn Hn).
      * eexists. split; [reflexivity | ]. cbn [fst]. intros n [=].
  - rewrite (search_scans tr q params Hwf) by tauto.
    eexists. split; [reflexivity | ]. intros n Hn.
    apply end_node_at. unfold search_walk in Hn.
    destruct (walk tr q params (segments q) (root tr) [] []) as [o ps] eqn:Hw.
    cbn [fst] in Hn. subst o.
    exact (walk_ends tr q params HE _ _ _ _ _ _ Hw).
Qed.

(** ** A static route stays where it is *)

Lemma literalChild_inv (tr : trie) (p : nat) (l : string) (c : nat) :
  literalChild tr p l = Some c ->
  exists nd, nodes tr !! p = Some nd /\ getChild nd l = Some c.
Proof.
  unfold literalChild, node_at.
  destruct (nodes tr !! p) as [nd | ]; cbn.
  - intros Hc. exists nd. split; [reflexivity | exact Hc].
  - unfold getChild. cbn. rewrite lookup_empty. discriminate.
Qed.

Lemma descend_snoc (tr : trie) (ls : list string) (l : string) :
  forall r,
    descend tr r (ls ++ [l])
    = match descend tr r ls with
      | Some p => literalChild tr p l
      | None => None
      end.
Proof.
  induction ls as [ | a ls IH]; intros r.
  - cbn. destruct (literalChild tr r l); reflexivity.
  - cbn [app descend]. destruct (literalChild tr r a) as [c | ]; [ | reflexivity].
    apply IH.
Qed.

Lemma descend_grows (tr tr' : trie) (ls : list string) :
  grows tr tr' ->
  forall r n, descend tr r ls = Some n -> descend tr' r ls = Some n.
Proof.
  intros Hg. induction ls as [ | l ls IH]; intros r n; [tauto | ].
  cbn [descend]. destruct (literalChild tr r l) as [c | ] eqn:Hc; [ | discriminate].
  destruct (literalChild_inv tr r l c Hc) as (nd & Hnd & Hch).
  destruct (Hg r nd l c Hnd Hch) as (nd' & Hnd' & Hch').
  rewrite (literalChild_Some tr' r nd' l c Hnd' Hch'). apply IH.
Qed.

(** No edge leads to the root. *)
Lemma no_edge_to_root (tr : trie) (st : labelling) (p : nat) (l : string) :
  Struct tr st -> literalChild tr p l <> Some (root tr).
Proof.
  intros HS Hc. destruct (literalChild_inv tr p l _ Hc) as (nd & Hnd & Hch).
  destruct (S_edge _ _ HS p nd l _ Hnd Hch) as (_ & (cn & Hcn & Hp) & _).
  destruct (S_root _ _ HS) as (rn & Hrn & Hpar). congruence.
Qed.

(** Two ways down from the root to one node go along the same keys. *)
Lemma descend_inj (tr : trie) (st : labelling) :
  Struct tr st ->
  forall l1 l2 n,
    descend tr (root tr) l1 = Some n -> descend tr (root tr) l2 = Some n ->
    l1 = l2.
Proof.
  intros HS.
  induction l1 as [ | a l1 IH] using rev_ind; intros l2 n H1 H2.
  - cbn in H1. injection H1 as <-.
    induction l2 as [ | b l2 _] using rev_ind; [reflexivity | ].
    rewrite descend_snoc in H2.
    destruct (descend tr (root tr) l2) as [p | ]; [ | discriminate].
    destruct (no_edge_to_root tr st p b HS H2).
  - rewrite descend_snoc in H1.
    destruct (descend tr (root tr) l1) as [p1 | ] eqn:Hp1; [ | discriminate].
    induction l2 as [ | b l2 _] using rev_ind.
    + cbn in H2. injection H2 as <-.
      destruct (no_edge_to_root tr st p1 a HS H1).
    + rewrite descend_snoc in H2.
      destruct (descend tr (root tr) l2) as [p2 | ] eqn:Hp2; [ | discriminate].
      destruct (literalChild_inv tr p1 a n H1) as (nd1 & Hnd1 & Hc1).
      destruct (literalChild_inv tr p2 b n H2) as (nd2 & Hnd2 & Hc2).
      destruct (S_edge _ _ HS p1 nd1 a n Hnd1 Hc1) as (_ & (cn1 & Hcn1 & Hpa1) & _).
      destruct (S_edge _ _ HS p2 nd2 b n Hnd2 Hc2) as (_ & (cn2 & Hcn2 & Hpa2) & _).
      assert (p1 = p2) as -> by congruence.
      assert (nd1 = nd2) as -> by congruence.
      rewrite (S_inj _ _ HS p2 nd2 a b n Hnd2 Hc1 Hc2).
      rewrite (IH l2 p2 eq_refl Hp2). reflexivity.
Qed.

(** Segments without parameters are the keys of no other segments. *)
Lemma static_labels_inj (segs2 : list string) :
  forall segs1,
    forallb (fun s => negb (isParam s) && negb (isWildcard s)) segs1 = true ->
    segs1 = map label segs2 -> segs2 = segs1.
Proof.
  induction segs2 as [ | s2 segs2 IH]; intros segs1 Hst Heq.
  - symmetry. exact Heq.
  - destruct segs1 as [ | s1 segs1]; [discriminate | ].
    cbn [map] in Heq. injection Heq as Hs Hrest.
    cbn [forallb] in Hst. apply andb_true_iff in Hst as [H1 Hst].
    apply andb_true_iff in H1 as [Hp%negb_true_iff Hw%negb_true_iff].
    rewrite (IH segs1 Hst Hrest). f_equal.
    unfold label in Hs. destruct (isWildcard s2).
    + subst s1. discriminate.
    + destruct (isParam s2); [subst s1; discriminate | congruence].
Qed.

Lemma slowPathSplit_inj (p1 p2 : string) :
  valid_path p1 = true -> valid_path p2 = true ->
  slowPathSplit p1 = slowPathSplit p2 -> p1 = p2.
Proof.
  assert (Hform : forall p, valid_path p = true ->
            p = "/" \/ p = "/" +:+ Strings.Join (slowPathSplit p) pathSep).
  { intros p Hv. unfold valid_path in Hv.
    destruct p as [ | c p']; [discriminate | ]. cbn [Strings.first_byte] in Hv.
    apply andb_true_iff in Hv as [Hc _]. apply Ascii.eqb_eq in Hc. subst c.
    change pathSepB with "/"%char.
    destruct (decide (p' = "")) as [-> | Hp]; [left; reflexivity | right].
    exact (proj2 (slowPathSplit_slash p' Hp)). }
  intros H1 H2 Heq.
  destruct (Hform p1 H1) as [-> | E1], (Hform p2 H2) as [-> | E2].
  - reflexivity.
  - rewrite <- Heq in E2. subst p2. discriminate Heq.
  - rewrite Heq in E1. subst p1. discriminate Heq.
  - rewrite E1, E2, Heq. reflexivity.
Qed.

(** The route [name], [hs] of the path [p] is at the node [n], which the
    keys of the segments of [p] lead to. *)
Definition holds (p name : string) (hs : Handlers) (tr : trie) (n : nat) : Prop :=
  descend tr (root tr) (slowPathSplit p) = Some n
  /\ (p = "/" -> hasRootSlash tr = true)
  /\ exists node,
       nodes tr !! n = Some node
       /\ route_of node
          = (true, p, name, hs, paramKeys node, staticKey node).

Lemma holds_insert (p name : string) (hs : Handlers) (tr : trie) (n : nat)
    (p2 name2 : string) (hs2 : Handlers) (tr' : trie) :
  built tr -> valid_path p = true -> static_path p = true ->
  holds p name hs tr n ->
  valid_path p2 = true -> p2 <> p ->
  insert p2 name2 hs2 tr = Ok tr' -> holds p name hs tr' n.
Proof.
  intros Hb Hv Hst (Hd & Hflag & node & Hn & Hr) Hv2 Hne Hins.
  destruct (built_Struct tr Hb) as (st & HS & HW & HSl).
  destruct (insert_result p2 name2 hs2 tr st Hv2 HS HW HSl)
    as (tr2 & st' & nf' & nd' & keys' & Hins2 & HS' & _ & _ & Hroot
        & Hslash & Hgrow & _).
  assert (tr2 = tr') as -> by congruence.
  destruct (insert_frame p2 name2 hs2 tr st tr' Hv2 HS HW HSl Hins)
    as (nf & nd & keys1 & Hdesc & Hnf & Hkeep & _).
  assert (Hd' : descend tr' (root tr') (slowPathSplit p) = Some n).
  { rewrite Hroot. exact (descend_grows tr tr' _ Hgrow _ _ Hd). }
  assert (Hnnf : n <> nf).
  { intros ->. apply Hne.
    pose proof (descend_inj tr' st' HS' _ _ _ Hd' Hdesc) as Hl.
    apply (slowPathSplit_inj p2 p Hv2 Hv).
    exact (static_labels_inj _ _ Hst Hl). }
  split; [exact Hd' | ]. split.
  { intros Hp. rewrite Hslash, (Hflag Hp). apply orb_true_r. }
  destruct (Hkeep n node Hn) as (node' & Hn' & Hr' & _).
  exists node'. split; [exact Hn' | ].
  specialize (Hr' Hnnf). unfold route_of in *. congruence.
Qed.

(** The tries that later registrations make of a trie: each one inserts a
    path that [insert] takes, other than [p]. *)
Inductive later (p : string) (tr : trie) : trie -> Prop :=
| later_none : later p tr tr
| later_insert (p2 name2 : string) (hs2 : Handlers) (tr1 tr2 : trie) :
    later p tr tr1 -> valid_path p2 = true -> p2 <> p ->
    insert p2 name2 hs2 tr1 = Ok tr2 -> later p tr tr2.

Lemma search_static (tr : trie) (p name : string) (hs : Handlers) (n : nat)
    (params : RequestParams) :
  built tr -> valid_path p = true -> static_path p = true ->
  holds p name hs tr n -> search tr p params = Ok (Some n, params).
Proof.
  intros Hb Hv Hst (Hd & Hflag & node & Hn & Hr).
  destruct (built_Struct tr Hb) as (st & HS & HW & HSl).
  assert (Hend : end_ (node_at tr n) = true).
  { unfold node_at. rewrite Hn. cbn. unfold route_of in Hr. congruence. }
  unfold valid_path in Hv.
  destruct p as [ | c p]; [discriminate | ]. cbn [Strings.first_byte] in Hv.
  apply andb_true_iff in Hv as [Hc _]. apply Ascii.eqb_eq in Hc. subst c.
  change pathSepB with "/"%char in *.
  destruct (decide (p = "")) as [-> | Hp].
  - destruct (S_root _ _ HS) as (rn & Hrn & _).
    unfold search, deref. cbn. rewrite Hrn. cbn.
    rewrite (Hflag eq_refl).
    change (slowPathSplit "/") with ["/"] in Hd. cbn [descend] in Hd.
    unfold literalChild, node_at in Hd. rewrite Hrn in Hd. cbn in Hd.
    destruct (getChild rn "/") as [c | ] eqn:Hc; [ | discriminate].
    injection Hd as ->. unfold pathSep. rewrite Hc. reflexivity.
  - rewrite (search_scans tr (String "/" p) params
               (Struct_wf_trie tr st HS HW HSl)); [ | discriminate | ].
    + unfold search_walk, segments. cbn [Strings.drop].
      rewrite ?StringFacts.drop_0.
      rewrite (proj1 (slowPathSplit_slash p Hp)) in Hd.
      rewrite (walk_static tr (String "/" p) params n Hend _ _ [] Hd).
      reflexivity.
    + intros Heq. injection Heq as Heq. contradiction.
Qed.

(** X23.  A static route stays registered: after [insert] of a path
    without parameters into a built trie, any number of later [insert]s of
    other paths (that start with [/], have no empty segment and have a
    wildcard only as their last segment) leave [search] for that path
    returning the node with the name, the handlers and the key of the
    route, and leaving the parameter store as it was. *)
Theorem static_route_survives (tr tr1 tr2 : trie) (p name : string)
    (hs : Handlers) (params : RequestParams) :
  built tr -> valid_path p = true -> static_path p = true ->
  insert p name hs tr = Ok tr1 -> later p tr1 tr2 ->
  exists n node,
    search tr2 p params = Ok (Some n, params)
    /\ nodes tr2 !! n = Some node
    /\ RouteName node = name /\ Trie.Handlers_ node = hs
    /\ key node = p /\ end_ node = true.
Proof.
  intros Hb Hv Hst Hins Hlater.
  assert (Hb1 : built tr1) by exact (built_insert p name hs tr tr1 Hb Hv Hins).
  destruct (built_Struct tr Hb) as (st & HS & HW & HSl).
  destruct (insert_result p name hs tr st Hv HS HW HSl)
    as (tr' & st' & nf & nd & keys1 & Hins' & _ & _ & _ & _
        & Hslash & _ & Hdesc & Hnf & _).
  assert (tr' = tr1) as -> by congruence.
  assert (H1 : holds p name hs tr1 nf).
  { split; [ | split].
    - unfold static_path in Hst. rewrite (static_labels _ Hst) in Hdesc.
      exact Hdesc.
    - intros ->. rewrite Hslash. reflexivity.
    - eexists. split; [exact Hnf | reflexivity]. }
  assert (H2 : holds p name hs tr2 nf /\ built tr2).
  { clear Hins Hins' Hnf Hdesc Hslash.
    induction Hlater as [ | p2 name2 hs2 tr3 tr4 Hl IH Hv2 Hne Hins2];
      [split; assumption | ].
    destruct IH as [H3 Hb3].
    split.
    - exact (holds_insert p name hs tr3 nf p2 name2 hs2 tr4 Hb3 Hv Hst H3
               Hv2 Hne Hins2).
    - exact (built_insert p2 name2 hs2 tr3 tr4 Hb3 Hv2 Hins2). }
  destruct H2 as [H2 Hb2].
  exists nf. destruct H2 as (Hd & Hflag & node & Hn & Hr).
  exists node.
  split.
  { apply (search_static tr2 p name hs nf params Hb2 Hv Hst).
    split; [exact Hd | ]. split; [exact Hflag | ].
    exists node. split; [exact Hn | exact Hr]. }
  split; [exact Hn | ]. unfold route_of in Hr.
  repeat split; congruence.
Qed.

(** ** A route with parameters is found again *)

(** The parameters a request binds against the segments of a route, in the
    order of the path: a named parameter takes the segment at its place, a
    wildcard what is left of the request. *)
Fixpoint bound (segs vals : list string) (params : RequestParams)
  : RequestParams :=
  match segs, vals with
  | s :: segs', v :: vals' =>
      if isWildcard s
      then params_Set (Strings.drop 1 s) (Strings.Join (v :: vals') "/") params
      else bound segs' vals'
             (if isParam s then params_Set (Strings.drop 1 s) v params
              else params)
  | _, _ => params
  end.

(** The segments [vals] of a request fit the segments [segs] of a route,
    from the node [n] down: a static segment is met by itself, a named
    parameter by a value that is the key of no child of the node, and a
    wildcard by segments the first of which is the key of no child of the
    node, when the node has no named child. *)
Fixpoint instance_of (tr : trie) (n : nat) (segs vals : list string) : bool :=
  match segs, vals with
  | [], [] => true
  | s :: segs', v :: vals' =>
      if isWildcard s
      then bool_decide (literalChild tr n v = None)
           && bool_decide (namedChild tr n = None)
      else
        (if isParam s then bool_decide (literalChild tr n v = None)
         else String.eqb v s)
        && match literalChild tr n (label s) with
           | Some c => instance_of tr c segs' vals'
           | None => false
           end
  | _, _ => false
  end.

Definition pkeys (segs : list string) : list string :=
  flat_map (fun s => if isParam s || isWildcard s then [Strings.drop 1 s]
                     else []) segs.

Fixpoint pvals (segs vals : list string) : list string :=
  match segs, vals with
  | s :: segs', v :: vals' =>
      if isWildcard s then [Strings.Join (v :: vals') "/"]
      else (if isParam s then [v] else []) ++ pvals segs' vals'
  | _, _ => []
  end.

Lemma bindInOrder_snoc (ks vs : list string) (k v : string) :
  forall params,
    length ks = length vs ->
    bindInOrder (ks ++ [k]) (vs ++ [v]) params
    = params_Set k v (bindInOrder ks vs params).
Proof.
  revert vs. induction ks as [ | k0 ks IH]; intros [ | v0 vs] params Hlen;
    try discriminate; [reflexivity | ].
  cbn [app bindInOrder]. apply IH. cbn in Hlen. lia.
Qed.

Lemma bind_bound (tr : trie) (segs : list string) :
  forall vals n ks vs params,
    length ks = length vs ->
    valid_segs segs = true -> instance_of tr n segs vals = true ->
    bindInOrder (ks ++ pkeys segs) (vs ++ pvals segs vals) params
    = bound segs vals (bindInOrder ks vs params).
Proof.
  induction segs as [ | s segs IH]; intros [ | v vals] n ks vs params Hlen Hv Hi;
    try discriminate.
  - cbn. rewrite !app_nil_r. reflexivity.
  - cbn [valid_segs] in Hv.
    apply andb_true_iff in Hv as [Hv Hrest].
    apply andb_true_iff in Hv as [_ Hlast].
    cbn [instance_of] in Hi. cbn [bound pvals]. unfold pkeys in *.
    cbn [flat_map]. destruct (isWildcard s) eqn:Hw.
    + destruct segs as [ | s2 segs2]; [ | discriminate].
      rewrite orb_true_r. cbn [flat_map]. rewrite app_nil_r.
      exact (bindInOrder_snoc ks vs _ _ params Hlen).
    + rewrite orb_false_r.
      apply andb_true_iff in Hi as [_ Hi].
      destruct (literalChild tr n (label s)) as [c | ]; [ | discriminate].
      destruct (isParam s).
      * rewrite <- (bindInOrder_snoc ks vs _ _ params Hlen).
        rewrite <- (IH vals c (ks ++ [Strings.drop 1 s]) (vs ++ [v]) params);
          [ | rewrite !length_app; cbn; lia | exact Hrest | exact Hi].
        rewrite <- !app_assoc. reflexivity.
      * exact (IH vals c ks vs params Hlen Hrest Hi).
Qed.

(** One trie keeps the children and the parameter flags of another. *)
Definition keeps (tr tr' : trie) : Prop :=
  forall id nd,
    nodes tr !! id = Some nd ->
    exists nd',
      nodes tr' !! id = Some nd'
      /\ (forall l c, getChild nd l = Some c -> getChild nd' l = Some c)
      /\ (childNamedParameter nd = true -> childNamedParameter nd' = true)
      /\ (childWildcardParameter nd = true ->
          childWildcardParameter nd' = true).

Lemma keeps_refl (tr : trie) : keeps tr tr.
Proof. intros id nd Hid. exists nd. tauto. Qed.

Lemma keeps_trans (tr1 tr2 tr3 : trie) :
  keeps tr1 tr2 -> keeps tr2 tr3 -> keeps tr1 tr3.
Proof.
  intros H12 H23 id nd Hid.
  destruct (H12 id nd Hid) as (nd2 & Hid2 & Hc2 & Hf2 & Hg2).
  destruct (H23 id nd2 Hid2) as (nd3 & Hid3 & Hc3 & Hf3 & Hg3).
  exists nd3. split; [exact Hid3 | ]. split; [ | tauto].
  intros l c Hc. exact (Hc3 l c (Hc2 l c Hc)).
Qed.

(** The way of a route through a trie: the keys of its segments lead from
    [n] to [nf], and each node left by a parameter is flagged for it. *)
Fixpoint route_path (tr : trie) (n : nat) (segs : list string) (nf : nat)
  : Prop :=
  match segs with
  | [] => n = nf
  | s :: segs' =>
      (isParam s = true -> childNamedParameter (node_at tr n) = true)
      /\ (isWildcard s = true -> childWildcardParameter (node_at tr n) = true)
      /\ exists c, literalChild tr n (label s) = Some c
                   /\ route_path tr c segs' nf
  end.

Lemma insert_loop_route (rest : list string) :
  forall tr st n keys node tr1 nf keys1,
    Struct tr st -> nodes tr !! n = Some node ->
    valid_segs rest = true ->
    insert_loop rest tr n keys = Ok (tr1, nf, keys1) ->
    keeps tr tr1 /\ keys1 = keys ++ pkeys rest
    /\ is_Some (nodes tr1 !! nf) /\ root tr1 = root tr
    /\ forall trf, keeps tr1 trf -> route_path trf n rest nf.
Proof.
  induction rest as [ | s rest IH];
    intros tr st n keys node tr1 nf keys1 HS Hn Hv Hloop.
  - cbn in Hloop. injection Hloop as <- <- <-.
    split; [apply keeps_refl | ]. split; [symmetry; apply app_nil_r | ].
    split; [eexists; exact Hn | ]. split; [reflexivity | ].
    intros trf _. reflexivity.
  - cbn [valid_segs] in Hv.
    apply andb_true_iff in Hv as [Hv Hrest].
    apply andb_true_iff in Hv as [Hs _].
    assert (Hne : s <> "").
    { intros ->. discriminate. }
    destruct (insert_segment_spec s tr n keys node Hne Hn)
      as (tr3 & child & Heq & Hroot & Hslash & Hwild & Hleft & Hchild
          & Hother & Hnew & _).
    pose proof (segment_Struct s tr tr3 n child node st Hn HS Hroot Hwild
                  Hleft Hchild Hother Hnew) as HS3.
    destruct (S_edge _ _ HS3 n _ (label s) child Hleft Hchild)
      as (_ & (cn & Hcn & _) & _).
    cbn [insert_loop] in Hloop. rewrite Heq in Hloop.
    cbn [mbind res_bind] in Hloop.
    destruct (IH tr3 _ child (keys_after s keys) cn tr1 nf keys1 HS3 Hcn Hrest
                Hloop) as (Hk31 & Hkeys & Hex & Hroot1 & Hpath).
    destruct (left_behind_fields s (length (nodes tr)) node)
      as (_ & _ & _ & Hf & Hg).
    assert (Hk3 : keeps tr tr3).
    { intros id nd Hid. destruct (decide (id = n)) as [-> | Hidn].
      - assert (nd = node) as -> by congruence.
        eexists. split; [exact Hleft | ].
        split; [exact (left_behind_keeps s _ node) | ].
        rewrite Hf, Hg. split; intros ->; apply orb_true_r.
      - exists nd. split; [ | tauto].
        rewrite Hother; [exact Hid | exact Hidn | ].
        eapply lookup_lt_Some. exact Hid. }
    split; [exact (keeps_trans _ _ _ Hk3 Hk31) | ].
    split.
    { rewrite Hkeys. unfold keys_after, pkeys. cbn [flat_map].
      destruct (isParam s || isWildcard s).
      - rewrite <- app_assoc. reflexivity.
      - reflexivity. }
    split; [exact Hex | ]. split; [congruence | ].
    intros trf Hkf. cbn [route_path].
    destruct (keeps_trans _ _ _ Hk31 Hkf n _ Hleft)
      as (nd' & Hnd' & Hc' & Hf' & Hg').
    split; [ | split].
    + intros Hp. unfold node_at. rewrite Hnd'. cbn. apply Hf'.
      rewrite Hf, Hp. reflexivity.
    + intros Hw. unfold node_at. rewrite Hnd'. cbn. apply Hg'.
      rewrite Hg, Hw. reflexivity.
    + exists child. split; [ | exact (Hpath trf Hkf)].
      exact (literalChild_Some trf n nd' _ _ Hnd' (Hc' _ _ Hchild)).
Qed.

(** The walk of a search over the segments of a request that fit a route
    ends at the node of the route, with each value recorded. *)
Lemma walk_route (tr : trie) (q : string) (params : RequestParams) (nf : nat) :
  end_ (node_at tr nf) = true ->
  forall segs vals n anc values,
    valid_segs segs = true ->
    route_path tr n segs nf -> instance_of tr n segs vals = true ->
    walk tr q params vals n anc values
    = (Some nf,
       bindInOrder (paramKeys (node_at tr nf)) (values ++ pvals segs vals)
         params).
Proof.
  intros Hend.
  induction segs as [ | s segs IH]; intros [ | v vals] n anc values Hv Hpath Hi;
    try discriminate.
  - cbn in Hpath. subst n. cbn [walk pvals]. unfold arrive. rewrite Hend.
    rewrite app_nil_r. reflexivity.
  - cbn [route_path] in Hpath.
    destruct Hpath as (Hflag & Hwflag & c & Hc & Hpath).
    cbn [valid_segs] in Hv.
    apply andb_true_iff in Hv as [Hv Hrest].
    apply andb_true_iff in Hv as [_ Hlast].
    cbn [instance_of] in Hi. cbn [walk pvals].
    destruct (isWildcard s) eqn:Hw.
    + destruct segs as [ | s2 segs2]; [ | discriminate].
      cbn [route_path] in Hpath. subst c.
      apply andb_true_iff in Hi as [Hlit%bool_decide_eq_true_1
                                    Hnamed%bool_decide_eq_true_1].
      rewrite Hlit, Hnamed.
      unfold label in Hc. rewrite Hw in Hc.
      unfold wildcardChild. rewrite (Hwflag eq_refl).
      unfold literalChild in Hc. rewrite Hc.
      unfold arrive. rewrite Hend. reflexivity.
    + rewrite Hc in Hi. apply andb_true_iff in Hi as [Hval Hi].
      destruct (isParam s) eqn:Hp.
      * apply bool_decide_eq_true_1 in Hval. rewrite Hval.
        rewrite (label_param s Hp) in Hc.
        unfold namedChild. rewrite (Hflag eq_refl).
        unfold literalChild in Hc. rewrite Hc.
        rewrite (IH vals c (n :: anc) (values ++ [v]) Hrest Hpath Hi).
        rewrite <- app_assoc. reflexivity.
      * apply String.eqb_eq in Hval. subst v.
        destruct (label_literal s Hw Hp) as [Hl _]. rewrite Hl in Hc.
        rewrite Hc. exact (IH vals c (n :: anc) values Hrest Hpath Hi).
Qed.

(** X24.  A route with parameters is found again, with its parameters
    bound: after [insert] into a built trie of a path that starts with
    [/], has no empty segment and has a wildcard only as its last segment,
    [search] for a request, other than [/] and the empty one, whose
    segments fit those of the path (a static segment is met by itself; a
    named parameter by a value that is the key of no child of the node the
    parameter is at; a wildcard by what is left of the request, when its
    first segment is the key of no child of the node and the node has no
    named child) returns the node of the route, and sets each named
    parameter to the segment at its place and the wildcard to what is left
    of the request, in the order of the path. *)
Theorem insert_then_search_dynamic (tr tr' : trie) (p name : string)
    (hs : Handlers) (q : string) (params : RequestParams) :
  built tr -> valid_path p = true ->
  insert p name hs tr = Ok tr' ->
  q <> "" -> q <> "/" ->
  instance_of tr' (root tr') (slowPathSplit p) (segments q) = true ->
  exists n node,
    search tr' q params
    = Ok (Some n, bound (slowPathSplit p) (segments q) params)
    /\ nodes tr' !! n = Some node
    /\ RouteName node = name /\ Trie.Handlers_ node = hs
    /\ key node = p /\ end_ node = true.
Proof.
  intros Hb Hv Hins Hq0 Hq1 Hi.
  destruct (built_Struct tr Hb) as (st & HS & HW & HSl).
  destruct (insert_result p name hs tr st Hv HS HW HSl)
    as (tr2 & st' & nf' & nd' & keys' & Hins2 & HS' & HW' & HSl' & _).
  assert (tr2 = tr') as -> by congruence.
  pose proof Hv as Hv0. unfold valid_path in Hv.
  destruct p as [ | c p]; [discriminate | ]. cbn [Strings.first_byte] in Hv.
  apply andb_true_iff in Hv as [_ Hsegs].
  unfold insert in Hins. cbv zeta in Hins.
  set (tr0 := if String.eqb (String c p) pathSep then set_rootSlash tr else tr)
    in *.
  assert (HS0 : Struct tr0 st).
  { unfold tr0. destruct (String.eqb (String c p) pathSep);
      [apply set_rootSlash_Struct | ]; exact HS. }
  destruct (S_root _ _ HS0) as (rn & Hrn & _).
  destruct (insert_loop (slowPathSplit (String c p)) tr0 (root tr0) [])
    as [[[tr1 nf] keys1] | | ] eqn:Hloop; try discriminate.
  cbn [mbind res_bind] in Hins. injection Hins as <-.
  destruct (insert_loop_route _ tr0 st (root tr0) [] rn tr1 nf keys1
              HS0 Hrn Hsegs Hloop) as (Hk & Hkeys & Hex & Hroot1 & Hpath).
  set (trf := set_node nf
                (with_route name hs keys1 (String c p)
                   (staticPart (String c p))) tr1) in *.
  assert (Hkf : keeps tr1 trf).
  { intros id nd Hid.
    exists (routed name hs keys1 (String c p) (staticPart (String c p)) nf id nd).
    split; [exact (set_route_kept name hs keys1 (String c p)
                     (staticPart (String c p)) tr1 nf id nd Hid) | ].
    unfold routed. destruct (decide (nf = id)); tauto. }
  assert (Hroot : root trf = root tr0) by exact Hroot1.
  assert (Hnf : exists nd, nodes trf !! nf
                  = Some (with_route name hs keys1 (String c p)
                            (staticPart (String c p)) nd)).
  { destruct Hex as [nd Hnd]. exists nd.
    pose proof (set_route_kept name hs keys1 (String c p)
                  (staticPart (String c p)) tr1 nf nf nd Hnd) as Hr.
    unfold routed in Hr. rewrite decide_True in Hr by reflexivity. exact Hr. }
  destruct Hnf as (nd & Hnf).
  assert (Hend : end_ (node_at trf nf) = true).
  { unfold node_at. rewrite Hnf. reflexivity. }
  exists nf. eexists. split; [ | split; [exact Hnf | repeat split]].
  rewrite (search_scans trf q params (Struct_wf_trie trf st' HS' HW' HSl')
             Hq0 Hq1).
  unfold search_walk.
  rewrite Hroot in Hi |- *.
  rewrite (walk_route trf q params nf Hend _ _ _ [] [] Hsegs
             (Hpath trf Hkf) Hi).
  unfold node_at. rewrite Hnf. cbn [paramKeys with_route default].
  rewrite Hkeys.
  do 2 f_equal.
  exact (bind_bound trf (slowPathSplit (String c p)) (segments q) (root tr0)
           [] [] params eq_refl Hsegs Hi).
Qed.

(** A site with a page, a page below it and a page of any name. *)
Definition aboutTrie : trie :=
  match insert "/about" "about" [1] newTrie with
  | Ok t => t
  | _ => newTrie
  end.

Definition teamTrie : trie :=
  match insert "/about/team" "team" [2] aboutTrie with
  | Ok t => t
  | _ => newTrie
  end.

Definition pageTrie : trie :=
  match insert "/:page" "page" [3] teamTrie with
  | Ok t => t
  | _ => newTrie
  end.

Lemma later_pages : later "/about" aboutTrie pageTrie.
Proof.
  apply (later_insert "/about" aboutTrie "/:page" "page" [3] teamTrie);
    [ | reflexivity | discriminate | vm_compute; reflexivity].
  apply (later_insert "/about" aboutTrie "/about/team" "team" [2] aboutTrie);
    [ | reflexivity | discriminate | vm_compute; reflexivity].
  apply later_none.
Qed.

Lemma built_pages : built pageTrie.
Proof.
  apply (built_insert "/:page" "page" [3] teamTrie);
    [ | reflexivity | vm_compute; reflexivity].
  apply (built_insert "/about/team" "team" [2] aboutTrie);
    [ | reflexivity | vm_compute; reflexivity].
  apply (built_insert "/about" "about" [1] newTrie);
    [ | reflexivity | vm_compute; reflexivity].
  exact (built_new "" "").
Qed.

Lemma search_returns_routes_witness :
  exists r,
    search pageTrie "/contact/us" [] = Ok r
    /\ forall n, fst r = Some n ->
                 exists node, nodes pageTrie !! n = Some node
                              /\ end_ node = true.
Proof. exact (search_returns_routes pageTrie "/contact/us" [] built_pages). Defined.

Lemma static_route_survives_witness :
  exists n node,
    search pageTrie "/about" [] = Ok (Some n, [])
    /\ nodes pageTrie !! n = Some node
    /\ RouteName node = "about" /\ Trie.Handlers_ node = [1]
    /\ key node = "/about" /\ end_ node = true.
Proof.
  refine (static_route_survives newTrie aboutTrie pageTrie "/about" "about" [1]
            [] (built_new "" "") eq_refl eq_refl _ later_pages).
  vm_compute. reflexivity.
Defined.

Definition filesTrie : trie :=
  match insert "/files/:owner/*path" "files" [4] pageTrie with
  | Ok t => t
  | _ => newTrie
  end.

Lemma insert_then_search_dynamic_witness :
  exists n node,
    search filesTrie "/files/ann/notes/a.txt" []
    = Ok (Some n,
          bound (slowPathSplit "/files/:owner/*path")
            (segments "/files/ann/notes/a.txt") [])
    /\ nodes filesTrie !! n = Some node
    /\ RouteName node = "files" /\ Trie.Handlers_ node = [4]
    /\ key node = "/files/:owner/*path" /\ end_ node = true.
Proof.
  refine (insert_then_search_dynamic pageTrie filesTrie "/files/:owner/*path"
            "files" [4] "/files/ann/notes/a.txt" [] built_pages eq_refl _
            _ _ _).
  - vm_compute. reflexivity.
  - discriminate.
  - discriminate.
  - vm_compute. reflexivity.
Defined.

End DispatchFacts.
